(** * codestats-core: the heuristic structural extractor, embedded in Rocq

    A shallow embedding of the TypeScript sources (pythonParser.ts,
    parserUtils.ts, jsParser.ts, phpParser.ts, htmlParser.ts, analyzers.ts,
    languageRouter.ts) and the properties proved about them.

    Conventions of the embedding.
    - A JavaScript string is the list of its UTF-16 code units ([jsstring]);
      a code unit is an [N].  String literals of the sources are written
      [js "..."] (or through the coercion from [string]).
    - A JavaScript [RegExp] literal is a value of [regex]; it is run by a
      backtracking matcher that follows the ECMAScript matching rules
      (ordered alternation, greedy and lazy quantifiers with the empty-match
      check, capture groups, leftmost match).
    - An expression that raises in JavaScript (a method called on
      [undefined], an invalid pattern handed to [new RegExp]) is a [Throw] in
      the [outcome] monad; everything else is a pure function.
    - [toLowerCase] and [toUpperCase] are exact on texts of code units below
      256. They leave the code units from 256 on unchanged, where an engine
      folds the cased letters of the other scripts. The extractors apply
      them to texts of word characters only; [normalizeDep] and
      [checkDependencies] apply [toLowerCase] to module names, and for a
      module name with a cased letter beyond Latin-1 the model and an engine
      give different names. *)

From Stdlib Require Import NArith ZArith List Ascii String Bool Lia Arith.
From stdpp Require Import base option list gmap sorting.

Set Default Proof Using "Type".
Open Scope nat_scope.

(* ====================================================================== *)
(** * JavaScript strings *)
(* ====================================================================== *)

Definition jsstring := list N.

Definition js (s : string) : jsstring :=
  List.map N_of_ascii (list_ascii_of_string s).
Coercion js : string >-> jsstring.

Definition chr (a : ascii) : N := N_of_ascii a.

Definition cu_eqb (a b : N) : bool := N.eqb a b.

Fixpoint str_eqb (a b : jsstring) : bool :=
  match a, b with
  | [], [] => true
  | x :: a', y :: b' => N.eqb x y && str_eqb a' b'
  | _, _ => false
  end.

Definition one_of (cs : list N) (c : N) : bool := existsb (N.eqb c) cs.
Definition in_range (lo hi : N) (c : N) : bool := (N.leb lo c) && (N.leb c hi).

(** [\d], [\w] and [\s] of a pattern without the [u] flag. *)
Definition isDigit (c : N) : bool := in_range 48 57 c.
Definition isUpperAZ (c : N) : bool := in_range 65 90 c.
Definition isLowerAZ (c : N) : bool := in_range 97 122 c.
Definition isWordChar (c : N) : bool :=
  isLowerAZ c || isUpperAZ c || isDigit c || N.eqb c 95.
Definition isLineTerminator (c : N) : bool :=
  one_of [10; 13; 8232; 8233]%N c.
(** WhiteSpace and LineTerminator code points: what [\s] matches and what
    [trim] removes. *)
Definition isSpace (c : N) : bool :=
  one_of [9; 10; 11; 12; 13; 32; 160; 5760; 8232; 8233; 8239; 8287; 12288; 65279]%N c
  || in_range 8192 8202 c.

Definition lowerCU (c : N) : N :=
  if isUpperAZ c then (c + 32)%N
  else if in_range 192 222 c && negb (N.eqb c 215) then (c + 32)%N
  else c.
(** The upper case of a code unit below 256: the micro sign and the y with
    diaeresis leave Latin-1, the sharp s becomes two code units. *)
Definition upperCU (c : N) : jsstring :=
  if isLowerAZ c then [(c - 32)%N]
  else if in_range 224 254 c && negb (N.eqb c 247) then [(c - 32)%N]
  else if N.eqb c 181 then [924%N]
  else if N.eqb c 223 then [83%N; 83%N]
  else if N.eqb c 255 then [376%N]
  else [c].
Definition toLowerCase (s : jsstring) : jsstring := List.map lowerCU s.
Definition toUpperCase (s : jsstring) : jsstring := flat_map upperCU s.

Fixpoint trimStart (s : jsstring) : jsstring :=
  match s with
  | c :: t => if isSpace c then trimStart t else s
  | [] => []
  end.
Definition trimEnd (s : jsstring) : jsstring := rev (trimStart (rev s)).
Definition trim (s : jsstring) : jsstring := trimEnd (trimStart s).

Fixpoint startsWith (s p : jsstring) : bool :=
  match p, s with
  | [], _ => true
  | x :: p', y :: s' => N.eqb x y && startsWith s' p'
  | _ :: _, [] => false
  end.
Definition endsWith (s p : jsstring) : bool := startsWith (rev s) (rev p).

(** [s.indexOf(p)]: [None] stands for -1. *)
Fixpoint indexOf_from (s p : jsstring) (i : nat) : option nat :=
  if startsWith s p then Some i
  else match s with
       | [] => None
       | _ :: t => indexOf_from t p (S i)
       end.
Definition indexOf (s p : jsstring) : option nat := indexOf_from s p 0.
Definition includes (s p : jsstring) : bool :=
  match indexOf s p with Some _ => true | None => false end.

(** [s.slice(a)] and [s.slice(a, b)] for indices that are not negative. *)
Definition slice_from (s : jsstring) (a : nat) : jsstring := skipn a s.
Definition slice (s : jsstring) (a b : nat) : jsstring := firstn (b - a) (skipn a s).

(** [s.split(sep)] for a separator string that is not empty. *)
Fixpoint split_go (sep : jsstring) (fuel : nat) (s cur : jsstring) : list jsstring :=
  match fuel with
  | 0 => [rev cur]
  | S fuel' =>
      match s with
      | [] => [rev cur]
      | c :: t =>
          if startsWith s sep
          then rev cur :: split_go sep fuel' (skipn (length sep) s) []
          else split_go sep fuel' t (c :: cur)
      end
  end.
Definition split (s sep : jsstring) : list jsstring :=
  split_go sep (S (length s)) s [].

Fixpoint join (l : list jsstring) (sep : jsstring) : jsstring :=
  match l with
  | [] => []
  | [x] => x
  | x :: t => x ++ sep ++ join t sep
  end.

(** [s.split('\n')]: never empty. *)
Fixpoint lines_go (s cur : jsstring) : list jsstring :=
  match s with
  | [] => [rev cur]
  | c :: t => if N.eqb c 10 then rev cur :: lines_go t [] else lines_go t (c :: cur)
  end.
Definition splitLines (code : jsstring) : list jsstring := lines_go code [].

(** Decimal rendering of a number inside a template literal. *)
Fixpoint digits_go (fuel n : nat) (acc : jsstring) : jsstring :=
  match fuel with
  | 0 => acc
  | S f =>
      let d := (48 + N.of_nat (n mod 10))%N in
      if n <? 10 then d :: acc else digits_go f (n / 10) (d :: acc)
  end.
Definition numToString (n : nat) : jsstring := digits_go (S n) n [].

(* ====================================================================== *)
(** * Outcomes: values or thrown exceptions *)
(* ====================================================================== *)

Inductive jsError := TypeError | SyntaxError.

Inductive outcome (A : Type) :=
| Ret (a : A)
| Throw (e : jsError).
Arguments Ret {A} a.
Arguments Throw {A} e.

Definition obind {A B} (m : outcome A) (f : A -> outcome B) : outcome B :=
  match m with
  | Ret a => f a
  | Throw e => Throw e
  end.

Notation "'do' x <- m ; k" := (obind m (fun x => k))
  (at level 10, x name, m at level 100, k at level 200,
   format "'[v' 'do'  x  <-  m ; '/' k ']'").

(** Reading a property of a value that may be [undefined]. *)
Definition deref {A} (o : option A) : outcome A :=
  match o with
  | Some a => Ret a
  | None => Throw TypeError
  end.

Fixpoint omapM {A B} (f : A -> outcome B) (l : list A) : outcome (list B) :=
  match l with
  | [] => Ret []
  | x :: t => do y <- f x; do ys <- omapM f t; Ret (y :: ys)
  end.

(* ====================================================================== *)
(** * Regular expressions *)
(* ====================================================================== *)

Module RegExp.

Inductive regex :=
| Eps
| Chr (p : N -> bool)                  (* one code unit satisfying [p] *)
| Seq (r1 r2 : regex)
| Alt (r1 r2 : regex)
| Rep (lo : nat) (hi : option nat) (greedy : bool) (r : regex)
| Grp (n : nat) (r : regex)            (* capture group number [n] *)
| Bol                                  (* ^ *)
| Eol                                  (* $ *)
| WordB.                               (* \b *)

(** The position of the matcher: the code unit before it, the input that
    remains, and the captures made so far. *)
Record mstate := MState {
  ms_prev : option N;
  ms_rest : jsstring;
  ms_caps : list (nat * jsstring)
}.

Definition cont := mstate -> option mstate.

Fixpoint get_cap (n : nat) (caps : list (nat * jsstring)) : option jsstring :=
  match caps with
  | [] => None
  | (k, v) :: t => if Nat.eqb k n then Some v else get_cap n t
  end.

Definition drop_caps (ns : list nat) (caps : list (nat * jsstring)) : list (nat * jsstring) :=
  List.filter (fun kv => negb (existsb (Nat.eqb (fst kv)) ns)) caps.

Definition set_cap (n : nat) (v : jsstring) (caps : list (nat * jsstring)) :=
  (n, v) :: drop_caps [n] caps.

Fixpoint groups (r : regex) : list nat :=
  match r with
  | Seq a b | Alt a b => groups a ++ groups b
  | Rep _ _ _ a => groups a
  | Grp n a => n :: groups a
  | _ => []
  end.

Definition is_word_opt (o : option N) : bool :=
  match o with Some c => isWordChar c | None => false end.

Definition at_word_boundary (s : mstate) : bool :=
  xorb (is_word_opt (ms_prev s)) (is_word_opt (head (ms_rest s))).

(** RepeatMatcher of the ECMAScript specification.  [ma] matches one
    iteration of the body, [clear] are the capture groups of the body, reset
    at the start of every iteration.  An iteration of an optional repetition
    that consumes nothing is rejected. *)
Fixpoint rep (ma : mstate -> cont -> option mstate) (clear : list nat)
    (fuel lo : nat) (hi : option nat) (greedy : bool)
    (s : mstate) (k : cont) : option mstate :=
  match fuel with
  | 0 => None
  | S fuel' =>
      match hi with
      | Some 0 => k s
      | _ =>
          let d : cont := fun y =>
            if Nat.eqb lo 0 && Nat.eqb (length (ms_rest y)) (length (ms_rest s))
            then None
            else rep ma clear fuel' (Nat.pred lo) (option_map Nat.pred hi) greedy y k in
          let xr := MState (ms_prev s) (ms_rest s) (drop_caps clear (ms_caps s)) in
          if negb (Nat.eqb lo 0) then ma xr d
          else if greedy then
            match ma xr d with
            | Some z => Some z
            | None => k s
            end
          else
            match k s with
            | Some z => Some z
            | None => ma xr d
            end
      end
  end.

Definition rep_fuel (lo : nat) (s : mstate) : nat := S (lo + length (ms_rest s)).

Fixpoint m (r : regex) (s : mstate) (k : cont) : option mstate :=
  match r with
  | Eps => k s
  | Chr p =>
      match ms_rest s with
      | c :: t => if p c then k (MState (Some c) t (ms_caps s)) else None
      | [] => None
      end
  | Seq a b => m a s (fun y => m b y k)
  | Alt a b =>
      match m a s k with
      | Some z => Some z
      | None => m b s k
      end
  | Rep lo hi greedy a => rep (m a) (groups a) (rep_fuel lo s) lo hi greedy s k
  | Grp n a =>
      m a s (fun y =>
        let got := firstn (length (ms_rest s) - length (ms_rest y)) (ms_rest s) in
        k (MState (ms_prev y) (ms_rest y) (set_cap n got (ms_caps y))))
  | Bol => match ms_prev s with None => k s | Some _ => None end
  | Eol => match ms_rest s with [] => k s | _ :: _ => None end
  | WordB => if at_word_boundary s then k s else None
  end.

(** A successful match: where it starts, the matched text (group 0), the
    other groups, and the input after it together with the code unit before
    that point. *)
Record rmatch := RMatch {
  m_index : nat;
  m_text : jsstring;
  m_caps : list (nat * jsstring);
  m_after_prev : option N;
  m_after : jsstring
}.

Definition group (mt : rmatch) (n : nat) : option jsstring := get_cap n (m_caps mt).

Definition match_at (r : regex) (prev : option N) (rest : jsstring) (idx : nat)
  : option rmatch :=
  match m r (MState prev rest []) Some with
  | Some y =>
      Some (RMatch idx (firstn (length rest - length (ms_rest y)) rest)
                   (ms_caps y) (ms_prev y) (ms_rest y))
  | None => None
  end.

(** Leftmost match at or after the current position. *)
Fixpoint exec_from (r : regex) (prev : option N) (rest : jsstring) (idx : nat)
  : option rmatch :=
  match match_at r prev rest idx with
  | Some mt => Some mt
  | None =>
      match rest with
      | [] => None
      | c :: t => exec_from r (Some c) t (S idx)
      end
  end.

(** [s.match(r)] and [r.exec(s)] for a pattern without the [g] flag. *)
Definition exec (r : regex) (s : jsstring) : option rmatch := exec_from r None s 0.
Definition test (r : regex) (s : jsstring) : bool :=
  match exec r s with Some _ => true | None => false end.

(** [s.search(r)]: [None] stands for -1. *)
Definition search (r : regex) (s : jsstring) : option nat :=
  option_map m_index (exec r s).

(** All matches of a pattern with the [g] flag, left to right; after an
    empty match the search resumes one code unit further. *)
Fixpoint exec_all_go (r : regex) (fuel : nat) (prev : option N) (rest : jsstring)
    (idx : nat) : list rmatch :=
  match fuel with
  | 0 => []
  | S fuel' =>
      match exec_from r prev rest idx with
      | None => []
      | Some mt =>
          match m_text mt, m_after mt with
          | [], [] => [mt]
          | [], c :: t => mt :: exec_all_go r fuel' (Some c) t (S (m_index mt))
          | _ :: _, _ =>
              mt :: exec_all_go r fuel' (m_after_prev mt) (m_after mt)
                      (m_index mt + length (m_text mt))
          end
      end
  end.
Definition exec_all (r : regex) (s : jsstring) : list rmatch :=
  exec_all_go r (S (length s)) None s 0.

(** [s.replace(r, f)] with the [g] flag: every match is replaced by [f] of
    the match. *)
Fixpoint replace_go (ms : list rmatch) (pos : nat) (s : jsstring)
    (f : rmatch -> jsstring) : jsstring :=
  match ms with
  | [] => skipn pos s
  | mt :: ms' =>
      firstn (m_index mt - pos) (skipn pos s) ++ f mt
      ++ replace_go ms' (m_index mt + length (m_text mt)) s f
  end.
Definition replace_all (r : regex) (s : jsstring) (f : rmatch -> jsstring) : jsstring :=
  replace_go (exec_all r s) 0 s f.

(** [s.replace(r, f)] without the [g] flag: the first match only. *)
Definition replace_first (r : regex) (s : jsstring) (f : rmatch -> jsstring) : jsstring :=
  match exec r s with
  | None => s
  | Some mt => firstn (m_index mt) s ++ f mt ++ m_after mt
  end.

(** [s.split(r)] for a pattern without capture groups. *)
Fixpoint split_re_go (r : regex) (fuel : nat) (prev : option N) (rest : jsstring)
    (cur : jsstring) : list jsstring :=
  match fuel with
  | 0 => [rev cur ++ rest]
  | S fuel' =>
      match rest with
      | [] => [rev cur]
      | c :: t =>
          match match_at r prev rest 0 with
          | Some mt =>
              match m_text mt, cur with
              | [], [] => split_re_go r fuel' (Some c) t (c :: cur)
              | [], _ :: _ => rev cur :: split_re_go r fuel' prev rest []
              | _ :: _, _ =>
                  rev cur :: split_re_go r fuel' (m_after_prev mt) (m_after mt) []
              end
          | None => split_re_go r fuel' (Some c) t (c :: cur)
          end
      end
  end.
Definition split_re (s : jsstring) (r : regex) : list jsstring :=
  match s with
  | [] => match match_at r None [] 0 with Some _ => [] | None => [[]] end
  | _ => split_re_go r (S (2 * length s)) None s []
  end.

(** ** Pattern notation helpers *)

Definition Lit1 (c : N) : regex := Chr (N.eqb c).
Fixpoint LitS (s : jsstring) : regex :=
  match s with
  | [] => Eps
  | [c] => Lit1 c
  | c :: t => Seq (Lit1 c) (LitS t)
  end.
Definition Lit (s : string) : regex := LitS (js s).
(** A literal under the [i] flag: code units are compared after ASCII case
    folding (the only folding that can equate a code unit with an ASCII
    letter when the [u] flag is absent). *)
Definition foldASCII (c : N) : N := if isLowerAZ c then (c - 32)%N else c.
Definition Lit1i (c : N) : regex := Chr (fun x => N.eqb (foldASCII x) (foldASCII c)).
Fixpoint LitSi (s : jsstring) : regex :=
  match s with
  | [] => Eps
  | [c] => Lit1i c
  | c :: t => Seq (Lit1i c) (LitSi t)
  end.
Definition Liti (s : string) : regex := LitSi (js s).

Definition Star (r : regex) : regex := Rep 0 None true r.
Definition Plus (r : regex) : regex := Rep 1 None true r.
Definition Opt (r : regex) : regex := Rep 0 (Some 1) true r.
Definition StarLazy (r : regex) : regex := Rep 0 None false r.
Definition PlusLazy (r : regex) : regex := Rep 1 None false r.

Fixpoint Seqs (rs : list regex) : regex :=
  match rs with
  | [] => Eps
  | [r] => r
  | r :: t => Seq r (Seqs t)
  end.
Fixpoint Alts (rs : list regex) : regex :=
  match rs with
  | [] => Eps
  | [r] => r
  | r :: t => Alt r (Alts t)
  end.

(** Character classes. *)
Definition cls (ps : list (N -> bool)) : N -> bool := fun c => existsb (fun p => p c) ps.
Definition ncls (ps : list (N -> bool)) : N -> bool := fun c => negb (cls ps c).
Definition ch (a : ascii) : N -> bool := N.eqb (chr a).
Definition dq : N := 34.                 (* the double quote *)
Definition sq : N := 39.                 (* the single quote *)
Definition bq : N := 96.                 (* the backquote *)
Definition bsl : N := 92.                (* the backslash *)
Definition chn (n : N) : N -> bool := N.eqb n.
Definition Dot : regex := Chr (fun c => negb (isLineTerminator c)).
Definition anyChar : N -> bool := fun _ => true.      (* [\s\S] *)
Definition S_ : regex := Chr isSpace.                  (* \s *)
Definition W_ : regex := Chr isWordChar.               (* \w *)
Definition D_ : regex := Chr isDigit.                  (* \d *)
Definition NotS_ : regex := Chr (fun c => negb (isSpace c)).  (* \S *)
End RegExp.

Import RegExp.

(* ====================================================================== *)
(** * [new RegExp(source)] *)
(* ====================================================================== *)

(** The sources build three patterns at run time, from fixed pieces and an
    escaped name.  [newRegExp] reads the pattern syntax those pieces use:
    alternation, sequence, the quantifier [*], the group [(?:...)], the
    escapes [\b], [\s], [\w], [\d], an escaped syntax character, and plain
    characters.  Every other pattern is refused with [SyntaxError]; this
    refuses more than JavaScript does, so a pattern accepted here is
    accepted there. *)
Module RegExpSyntax.

(** SyntaxCharacter: the characters a pattern has to escape to match them
    literally (dot, star, plus, question mark, caret, dollar, braces,
    parentheses, bar, brackets, backslash). *)
Definition isSyntaxChar : N -> bool :=
  cls [ch "."; ch "*"; ch "+"; ch "?"; ch "^"; ch "$"; ch "{"; ch "}";
       ch "("; ch ")"; ch "|"; ch "["; ch "]"; chn bsl].

Definition parsed := outcome (regex * jsstring).

(** The escape after a backslash. *)
Definition atomEscape (c : N) : outcome regex :=
  if ch "b" c then Ret WordB
  else if ch "s" c then Ret S_
  else if ch "w" c then Ret W_
  else if ch "d" c then Ret D_
  else if isSyntaxChar c then Ret (Lit1 c)
  else Throw SyntaxError.

Fixpoint disjunction (fuel : nat) (s : jsstring) : parsed :=
  match fuel with
  | 0 => Throw SyntaxError
  | S f =>
      do ar <- alternative f s;
      match snd ar with
      | c :: t =>
          if ch "|" c then
            do br <- disjunction f t;
            Ret (Alt (fst ar) (fst br), snd br)
          else Ret ar
      | [] => Ret ar
      end
  end
with alternative (fuel : nat) (s : jsstring) : parsed :=
  match fuel with
  | 0 => Throw SyntaxError
  | S f =>
      match s with
      | [] => Ret (Eps, [])
      | c :: _ =>
          if ch "|" c || ch ")" c then Ret (Eps, s)
          else
            do ar <- term f s;
            do br <- alternative f (snd ar);
            Ret (Seq (fst ar) (fst br), snd br)
      end
  end
with term (fuel : nat) (s : jsstring) : parsed :=
  match fuel with
  | 0 => Throw SyntaxError
  | S f =>
      do ar <- atom f s;
      match snd ar with
      | c :: t => if ch "*" c then Ret (Star (fst ar), t) else Ret ar
      | [] => Ret ar
      end
  end
with atom (fuel : nat) (s : jsstring) : parsed :=
  match fuel with
  | 0 => Throw SyntaxError
  | S f =>
      match s with
      | [] => Throw SyntaxError
      | c :: t =>
          if ch "\" c then
            match t with
            | e :: t' => do r <- atomEscape e; Ret (r, t')
            | [] => Throw SyntaxError
            end
          else if ch "(" c then
            match t with
            | q :: k :: t' =>
                if ch "?" q && ch ":" k then
                  do dr <- disjunction f t';
                  match snd dr with
                  | z :: t'' => if ch ")" z then Ret (fst dr, t'') else Throw SyntaxError
                  | [] => Throw SyntaxError
                  end
                else Throw SyntaxError
            | _ => Throw SyntaxError
            end
          else if isSyntaxChar c then Throw SyntaxError
          else Ret (Lit1 c, t)
      end
  end.

Definition newRegExp (source : jsstring) : outcome regex :=
  do dr <- disjunction (4 * length source + 4) source;
  match snd dr with
  | [] => Ret (fst dr)
  | _ :: _ => Throw SyntaxError
  end.

End RegExpSyntax.
Import RegExpSyntax.

(* ====================================================================== *)
(** * types.ts: the shared records *)
(* ====================================================================== *)

Record PortInfo := {
  port_name : jsstring;
  port_type : jsstring;
  port_default : option jsstring
}.

Record MethodInfo := {
  meth_name : jsstring;
  meth_params : list PortInfo;
  meth_returnType : jsstring;
  meth_decorators : list jsstring;
  meth_lineNumber : nat;
  meth_isAsync : bool;
  meth_isPrivate : bool;
  meth_complexity : nat
}.

Record ClassInfo := {
  cls_name : jsstring;
  cls_bases : list jsstring;
  cls_methods : list MethodInfo;
  cls_attributes : list PortInfo;
  cls_decorators : list jsstring;
  cls_lineNumber : nat
}.

Record ImportInfo := {
  imp_module : jsstring;
  imp_names : list jsstring;
  imp_isFrom : bool;
  imp_lineNumber : nat
}.

Record MetaBlock := {
  meta_name : option jsstring;
  meta_type : option jsstring;
  meta_desc : option jsstring;
  meta_inputs : option (list jsstring);
  meta_outputs : option (list jsstring);
  meta_deps : option (list jsstring);
  meta_methods : option (list jsstring);
  meta_errors : option (list jsstring);
  meta_raw : gmap jsstring jsstring
}.

Inductive HardcodedType := hc_string | hc_number | hc_url | hc_ip | hc_path | hc_credential.

Record HardcodedValue := {
  hc_value : jsstring;
  hc_type : HardcodedType;
  hc_lineNumber : nat;
  hc_context : jsstring
}.

Inductive UnusedKind := uk_import | uk_method | uk_variable.

Record UnusedItem := {
  un_name : jsstring;
  un_kind : UnusedKind;
  un_lineNumber : nat
}.

Inductive Severity := sev_error | sev_warning | sev_info.

Record DiagnosticItem := {
  diag_message : jsstring;
  diag_severity : Severity;
  diag_lineNumber : nat;
  diag_source : jsstring;
  diag_code : jsstring
}.

Inductive DepStatus := dep_missing | dep_installed | dep_unknown.

Record DepIssue := {
  dep_name : jsstring;
  dep_status : DepStatus;
  dep_lineNumber : nat;
  dep_installCmd : option jsstring
}.

(** [type] is one of the strings TODO, FIXME, HACK, BUG and NOTE; at run
    time it is the upper-cased text of the marker. *)
Record TodoItem := {
  todo_text : jsstring;
  todo_type : jsstring;
  todo_lineNumber : nat
}.

Inductive UsageKind := use_method | use_class | use_function.

Record ExternalUsage := {
  eu_name : jsstring;
  eu_kind : UsageKind;
  eu_usedIn : list jsstring
}.

Record FileStats := {
  fileName : jsstring;
  language : jsstring;
  meta : option MetaBlock;
  classes : list ClassInfo;
  functions : list MethodInfo;
  imports : list ImportInfo;
  globalVars : list PortInfo;
  connections : list jsstring;
  errorTypes : list jsstring;
  debugPoints : list nat;
  totalLines : nat;
  codeLines : nat;
  warnings : list jsstring;
  description : jsstring;
  classDescriptions : gmap jsstring jsstring;
  hardcoded : list HardcodedValue;
  unused : list UnusedItem;
  diagnostics : list DiagnosticItem;
  depIssues : list DepIssue;
  todos : list TodoItem;
  externalUsage : list ExternalUsage
}.

(* ====================================================================== *)
(** * Idioms shared by the parsers *)
(* ====================================================================== *)

(** A capture group that the source uses as a string: reading a method of
    it, or storing it in a field of type [string], needs it to be defined. *)
Definition grp (mt : rmatch) (n : nat) : outcome jsstring := deref (group mt n).

(** Truthiness of a string that may be [undefined]. *)
Definition truthy (o : option jsstring) : bool :=
  match o with
  | Some (_ :: _) => true
  | _ => false
  end.
(** [o || d] *)
Definition orElse (o : option jsstring) (d : jsstring) : jsstring :=
  match o with
  | Some (c :: t) => c :: t
  | _ => d
  end.
Definition nonEmpty (s : jsstring) : bool :=
  match s with [] => false | _ :: _ => true end.

(** [obj[k] = v] on a plain object: assigning a string to [__proto__] does
    nothing. *)
Definition record_set (k v : jsstring) (o : gmap jsstring jsstring) : gmap jsstring jsstring :=
  if str_eqb k (js "__proto__") then o else <[k := v]> o.

(** [set.add(x)] on a [Set] kept in insertion order. *)
Definition set_add (x : jsstring) (s : list jsstring) : list jsstring :=
  if existsb (str_eqb x) s then s else s ++ [x].

(** [for (let i = i0; i < lines.length; i++)] over the lines from [i0] on,
    for a body that only pushes to the result. *)
Fixpoint forLines {B} (f : nat -> jsstring -> outcome (list B)) (i : nat)
    (ls : list jsstring) : outcome (list B) :=
  match ls with
  | [] => Ret []
  | l :: t => do xs <- f i l; do ys <- forLines f (S i) t; Ret (xs ++ ys)
  end.

(** [arr.map((x, idx) => ...)] and [arr.filter((_, idx) => ...)]. *)
Fixpoint mapi_go {A B} (f : nat -> A -> B) (i : nat) (l : list A) : list B :=
  match l with
  | [] => []
  | x :: t => f i x :: mapi_go f (S i) t
  end.
Definition mapi {A B} (f : nat -> A -> B) (l : list A) : list B := mapi_go f 0 l.

Fixpoint filteri_go {A} (f : nat -> bool) (i : nat) (l : list A) : list A :=
  match l with
  | [] => []
  | x :: t => if f i then x :: filteri_go f (S i) t else filteri_go f (S i) t
  end.

(** [importLineSet.has(idx)], the set holding [lineNumber - 1] of every
    import. *)
Definition isImportLine (imports : list ImportInfo) (idx : nat) : bool :=
  existsb (fun i => imp_lineNumber i =? S idx) imports.

(** The class of [escapeRegex] and [escRe]: dot, star, plus, question mark,
    caret, dollar, braces, parentheses, bar, brackets, backslash. *)
Definition escapable : N -> bool :=
  cls [ch "."; ch "*"; ch "+"; ch "?"; ch "^"; ch "$"; ch "{"; ch "}";
       ch "("; ch ")"; ch "|"; ch "["; ch "]"; chn bsl].

(** The body of a quoted literal: any run of characters that are neither
    the quote nor a backslash, or a backslash and one more character. *)
Definition strBody (q : N) : regex :=
  Star (Alt (Chr (ncls [chn q; chn bsl])) (Seq (Lit1 bsl) Dot)).

(** The brace counter of the brace-delimited extractors:
    [for (const ch of l) { if (ch === '{') { depth++; started = true; }
    if (ch === '}') depth--; }]. *)
Fixpoint scanBraces (l : jsstring) (depth : Z) (started : bool) : Z * bool :=
  match l with
  | [] => (depth, started)
  | c :: t =>
      let '(d1, s1) := if ch "{" c then ((depth + 1)%Z, true) else (depth, started) in
      let d2 := if ch "}" c then (d1 - 1)%Z else d1 in
      scanBraces t d2 s1
  end.

(** [cond ? 's' : ''] and the like. *)
Definition plural (b : bool) (s : string) : jsstring := if b then js s else [].

(* ====================================================================== *)
(** * pythonParser.ts *)
(* ====================================================================== *)

Module pythonParser.

(** [/#?\s*---meta\s*\n([\s\S]*?)\n#?\s*---/] *)
Definition metaMatch_re : regex :=
  Seqs [Opt (Lit "#"); Star S_; Lit "---meta"; Star S_; Lit1 10;
        Grp 1 (StarLazy (Chr anyChar)); Lit1 10; Opt (Lit "#"); Star S_; Lit "---"].
(** [/^#\s*/] *)
Definition hashPrefix_re : regex := Seqs [Bol; Lit "#"; Star S_].
(** [/^(\w+)\s*:\s*(.+)$/] *)
Definition kv_re : regex :=
  Seqs [Bol; Grp 1 (Plus W_); Star S_; Lit ":"; Star S_; Grp 2 (Plus Dot); Eol].
(** [/^\[|\]$/g] *)
Definition brackets_re : regex := Alt (Seq Bol (Lit "[")) (Seq (Lit "]") Eol).

Definition parseList (val : option jsstring) : list jsstring :=
  if negb (truthy val) then []
  else
    let cleaned := replace_all brackets_re (orElse val []) (fun _ => []) in
    List.filter nonEmpty (List.map trim (split cleaned (js ","))).

Fixpoint parseMetaLines (ls : list jsstring) (raw : gmap jsstring jsstring)
  : outcome (gmap jsstring jsstring) :=
  match ls with
  | [] => Ret raw
  | line :: t =>
      let cleaned := replace_first hashPrefix_re line (fun _ => []) in
      match exec kv_re cleaned with
      | Some kv =>
          do k <- grp kv 1;
          do v <- grp kv 2;
          parseMetaLines t (record_set (trim k) (trim v) raw)
      | None => parseMetaLines t raw
      end
  end.

Definition parseMetaBlock (code : jsstring) : outcome (option MetaBlock) :=
  match exec metaMatch_re code with
  | None => Ret None
  | Some metaMatch =>
      do block <- grp metaMatch 1;
      do raw <- parseMetaLines (splitLines block) ∅;
      Ret (Some {|
        meta_name := raw !! js "name";
        meta_type := raw !! js "type";
        meta_desc := raw !! js "desc";
        meta_inputs := Some (parseList (raw !! js "in"));
        meta_outputs := Some (parseList (raw !! js "out"));
        meta_deps := Some (parseList (raw !! js "deps"));
        meta_methods := Some (parseList (raw !! js "methods"));
        meta_errors := Some (parseList (raw !! js "errors"));
        meta_raw := raw |})
  end.

(** [/^from\s+([\w.]+)\s+import\s+(.+)$/] *)
Definition fromMatch_re : regex :=
  Seqs [Bol; Lit "from"; Plus S_; Grp 1 (Plus (Chr (cls [isWordChar; ch "."])));
        Plus S_; Lit "import"; Plus S_; Grp 2 (Plus Dot); Eol].
(** [/^import\s+(.+)$/] *)
Definition importMatch_re : regex :=
  Seqs [Bol; Lit "import"; Plus S_; Grp 1 (Plus Dot); Eol].
(** [/\s+as\s+/] *)
Definition as_re : regex := Seqs [Plus S_; Lit "as"; Plus S_].

(** [n => n.trim().split(/\s+as\s+/)[0].trim()] *)
Definition importedName (n : jsstring) : outcome jsstring :=
  do h <- deref (head (split_re (trim n) as_re));
  Ret (trim h).

Definition parseImports (lines : list jsstring) : outcome (list ImportInfo) :=
  forLines (fun i l =>
    let line := trim l in
    match exec fromMatch_re line with
    | Some fromMatch =>
        do g2 <- grp fromMatch 2;
        do ns <- omapM importedName (split g2 (js ","));
        do g1 <- grp fromMatch 1;
        Ret [{| imp_module := g1; imp_names := List.filter nonEmpty ns;
                imp_isFrom := true; imp_lineNumber := i + 1 |}]
    | None =>
        match exec importMatch_re line with
        | Some importMatch =>
            do g1 <- grp importMatch 1;
            do modules <- omapM importedName (split g1 (js ","));
            Ret (List.map (fun md =>
                   {| imp_module := md; imp_names := [md];
                      imp_isFrom := false; imp_lineNumber := i + 1 |}) modules)
        | None => Ret []
        end
    end) 0 lines.

(** The pattern of [getIndent]: start of input, then group 1 = [\s*]. *)
Definition indent_re : regex := Seq Bol (Grp 1 (Star S_)).

Definition getIndent (line : jsstring) : outcome nat :=
  match exec indent_re line with
  | Some mt => do g <- grp mt 1; Ret (length g)
  | None => Ret 0
  end.

(** The loop [for (let j = defLineIdx - 1; j >= 0; j--)]; the argument [j]
    counts the indices still to visit, the line read is [lines[j - 1]]. *)
Fixpoint collectDecorators_go (lines : list jsstring) (j : nat) (decorators : list jsstring)
  : outcome (list jsstring) :=
  match j with
  | 0 => Ret decorators
  | S j' =>
      do l <- deref (nth_error lines j');
      let prev := trim l in
      if startsWith prev (js "@") then collectDecorators_go lines j' (prev :: decorators)
      else if negb (nonEmpty prev) then collectDecorators_go lines j' decorators
      else Ret decorators
  end.
Definition collectDecorators (lines : list jsstring) (defLineIdx : nat)
  : outcome (list jsstring) :=
  collectDecorators_go lines defLineIdx [].

(** [/^(if|elif|else|for|while|except|case)\b/] *)
Definition branchKw_re : regex :=
  Seqs [Bol; Grp 1 (Alts [Lit "if"; Lit "elif"; Lit "else"; Lit "for"; Lit "while";
                          Lit "except"; Lit "case"]); WordB].
(** [/\bif\b/] *)
Definition inlineIf_re : regex := Seqs [WordB; Lit "if"; WordB].

Fixpoint countBranches_go (baseIndent : nat) (ls : list jsstring) (branches : nat)
  : outcome nat :=
  match ls with
  | [] => Ret branches
  | line :: t =>
      if negb (nonEmpty (trim line)) then countBranches_go baseIndent t branches
      else
        do indent <- getIndent line;
        if (indent <=? baseIndent) && nonEmpty (trim line) then Ret branches
        else
          let trimmed := trim line in
          let b1 := if test branchKw_re trimmed then S branches else branches in
          let b2 := if test inlineIf_re trimmed
                       && negb (startsWith trimmed (js "if"))
                       && negb (startsWith trimmed (js "elif"))
                    then S b1 else b1 in
          countBranches_go baseIndent t b2
  end.
Definition countBranches (lines : list jsstring) (startIdx : nat) : outcome nat :=
  do l0 <- deref (nth_error lines startIdx);
  do baseIndent <- getIndent l0;
  countBranches_go baseIndent (skipn (startIdx + 1) lines) 0.


Definition splitNameType (s : jsstring) : jsstring * jsstring :=
  match indexOf s (js ":") with
  | None => (trim s, js "Any")
  | Some colonIdx => (trim (slice s 0 colonIdx), trim (slice_from s (colonIdx + 1)))
  end.

Fixpoint splitParams_go (s : jsstring) (depth : Z) (current : jsstring)
    (result : list jsstring) : list jsstring :=
  match s with
  | [] => if nonEmpty (trim current) then result ++ [current] else result
  | c :: t =>
      let d1 := if ch "(" c || ch "[" c then (depth + 1)%Z else depth in
      let d2 := if ch ")" c || ch "]" c then (d1 - 1)%Z else d1 in
      if ch "," c && Z.eqb d2 0 then splitParams_go t d2 [] (result ++ [current])
      else splitParams_go t d2 (current ++ [c]) result
  end.
Definition splitParams (paramStr : jsstring) : list jsstring :=
  splitParams_go paramStr 0%Z [] [].

(** [/^\*{1,2}/] *)
Definition stars_re : regex := Seq Bol (Rep 1 (Some 2) true (Lit "*")).

Definition parseParams (paramStr : jsstring) : list PortInfo :=
  if negb (nonEmpty (trim paramStr)) then []
  else
    flat_map (fun part =>
      let trimmed := trim part in
      if negb (nonEmpty trimmed) || str_eqb trimmed (js "*") || str_eqb trimmed (js "/")
      then []
      else if startsWith trimmed (js "**") || startsWith trimmed (js "*") then
        let clean := replace_first stars_re trimmed (fun _ => []) in
        let '(name, type) := splitNameType clean in
        [{| port_name := (if startsWith trimmed (js "**") then js "**" else js "*") ++ name;
            port_type := orElse (Some type) (js "Any");
            port_default := None |}]
      else
        let '(defaultVal, mainPart) :=
          match indexOf trimmed (js "=") with
          | Some eqIdx => (Some (trim (slice_from trimmed (eqIdx + 1))),
                           trim (slice trimmed 0 eqIdx))
          | None => (None, trimmed)
          end in
        let '(name, type) := splitNameType mainPart in
        [{| port_name := name; port_type := orElse (Some type) (js "Any");
            port_default := defaultVal |}])
      (splitParams paramStr).

(** pythonParser.ts:160, [selfAttr]: self, dot, group 1 = [\w+], [\s*],
    optionally a colon, [\s*] and group 2 = [\w+], then [\s*=]. *)
Definition selfAttr_re : regex :=
  Seqs [Lit "self."; Grp 1 (Plus W_); Star S_;
        Opt (Seqs [Lit ":"; Star S_; Grp 2 (Plus W_)]); Star S_; Lit "="].

Fixpoint parseClassAttributes_go (classIndent : nat) (ls : list jsstring)
    (attrs : list PortInfo) : outcome (list PortInfo) :=
  match ls with
  | [] => Ret attrs
  | line :: t =>
      if negb (nonEmpty (trim line)) then parseClassAttributes_go classIndent t attrs
      else
        do currentIndent <- getIndent line;
        if (currentIndent <=? classIndent) && nonEmpty (trim line) then Ret attrs
        else
          match exec selfAttr_re line with
          | Some selfAttr =>
              do n <- grp selfAttr 1;
              if existsb (fun a => str_eqb (port_name a) n) attrs
              then parseClassAttributes_go classIndent t attrs
              else parseClassAttributes_go classIndent t
                     (attrs ++ [{| port_name := n;
                                   port_type := orElse (group selfAttr 2) (js "Any");
                                   port_default := None |}])
          | None => parseClassAttributes_go classIndent t attrs
          end
  end.
Definition parseClassAttributes (lines : list jsstring) (classLineIdx : nat)
  : outcome (list PortInfo) :=
  do cl <- deref (nth_error lines classLineIdx);
  do classIndent <- getIndent cl;
  parseClassAttributes_go classIndent (skipn (classLineIdx + 1) lines) [].

(** pythonParser.ts:185, [defMatch] of a method: group 1 = leading [\s*],
    group 2 = optional async and [\s+], def, group 3 = the name, group 4 =
    the text between the parentheses (no closing parenthesis inside),
    optionally an arrow and group 5 = a lazy [.+], then [\s*] and a colon. *)
Definition methodDef_re : regex :=
  Seqs [Bol; Grp 1 (Star S_); Opt (Grp 2 (Seq (Lit "async") (Plus S_)));
        Lit "def"; Plus S_; Grp 3 (Plus W_); Star S_; Lit "(";
        Grp 4 (Star (Chr (ncls [ch ")"]))); Lit ")"; Star S_;
        Opt (Seqs [Lit "->"; Star S_; Grp 5 (PlusLazy Dot)]); Star S_; Lit ":"].

(** [defMatch[5]?.trim() || 'Any'] *)
Definition returnTypeOf (g : option jsstring) : jsstring :=
  orElse (option_map trim g) (js "Any").

Fixpoint parseClassMethods_go (lines : list jsstring) (classIndent : nat) (i : nat)
    (ls : list jsstring) : outcome (list MethodInfo) :=
  match ls with
  | [] => Ret []
  | line :: t =>
      if negb (nonEmpty (trim line)) then parseClassMethods_go lines classIndent (S i) t
      else
        do currentIndent <- getIndent line;
        if (currentIndent <=? classIndent) && nonEmpty (trim line) then Ret []
        else
          let methodIndent := classIndent + 4 in
          do here <-
            match exec methodDef_re line with
            | Some defMatch =>
                do ind <- getIndent line;
                if methodIndent <=? ind then
                  do decorators <- collectDecorators lines i;
                  do g4 <- grp defMatch 4;
                  let params := parseParams g4 in
                  let filteredParams :=
                    List.filter (fun p => negb (str_eqb (port_name p) (js "self"))
                                          && negb (str_eqb (port_name p) (js "cls"))) params in
                  do name <- grp defMatch 3;
                  do complexity <- countBranches lines i;
                  Ret [{| meth_name := name; meth_params := filteredParams;
                          meth_returnType := returnTypeOf (group defMatch 5);
                          meth_decorators := decorators; meth_lineNumber := i + 1;
                          meth_isAsync := truthy (group defMatch 2);
                          meth_isPrivate := startsWith name (js "_");
                          meth_complexity := complexity |}]
                else Ret []
            | None => Ret []
            end;
          do rest <- parseClassMethods_go lines classIndent (S i) t;
          Ret (here ++ rest)
  end.
Definition parseClassMethods (lines : list jsstring) (classLineIdx : nat)
  : outcome (list MethodInfo) :=
  do cl <- deref (nth_error lines classLineIdx);
  do classIndent <- getIndent cl;
  parseClassMethods_go lines classIndent (classLineIdx + 1) (skipn (classLineIdx + 1) lines).

(** pythonParser.ts:128, [classMatch]: class, [\s+], group 1 = [\w+], [\s*],
    optionally a parenthesised group 2 without closing parenthesis, [\s*],
    a colon; anchored at the start of the line. *)
Definition classMatch_re : regex :=
  Seqs [Bol; Lit "class"; Plus S_; Grp 1 (Plus W_); Star S_;
        Opt (Seqs [Lit "("; Grp 2 (Star (Chr (ncls [ch ")"]))); Lit ")"]);
        Star S_; Lit ":"].

Definition parseClasses (lines : list jsstring) : outcome (list ClassInfo) :=
  forLines (fun i line =>
    match exec classMatch_re line with
    | None => Ret []
    | Some classMatch =>
        do decorators <- collectDecorators lines i;
        let bases :=
          if truthy (group classMatch 2)
          then List.filter nonEmpty (List.map trim (split (orElse (group classMatch 2) []) (js ",")))
          else [] in
        do methods <- parseClassMethods lines i;
        do attributes <- parseClassAttributes lines i;
        do name <- grp classMatch 1;
        Ret [{| cls_name := name; cls_bases := bases; cls_methods := methods;
                cls_attributes := attributes; cls_decorators := decorators;
                cls_lineNumber := i + 1 |}]
    end) 0 lines.

(** pythonParser.ts:213, [defMatch] of a top-level function: as
    [methodDef_re] without the leading [\s*] group; groups 1 to 4. *)
Definition functionDef_re : regex :=
  Seqs [Bol; Opt (Grp 1 (Seq (Lit "async") (Plus S_)));
        Lit "def"; Plus S_; Grp 2 (Plus W_); Star S_; Lit "(";
        Grp 3 (Star (Chr (ncls [ch ")"]))); Lit ")"; Star S_;
        Opt (Seqs [Lit "->"; Star S_; Grp 4 (PlusLazy Dot)]); Star S_; Lit ":"].

Definition parseTopLevelFunctions (lines : list jsstring) : outcome (list MethodInfo) :=
  forLines (fun i line =>
    match exec functionDef_re line with
    | None => Ret []
    | Some defMatch =>
        do decorators <- collectDecorators lines i;
        do g3 <- grp defMatch 3;
        let params := parseParams g3 in
        do name <- grp defMatch 2;
        do complexity <- countBranches lines i;
        Ret [{| meth_name := name; meth_params := params;
                meth_returnType := returnTypeOf (group defMatch 4);
                meth_decorators := decorators; meth_lineNumber := i + 1;
                meth_isAsync := truthy (group defMatch 1);
                meth_isPrivate := startsWith name (js "_");
                meth_complexity := complexity |}]
    end) 0 lines.

(** [/^-?\d+$/], [/^-?\d+\.\d+$/] and the quote test of [inferType]. *)
Definition int_re : regex := Seqs [Bol; Opt (Lit "-"); Plus D_; Eol].
Definition float_re : regex := Seqs [Bol; Opt (Lit "-"); Plus D_; Lit "."; Plus D_; Eol].
Definition quoteStart_re : regex := Seq Bol (Chr (cls [chn dq; chn sq])).

Definition inferType (value : jsstring) : jsstring :=
  let v := trim value in
  if str_eqb v (js "True") || str_eqb v (js "False") then js "bool"
  else if test int_re v then js "int"
  else if test float_re v then js "float"
  else if test quoteStart_re v then js "str"
  else if startsWith v (js "[") then js "list"
  else if startsWith v (js "{") then js "dict"
  else if startsWith v (js "(") then js "tuple"
  else js "Any".

(** pythonParser.ts:300, [constMatch]: group 1 = an upper-snake-case name,
    [\s*], optionally a colon, [\s*] and group 2 = [\w+], [\s*=\s*],
    group 3 = [.+] up to the end of the line. *)
Definition constMatch_re : regex :=
  Seqs [Bol; Grp 1 (Seq (Chr (cls [isUpperAZ; ch "_"]))
                        (Star (Chr (cls [isUpperAZ; isDigit; ch "_"]))));
        Star S_; Opt (Seqs [Lit ":"; Star S_; Grp 2 (Plus W_)]);
        Star S_; Lit "="; Star S_; Grp 3 (Plus Dot); Eol].

Definition parseGlobalVars (lines : list jsstring) : outcome (list PortInfo) :=
  forLines (fun i line =>
    do ind <- getIndent line;
    if negb (ind =? 0) then Ret []
    else
      match exec constMatch_re line with
      | Some constMatch =>
          do name <- grp constMatch 1;
          do g3 <- grp constMatch 3;
          Ret [{| port_name := name;
                  port_type := orElse (group constMatch 2) (inferType g3);
                  port_default := Some (trim g3) |}]
      | None => Ret []
      end) 0 lines.

(** [/raise\s+(\w+)/] and [/except\s+(\w+)/] *)
Definition raise_re : regex := Seqs [Lit "raise"; Plus S_; Grp 1 (Plus W_)].
Definition except_re : regex := Seqs [Lit "except"; Plus S_; Grp 1 (Plus W_)].

Fixpoint parseErrorTypes_go (ls : list jsstring) (errors : list jsstring)
  : outcome (list jsstring) :=
  match ls with
  | [] => Ret errors
  | line :: t =>
      do e1 <-
        match exec raise_re line with
        | Some raiseMatch => do g <- grp raiseMatch 1; Ret (set_add g errors)
        | None => Ret errors
        end;
      do e2 <-
        match exec except_re line with
        | Some exceptMatch =>
            do g <- grp exceptMatch 1;
            if negb (str_eqb g (js "Exception")) then Ret (set_add g e1) else Ret e1
        | None => Ret e1
        end;
      parseErrorTypes_go t e2
  end.
Definition parseErrorTypes (lines : list jsstring) : outcome (list jsstring) :=
  parseErrorTypes_go lines [].

Definition parseDebugPoints (lines : list jsstring) : outcome (list nat) :=
  forLines (fun i l =>
    let trimmed := trim l in
    if startsWith trimmed (js "try:") || startsWith trimmed (js "except ")
       || startsWith trimmed (js "except:")
    then Ret [i + 1] else Ret []) 0 lines.

Definition buildConnections (imports : list ImportInfo) (lines : list jsstring)
  : list jsstring :=
  fold_left (fun conns imp =>
    fold_left (fun c name => if negb (str_eqb name (js "*")) then set_add name c else c)
              (imp_names imp) (set_add (imp_module imp) conns))
    imports [].

Definition tripleDq : jsstring := [dq; dq; dq].
Definition tripleSq : jsstring := [sq; sq; sq].

Fixpoint countCodeLines_go (ls : list jsstring) (count : nat) (inDocstring : bool) : nat :=
  match ls with
  | [] => count
  | line :: t =>
      let trimmed := trim line in
      if startsWith trimmed tripleDq || startsWith trimmed tripleSq then
        let quote := slice trimmed 0 3 in
        if inDocstring then countCodeLines_go t count false
        else if (3 <? length trimmed) && endsWith trimmed quote
        then countCodeLines_go t count inDocstring
        else countCodeLines_go t count true
      else if inDocstring then countCodeLines_go t count inDocstring
      else if negb (nonEmpty trimmed) then countCodeLines_go t count inDocstring
      else if startsWith trimmed (js "#") then countCodeLines_go t count inDocstring
      else countCodeLines_go t (S count) inDocstring
  end.
Definition countCodeLines (lines : list jsstring) : nat := countCodeLines_go lines 0 false.

Definition generateWarnings (meta : option MetaBlock) (imports : list ImportInfo)
    (classes : list ClassInfo) (functions : list MethodInfo) (connections : list jsstring)
  : list jsstring := [].

(** The verbs of [describeMethod]; accented letters are given by their code
    units. *)
Definition verbMap_entries : list (jsstring * jsstring) :=
  [ (js "get", js "obtiene"); (js "find", js "busca"); (js "search", js "busca");
    (js "create", js "crea"); (js "add", js "agrega"); (js "insert", js "inserta");
    (js "update", js "actualiza"); (js "edit", js "edita"); (js "modify", js "modifica");
    (js "delete", js "elimina"); (js "remove", js "remueve"); (js "destroy", js "destruye");
    (js "validate", js "valida"); (js "check", js "verifica"); (js "verify", js "verifica");
    (js "send", js "env" ++ [237%N] ++ js "a"); (js "emit", js "emite");
    (js "notify", js "notifica");
    (js "save", js "guarda"); (js "store", js "almacena"); (js "persist", js "persiste");
    (js "load", js "carga"); (js "fetch", js "obtiene"); (js "retrieve", js "recupera");
    (js "process", js "procesa"); (js "handle", js "maneja"); (js "execute", js "ejecuta");
    (js "convert", js "convierte"); (js "transform", js "transforma"); (js "parse", js "parsea");
    (js "init", js "inicializa"); (js "setup", js "configura"); (js "configure", js "configura");
    (js "login", js "autentica"); (js "logout", js "cierra sesi" ++ [243%N] ++ js "n");
    (js "auth", js "autentica");
    (js "register", js "registra"); (js "signup", js "registra");
    (js "list", js "lista"); (js "count", js "cuenta"); (js "filter", js "filtra");
    (js "sort", js "ordena"); (js "group", js "agrupa"); (js "merge", js "combina");
    (js "export", js "exporta"); (js "import", js "importa"); (js "download", js "descarga");
    (js "upload", js "sube"); (js "sync", js "sincroniza"); (js "refresh", js "refresca");
    (js "start", js "inicia"); (js "stop", js "detiene"); (js "run", js "ejecuta");
    (js "open", js "abre"); (js "close", js "cierra"); (js "connect", js "conecta");
    (js "disconnect", js "desconecta"); (js "reset", js "reinicia"); (js "clear", js "limpia");
    (js "set", js "establece"); (js "enable", js "habilita"); (js "disable", js "deshabilita");
    (js "show", js "muestra"); (js "hide", js "oculta"); (js "render", js "renderiza");
    (js "build", js "construye"); (js "generate", js "genera"); (js "compute", js "calcula");
    (js "calculate", js "calcula"); (js "compare", js "compara"); (js "format", js "formatea");
    (js "log", js "registra"); (js "track", js "rastrea"); (js "monitor", js "monitorea");
    (js "subscribe", js "suscribe"); (js "unsubscribe", js "desuscribe");
    (js "publish", js "publica");
    (js "map", js "mapea"); (js "reduce", js "reduce"); (js "collect", js "recolecta");
    (js "assign", js "asigna"); (js "allocate", js "asigna"); (js "distribute", js "distribuye");
    (js "lock", js "bloquea"); (js "unlock", js "desbloquea"); (js "encrypt", js "encripta");
    (js "decrypt", js "desencripta"); (js "hash", js "hashea"); (js "sign", js "firma");
    (js "schedule", js "programa"); (js "queue", js "encola"); (js "retry", js "reintenta");
    (js "rollback", js "revierte"); (js "commit", js "confirma"); (js "migrate", js "migra");
    (js "backup", js "respalda"); (js "restore", js "restaura"); (js "archive", js "archiva");
    (js "test", js "prueba"); (js "mock", js "simula"); (js "stub", js "simula");
    (js "assert", js "verifica"); (js "expect", js "espera"); (js "match", js "coincide");
    (js "is", js "verifica si es"); (js "has", js "verifica si tiene");
    (js "can", js "verifica si puede") ].

Fixpoint assoc (k : jsstring) (l : list (jsstring * jsstring)) : option jsstring :=
  match l with
  | [] => None
  | (k', v) :: t => if str_eqb k k' then Some v else assoc k t
  end.

(** [verbMap[key]] on an object literal: a key that the literal does not
    define is looked up on [Object.prototype], where [constructor] and
    [__proto__] are found; the value is then rendered by the template
    literal. *)
Definition verbMap (key : jsstring) : option jsstring :=
  match assoc key verbMap_entries with
  | Some v => Some v
  | None =>
      if str_eqb key (js "constructor") then Some (js "function Object() { [native code] }")
      else if str_eqb key (js "__proto__") then Some (js "[object Object]")
      else None
  end.

Definition describeMethod (m : MethodInfo) : outcome jsstring :=
  let name := meth_name m in
  let parts := split name (js "_") in
  do verb <- deref (head parts);
  let subject := join (tl parts) (js " ") in
  let spanishVerb := verbMap (toLowerCase verb) in
  if truthy spanishVerb && nonEmpty subject then
    let retType :=
      if negb (str_eqb (meth_returnType m) (js "Any"))
         && negb (str_eqb (meth_returnType m) (js "None"))
      then js " (retorna " ++ meth_returnType m ++ js ")" else [] in
    Ret (orElse spanishVerb [] ++ js " " ++ subject ++ retType)
  else Ret [].

(** [/\.py$/] and [/Error|Exception/] *)
Definition pyExt_re : regex := Seqs [Lit ".py"; Eol].
Definition errorBase_re : regex := Alt (Lit "Error") (Lit "Exception").

Definition o_acute : jsstring := [243%N].
Definition i_acute : jsstring := [237%N].
Definition e_acute : jsstring := [233%N].
Definition u_acute : jsstring := [250%N].

Definition isExceptionClass (c : ClassInfo) : bool :=
  existsb (fun b => test errorBase_re b) (cls_bases c).

Definition describeAll (ms : list MethodInfo) : outcome (list jsstring) :=
  do ds <- omapM describeMethod ms;
  Ret (List.filter nonEmpty ds).

Definition generateFileDescription (meta : option MetaBlock) (classes : list ClassInfo)
    (functions : list MethodInfo) (imports : list ImportInfo) (fileName : jsstring)
  : outcome jsstring :=
  let name := orElse (meta ≫= meta_name) (replace_first pyExt_re fileName (fun _ => [])) in
  let type := orElse (meta ≫= meta_type) (js "module") in
  do parts1 <-
    (if str_eqb type (js "service") then
       let mainClass :=
         match List.find (fun c => includes (toLowerCase (cls_name c)) (js "service")) classes with
         | Some c => Some c
         | None => head classes
         end in
       match mainClass with
       | Some mc =>
           do actions <- describeAll
             (List.filter (fun m => negb (str_eqb (meth_name m) (js "__init__"))
                                    && negb (meth_isPrivate m)) (cls_methods mc));
           Ret [name ++ js " es un servicio que "
                ++ (if 0 <? length actions then join actions (js ", ")
                    else js "gestiona operaciones de negocio") ++ js "."]
       | None => Ret [name ++ js " es un servicio."]
       end
     else if str_eqb type (js "model") then
       let models := List.filter (fun c => negb (isExceptionClass c)) classes in
       match models with
       | m0 :: _ =>
           let attrs := join (List.map port_name (cls_attributes m0)) (js ", ") in
           Ret [name ++ js " define el modelo de datos " ++ cls_name m0
                ++ (if nonEmpty attrs then js " con atributos: " ++ attrs else []) ++ js "."]
       | [] => Ret []
       end
     else if str_eqb type (js "controller") then
       Ret [name ++ js " maneja las rutas y peticiones HTTP del recurso."]
     else if str_eqb type (js "util") then
       let fnNames := join (List.map meth_name functions) (js ", ") in
       Ret [name ++ js " provee funciones utilitarias: " ++ fnNames ++ js "."]
     else
       Ret [name ++ js " es un m" ++ o_acute ++ js "dulo que contiene "
            ++ numToString (length classes) ++ js " clase"
            ++ plural (negb (length classes =? 1)) "s" ++ js " y "
            ++ numToString (length functions) ++ js " funci" ++ o_acute ++ js "n"
            ++ plural (negb (length functions =? 1)) "es" ++ js "."]);
  let externalDeps :=
    List.map imp_module
      (List.filter (fun i => negb (startsWith (imp_module i) (js "."))) imports) in
  let parts2 :=
    if 0 <? length externalDeps
    then parts1 ++ [js "Depende de: " ++ join externalDeps (js ", ") ++ js "."]
    else parts1 in
  let asyncMethods :=
    List.filter meth_isAsync functions
    ++ flat_map (fun c => List.filter meth_isAsync (cls_methods c)) classes in
  let parts3 :=
    if 0 <? length asyncMethods
    then parts2 ++ [js "Usa operaciones as" ++ i_acute ++ js "ncronas ("
                    ++ numToString (length asyncMethods) ++ js " m" ++ e_acute ++ js "todo"
                    ++ plural (1 <? length asyncMethods) "s" ++ js " async)."]
    else parts2 in
  Ret (join parts3 (js " ")).

Definition describeClass (c : ClassInfo) : outcome jsstring :=
  if isExceptionClass c then
    Ret (cls_name c ++ js " es una excepci" ++ o_acute ++ js "n personalizada que extiende "
         ++ join (cls_bases c) (js ", ") ++ js ".")
  else
    let publicMethods :=
      List.filter (fun m => negb (str_eqb (meth_name m) (js "__init__"))
                            && negb (meth_isPrivate m)) (cls_methods c) in
    do parts1 <-
      (if length publicMethods =? 0 then
         if 0 <? length (cls_attributes c) then
           Ret [cls_name c ++ js " es un modelo de datos con "
                ++ numToString (length (cls_attributes c)) ++ js " atributo"
                ++ plural (1 <? length (cls_attributes c)) "s" ++ js ": "
                ++ join (List.map port_name (cls_attributes c)) (js ", ") ++ js "."]
         else Ret [cls_name c ++ js " es una clase base."]
       else
         do actions <- describeAll publicMethods;
         Ret [cls_name c ++ js " "
              ++ (if 0 <? length actions then join actions (js ", ")
                  else js "contiene " ++ numToString (length publicMethods)
                       ++ js " m" ++ e_acute ++ js "todo"
                       ++ plural (1 <? length publicMethods) "s"
                       ++ js " p" ++ u_acute ++ js "blico"
                       ++ plural (1 <? length publicMethods) "s")
              ++ js "."]);
    let init := List.find (fun m => str_eqb (meth_name m) (js "__init__")) (cls_methods c) in
    let parts2 :=
      match init with
      | Some ini =>
          if 0 <? length (meth_params ini)
          then parts1 ++ [js "Recibe " ++ join (List.map port_name (meth_params ini)) (js ", ")
                          ++ js " en su constructor."]
          else parts1
      | None => parts1
      end in
    let parts3 :=
      if (0 <? length (cls_bases c)) && negb (isExceptionClass c)
      then parts2 ++ [js "Extiende " ++ join (cls_bases c) (js ", ") ++ js "."]
      else parts2 in
    Ret (join parts3 (js " ")).

Fixpoint generateClassDescriptions_go (classes : list ClassInfo)
    (descs : gmap jsstring jsstring) : outcome (gmap jsstring jsstring) :=
  match classes with
  | [] => Ret descs
  | c :: t =>
      do d <- describeClass c;
      generateClassDescriptions_go t (record_set (cls_name c) d descs)
  end.
Definition generateClassDescriptions (classes : list ClassInfo) (imports : list ImportInfo)
  : outcome (gmap jsstring jsstring) :=
  generateClassDescriptions_go classes ∅.

(** The patterns of [detectHardcodedValues] (pythonParser.ts:606-610, 650,
    655, 656).  [quoteCh] is the class of the two quotes, [notQuoteCh] its
    complement. *)
Definition quoteCh : N -> bool := cls [chn dq; chn sq].
Definition notQuoteCh : N -> bool := ncls [chn dq; chn sq].
Definition urlRe : regex :=
  Seqs [Lit "http"; Opt (Lit "s"); Lit "://"; Plus (Chr (ncls [isSpace; chn dq; chn sq]))].
Definition d13 : regex := Rep 1 (Some 3) true D_.
Definition ipRe : regex := Seqs [WordB; d13; Lit "."; d13; Lit "."; d13; Lit "."; d13; WordB].
Definition pathRe : regex :=
  Seqs [Chr quoteCh; Lit "/"; Plus (Chr (cls [isWordChar; ch "-"; ch "/"; ch "."])); Chr quoteCh].
Definition credRe : regex :=
  Seqs [Alts [Liti "password"; Liti "secret"; Liti "key"; Liti "token"; Liti "api_key";
              Liti "apikey"; Liti "passwd"; Liti "credential"];
        Star S_; Lit "="; Star S_; Chr quoteCh; Plus (Chr notQuoteCh); Chr quoteCh].
Definition portRe : regex := Seqs [Liti "port"; Star S_; Lit "="; Star S_; Plus D_].
Definition portVal_re : regex := Seqs [Lit "="; Star S_; Grp 1 (Plus D_)].
Definition assignStr_re : regex :=
  Seqs [Bol; Grp 1 (Plus W_); Star S_; Lit "="; Star S_; Chr quoteCh;
        Grp 2 (Rep 8 None true (Chr notQuoteCh)); Chr quoteCh; Star S_; Eol].
Definition upperName_re : regex := Seqs [Bol; Plus (Chr (cls [isUpperAZ; ch "_"])); Eol].

(** [trimmed.split('=')[0].trim()] *)
Definition contextOf (trimmed : jsstring) : outcome jsstring :=
  do h <- deref (head (split trimmed (js "=")));
  Ret (trim h).

Definition mkHardcoded (v : jsstring) (t : HardcodedType) (ln : nat) (ctx : jsstring) :=
  {| hc_value := v; hc_type := t; hc_lineNumber := ln; hc_context := ctx |}.

(** The body of the loop of [detectHardcodedValues] for line [i]. *)
Definition hardcodedOfLine (i : nat) (line : jsstring) : outcome (list HardcodedValue) :=
  let trimmed := trim line in
  if startsWith trimmed (js "#") || negb (nonEmpty trimmed) then Ret []
  else if startsWith trimmed (js "# ---meta") || startsWith trimmed (js "# ---") then Ret []
  else if startsWith trimmed (js "import ") || startsWith trimmed (js "from ") then Ret []
  else
    match exec credRe line with
    | Some credMatch =>
        do ctx <- contextOf trimmed;
        Ret [mkHardcoded (m_text credMatch) hc_credential (i + 1) ctx]
    | None =>
        let urlMatch := exec urlRe line in
        do r1 <-
          match urlMatch with
          | Some um =>
              if negb (startsWith trimmed (js "#")) then
                do ctx <- contextOf trimmed;
                Ret [mkHardcoded (m_text um) hc_url (i + 1) ctx]
              else Ret []
          | None => Ret []
          end;
        do r2 <-
          match exec ipRe line, urlMatch with
          | Some ipMatch, None =>
              do ctx <- contextOf trimmed;
              Ret [mkHardcoded (m_text ipMatch) hc_ip (i + 1) ctx]
          | _, _ => Ret []
          end;
        do r3 <-
          match exec pathRe line, urlMatch with
          | Some pathMatch, None =>
              do ctx <- contextOf trimmed;
              Ret [mkHardcoded (m_text pathMatch) hc_path (i + 1) ctx]
          | _, _ => Ret []
          end;
        do r4 <-
          (if test portRe line then
             match exec portVal_re line with
             | Some val => do v <- grp val 1; Ret [mkHardcoded v hc_number (i + 1) (js "port")]
             | None => Ret []
             end
           else Ret []);
        do r5 <-
          match exec assignStr_re trimmed with
          | Some assignStr =>
              do g1 <- grp assignStr 1;
              (* [assignStr && !/^[A-Z_]+$/.test(assignStr[1]) === false] *)
              if Bool.eqb (negb (test upperName_re g1)) false then
                let varName := g1 in
                if negb (test upperName_re varName) then
                  do g2 <- grp assignStr 2;
                  Ret [mkHardcoded g2 hc_string (i + 1) varName]
                else Ret []
              else Ret []
          | None => Ret []
          end;
        Ret (r1 ++ r2 ++ r3 ++ r4 ++ r5)
    end.

Definition detectHardcodedValues (lines : list jsstring) : outcome (list HardcodedValue) :=
  forLines hardcodedOfLine 0 lines.

Definition typingSkip : list jsstring :=
  List.map js
    ["Dict"; "List"; "Set"; "Tuple"; "Optional"; "Union"; "Any"; "Type";
     "Callable"; "Iterator"; "Generator"; "Sequence"; "Mapping"; "Iterable";
     "ClassVar"; "Final"; "Literal"; "TypeVar"; "Generic"; "Protocol";
     "Awaitable"; "Coroutine"; "AsyncIterator"; "AsyncGenerator";
     "NamedTuple"; "TypedDict"; "Annotated"; "TypeAlias"; "Self"]%string.

(** [s.replace(/[...]/g, '\\$&')] *)
Definition escapeRegex (s : jsstring) : jsstring :=
  replace_all (Chr escapable) s (fun mt => bsl :: m_text mt).

(** The patterns of [codeOnly] (pythonParser.ts:688-693). *)
Definition hashComment_re : regex := Seqs [Lit "#"; Star Dot; Eol].
Definition triple_re : regex :=
  Alt (Seqs [LitS tripleDq; StarLazy (Chr anyChar); LitS tripleDq])
      (Seqs [LitS tripleSq; StarLazy (Chr anyChar); LitS tripleSq]).
Definition dstr_re : regex := Seqs [Lit1 dq; strBody dq; Lit1 dq].
Definition sstr_re : regex := Seqs [Lit1 sq; strBody sq; Lit1 sq].
Definition fdstr_re : regex := Seqs [Lit "f"; Lit1 dq; strBody dq; Lit1 dq].
Definition fsstr_re : regex := Seqs [Lit "f"; Lit1 sq; strBody sq; Lit1 sq].
Definition typing_re : regex := Seq Bol (Lit "typing").
Definition defName_re : regex := Seqs [Lit "def"; Plus S_; Plus W_].

Definition stripLine (l : jsstring) : jsstring :=
  let s1 := replace_all hashComment_re l (fun _ => []) in
  let s2 := replace_all triple_re s1 (fun _ => []) in
  let s3 := replace_all dstr_re s2 (fun _ => [dq; dq]) in
  let s4 := replace_all sstr_re s3 (fun _ => [sq; sq]) in
  let s5 := replace_all fdstr_re s4 (fun _ => [dq; dq]) in
  replace_all fsstr_re s5 (fun _ => [sq; sq]).

Definition codeOnlyOf (lines : list jsstring) (imports : list ImportInfo) : jsstring :=
  join (mapi (fun idx l => if isImportLine imports idx then [] else stripLine l) lines)
       [10%N].

(** [new RegExp('\\b' + escapeRegex(name) + '\\b')] *)
Definition wordRegExp (name : jsstring) : outcome regex :=
  newRegExp (js "\b" ++ escapeRegex name ++ js "\b").

Definition unusedImportsOf (codeOnly : jsstring) (imp : ImportInfo)
  : outcome (list UnusedItem) :=
  do found <- omapM (fun name =>
    if str_eqb name (js "*") || (length name <=? 1) then Ret []
    else if test typing_re (imp_module imp) || existsb (str_eqb name) typingSkip then Ret []
    else
      do re <- wordRegExp name;
      if negb (test re codeOnly)
      then Ret [{| un_name := name; un_kind := uk_import; un_lineNumber := imp_lineNumber imp |}]
      else Ret []) (imp_names imp);
  Ret (concat found).

Definition unusedMethodOf (lines : list jsstring) (m : jsstring * nat)
  : outcome (list UnusedItem) :=
  let '(name, line) := m in
  do callRe <- newRegExp (js "(?:self\.|\b)" ++ escapeRegex name ++ js "\s*\(");
  let linesWithout := join (filteri_go (fun idx => negb (S idx =? line)) 0 lines) [10%N] in
  if negb (test callRe linesWithout) then
    do refRe <- wordRegExp name;
    let defsRemoved := replace_all defName_re linesWithout (fun _ => []) in
    if negb (test refRe defsRemoved)
    then Ret [{| un_name := name; un_kind := uk_method; un_lineNumber := line |}]
    else Ret []
  else Ret [].

Definition detectUnusedCode (lines : list jsstring) (imports : list ImportInfo)
    (classes : list ClassInfo) (functions : list MethodInfo) : outcome (list UnusedItem) :=
  let codeOnly := codeOnlyOf lines imports in
  do u1 <- omapM (unusedImportsOf codeOnly) imports;
  let allMethods :=
    List.map (fun f => (meth_name f, meth_lineNumber f)) functions
    ++ flat_map (fun c =>
         List.map (fun m => (meth_name m, meth_lineNumber m))
           (List.filter (fun m => negb (str_eqb (meth_name m) (js "__init__"))
                                  && negb (startsWith (meth_name m) (js "__")))
                        (cls_methods c))) classes in
  do u2 <- omapM (unusedMethodOf lines) allMethods;
  Ret (concat u1 ++ concat u2).

Definition parsePythonCode (code fileName : jsstring) : outcome FileStats :=
  let lines := splitLines code in
  do meta <- parseMetaBlock code;
  do imports <- parseImports lines;
  do classes <- parseClasses lines;
  do functions <- parseTopLevelFunctions lines;
  do globalVars <- parseGlobalVars lines;
  do errorTypes <- parseErrorTypes lines;
  do debugPoints <- parseDebugPoints lines;
  let connections := buildConnections imports lines in
  let codeLines := countCodeLines lines in
  let warnings := generateWarnings meta imports classes functions connections in
  do description <-
    (if truthy (meta ≫= meta_desc) then Ret (orElse (meta ≫= meta_desc) [])
     else generateFileDescription meta classes functions imports fileName);
  do classDescriptions <- generateClassDescriptions classes imports;
  do hardcoded <- detectHardcodedValues lines;
  do unused <- detectUnusedCode lines imports classes functions;
  Ret {| fileName := fileName; language := js "python"; meta := meta;
         classes := classes; functions := functions; imports := imports;
         globalVars := globalVars; connections := connections;
         errorTypes := errorTypes; debugPoints := debugPoints;
         totalLines := length lines; codeLines := codeLines;
         warnings := warnings; description := description;
         classDescriptions := classDescriptions; hardcoded := hardcoded;
         unused := unused; diagnostics := []; depIssues := []; todos := [];
         externalUsage := [] |}.

End pythonParser.

(* ====================================================================== *)
(** * parserUtils.ts *)
(* ====================================================================== *)

Module parserUtils.

Definition commentOpeners : regex := Alts [Lit "#"; Lit "//"; Lit "*"; Lit "<!--"].
(** parserUtils.ts:12: an opener among #, //, an optional slash and a star,
    or the markup opener; [\s*---meta\s*\n]; group 1 = lazy [[\s\S]*];
    [\n\s*]; an opener among #, //, star, markup opener; [\s*---]. *)
Definition metaMatch_re : regex :=
  Seqs [Alts [Lit "#"; Lit "//"; Seq (Opt (Lit "/")) (Lit "*"); Lit "<!--"];
        Star S_; Lit "---meta"; Star S_; Lit1 10;
        Grp 1 (StarLazy (Chr anyChar)); Lit1 10; Star S_; commentOpeners;
        Star S_; Lit "---"].
(** parserUtils.ts:16: [^\s*], an opener, [\s*]. *)
Definition linePrefix_re : regex := Seqs [Bol; Star S_; commentOpeners; Star S_].
(** [/\[(.+)\]/] *)
Definition listValue_re : regex := Seqs [Lit "["; Grp 1 (Plus Dot); Lit "]"].

Definition parseList (s : option jsstring) : outcome (option (list jsstring)) :=
  match s with
  | Some (c :: t) =>
      match exec listValue_re (c :: t) with
      | Some m => do g <- grp m 1; Ret (Some (List.map trim (split g (js ","))))
      | None => Ret (Some [c :: t])
      end
  | _ => Ret None
  end.

Fixpoint parseMetaLines (ls : list jsstring) (raw : gmap jsstring jsstring)
  : gmap jsstring jsstring :=
  match ls with
  | [] => raw
  | line :: t =>
      let clean := trim (replace_first linePrefix_re line (fun _ => [])) in
      match indexOf clean (js ":") with
      | Some sep =>
          if 0 <? sep then
            let key := trim (slice clean 0 sep) in
            let val := trim (slice_from clean (sep + 1)) in
            parseMetaLines t (record_set key val raw)
          else parseMetaLines t raw
      | None => parseMetaLines t raw
      end
  end.

Definition parseMetaBlock (code : jsstring) : outcome (option MetaBlock) :=
  match exec metaMatch_re code with
  | None => Ret None
  | Some metaMatch =>
      do block <- grp metaMatch 1;
      let raw := parseMetaLines (splitLines block) ∅ in
      do inputs <- parseList (raw !! js "in");
      do outputs <- parseList (raw !! js "out");
      do deps <- parseList (raw !! js "deps");
      do methods <- parseList (raw !! js "methods");
      do errors <- parseList (raw !! js "errors");
      Ret (Some {|
        meta_name := raw !! js "name"; meta_type := raw !! js "type";
        meta_desc := raw !! js "desc";
        meta_inputs := inputs; meta_outputs := outputs; meta_deps := deps;
        meta_methods := methods; meta_errors := errors; meta_raw := raw |})
  end.

(** The patterns of [detectHardcoded] (parserUtils.ts:43-46, 53, 55, 67).
    [quoteCh] is the class of the three quotes. *)
Definition quoteCh : N -> bool := cls [chn dq; chn sq; chn bq].
Definition notQuoteCh : N -> bool := ncls [chn dq; chn sq; chn bq].
Definition colonEq : N -> bool := cls [ch ":"; ch "="].
Definition urlRe : regex :=
  Seqs [Lit "http"; Opt (Lit "s"); Lit "://";
        Plus (Chr (ncls [isSpace; chn dq; chn sq; chn bq]))].
Definition d13 : regex := Rep 1 (Some 3) true D_.
Definition ipRe : regex := Seqs [WordB; d13; Lit "."; d13; Lit "."; d13; Lit "."; d13; WordB].
Definition credRe : regex :=
  Seqs [Alts [Liti "password"; Liti "secret"; Liti "key"; Liti "token"; Liti "api_key";
              Liti "apikey"; Liti "passwd"; Liti "credential"; Liti "auth"];
        Star S_; Chr colonEq; Star S_; Chr quoteCh; Plus (Chr notQuoteCh); Chr quoteCh].
Definition portRe : regex := Seqs [Liti "port"; Star S_; Chr colonEq; Star S_; Plus D_].
Definition portVal_re : regex := Seqs [Chr colonEq; Star S_; Grp 1 (Plus D_)].
Definition importLine_re : regex :=
  Seq Bol (Alts [Lit "import "; Lit "from "; Lit "use "; Lit "require"; Lit "include"]).

Definition mkHardcoded (v : jsstring) (t : HardcodedType) (ln : nat) (ctx : jsstring) :=
  {| hc_value := v; hc_type := t; hc_lineNumber := ln; hc_context := ctx |}.

(** The lines that [detectHardcoded] passes over. *)
Definition skipped (commentPrefix trimmed : jsstring) : bool :=
  negb (nonEmpty trimmed) || startsWith trimmed commentPrefix || startsWith trimmed (js "#")
  || includes trimmed (js "---meta") || includes trimmed (js "---")
  || test importLine_re trimmed.

(** [trimmed.split(/[:=]/)[0].trim().slice(0, 30)] *)
Definition contextOf (trimmed : jsstring) : outcome jsstring :=
  do h <- deref (head (split_re trimmed (Chr colonEq)));
  Ret (slice (trim h) 0 30).

(** The body of the loop of [detectHardcoded] for line [i]. *)
Definition hardcodedOfLine (commentPrefix : jsstring) (i : nat) (line : jsstring)
  : outcome (list HardcodedValue) :=
  let trimmed := trim line in
  if skipped commentPrefix trimmed then Ret []
  else
    do ctx <- contextOf trimmed;
    match exec credRe line with
    | Some credMatch => Ret [mkHardcoded (m_text credMatch) hc_credential (i + 1) ctx]
    | None =>
        let urlMatch := exec urlRe line in
        let r1 := match urlMatch with
                  | Some um => [mkHardcoded (m_text um) hc_url (i + 1) ctx]
                  | None => []
                  end in
        let r2 := match exec ipRe line, urlMatch with
                  | Some ipMatch, None => [mkHardcoded (m_text ipMatch) hc_ip (i + 1) ctx]
                  | _, _ => []
                  end in
        do r3 <-
          (if test portRe line then
             match exec portVal_re line with
             | Some val => do v <- grp val 1; Ret [mkHardcoded v hc_number (i + 1) (js "port")]
             | None => Ret []
             end
           else Ret []);
        Ret (r1 ++ r2 ++ r3)
    end.

Definition detectHardcoded (lines : list jsstring) (commentPrefix : jsstring)
  : outcome (list HardcodedValue) :=
  forLines (hardcodedOfLine commentPrefix) 0 lines.

Definition typingNames : list jsstring :=
  List.map js
    ["Dict"; "List"; "Set"; "Tuple"; "Optional"; "Union"; "Any"; "Type";
     "Callable"; "Iterator"; "Generator"; "Sequence"; "Mapping"; "Iterable";
     "ClassVar"; "Final"; "Literal"; "TypeVar"; "Generic"; "Protocol";
     "Awaitable"; "Coroutine"; "AsyncIterator"; "AsyncGenerator";
     "NamedTuple"; "TypedDict"; "Annotated"; "TypeAlias"; "Self";
     "FC"; "ReactNode"; "PropsWithChildren"; "ComponentType";
     "CSSProperties"; "MouseEvent"; "ChangeEvent"; "FormEvent"]%string.

Definition escRe (s : jsstring) : jsstring :=
  replace_all (Chr escapable) s (fun mt => bsl :: m_text mt).

(** The patterns of [codeOnly] (parserUtils.ts:96-101). *)
Definition slashComment_re : regex := Seqs [Lit "//"; Star Dot; Eol].
Definition hashComment_re : regex := Seqs [Lit "#"; Star Dot; Eol].
Definition blockComment_re : regex := Seqs [Lit "/*"; StarLazy (Chr anyChar); Lit "*/"].
Definition dstr_re : regex := Seqs [Lit1 dq; strBody dq; Lit1 dq].
Definition sstr_re : regex := Seqs [Lit1 sq; strBody sq; Lit1 sq].
Definition tstr_re : regex := Seqs [Lit1 bq; strBody bq; Lit1 bq].
(** [/^typing|^types$|^collections\.abc/] *)
Definition typingModule_re : regex :=
  Alts [Seq Bol (Lit "typing"); Seqs [Bol; Lit "types"; Eol]; Seq Bol (Lit "collections.abc")].
(** parserUtils.ts:130: def, function or async function, [\s+\w+]. *)
Definition defName_re : regex :=
  Seqs [Alts [Lit "def"; Lit "function"; Lit "async function"]; Plus S_; Plus W_].

Definition stripLine (l : jsstring) : jsstring :=
  let s1 := replace_all slashComment_re l (fun _ => []) in
  let s2 := replace_all hashComment_re s1 (fun _ => []) in
  let s3 := replace_all blockComment_re s2 (fun _ => []) in
  let s4 := replace_all dstr_re s3 (fun _ => [dq; dq]) in
  let s5 := replace_all sstr_re s4 (fun _ => [sq; sq]) in
  replace_all tstr_re s5 (fun _ => [bq; bq]).

Definition codeOnlyOf (lines : list jsstring) (imports : list ImportInfo) : jsstring :=
  join (mapi (fun idx l => if isImportLine imports idx then [] else stripLine l) lines)
       [10%N].

(** [new RegExp('\\b' + escRe(name) + '\\b')] *)
Definition wordRegExp (name : jsstring) : outcome regex :=
  newRegExp (js "\b" ++ escRe name ++ js "\b").

Definition unusedImportsOf (codeOnly : jsstring) (imp : ImportInfo)
  : outcome (list UnusedItem) :=
  do found <- omapM (fun name =>
    if str_eqb name (js "*") || (length name <=? 1) then Ret []
    else if test typingModule_re (imp_module imp) || existsb (str_eqb name) typingNames
    then Ret []
    else
      do re <- wordRegExp name;
      if negb (test re codeOnly)
      then Ret [{| un_name := name; un_kind := uk_import; un_lineNumber := imp_lineNumber imp |}]
      else Ret []) (imp_names imp);
  Ret (concat found).

Definition unusedMethodOf (lines : list jsstring) (m : jsstring * nat)
  : outcome (list UnusedItem) :=
  let '(name, line) := m in
  do callRe <- newRegExp (js "(?:self\.|this\.|\$this->|\b)" ++ escRe name ++ js "\s*\(");
  let linesWithout := join (filteri_go (fun idx => negb (S idx =? line)) 0 lines) [10%N] in
  if negb (test callRe linesWithout) then
    do refRe <- wordRegExp name;
    let defsRemoved := replace_all defName_re linesWithout (fun _ => []) in
    if negb (test refRe defsRemoved)
    then Ret [{| un_name := name; un_kind := uk_method; un_lineNumber := line |}]
    else Ret []
  else Ret [].

Definition isConstructorName (n : jsstring) : bool :=
  str_eqb n (js "__init__") || str_eqb n (js "constructor") || str_eqb n (js "__construct").

Definition detectUnused (lines : list jsstring) (imports : list ImportInfo)
    (classes : list ClassInfo) (functions : list MethodInfo) (commentPrefix : jsstring)
  : outcome (list UnusedItem) :=
  let codeOnly := codeOnlyOf lines imports in
  do u1 <- omapM (unusedImportsOf codeOnly) imports;
  let allMethods :=
    List.map (fun f => (meth_name f, meth_lineNumber f)) functions
    ++ flat_map (fun c =>
         List.map (fun m => (meth_name m, meth_lineNumber m))
           (List.filter (fun m => negb (isConstructorName (meth_name m))
                                  && negb (startsWith (meth_name m) (js "__")))
                        (cls_methods c))) classes in
  do u2 <- omapM (unusedMethodOf lines) allMethods;
  Ret (concat u1 ++ concat u2).

(** [/\.\w+$/] *)
Definition ext_re : regex := Seqs [Lit "."; Plus W_; Eol].
Definition errorBase_re : regex := Alt (Lit "Error") (Lit "Exception").
Definition e_acute : jsstring := [233%N].
Definition u_acute : jsstring := [250%N].
Definition o_acute : jsstring := [243%N].

Definition isPublicAction (m : MethodInfo) : bool :=
  negb (meth_isPrivate m) && negb (isConstructorName (meth_name m)).

Definition genFileDesc (meta : option MetaBlock) (classes : list ClassInfo)
    (functions : list MethodInfo) (imports : list ImportInfo) (fileName : jsstring)
  : jsstring :=
  let name := orElse (meta ≫= meta_name) (replace_first ext_re fileName (fun _ => [])) in
  let type := orElse (meta ≫= meta_type) (js "module") in
  let parts1 :=
    if str_eqb type (js "service") || str_eqb type (js "controller") then
      match head classes with
      | Some main =>
          let actions := List.filter isPublicAction (cls_methods main) in
          [name ++ js " contiene " ++ numToString (length actions) ++ js " m" ++ e_acute
           ++ js "todo" ++ plural (negb (length actions =? 1)) "s"
           ++ js " p" ++ u_acute ++ js "blico" ++ plural (negb (length actions =? 1)) "s"
           ++ js "."]
      | None => []
      end
    else
      [name ++ js " contiene " ++ numToString (length classes) ++ js " clase"
       ++ plural (negb (length classes =? 1)) "s" ++ js " y "
       ++ numToString (length functions) ++ js " funci" ++ o_acute ++ js "n"
       ++ plural (negb (length functions =? 1)) "es" ++ js "."] in
  let ext := List.map imp_module
               (List.filter (fun i => negb (startsWith (imp_module i) (js "."))) imports) in
  let parts2 :=
    if 0 <? length ext
    then parts1 ++ [js "Deps: " ++ join (firstn 5 ext) (js ", ")
                    ++ plural (5 <? length ext) "..." ++ js "."]
    else parts1 in
  let asyncM := List.filter meth_isAsync functions
                ++ flat_map (fun c => List.filter meth_isAsync (cls_methods c)) classes in
  let parts3 :=
    if 0 <? length asyncM
    then parts2 ++ [numToString (length asyncM) ++ js " m" ++ e_acute ++ js "todo"
                    ++ plural (1 <? length asyncM) "s" ++ js " async."]
    else parts2 in
  join parts3 (js " ").

Definition genClassDesc (c : ClassInfo) : jsstring :=
  let pub := List.filter isPublicAction (cls_methods c) in
  if existsb (fun b => test errorBase_re b) (cls_bases c) then
    cls_name c ++ js " es una excepci" ++ o_acute ++ js "n que extiende "
    ++ join (cls_bases c) (js ", ") ++ js "."
  else if (length pub =? 0) && (0 <? length (cls_attributes c)) then
    cls_name c ++ js " es un modelo con " ++ numToString (length (cls_attributes c))
    ++ js " atributo" ++ plural (1 <? length (cls_attributes c)) "s" ++ js ": "
    ++ join (List.map port_name (cls_attributes c)) (js ", ") ++ js "."
  else
    cls_name c ++ js " tiene " ++ numToString (length pub) ++ js " m" ++ e_acute
    ++ js "todo" ++ plural (negb (length pub =? 1)) "s"
    ++ js " p" ++ u_acute ++ js "blico" ++ plural (negb (length pub =? 1)) "s"
    ++ (if 0 <? length (cls_bases c)
        then js ". Extiende " ++ join (cls_bases c) (js ", ") else [])
    ++ js ".".

Definition genClassDescs (classes : list ClassInfo) (_imports : list ImportInfo)
  : gmap jsstring jsstring :=
  fold_left (fun d c => record_set (cls_name c) (genClassDesc c) d) classes ∅.

End parserUtils.

(* ====================================================================== *)
(** * jsParser.ts *)
(* ====================================================================== *)

Module jsParser.
Import parserUtils.

Definition sdq : N -> bool := cls [chn sq; chn dq].          (* one of the two quotes *)
Definition nsdq : N -> bool := ncls [chn sq; chn dq].
Definition notClosingParen : regex := Star (Chr (ncls [ch ")"])).
Definition typeArgs : regex := Opt (Seqs [Lit "<"; Star (Chr (ncls [ch ">"])); Lit ">"]).
(** The optional return type annotation: [\s*:\s*], group [n] = one or more
    characters that are neither space nor an opening brace. *)
Definition retAnnot (n : nat) : regex :=
  Opt (Seqs [Star S_; Lit ":"; Star S_; Grp n (Plus (Chr (ncls [isSpace; ch "{"])))]).
Definition as_re : regex := Seqs [Plus S_; Lit "as"; Plus S_].

(** jsParser.ts:35: import, [\s+], either braces around group 1 or group 2
    = [\w+], [\s+from\s+], a quote, group 3, a quote. *)
Definition im1_re : regex :=
  Seqs [Bol; Lit "import"; Plus S_;
        Alt (Seqs [Lit "{"; Grp 1 (Plus (Chr (ncls [ch "}"]))); Lit "}"]) (Grp 2 (Plus W_));
        Plus S_; Lit "from"; Plus S_; Chr sdq; Grp 3 (Plus (Chr nsdq)); Chr sdq].
(** jsParser.ts:42: import star as group 1 from a quoted group 2. *)
Definition im2_re : regex :=
  Seqs [Bol; Lit "import"; Plus S_; Lit "*"; Plus S_; Lit "as"; Plus S_; Grp 1 (Plus W_);
        Plus S_; Lit "from"; Plus S_; Chr sdq; Grp 2 (Plus (Chr nsdq)); Chr sdq].
(** jsParser.ts:45: const, let or var, [\s+], braces around group 1 or group
    2 = [\w+], [\s*=\s*require\s*], an opening parenthesis, [\s*], a quoted
    group 3. *)
Definition im3_re : regex :=
  Seqs [Alts [Lit "const"; Lit "let"; Lit "var"]; Plus S_;
        Alt (Seqs [Lit "{"; Grp 1 (Plus (Chr (ncls [ch "}"]))); Lit "}"]) (Grp 2 (Plus W_));
        Star S_; Lit "="; Star S_; Lit "require"; Star S_; Lit "("; Star S_;
        Chr sdq; Grp 3 (Plus (Chr nsdq)); Chr sdq].

Definition importedName (n : jsstring) : outcome jsstring :=
  do h <- deref (head (split_re (trim n) as_re));
  Ret (trim h).

Definition parseJsImports (lines : list jsstring) : outcome (list ImportInfo) :=
  forLines (fun i line =>
    let l := trim line in
    match exec im1_re l with
    | Some im1 =>
        do names <-
          (if truthy (group im1 1)
           then do ns <- omapM importedName (split (orElse (group im1 1) []) (js ","));
                Ret (List.filter nonEmpty ns)
           else do g2 <- grp im1 2; Ret [g2]);
        do g3 <- grp im1 3;
        Ret [{| imp_module := g3; imp_names := names; imp_isFrom := true;
                imp_lineNumber := i + 1 |}]
    | None =>
        match exec im2_re l with
        | Some im2 =>
            do g2 <- grp im2 2;
            do g1 <- grp im2 1;
            Ret [{| imp_module := g2; imp_names := [g1]; imp_isFrom := true;
                    imp_lineNumber := i + 1 |}]
        | None =>
            match exec im3_re l with
            | Some im3 =>
                do names <-
                  (if truthy (group im3 1)
                   then Ret (List.filter nonEmpty
                               (List.map trim (split (orElse (group im3 1) []) (js ","))))
                   else do g2 <- grp im3 2; Ret [g2]);
                do g3 <- grp im3 3;
                Ret [{| imp_module := g3; imp_names := names; imp_isFrom := false;
                        imp_lineNumber := i + 1 |}]
            | None => Ret []
            end
        end
    end) 0 lines.

Fixpoint collectJsDecorators_go (lines : list jsstring) (j : nat) (decs : list jsstring)
  : outcome (list jsstring) :=
  match j with
  | 0 => Ret decs
  | S j' =>
      do l <- deref (nth_error lines j');
      let p := trim l in
      if startsWith p (js "@") then collectJsDecorators_go lines j' (p :: decs)
      else if negb (nonEmpty p) then collectJsDecorators_go lines j' decs
      else Ret decs
  end.
Definition collectJsDecorators (lines : list jsstring) (idx : nat) : outcome (list jsstring) :=
  collectJsDecorators_go lines idx [].

(** [/^(if|else if|else|for|while|switch|case)\b/] and [/\?\s*/] *)
Definition branchKw_re : regex :=
  Seqs [Bol; Grp 1 (Alts [Lit "if"; Lit "else if"; Lit "else"; Lit "for"; Lit "while";
                          Lit "switch"; Lit "case"]); WordB].
Definition ternary_re : regex := Seq (Lit "?") (Star S_).

Fixpoint countJsBranches_go (ls : list jsstring) (b : nat) (d : Z) (started : bool) : nat :=
  match ls with
  | [] => b
  | l :: rest =>
      let '(d', started') := scanBraces l d started in
      if started' && (d' <=? 0)%Z then b
      else
        let t := trim l in
        let b1 := if test branchKw_re t then S b else b in
        let b2 := if test ternary_re t && includes t (js ":") then S b1 else b1 in
        countJsBranches_go rest b2 d' started'
  end.
Definition countJsBranches (lines : list jsstring) (start : nat) : nat :=
  countJsBranches_go (skipn start lines) 0 0%Z false.

Definition splitJsParams_opening : N -> bool := cls [ch "("; ch "{"; ch "["; ch "<"].
Definition splitJsParams_closing : N -> bool := cls [ch ")"; ch "}"; ch "]"; ch ">"].
Fixpoint splitJsParams_go (s : jsstring) (d : Z) (c : jsstring) (r : list jsstring)
  : list jsstring :=
  match s with
  | [] => if nonEmpty (trim c) then r ++ [c] else r
  | x :: t =>
      let d1 := if splitJsParams_opening x then (d + 1)%Z else d in
      let d2 := if splitJsParams_closing x then (d1 - 1)%Z else d1 in
      if ch "," x && Z.eqb d2 0 then splitJsParams_go t d2 [] (r ++ [c])
      else splitJsParams_go t d2 (c ++ [x]) r
  end.
Definition splitJsParams (s : jsstring) : list jsstring := splitJsParams_go s 0%Z [] [].

(** [/^\.\.\.|[?]$/g] *)
Definition restOrOptional_re : regex := Alt (Seq Bol (Lit "...")) (Seq (Lit "?") Eol).

Definition parseJsParams (s : jsstring) : list PortInfo :=
  if negb (nonEmpty (trim s)) then []
  else
    flat_map (fun part =>
      let t := trim part in
      if negb (nonEmpty t) then []
      else
        let '(def, name1) :=
          match indexOf t (js "=") with
          | Some eq => (Some (trim (slice_from t (eq + 1))), trim (slice t 0 eq))
          | None => (None, t)
          end in
        let '(type, name2) :=
          match indexOf name1 (js ":") with
          | Some col => (trim (slice_from name1 (col + 1)), trim (slice name1 0 col))
          | None => (js "any", name1)
          end in
        let name := replace_all restOrOptional_re name2 (fun _ => []) in
        if nonEmpty name
        then [{| port_name := name; port_type := type; port_default := def |}]
        else [])
      (splitJsParams s).

(** jsParser.ts:78, [mm]: [^\s+], any number of modifiers (static, public,
    private, protected, readonly) each followed by [\s+], optionally group 1
    = async and [\s+], optionally get or set and [\s+], group 2 = [\w+],
    [\s*], optional type arguments, [\s*], parenthesised group 3, the
    optional return annotation as group 4, [\s*], an optional brace. *)
Definition mm_re : regex :=
  Seqs [Bol; Plus S_;
        Star (Seq (Alts [Lit "static"; Lit "public"; Lit "private"; Lit "protected";
                         Lit "readonly"]) (Plus S_));
        Opt (Grp 1 (Seq (Lit "async") (Plus S_)));
        Opt (Alt (Seq (Lit "get") (Plus S_)) (Seq (Lit "set") (Plus S_)));
        Grp 2 (Plus W_); Star S_; typeArgs; Star S_;
        Lit "("; Grp 3 notClosingParen; Lit ")"; retAnnot 4; Star S_; Opt (Lit "{")].

Definition isControlKw (n : jsstring) : bool :=
  str_eqb n (js "if") || str_eqb n (js "for") || str_eqb n (js "while")
  || str_eqb n (js "switch").

Fixpoint parseJsClassMethods_go (lines : list jsstring) (classLine : nat) (i : nat)
    (ls : list jsstring) (depth : Z) (started : bool) : outcome (list MethodInfo) :=
  match ls with
  | [] => Ret []
  | l :: rest =>
      let '(depth', started') := scanBraces l depth started in
      if started' && (depth' <=? 0)%Z then Ret []
      else if i =? classLine then
        parseJsClassMethods_go lines classLine (S i) rest depth' started'
      else
        do here <-
          match exec mm_re l with
          | Some mm =>
              do g2 <- grp mm 2;
              if negb (isControlKw g2) then
                do decs <- collectJsDecorators lines i;
                do g3 <- grp mm 3;
                let params := parseJsParams g3 in
                let isPriv := includes l (js "private") || startsWith g2 (js "_")
                              || startsWith g2 (js "#") in
                Ret [{| meth_name := g2; meth_params := params;
                        meth_returnType := orElse (group mm 4) (js "any");
                        meth_decorators := decs; meth_lineNumber := i + 1;
                        meth_isAsync := truthy (group mm 1); meth_isPrivate := isPriv;
                        meth_complexity := countJsBranches lines i |}]
              else Ret []
          | None => Ret []
          end;
        do more <- parseJsClassMethods_go lines classLine (S i) rest depth' started';
        Ret (here ++ more)
  end.
Definition parseJsClassMethods (lines : list jsstring) (classLine : nat)
  : outcome (list MethodInfo) :=
  parseJsClassMethods_go lines classLine classLine (skipn classLine lines) 0%Z false.

(** [/this\.(\w+)\s*=\s*/] *)
Definition thisAttr_re : regex :=
  Seqs [Lit "this."; Grp 1 (Plus W_); Star S_; Lit "="; Star S_].
(** jsParser.ts:103, [cf]: [^\s+], any number of modifiers or spaces, group
    1 = [\w+], [\s*], an optional question mark, a colon, [\s*], group 2 = a
    word character followed by word characters, angle brackets, square
    brackets or bars. *)
Definition cf_re : regex :=
  Seqs [Bol; Plus S_;
        Star (Alts [Lit "public"; Lit "private"; Lit "protected"; Lit "readonly"; S_]);
        Grp 1 (Plus W_); Star S_; Opt (Lit "?"); Lit ":"; Star S_;
        Grp 2 (Seq W_ (Star (Chr (cls [isWordChar; ch "<"; ch ">"; ch "["; ch "]"; ch "|"]))))].

Definition hasAttr (attrs : list PortInfo) (n : jsstring) : bool :=
  existsb (fun a => str_eqb (port_name a) n) attrs.

Fixpoint parseJsClassAttrs_go (ls : list jsstring) (attrs : list PortInfo) (depth : Z)
    (started : bool) : outcome (list PortInfo) :=
  match ls with
  | [] => Ret attrs
  | l :: rest =>
      let '(depth', started') := scanBraces l depth started in
      if started' && (depth' <=? 0)%Z then Ret attrs
      else
        do a1 <-
          match exec thisAttr_re l with
          | Some ta =>
              do n <- grp ta 1;
              if negb (hasAttr attrs n)
              then Ret (attrs ++ [{| port_name := n; port_type := js "any";
                                     port_default := None |}])
              else Ret attrs
          | None => Ret attrs
          end;
        do a2 <-
          match exec cf_re l with
          | Some cf =>
              if negb (includes l (js "(")) then
                do n <- grp cf 1;
                if negb (hasAttr a1 n)
                then do ty <- grp cf 2;
                     Ret (a1 ++ [{| port_name := n; port_type := ty; port_default := None |}])
                else Ret a1
              else Ret a1
          | None => Ret a1
          end;
        parseJsClassAttrs_go rest a2 depth' started'
  end.
Definition parseJsClassAttrs (lines : list jsstring) (classLine : nat)
  : outcome (list PortInfo) :=
  parseJsClassAttrs_go (skipn classLine lines) [] 0%Z false.

(** jsParser.ts:58, [cm]: optional export, class, group 1 = the name,
    optionally extends and group 2 (word characters and dots), [\s*], an
    opening brace. *)
Definition cm_re : regex :=
  Seqs [Bol; Opt (Seq (Lit "export") (Plus S_)); Lit "class"; Plus S_; Grp 1 (Plus W_);
        Opt (Seqs [Plus S_; Lit "extends"; Plus S_;
                   Grp 2 (Plus (Chr (cls [isWordChar; ch "."])))]);
        Star S_; Lit "{"].

Definition parseJsClasses (lines : list jsstring) : outcome (list ClassInfo) :=
  forLines (fun i l =>
    match exec cm_re l with
    | None => Ret []
    | Some cm =>
        do decorators <- collectJsDecorators lines i;
        let bases := if truthy (group cm 2) then [orElse (group cm 2) []] else [] in
        do methods <- parseJsClassMethods lines i;
        do attrs <- parseJsClassAttrs lines i;
        do name <- grp cm 1;
        Ret [{| cls_name := name; cls_bases := bases; cls_methods := methods;
                cls_attributes := attrs; cls_decorators := decorators;
                cls_lineNumber := i + 1 |}]
    end) 0 lines.


(** jsParser.ts:116, [f1]: optional export, optional default, optionally
    group 1 = async, function, group 2 = the name, optional type arguments,
    parenthesised group 3, the optional return annotation as group 4. *)
Definition f1_re : regex :=
  Seqs [Bol; Opt (Seq (Lit "export") (Plus S_)); Opt (Seq (Lit "default") (Plus S_));
        Opt (Grp 1 (Seq (Lit "async") (Plus S_))); Lit "function"; Plus S_;
        Grp 2 (Plus W_); Star S_; typeArgs; Star S_;
        Lit "("; Grp 3 notClosingParen; Lit ")"; retAnnot 4].
(** jsParser.ts:123, [f2]: optional export, const, let or var, group 1 =
    the name, [\s*=\s*], optionally group 2 = async, a parenthesised
    parameter list or group 3 = [\w+], [\s*], optionally a colon, a
    parenthesised list, an arrow and group 4, [\s*], an arrow. *)
Definition f2_re : regex :=
  Seqs [Bol; Opt (Seq (Lit "export") (Plus S_)); Alts [Lit "const"; Lit "let"; Lit "var"];
        Plus S_; Grp 1 (Plus W_); Star S_; Lit "="; Star S_;
        Opt (Grp 2 (Seq (Lit "async") (Plus S_)));
        Alt (Seqs [Lit "("; notClosingParen; Lit ")"]) (Grp 3 (Plus W_));
        Star S_;
        Opt (Seqs [Lit ":"; Star S_; Lit "("; notClosingParen; Lit ")"; Star S_; Lit "=>";
                   Star S_; Grp 4 (Plus (Chr (ncls [isSpace; ch "{"])))]);
        Star S_; Lit "=>"].

(** [indent > 2] for [indent = l.search(/\S/)], which is -1 when the line
    has no such character. *)
Definition nestedIndent (l : jsstring) : bool :=
  match search NotS_ l with
  | Some indent => 2 <? indent
  | None => false
  end.

Definition parseJsFunctions (lines : list jsstring) : outcome (list MethodInfo) :=
  forLines (fun i l =>
    if nestedIndent l then Ret []
    else
      match exec f1_re l with
      | Some f1 =>
          do decs <- collectJsDecorators lines i;
          do name <- grp f1 2;
          do g3 <- grp f1 3;
          Ret [{| meth_name := name; meth_params := parseJsParams g3;
                  meth_returnType := orElse (group f1 4) (js "any");
                  meth_decorators := decs; meth_lineNumber := i + 1;
                  meth_isAsync := truthy (group f1 1);
                  meth_isPrivate := startsWith name (js "_");
                  meth_complexity := countJsBranches lines i |}]
      | None =>
          match exec f2_re l with
          | Some f2 =>
              do name <- grp f2 1;
              Ret [{| meth_name := name; meth_params := [];
                      meth_returnType := orElse (group f2 4) (js "any");
                      meth_decorators := []; meth_lineNumber := i + 1;
                      meth_isAsync := truthy (group f2 2);
                      meth_isPrivate := startsWith name (js "_");
                      meth_complexity := countJsBranches lines i |}]
          | None => Ret []
          end
      end) 0 lines.

(** [/;$/] and the tests of [inferJsType]. *)
Definition semiEnd_re : regex := Seq (Lit ";") Eol.
Definition int_re : regex := Seqs [Bol; Opt (Lit "-"); Plus D_; Eol].
Definition float_re : regex := Seqs [Bol; Opt (Lit "-"); Plus D_; Lit "."; Plus D_; Eol].
Definition quoteStart_re : regex := Seq Bol (Chr (cls [chn sq; chn dq; chn bq])).

Definition inferJsType (val : jsstring) : jsstring :=
  let v := replace_first semiEnd_re (trim val) (fun _ => []) in
  if str_eqb v (js "true") || str_eqb v (js "false") then js "boolean"
  else if test int_re v then js "number"
  else if test float_re v then js "number"
  else if test quoteStart_re v then js "string"
  else if startsWith v (js "[") then js "array"
  else if startsWith v (js "{") then js "object"
  else js "any".

(** jsParser.ts:136, [cm]: optional export, const, group 1 = an
    upper-snake-case name, optionally a colon and group 2 = [\w+], [\s*=\s*],
    group 3 = [.+]. *)
Definition constMatch_re : regex :=
  Seqs [Bol; Opt (Seq (Lit "export") (Plus S_)); Lit "const"; Plus S_;
        Grp 1 (Seq (Chr (cls [isUpperAZ; ch "_"]))
                   (Star (Chr (cls [isUpperAZ; isDigit; ch "_"]))));
        Star S_; Opt (Seqs [Lit ":"; Star S_; Grp 2 (Plus W_)]);
        Star S_; Lit "="; Star S_; Grp 3 (Plus Dot)].

Definition parseJsGlobals (lines : list jsstring) : outcome (list PortInfo) :=
  forLines (fun i line =>
    let l := trim line in
    match exec constMatch_re l with
    | Some cm =>
        do name <- grp cm 1;
        do g3 <- grp cm 3;
        Ret [{| port_name := name;
                port_type := orElse (group cm 2) (inferJsType g3);
                port_default := Some (trim (replace_first semiEnd_re g3 (fun _ => []))) |}]
    | None => Ret []
    end) 0 lines.

(** [/throw\s+new\s+(\w+)/] *)
Definition throw_re : regex :=
  Seqs [Lit "throw"; Plus S_; Lit "new"; Plus S_; Grp 1 (Plus W_)].
(** jsParser.ts:146, [c]: catch, [\s*], an opening parenthesis, [\s*], group
    1 = [\w+], [\s*], optionally a colon, [\s*] and group 2 = [\w+], a
    closing parenthesis. *)
Definition catch_re : regex :=
  Seqs [Lit "catch"; Star S_; Lit "("; Star S_; Grp 1 (Plus W_); Star S_;
        Opt (Seqs [Lit ":"; Star S_; Grp 2 (Plus W_)]); Lit ")"].

Fixpoint parseJsErrors_go (ls : list jsstring) (errs : list jsstring)
  : outcome (list jsstring) :=
  match ls with
  | [] => Ret errs
  | l :: rest =>
      do e1 <-
        match exec throw_re l with
        | Some t => do g <- grp t 1; Ret (set_add g errs)
        | None => Ret errs
        end;
      let e2 :=
        match exec catch_re l with
        | Some c => if truthy (group c 2) then set_add (orElse (group c 2) []) e1 else e1
        | None => e1
        end in
      parseJsErrors_go rest e2
  end.
Definition parseJsErrors (lines : list jsstring) : outcome (list jsstring) :=
  parseJsErrors_go lines [].

Definition parseJsDebug (lines : list jsstring) : outcome (list nat) :=
  forLines (fun i l =>
    let t := trim l in
    if startsWith t (js "try") || startsWith t (js "catch") || startsWith t (js "} catch")
    then Ret [i + 1] else Ret []) 0 lines.

Fixpoint countJsCodeLines_go (ls : list jsstring) (c : nat) (inBlock : bool) : nat :=
  match ls with
  | [] => c
  | l :: rest =>
      let t := trim l in
      let inBlock1 := if startsWith t (js "/*") then true else inBlock in
      if inBlock1 then
        countJsCodeLines_go rest c (if includes t (js "*/") then false else inBlock1)
      else if negb (nonEmpty t) || startsWith t (js "//") then countJsCodeLines_go rest c inBlock1
      else countJsCodeLines_go rest (S c) inBlock1
  end.
Definition countJsCodeLines (lines : list jsstring) : nat :=
  countJsCodeLines_go lines 0 false.

Definition warnSign : jsstring := [9888%N].
Definition depMentioned (a b : jsstring) : bool := includes a b || includes b a.

Definition genWarnings (meta : option MetaBlock) (imports : list ImportInfo)
    (connections : list jsstring) : list jsstring :=
  match meta with
  | None => []
  | Some mb =>
      match meta_deps mb with
      | Some deps =>
          let mods := fold_left (fun acc i => set_add (imp_module i) acc) imports [] in
          flat_map (fun d =>
            if negb (existsb (fun m => depMentioned m d) mods)
            then [warnSign ++ js " Meta declara dep " ++ [dq] ++ d ++ [dq]
                  ++ js " no encontrada en imports"]
            else []) deps
          ++ flat_map (fun i =>
            if negb (existsb (fun d => depMentioned (imp_module i) d) deps)
            then [warnSign ++ js " Import " ++ [dq] ++ imp_module i ++ [dq]
                  ++ js " no declarado en meta.deps"]
            else []) imports
      | None => []
      end
  end.

Definition parseJsCode (code fileName : jsstring) : outcome FileStats :=
  let lines := splitLines code in
  do meta <- parseMetaBlock code;
  do imports <- parseJsImports lines;
  do classes <- parseJsClasses lines;
  do functions <- parseJsFunctions lines;
  do globalVars <- parseJsGlobals lines;
  do errorTypes <- parseJsErrors lines;
  do debugPoints <- parseJsDebug lines;
  let connections := List.map imp_module imports in
  let codeLines := countJsCodeLines lines in
  let warnings := genWarnings meta imports connections in
  let description :=
    if truthy (meta ≫= meta_desc) then orElse (meta ≫= meta_desc) []
    else genFileDesc meta classes functions imports fileName in
  let classDescriptions := genClassDescs classes imports in
  do hardcoded <- detectHardcoded lines (js "//");
  do unused <- detectUnused lines imports classes functions (js "//");
  Ret {| fileName := fileName; language := js "javascript"; meta := meta;
         classes := classes; functions := functions; imports := imports;
         globalVars := globalVars; connections := connections;
         errorTypes := errorTypes; debugPoints := debugPoints;
         totalLines := length lines; codeLines := codeLines;
         warnings := warnings; description := description;
         classDescriptions := classDescriptions; hardcoded := hardcoded;
         unused := unused; diagnostics := []; depIssues := []; todos := [];
         externalUsage := [] |}.

End jsParser.

(* ====================================================================== *)
(** * phpParser.ts *)
(* ====================================================================== *)

Module phpParser.
Import parserUtils.

Definition sdq : N -> bool := cls [chn sq; chn dq].
Definition nsdq : N -> bool := ncls [chn sq; chn dq].
Definition notClosingParen : regex := Star (Chr (ncls [ch ")"])).
Definition nsName : N -> bool := cls [isWordChar; chn bsl].          (* [\w\\] *)
Definition typeName : N -> bool := cls [isWordChar; chn bsl; ch "|"]. (* [\w\\|] *)

(** phpParser.ts:35, [u]: use, group 1 = a namespace path, optionally as
    and group 2 = [\w+], [\s*], a semicolon. *)
Definition use_re : regex :=
  Seqs [Bol; Lit "use"; Plus S_; Grp 1 (Plus (Chr nsName));
        Opt (Seqs [Plus S_; Lit "as"; Plus S_; Grp 2 (Plus W_)]); Star S_; Lit ";"].
(** phpParser.ts:43, [r]: require, include, require_once or include_once,
    [\s*], an optional parenthesis, a quoted group 1, an optional closing
    parenthesis. *)
Definition require_re : regex :=
  Seqs [Bol; Alts [Lit "require"; Lit "include"; Lit "require_once"; Lit "include_once"];
        Star S_; Opt (Lit "("); Chr sdq; Grp 1 (Plus (Chr nsdq)); Chr sdq; Opt (Lit ")")].

(** [parts[parts.length - 1]] *)
Definition lastOf (parts : list jsstring) : option jsstring := head (rev parts).

Definition parsePhpImports (lines : list jsstring) : outcome (list ImportInfo) :=
  forLines (fun i line =>
    let l := trim line in
    match exec use_re l with
    | Some u =>
        do g1 <- grp u 1;
        let parts := split g1 [bsl] in
        do name <-
          (if truthy (group u 2) then Ret (orElse (group u 2) [])
           else deref (lastOf parts));
        Ret [{| imp_module := g1; imp_names := [name]; imp_isFrom := true;
                imp_lineNumber := i + 1 |}]
    | None =>
        match exec require_re l with
        | Some r =>
            do g1 <- grp r 1;
            Ret [{| imp_module := g1; imp_names := [g1]; imp_isFrom := false;
                    imp_lineNumber := i + 1 |}]
        | None => Ret []
        end
    end) 0 lines.

(** [/^(if|elseif|else|for|foreach|while|switch|case)\b/] *)
Definition branchKw_re : regex :=
  Seqs [Bol; Grp 1 (Alts [Lit "if"; Lit "elseif"; Lit "else"; Lit "for"; Lit "foreach";
                          Lit "while"; Lit "switch"; Lit "case"]); WordB].

Fixpoint countPhpBranches_go (ls : list jsstring) (b : nat) (d : Z) (s : bool) : nat :=
  match ls with
  | [] => b
  | l :: rest =>
      let '(d', s') := scanBraces l d s in
      if s' && (d' <=? 0)%Z then b
      else
        let t := trim l in
        countPhpBranches_go rest (if test branchKw_re t then S b else b) d' s'
  end.
Definition countPhpBranches (lines : list jsstring) (start : nat) : nat :=
  countPhpBranches_go (skipn start lines) 0 0%Z false.

(** phpParser.ts:142, [tp]: group 1 = an optional question mark, a word
    character and type-name characters, [\s+], group 2 = a dollar and
    [\w+], up to the end; and [dp]: group 1 = a dollar and [\w+]. *)
Definition tp_re : regex :=
  Seqs [Bol; Grp 1 (Seqs [Opt (Lit "?"); W_; Star (Chr typeName)]); Plus S_;
        Grp 2 (Seq (Lit "$") (Plus W_)); Eol].
Definition dp_re : regex := Grp 1 (Seq (Lit "$") (Plus W_)).

Definition parsePhpParam (part : jsstring) : outcome (list PortInfo) :=
  let t := trim part in
  if negb (nonEmpty t) then Ret []
  else
    let '(def, name1) :=
      match indexOf t (js "=") with
      | Some eq => (Some (trim (slice_from t (eq + 1))), trim (slice t 0 eq))
      | None => (None, t)
      end in
    match exec tp_re name1 with
    | Some tp =>
        do ty <- grp tp 1;
        do nm <- grp tp 2;
        Ret [{| port_name := nm; port_type := ty; port_default := def |}]
    | None =>
        if startsWith name1 (js "$")
        then Ret [{| port_name := name1; port_type := js "mixed"; port_default := def |}]
        else
          match exec dp_re name1 with
          | Some dp =>
              do nm <- grp dp 1;
              Ret [{| port_name := nm; port_type := js "mixed"; port_default := def |}]
          | None =>
              Ret [{| port_name := name1; port_type := js "mixed"; port_default := def |}]
          end
    end.

Definition parsePhpParams (s : jsstring) : outcome (list PortInfo) :=
  if negb (nonEmpty (trim s)) then Ret []
  else
    do ps <- omapM parsePhpParam (split s (js ","));
    Ret (concat ps).

(** The optional return type: [\s*:\s*], an optional question mark, group
    [n] = type-name characters. *)
Definition retType (n : nat) : regex :=
  Opt (Seqs [Star S_; Lit ":"; Star S_; Opt (Lit "?"); Grp n (Plus (Chr typeName))]).

(** phpParser.ts:72, [mm]: [^\s+], optionally group 1 = a visibility
    keyword, optionally group 2 = static, function, group 3 = the name,
    parenthesised group 4, the optional return type as group 5, [\s*]. *)
Definition mm_re : regex :=
  Seqs [Bol; Plus S_;
        Opt (Seq (Grp 1 (Alts [Lit "public"; Lit "private"; Lit "protected"])) (Plus S_));
        Opt (Seq (Grp 2 (Lit "static")) (Plus S_));
        Lit "function"; Plus S_; Grp 3 (Plus W_); Star S_;
        Lit "("; Grp 4 notClosingParen; Lit ")"; retType 5; Star S_].

Fixpoint parsePhpClassMethods_go (lines : list jsstring) (i : nat) (ls : list jsstring)
    (depth : Z) (started : bool) : outcome (list MethodInfo) :=
  match ls with
  | [] => Ret []
  | l :: rest =>
      let '(depth', started') := scanBraces l depth started in
      if started' && (depth' <=? 0)%Z then Ret []
      else
        do here <-
          match exec mm_re l with
          | Some mm =>
              do g4 <- grp mm 4;
              do params <- parsePhpParams g4;
              let vis := orElse (group mm 1) (js "public") in
              do name <- grp mm 3;
              Ret [{| meth_name := name; meth_params := params;
                      meth_returnType := orElse (group mm 5) (js "mixed");
                      meth_decorators := if truthy (group mm 2) then [js "static"] else [];
                      meth_lineNumber := i + 1; meth_isAsync := false;
                      meth_isPrivate := str_eqb vis (js "private")
                                        || str_eqb vis (js "protected");
                      meth_complexity := countPhpBranches lines i |}]
          | None => Ret []
          end;
        do more <- parsePhpClassMethods_go lines (S i) rest depth' started';
        Ret (here ++ more)
  end.
Definition parsePhpClassMethods (lines : list jsstring) (classLine : nat)
  : outcome (list MethodInfo) :=
  parsePhpClassMethods_go lines classLine (skipn classLine lines) 0%Z false.

(** phpParser.ts:94, [pa]: [^\s+], a visibility keyword, [\s+], optional
    static, optionally an optional question mark with group 1 = a namespace
    path and [\s+], a dollar, group 2 = [\w+]; and [ta]: the this arrow,
    group 1 = [\w+], [\s*=]. *)
Definition pa_re : regex :=
  Seqs [Bol; Plus S_; Alts [Lit "public"; Lit "private"; Lit "protected"]; Plus S_;
        Opt (Seq (Lit "static") (Plus S_));
        Opt (Seqs [Opt (Lit "?"); Grp 1 (Plus (Chr nsName)); Plus S_]);
        Lit "$"; Grp 2 (Plus W_)].
Definition ta_re : regex := Seqs [Lit "$this->"; Grp 1 (Plus W_); Star S_; Lit "="].

Definition hasAttr (attrs : list PortInfo) (n : jsstring) : bool :=
  existsb (fun a => str_eqb (port_name a) n) attrs.

Fixpoint parsePhpClassAttrs_go (ls : list jsstring) (attrs : list PortInfo) (depth : Z)
    (started : bool) : outcome (list PortInfo) :=
  match ls with
  | [] => Ret attrs
  | l :: rest =>
      let '(depth', started') := scanBraces l depth started in
      if started' && (depth' <=? 0)%Z then Ret attrs
      else
        do a1 <-
          match exec pa_re l with
          | Some pa =>
              do g2 <- grp pa 2;
              Ret (attrs ++ [{| port_name := js "$" ++ g2;
                                port_type := orElse (group pa 1) (js "mixed");
                                port_default := None |}])
          | None => Ret attrs
          end;
        do a2 <-
          match exec ta_re l with
          | Some ta =>
              do g1 <- grp ta 1;
              if negb (hasAttr a1 (js "$" ++ g1))
              then Ret (a1 ++ [{| port_name := js "$" ++ g1; port_type := js "mixed";
                                  port_default := None |}])
              else Ret a1
          | None => Ret a1
          end;
        parsePhpClassAttrs_go rest a2 depth' started'
  end.
Definition parsePhpClassAttrs (lines : list jsstring) (classLine : nat)
  : outcome (list PortInfo) :=
  parsePhpClassAttrs_go (skipn classLine lines) [] 0%Z false.

(** phpParser.ts:53, [cm]: optional abstract or final, class, group 1 = the
    name, optionally extends and group 2 = [\w+], optionally implements and
    group 3 (word characters, commas, spaces), [\s*], an optional brace. *)
Definition cm_re : regex :=
  Seqs [Bol; Opt (Alt (Seq (Lit "abstract") (Plus S_)) (Seq (Lit "final") (Plus S_)));
        Lit "class"; Plus S_; Grp 1 (Plus W_);
        Opt (Seqs [Plus S_; Lit "extends"; Plus S_; Grp 2 (Plus W_)]);
        Opt (Seqs [Plus S_; Lit "implements"; Plus S_;
                   Grp 3 (Plus (Chr (cls [isWordChar; ch ","; isSpace])))]);
        Star S_; Opt (Lit "{")].

Definition parsePhpClasses (lines : list jsstring) : outcome (list ClassInfo) :=
  forLines (fun i l =>
    match exec cm_re l with
    | None => Ret []
    | Some cm =>
        let bases1 := if truthy (group cm 2) then [orElse (group cm 2) []] else [] in
        let bases :=
          if truthy (group cm 3)
          then bases1 ++ List.map trim (split (orElse (group cm 3) []) (js ","))
          else bases1 in
        do methods <- parsePhpClassMethods lines i;
        do attrs <- parsePhpClassAttrs lines i;
        do name <- grp cm 1;
        Ret [{| cls_name := name; cls_bases := bases; cls_methods := methods;
                cls_attributes := attrs; cls_decorators := []; cls_lineNumber := i + 1 |}]
    end) 0 lines.

(** phpParser.ts:109, [f]: function, group 1 = the name, parenthesised group
    2, the optional return type as group 3. *)
Definition f_re : regex :=
  Seqs [Bol; Lit "function"; Plus S_; Grp 1 (Plus W_); Star S_;
        Lit "("; Grp 2 notClosingParen; Lit ")"; retType 3; Star S_].

Definition nestedIndent (l : jsstring) : bool :=
  match search NotS_ l with
  | Some indent => 2 <? indent
  | None => false
  end.

Definition parsePhpFunctions (lines : list jsstring) : outcome (list MethodInfo) :=
  forLines (fun i l =>
    if nestedIndent l then Ret []
    else
      match exec f_re l with
      | Some f =>
          do name <- grp f 1;
          do g2 <- grp f 2;
          do params <- parsePhpParams g2;
          Ret [{| meth_name := name; meth_params := params;
                  meth_returnType := orElse (group f 3) (js "mixed");
                  meth_decorators := []; meth_lineNumber := i + 1; meth_isAsync := false;
                  meth_isPrivate := startsWith name (js "_");
                  meth_complexity := countPhpBranches lines i |}]
      | None => Ret []
      end) 0 lines.

(** phpParser.ts:125, [cm]: define, an opening parenthesis, a quoted group 1
    = [\w+], a comma, group 2 = [.+], a closing parenthesis; the cleaner of
    its value: a closing parenthesis and an optional semicolon at the end;
    and phpParser.ts:127, [cv]: const, group 1 = [\w+], [\s*=\s*], group 2 =
    [.+], a semicolon. *)
Definition define_re : regex :=
  Seqs [Bol; Lit "define"; Star S_; Lit "("; Star S_; Chr sdq; Grp 1 (Plus W_); Chr sdq;
        Star S_; Lit ","; Star S_; Grp 2 (Plus Dot); Lit ")"].
Definition defineTail_re : regex := Seqs [Lit ")"; Opt (Lit ";"); Eol].
Definition constDecl_re : regex :=
  Seqs [Bol; Lit "const"; Plus S_; Grp 1 (Plus W_); Star S_; Lit "="; Star S_;
        Grp 2 (Plus Dot); Lit ";"].

Definition parsePhpGlobals (lines : list jsstring) : outcome (list PortInfo) :=
  forLines (fun i line =>
    let l := trim line in
    do v1 <-
      match exec define_re l with
      | Some cm =>
          do name <- grp cm 1;
          do g2 <- grp cm 2;
          Ret [{| port_name := name; port_type := js "const";
                  port_default := Some (trim (replace_first defineTail_re g2 (fun _ => []))) |}]
      | None => Ret []
      end;
    do v2 <-
      match exec constDecl_re l with
      | Some cv =>
          do name <- grp cv 1;
          do g2 <- grp cv 2;
          Ret [{| port_name := name; port_type := js "const"; port_default := Some (trim g2) |}]
      | None => Ret []
      end;
    Ret (v1 ++ v2)) 0 lines.

(** [/throw\s+new\s+(\w+)/] and phpParser.ts:155, [c]: catch, [\s*], an
    opening parenthesis, [\s*], group 1 = a word character and type-name
    characters, one space character. *)
Definition throw_re : regex :=
  Seqs [Lit "throw"; Plus S_; Lit "new"; Plus S_; Grp 1 (Plus W_)].
Definition catch_re : regex :=
  Seqs [Lit "catch"; Star S_; Lit "("; Star S_; Grp 1 (Seq W_ (Star (Chr typeName))); S_].

Fixpoint parsePhpErrors_go (ls : list jsstring) (errs : list jsstring)
  : outcome (list jsstring) :=
  match ls with
  | [] => Ret errs
  | l :: rest =>
      do e1 <-
        match exec throw_re l with
        | Some t => do g <- grp t 1; Ret (set_add g errs)
        | None => Ret errs
        end;
      do e2 <-
        match exec catch_re l with
        | Some c => do g <- grp c 1; Ret (set_add g e1)
        | None => Ret e1
        end;
      parsePhpErrors_go rest e2
  end.
Definition parsePhpErrors (lines : list jsstring) : outcome (list jsstring) :=
  parsePhpErrors_go lines [].

(** [/catch\s*\(/] and [/}\s*catch/] *)
Definition catchOpen_re : regex := Seqs [Lit "catch"; Star S_; Lit "("].
Definition braceCatch_re : regex := Seqs [Lit "}"; Star S_; Lit "catch"].

Definition parsePhpDebug (lines : list jsstring) : outcome (list nat) :=
  forLines (fun i l =>
    let t := trim l in
    if startsWith t (js "try") || test catchOpen_re t || test braceCatch_re t
    then Ret [i + 1] else Ret []) 0 lines.

Fixpoint countPhpCodeLines_go (ls : list jsstring) (c : nat) (inB : bool) : nat :=
  match ls with
  | [] => c
  | l :: rest =>
      let t := trim l in
      let inB1 := if startsWith t (js "/*") then true else inB in
      if inB1 then
        countPhpCodeLines_go rest c (if includes t (js "*/") then false else inB1)
      else if negb (nonEmpty t) || startsWith t (js "//") || startsWith t (js "#")
              || str_eqb t (js "<?php") || str_eqb t (js "?>")
      then countPhpCodeLines_go rest c inB1
      else countPhpCodeLines_go rest (S c) inB1
  end.
Definition countPhpCodeLines (lines : list jsstring) : nat :=
  countPhpCodeLines_go lines 0 false.

Definition warnSign : jsstring := [9888%N].

Definition genWarnings (meta : option MetaBlock) (imports : list ImportInfo) : list jsstring :=
  match meta with
  | None => []
  | Some mb =>
      match meta_deps mb with
      | Some deps =>
          let mods := fold_left (fun acc i => set_add (imp_module i) acc) imports [] in
          flat_map (fun d =>
            if negb (existsb (fun m => includes m d || includes d m) mods)
            then [warnSign ++ js " Meta declara dep " ++ [dq] ++ d ++ [dq]
                  ++ js " no encontrada en imports"]
            else []) deps
      | None => []
      end
  end.

Definition parsePhpCode (code fileName : jsstring) : outcome FileStats :=
  let lines := splitLines code in
  do meta <- parseMetaBlock code;
  do imports <- parsePhpImports lines;
  do classes <- parsePhpClasses lines;
  do functions <- parsePhpFunctions lines;
  do globalVars <- parsePhpGlobals lines;
  do errorTypes <- parsePhpErrors lines;
  do debugPoints <- parsePhpDebug lines;
  let connections := List.map imp_module imports in
  let codeLines := countPhpCodeLines lines in
  let warnings := genWarnings meta imports in
  let description :=
    if truthy (meta ≫= meta_desc) then orElse (meta ≫= meta_desc) []
    else genFileDesc meta classes functions imports fileName in
  let classDescriptions := genClassDescs classes imports in
  do hardcoded <- detectHardcoded lines (js "//");
  do unused <- detectUnused lines imports classes functions (js "//");
  Ret {| fileName := fileName; language := js "php"; meta := meta;
         classes := classes; functions := functions; imports := imports;
         globalVars := globalVars; connections := connections;
         errorTypes := errorTypes; debugPoints := debugPoints;
         totalLines := length lines; codeLines := codeLines;
         warnings := warnings; description := description;
         classDescriptions := classDescriptions; hardcoded := hardcoded;
         unused := unused; diagnostics := []; depIssues := []; todos := [];
         externalUsage := [] |}.

End phpParser.

(* ====================================================================== *)
(** * htmlParser.ts *)
(* ====================================================================== *)

Module htmlParser.
Import parserUtils.

Definition sdq : N -> bool := cls [chn dq; chn sq].
Definition nsdq : N -> bool := ncls [chn dq; chn sq].
Definition notGt : N -> bool := ncls [ch ">"].

(** htmlParser.ts:534, 537, 541: a script tag with a quoted src as group 1;
    a link tag with a quoted href as group 1, closed further on; an import
    rule with an optional url and parenthesis and a quoted group 1. *)
Definition scr_re : regex :=
  Seqs [Lit "<script"; Plus (Chr notGt); Lit "src="; Chr sdq; Grp 1 (Plus (Chr nsdq)); Chr sdq].
Definition lnk_re : regex :=
  Seqs [Lit "<link"; Plus (Chr notGt); Lit "href="; Chr sdq; Grp 1 (Plus (Chr nsdq)); Chr sdq;
        Star (Chr notGt); Lit ">"].
Definition cssImport_re : regex :=
  Seqs [Lit "@import"; Plus S_; Opt (Lit "url("); Chr (cls [chn sq; chn dq]);
        Grp 1 (Plus (Chr (ncls [chn sq; chn dq]))); Chr (cls [chn sq; chn dq])].

Definition htmlImportsOfLine (i : nat) (l : jsstring) : outcome (list ImportInfo) :=
  do r1 <-
    match exec scr_re l with
    | Some scr =>
        do g <- grp scr 1;
        Ret [{| imp_module := g; imp_names := [js "script"]; imp_isFrom := true;
                imp_lineNumber := i + 1 |}]
    | None => Ret []
    end;
  do r2 <-
    match exec lnk_re l with
    | Some lnk =>
        do g <- grp lnk 1;
        if includes l (js "stylesheet") || endsWith g (js ".css")
        then Ret [{| imp_module := g; imp_names := [js "stylesheet"]; imp_isFrom := true;
                     imp_lineNumber := i + 1 |}]
        else Ret []
    | None => Ret []
    end;
  do r3 <-
    match exec cssImport_re l with
    | Some imp =>
        do g <- grp imp 1;
        Ret [{| imp_module := g; imp_names := [js "css"]; imp_isFrom := true;
                imp_lineNumber := i + 1 |}]
    | None => Ret []
    end;
  Ret (r1 ++ r2 ++ r3).

Definition parseHtmlImports (lines : list jsstring) : outcome (list ImportInfo) :=
  forLines htmlImportsOfLine 0 lines.

(** htmlParser.ts:567, [re]: group 1 = a word character and then word
    characters or dashes, an equals sign, a quote, group 2 = lazily any
    characters but quotes, a quote; with the [g] flag. *)
Definition attr_re : regex :=
  Seqs [Grp 1 (Seq W_ (Star (Chr (cls [isWordChar; ch "-"])))); Lit "="; Chr sdq;
        Grp 2 (StarLazy (Chr nsdq)); Chr sdq].

(** The loop [while ((m = re.exec(s)) !== null)]: the pattern never matches
    the empty string, so the matches are those of a global scan. *)
Definition parseHtmlAttrs (s : jsstring) : outcome (list PortInfo) :=
  omapM (fun m =>
    do n <- grp m 1;
    do v <- grp m 2;
    Ret {| port_name := n; port_type := v; port_default := None |}) (exec_all attr_re s).

(** htmlParser.ts:550, [majorTags], with the [i] flag: an opening angle
    bracket, group 1 = a tag name, a word boundary, group 2 = lazily any
    characters but the closing bracket, an optional closing bracket, [\s*],
    the end. *)
Definition majorTags : regex :=
  Seqs [Bol; Lit "<";
        Grp 1 (Alts [Liti "header"; Liti "nav"; Liti "main"; Liti "section"; Liti "article";
                     Liti "aside"; Liti "footer"; Liti "form"; Liti "table"; Liti "div"]);
        WordB; Grp 2 (StarLazy (Chr notGt)); Opt (Lit ">"); Star S_; Eol].

Definition parseHtmlComponents (lines : list jsstring) : outcome (list ClassInfo) :=
  forLines (fun i line =>
    match exec majorTags (trim line) with
    | None => Ret []
    | Some m =>
        do g1 <- grp m 1;
        let tag := toLowerCase g1 in
        do attrStr <- grp m 2;
        do attrs <- parseHtmlAttrs attrStr;
        let idAttr := List.find (fun a => str_eqb (port_name a) (js "id")) attrs in
        let classAttr := List.find (fun a => str_eqb (port_name a) (js "class")) attrs in
        do name <-
          match idAttr, classAttr with
          | Some ia, _ => Ret (tag ++ js "#" ++ port_type ia)
          | None, Some ca =>
              do first <- deref (head (split (port_type ca) (js " ")));
              Ret (tag ++ js "." ++ first)
          | None, None => Ret tag
          end;
        Ret [{| cls_name := name; cls_bases := [tag]; cls_methods := [];
                cls_attributes := attrs; cls_decorators := []; cls_lineNumber := i + 1 |}]
    end) 0 lines.

(** htmlParser.ts:582, [f]: optional async, function, group 1 = the name,
    parenthesised group 2; htmlParser.ts:588, [f2]: const, let or var, group
    1 = the name, [\s*=\s*], optional async, an opening parenthesis. *)
Definition f_re : regex :=
  Seqs [Opt (Seq (Lit "async") (Plus S_)); Lit "function"; Plus S_; Grp 1 (Plus W_); Star S_;
        Lit "("; Grp 2 (Star (Chr (ncls [ch ")"]))); Lit ")"].
Definition f2_re : regex :=
  Seqs [Alts [Lit "const"; Lit "let"; Lit "var"]; Plus S_; Grp 1 (Plus W_); Star S_; Lit "=";
        Star S_; Opt (Seq (Lit "async") (Plus S_)); Lit "("].

Definition mkInlineFn (name : jsstring) (params : list PortInfo) (ln : nat) (l : jsstring)
  : MethodInfo :=
  {| meth_name := name; meth_params := params; meth_returnType := js "any";
     meth_decorators := []; meth_lineNumber := ln; meth_isAsync := includes l (js "async");
     meth_isPrivate := false; meth_complexity := 0 |}.

Fixpoint parseInlineScriptFunctions_go (i : nat) (ls : list jsstring) (inScript : bool)
  : outcome (list MethodInfo) :=
  match ls with
  | [] => Ret []
  | line :: rest =>
      let l := trim line in
      let inScript1 :=
        if includes l (js "<script") && negb (includes l (js "src=")) then true else inScript in
      if includes l (js "</script>") then parseInlineScriptFunctions_go (S i) rest false
      else if negb inScript1 then parseInlineScriptFunctions_go (S i) rest inScript1
      else
        do r1 <-
          match exec f_re l with
          | Some f =>
              do g2 <- grp f 2;
              let params :=
                List.map (fun p => {| port_name := trim p; port_type := js "any";
                                      port_default := None |})
                         (List.filter nonEmpty (split g2 (js ","))) in
              do name <- grp f 1;
              Ret [mkInlineFn name params (i + 1) l]
          | None => Ret []
          end;
        do r2 <-
          match exec f2_re l with
          | Some f2 => do name <- grp f2 1; Ret [mkInlineFn name [] (i + 1) l]
          | None => Ret []
          end;
        do more <- parseInlineScriptFunctions_go (S i) rest inScript1;
        Ret (r1 ++ r2 ++ more)
  end.
Definition parseInlineScriptFunctions (lines : list jsstring) : outcome (list MethodInfo) :=
  parseInlineScriptFunctions_go 0 lines false.

(** htmlParser.ts:617, [pm]: group 1 = word characters or dashes, [\s*:\s*],
    group 2 = a lazy [.+], then a semicolon or the end. *)
Definition cssProp_re : regex :=
  Seqs [Bol; Grp 1 (Plus (Chr (cls [isWordChar; ch "-"]))); Star S_; Lit ":"; Star S_;
        Grp 2 (PlusLazy Dot); Alt (Lit ";") Eol].

Fixpoint countBraces (l : jsstring) (d : Z) : Z :=
  match l with
  | [] => d
  | c :: t =>
      let d1 := if ch "{" c then (d + 1)%Z else d in
      let d2 := if ch "}" c then (d1 - 1)%Z else d1 in
      countBraces t d2
  end.

Fixpoint parseCssProps_go (start i : nat) (ls : list jsstring) (d : Z) (props : list PortInfo)
  : outcome (list PortInfo) :=
  match ls with
  | [] => Ret props
  | line :: rest =>
      let d' := countBraces line d in
      do props' <-
        (if start <? i then
           match exec cssProp_re (trim line) with
           | Some pm =>
               do n <- grp pm 1;
               do v <- grp pm 2;
               Ret (props ++ [{| port_name := n; port_type := trim v; port_default := None |}])
           | None => Ret props
           end
         else Ret props);
      if (d' <=? 0)%Z && (start <? i) then Ret props'
      else parseCssProps_go start (S i) rest d' props'
  end.
Definition parseCssProps (lines : list jsstring) (start : nat) : outcome (list PortInfo) :=
  parseCssProps_go start start (skipn start lines) 0%Z [].

(** htmlParser.ts:602, [m]: group 1 = an optional dot, hash or at sign and
    then selector characters, [\s*], an opening brace. *)
Definition selector_re : regex :=
  Seqs [Bol;
        Grp 1 (Seq (Opt (Chr (cls [ch "."; ch "#"; ch "@"])))
                   (Plus (Chr (cls [isWordChar; ch "-"; ch ":"; ch "["; ch "]"; ch "=";
                                    ch "*"; ch ">"; ch "~"; ch "+"; ch ","; ch " "; ch ".";
                                    ch "#"]))));
        Star S_; Lit "{"].

Definition parseCssSelectors (lines : list jsstring) : outcome (list ClassInfo) :=
  forLines (fun i line =>
    let l := trim line in
    match exec selector_re l with
    | Some m =>
        if negb (startsWith l (js "/*")) then
          do props <- parseCssProps lines i;
          do g1 <- grp m 1;
          Ret [{| cls_name := trim g1; cls_bases := []; cls_methods := [];
                  cls_attributes := props; cls_decorators := []; cls_lineNumber := i + 1 |}]
        else Ret []
    | None => Ret []
    end) 0 lines.

Definition parseCssImports (lines : list jsstring) : outcome (list ImportInfo) :=
  forLines (fun i l =>
    match exec cssImport_re l with
    | Some m =>
        do g <- grp m 1;
        Ret [{| imp_module := g; imp_names := [js "css"]; imp_isFrom := true;
                imp_lineNumber := i + 1 |}]
    | None => Ret []
    end) 0 lines.

Fixpoint countHtmlCodeLines_go (ls : list jsstring) (c : nat) (inComment : bool) : nat :=
  match ls with
  | [] => c
  | l :: rest =>
      let t := trim l in
      let inC := if includes t (js "<!--") then true else inComment in
      if inC then countHtmlCodeLines_go rest c (if includes t (js "-->") then false else inC)
      else if negb (nonEmpty t) then countHtmlCodeLines_go rest c inC
      else countHtmlCodeLines_go rest (S c) inC
  end.
Definition countHtmlCodeLines (lines : list jsstring) : nat :=
  countHtmlCodeLines_go lines 0 false.

(** htmlParser.ts:651, [url]: href, src or action, an equals sign, a quote,
    group 1 = an http or https address without quotes, a quote; and
    htmlParser.ts:653, [ip]: a dotted quad as group 1 between word
    boundaries. *)
Definition d13 : regex := Rep 1 (Some 3) true D_.
Definition urlAttr_re : regex :=
  Seqs [Alts [Lit "href"; Lit "src"; Lit "action"]; Lit "="; Chr sdq;
        Grp 1 (Seqs [Lit "http"; Opt (Lit "s"); Lit "://"; Plus (Chr nsdq)]); Chr sdq].
Definition ip_re : regex :=
  Seqs [WordB; Grp 1 (Seqs [d13; Lit "."; d13; Lit "."; d13; Lit "."; d13]); WordB].

Definition detectHtmlHardcoded (lines : list jsstring) : outcome (list HardcodedValue) :=
  forLines (fun i l =>
    let url := exec urlAttr_re l in
    do r1 <-
      match url with
      | Some u =>
          do g <- grp u 1;
          do ctx <- deref (head (split (m_text u) (js "=")));
          Ret [mkHardcoded g hc_url (i + 1) ctx]
      | None => Ret []
      end;
    do r2 <-
      match exec ip_re l, url with
      | Some ip, None => do g <- grp ip 1; Ret [mkHardcoded g hc_ip (i + 1) (js "inline")]
      | _, _ => Ret []
      end;
    Ret (r1 ++ r2)) 0 lines.

Definition detectHtmlUnused (lines : list jsstring) (imports : list ImportInfo)
    (classes : list ClassInfo) : list UnusedItem := [].

Definition genHtmlDesc (lines : list jsstring) (classes : list ClassInfo)
    (imports : list ImportInfo) (fileName : jsstring) : jsstring :=
  let scripts :=
    length (List.filter (fun i => existsb (str_eqb (js "script")) (imp_names i)) imports) in
  let styles :=
    length (List.filter (fun i => existsb (str_eqb (js "stylesheet")) (imp_names i)
                                  || existsb (str_eqb (js "css")) (imp_names i)) imports) in
  let sections := length classes in
  fileName ++ js " tiene " ++ numToString sections ++ js " secciones principales, "
  ++ numToString scripts ++ js " script" ++ plural (negb (scripts =? 1)) "s" ++ js " y "
  ++ numToString styles ++ js " stylesheet" ++ plural (negb (styles =? 1)) "s" ++ js ".".

Definition sectionDesc (c : ClassInfo) : jsstring :=
  js "Secci" ++ o_acute ++ js "n <" ++ cls_name c ++ js "> con "
  ++ numToString (length (cls_attributes c)) ++ js " atributo"
  ++ plural (negb (length (cls_attributes c) =? 1)) "s" ++ js ".".

Definition parseHtmlCode (code fileName : jsstring) : outcome FileStats :=
  let lines := splitLines code in
  do meta <- parseMetaBlock code;
  do imports <- parseHtmlImports lines;
  do classes <- parseHtmlComponents lines;
  do functions <- parseInlineScriptFunctions lines;
  let connections := List.map imp_module imports in
  let codeLines := countHtmlCodeLines lines in
  do hardcoded <- detectHtmlHardcoded lines;
  let unused := detectHtmlUnused lines imports classes in
  let description :=
    if truthy (meta ≫= meta_desc) then orElse (meta ≫= meta_desc) []
    else genHtmlDesc lines classes imports fileName in
  let classDescriptions :=
    fold_left (fun d c => record_set (cls_name c) (sectionDesc c) d) classes ∅ in
  Ret {| fileName := fileName; language := js "html"; meta := meta;
         classes := classes; functions := functions; imports := imports;
         globalVars := []; connections := connections;
         errorTypes := []; debugPoints := [];
         totalLines := length lines; codeLines := codeLines;
         warnings := []; description := description;
         classDescriptions := classDescriptions; hardcoded := hardcoded;
         unused := unused; diagnostics := []; depIssues := []; todos := [];
         externalUsage := [] |}.

Definition parseCssCode (code fileName : jsstring) : outcome FileStats :=
  let lines := splitLines code in
  do meta <- parseMetaBlock code;
  do selectors <- parseCssSelectors lines;
  do imports <- parseCssImports lines;
  let codeLines := countHtmlCodeLines lines in
  do hardcoded <- detectHtmlHardcoded lines;
  let description :=
    if truthy (meta ≫= meta_desc) then orElse (meta ≫= meta_desc) []
    else js "Hoja de estilos con " ++ numToString (length selectors) ++ js " selectores. "
         ++ (if 0 <? length imports
             then js "Importa: " ++ join (List.map imp_module imports) (js ", ") ++ js "."
             else []) in
  Ret {| fileName := fileName; language := js "css"; meta := meta;
         classes := selectors; functions := []; imports := imports;
         globalVars := []; connections := List.map imp_module imports;
         errorTypes := []; debugPoints := [];
         totalLines := length lines; codeLines := codeLines;
         warnings := []; description := description;
         classDescriptions := ∅; hardcoded := hardcoded;
         unused := []; diagnostics := []; depIssues := []; todos := [];
         externalUsage := [] |}.

End htmlParser.

(* ====================================================================== *)
(** * analyzers.ts *)
(* ====================================================================== *)

Module analyzers.

Definition PY_STDLIB : list jsstring :=
  List.map js
  ["os";"sys";"re";"json";"math";"datetime";"typing";"pathlib";"collections";
   "abc";"functools";"itertools";"hashlib";"logging";"unittest";"io";"time";
   "random";"string";"copy";"enum";"dataclasses";"contextlib";"asyncio";
   "subprocess";"shutil";"glob";"tempfile";"threading";"multiprocessing";
   "socket";"http";"urllib";"base64";"csv";"xml";"html";"sqlite3";"struct";
   "argparse";"textwrap";"uuid";"decimal";"fractions";"statistics";"operator";
   "pprint";"warnings";"traceback";"inspect";"dis";"gc";"weakref";"array";
   "queue";"heapq";"bisect";"configparser";"secrets";"hmac";"pickle";
   "shelve";"dbm";"gzip";"zipfile";"tarfile";"lzma";"bz2";"zlib";"signal";
   "mmap";"ctypes";"platform";"sysconfig";"site";"venv";"compileall";
   "py_compile";"profile";"cProfile";"timeit";"trace";"pdb";"faulthandler";
   "atexit";"builtins";"importlib";"pkgutil";"modulefinder";"runpy";
   "_thread";"concurrent";"types";"codecs";"unicodedata";"stringprep";
   "readline";"rlcompleter";"struct";"codecs";
   "tkinter";"turtle";"idlelib";"turtledemo";"test";"distutils";"ensurepip";
   "lib2to3";"xmlrpc";"email";"mailbox";"mimetypes";"webbrowser";
   "cgi";"cgitb";"wsgiref";"ftplib";"poplib";"imaplib";"smtplib";
   "telnetlib";"socketserver";"select";"selectors";"ssl"]%string.

Definition NODE_BUILTINS : list jsstring :=
  List.map js
  ["fs";"path";"os";"http";"https";"url";"querystring";"stream";"buffer";
   "events";"util";"crypto";"zlib";"net";"dns";"tls";"child_process";
   "cluster";"readline";"repl";"vm";"assert";"console";"process";
   "timers";"worker_threads";"perf_hooks";"async_hooks";"inspector";
   "v8";"string_decoder";"punycode";"module";
   "node:fs";"node:path";"node:os";"node:http";"node:https";"node:url";
   "node:crypto";"node:stream";"node:events";"node:util";"node:child_process";
   "node:worker_threads";"node:net";"node:dns";"node:tls";"node:zlib";
   "node:assert";"node:buffer";"node:readline";"node:cluster"]%string.

(** The [stdlib] set local to [normalizeDep]. *)
Definition normalizeDep_stdlib : list jsstring :=
  List.map js
  ["os";"sys";"re";"json";"math";"datetime";"typing";"pathlib";"collections";"abc";
   "functools";"itertools";"hashlib";"logging";"unittest";"io";"time";"random";"string";
   "copy";"enum";"dataclasses";"contextlib";"asyncio";"subprocess";"shutil";"glob";
   "tempfile";"threading";"multiprocessing";"socket";"http";"urllib";"base64";"csv";"xml";
   "html";"sqlite3";"struct";"argparse";"textwrap";"uuid";"decimal";"fractions";
   "statistics";"operator";"pprint";"warnings";"traceback";"inspect";"dis";"gc";"weakref";
   "array";"queue";"heapq";"bisect";"configparser";"secrets";"hmac";"pickle";"shelve";
   "dbm";"gzip";"zipfile";"tarfile";"lzma";"bz2";"zlib";"signal";"mmap";"ctypes";
   "platform";"sysconfig";"site";"venv";"compileall";"py_compile";"profile";"cProfile";
   "timeit";"trace";"pdb";"faulthandler";"atexit";"builtins";"importlib";"pkgutil";
   "modulefinder";"runpy";"_thread";"concurrent";"types";"codecs";"unicodedata";
   "stringprep";"readline";"rlcompleter";"struct";"codecs"]%string.

Definition has (set : list jsstring) (x : jsstring) : bool := existsb (str_eqb x) set.

Definition isJsLike (lang : jsstring) : bool :=
  startsWith lang (js "javascript") || startsWith lang (js "typescript").

Definition isExternalImport (imp : ImportInfo) (lang : jsstring) : bool :=
  if str_eqb lang (js "python") then negb (startsWith (imp_module imp) (js "."))
  else if isJsLike lang
  then negb (startsWith (imp_module imp) (js ".")) && negb (startsWith (imp_module imp) (js "/"))
  else if str_eqb lang (js "php")
  then negb (startsWith (imp_module imp) (js ".")) && negb (startsWith (imp_module imp) (js "/"))
  else true.

Definition isInternalNs (ns : jsstring) : bool :=
  str_eqb ns (js "App") || str_eqb ns (js "Database") || str_eqb ns (js "Tests").

(** [normalizeDep]: [None] stands for [null]. *)
Definition normalizeDep (module lang : jsstring) : outcome (option jsstring) :=
  if str_eqb lang (js "python") then
    do base <- deref (head (split module (js ".")));
    if has normalizeDep_stdlib base then Ret None else Ret (Some base)
  else if isJsLike lang then
    if startsWith module (js "@")
    then Ret (Some (join (firstn 2 (split module (js "/"))) (js "/")))
    else do h <- deref (head (split module (js "/"))); Ret (Some h)
  else if str_eqb lang (js "php") then
    let parts := split module [bsl] in
    do p0 <- deref (head parts);
    if isInternalNs p0 then Ret None
    else Ret (Some (toLowerCase (join (firstn 2 parts) (js "/"))))
  else Ret (Some module).

(** [/[./\\]/], [/-/g] and [/_/g] *)
Definition pathSep_re : regex := Chr (cls [ch "."; ch "/"; chn bsl]).
Definition dash_re : regex := Lit "-".
Definition underscore_re : regex := Lit "_".

Definition keepImport (language : jsstring) (imp : ImportInfo) : outcome bool :=
  if negb (isExternalImport imp language) then Ret false
  else
    do base <- deref (head (split_re (imp_module imp) pathSep_re));
    if str_eqb language (js "python") && has PY_STDLIB base then Ret false
    else if isJsLike language && has NODE_BUILTINS (imp_module imp) then Ret false
    else if str_eqb language (js "php") then
      do ns <- deref (head (split (imp_module imp) [bsl]));
      if isInternalNs ns then Ret false else Ret true
    else Ret true.

Fixpoint filterM {A} (f : A -> outcome bool) (l : list A) : outcome (list A) :=
  match l with
  | [] => Ret []
  | x :: t =>
      do b <- f x;
      do r <- filterM f t;
      Ret (if b then x :: r else r)
  end.

Definition installCmdFor (language depName : jsstring) : jsstring :=
  if str_eqb language (js "python") then js "pip install " ++ depName
  else if isJsLike language then js "npm install " ++ depName
  else if str_eqb language (js "php") then js "composer require " ++ depName
  else [].

Section Dependencies.

(** [getInstalledPackages] reads manifests and runs a package manager; its
    result, a set of names or [null], is what the resolver sees of the file
    system. *)
Variable getInstalledPackages : jsstring -> jsstring -> option (list jsstring).

Definition issueOf (installed : option (list jsstring)) (language : jsstring)
    (imp : ImportInfo) : outcome (list DepIssue) :=
  do dep <- normalizeDep (imp_module imp) language;
  match dep with
  | Some (c :: t) =>
      let depName := c :: t in
      let status :=
        match installed with
        | Some (x :: xs) =>
            let set := x :: xs in
            let lower := toLowerCase depName in
            let found :=
              has set lower
              || has set (replace_all dash_re lower (fun _ => js "_"))
              || has set (replace_all underscore_re lower (fun _ => js "-")) in
            if found then dep_installed else dep_missing
        | _ => dep_unknown
        end in
      let installCmd :=
        match status with
        | dep_installed => []
        | _ => installCmdFor language depName
        end in
      Ret [{| dep_name := depName; dep_status := status;
              dep_lineNumber := imp_lineNumber imp; dep_installCmd := Some installCmd |}]
  | _ => Ret []
  end.

Definition checkDependencies (imports : list ImportInfo) (filePath language : jsstring)
  : outcome (list DepIssue) :=
  do externalImports <- filterM (keepImport language) imports;
  if length externalImports =? 0 then Ret []
  else
    let installed := getInstalledPackages filePath language in
    do issues <- omapM (issueOf installed language) externalImports;
    Ret (concat issues).

End Dependencies.

(** analyzers.ts:327, [re], with the [i] flag: a word boundary, group 1 =
    one of the markers, a word boundary, any colons and spaces, group 2 =
    the rest of the line. *)
Definition todo_re : regex :=
  Seqs [WordB; Grp 1 (Alts [Liti "TODO"; Liti "FIXME"; Liti "HACK"; Liti "BUG"; Liti "NOTE";
                            Liti "XXX"]);
        WordB; Star (Chr (cls [ch ":"; isSpace])); Grp 2 (Star Dot)].
Definition commentEnd_re : regex := Seqs [Lit "*/"; Star S_; Eol].
Definition markupEnd_re : regex := Seqs [Lit "-->"; Eol].

Definition scanTodos (lines : list jsstring) : outcome (list TodoItem) :=
  forLines (fun i line =>
    match exec todo_re line with
    | Some m =>
        do g1 <- grp m 1;
        let type0 := toUpperCase g1 in
        let type := if str_eqb type0 (js "XXX") then js "HACK" else type0 in
        do g2 <- grp m 2;
        let cleaned :=
          trim (replace_first markupEnd_re
                  (replace_first commentEnd_re (trim g2) (fun _ => [])) (fun _ => [])) in
        let text := orElse (Some cleaned) (js "(sin descripci" ++ [243%N] ++ js "n)") in
        Ret [{| todo_text := text; todo_type := type; todo_lineNumber := i + 1 |}]
    | None => Ret []
    end) 0 lines.

End analyzers.

(* ====================================================================== *)
(** * languageRouter.ts *)
(* ====================================================================== *)

Module languageRouter.

Definition langMap : list jsstring :=
  List.map js ["python"; "javascript"; "typescript"; "javascriptreact"; "typescriptreact";
               "php"; "html"; "css"]%string.

(** The property names that an object literal inherits from
    [Object.prototype]: the [in] operator finds them as it finds the keys of
    the literal. *)
Definition objectPrototypeKeys : list jsstring :=
  List.map js ["constructor"; "__defineGetter__"; "__defineSetter__"; "hasOwnProperty";
               "__lookupGetter__"; "__lookupSetter__"; "isPrototypeOf";
               "propertyIsEnumerable"; "toString"; "valueOf"; "__proto__";
               "toLocaleString"]%string.

(** [languageId in langMap] *)
Definition isSupported (languageId : jsstring) : bool :=
  existsb (str_eqb languageId) (langMap ++ objectPrototypeKeys).

Definition set_todos (stats : FileStats) (t : list TodoItem) : FileStats :=
  {| fileName := fileName stats; language := language stats; meta := meta stats;
     classes := classes stats; functions := functions stats; imports := imports stats;
     globalVars := globalVars stats; connections := connections stats;
     errorTypes := errorTypes stats; debugPoints := debugPoints stats;
     totalLines := totalLines stats; codeLines := codeLines stats;
     warnings := warnings stats; description := description stats;
     classDescriptions := classDescriptions stats; hardcoded := hardcoded stats;
     unused := unused stats; diagnostics := diagnostics stats;
     depIssues := depIssues stats; todos := t; externalUsage := externalUsage stats |}.

Definition parseCode (code fileName languageId : jsstring) : outcome FileStats :=
  do stats <-
    (if str_eqb languageId (js "python") then pythonParser.parsePythonCode code fileName
     else if str_eqb languageId (js "javascript") || str_eqb languageId (js "typescript")
             || str_eqb languageId (js "javascriptreact")
             || str_eqb languageId (js "typescriptreact")
     then jsParser.parseJsCode code fileName
     else if str_eqb languageId (js "php") then phpParser.parsePhpCode code fileName
     else if str_eqb languageId (js "html") then htmlParser.parseHtmlCode code fileName
     else if str_eqb languageId (js "css") then htmlParser.parseCssCode code fileName
     else pythonParser.parsePythonCode code fileName);
  let lines := splitLines code in
  do todos <- analyzers.scanTodos lines;
  (* [diagnostics] and [depIssues] are arrays already: the two guards that
     follow in the source leave them as they are *)
  Ret (set_todos stats todos).

End languageRouter.

(* ====================================================================== *)
(** * Writing inputs *)
(* ====================================================================== *)

(** A source text from its lines, and a double-quoted literal. *)
Definition src (ls : list jsstring) : jsstring := join ls [10%N].
Definition quoted (s : string) : jsstring := dq :: js s ++ [dq].

(** An outcome that is a value. *)
Definition returns {A} (o : outcome A) : Prop := exists a, o = Ret a.

(* ====================================================================== *)
(** * What a match guarantees about its capture groups *)
(* ====================================================================== *)

Module Captures.

(** [(n, b)]: group [n] is defined, and not empty when [b] holds. *)
Definition fact := (nat * bool)%type.

Definition holds (caps : list (nat * jsstring)) (f : fact) : bool :=
  match get_cap (fst f) caps with
  | Some v => if snd f then nonEmpty v else true
  | None => false
  end.

(** A disjunction of conjunctions of facts. *)
Definition sat (D : list (list fact)) (caps : list (nat * jsstring)) : bool :=
  existsb (fun d => forallb (holds caps) d) D.

Definition forget (ns : list nat) (d : list fact) : list fact :=
  List.filter (fun f => negb (existsb (Nat.eqb (fst f)) ns)) d.

Definition reps (lo : nat) (hi : option nat) : nat :=
  match hi with
  | Some h => Nat.min lo h
  | None => lo
  end.

(** The least number of code units a match consumes. *)
Fixpoint min_len (r : regex) : nat :=
  match r with
  | Chr _ => 1
  | Seq a b => min_len a + min_len b
  | Alt a b => Nat.min (min_len a) (min_len b)
  | Rep lo hi _ a => reps lo hi * min_len a
  | Grp _ a => min_len a
  | _ => 0
  end.

(** The facts after a match, from the facts before it. *)
Fixpoint after (r : regex) (D : list (list fact)) : list (list fact) :=
  match r with
  | Seq a b => after b (after a D)
  | Alt a b =>
      match groups a ++ groups b with
      | [] => D
      | _ :: _ => after a D ++ after b D
      end
  | Grp n a => List.map (fun d => (n, 0 <? min_len a) :: forget [n] d) (after a D)
  | Rep lo hi _ a =>
      match groups a, hi with
      | [], _ => D
      | _ :: _, Some 0 => D
      | _ :: _, _ =>
          (if lo =? 0 then D else []) ++ after a (List.map (forget (groups a)) D)
      end
  | _ => D
  end.

(** Patterns whose quantified capture groups are repeated at most once:
    all the patterns of the sources are of this kind. *)
Fixpoint simple (r : regex) : bool :=
  match r with
  | Seq a b | Alt a b => simple a && simple b
  | Grp _ a => simple a
  | Rep _ hi _ a =>
      simple a &&
      match groups a, hi with
      | [], _ => true
      | _ :: _, Some 0 => true
      | _ :: _, Some 1 => true
      | _ :: _, _ => false
      end
  | _ => true
  end.

(** Group [n] is defined after every match of [r]. *)
Definition must (r : regex) (n : nat) : bool :=
  simple r && forallb (fun d => existsb (fun f => Nat.eqb (fst f) n) d) (after r [[]]).

(** After every match of [r], group [n] is not empty or group [k] is
    defined. *)
Definition either (r : regex) (n k : nat) : bool :=
  simple r &&
  forallb (fun d => existsb (fun f => Nat.eqb (fst f) n && snd f) d
                    || existsb (fun f => Nat.eqb (fst f) k) d) (after r [[]]).

(** One step of the matcher, seen from its continuation: the input left is
    a suffix of the input before, at least [min_len] code units were
    consumed, and the facts of [after] hold. *)
Definition step_ok (n : nat) (r : regex) (s y : mstate) : Prop :=
  (exists w, ms_rest s = w ++ ms_rest y /\ n <= length w)
  /\ (forall D, sat D (ms_caps s) = true -> sat (after r D) (ms_caps y) = true).

(** The shape of a quantifier that [simple] accepts. *)
Definition rep_shape (a : regex) (hi : option nat) : Prop :=
  groups a = [] \/ hi = Some 0 \/ hi = Some 1.

End Captures.

(* ====================================================================== *)
(** * Patterns and texts used to state the results *)
(* ====================================================================== *)

(** The matches of a one-character pattern: one at every position whose
    code unit satisfies the test. *)
Fixpoint chr_matches (p : N -> bool) (rest : jsstring) (idx : nat) : list rmatch :=
  match rest with
  | [] => []
  | c :: t =>
      if p c then RMatch idx [c] [] (Some c) t :: chr_matches p t (S idx)
      else chr_matches p t (S idx)
  end.

(** The text [escapeRegex] produces, and the pattern a run of escaped
    characters denotes. *)
Definition escape (name : jsstring) : jsstring :=
  flat_map (fun c => if escapable c then [bsl; c] else [c]) name.
Fixpoint lits (name : jsstring) (tail : regex) : regex :=
  match name with
  | [] => tail
  | c :: t => Seq (Lit1 c) (lits t tail)
  end.
Definition starts_star (s : jsstring) : bool :=
  match s with
  | c :: _ => ch "*" c
  | [] => false
  end.
(** The pattern of [new RegExp('\\b' + escapeRegex(name) + '\\b')]. *)
Definition wordRe (name : jsstring) : regex := Seq WordB (lits name (Seq WordB Eps)).

(** The patterns of the call tests of [detectUnusedCode] and [detectUnused]. *)
Definition callTail : regex := Seq (Star S_) (Seq (Lit1 40) Eps).
Definition callRe_py (name : jsstring) : regex :=
  Seq (Alt (lits (js "self.") Eps) (Seq WordB Eps)) (lits name callTail).
Definition callRe_shared (name : jsstring) : regex :=
  Seq (Alt (lits (js "self.") Eps)
        (Alt (lits (js "this.") Eps) (Alt (lits (js "$this->") Eps) (Seq WordB Eps))))
      (lits name callTail).

(** Every line number that a summary holds. *)
Definition lineNumbersOf (s : FileStats) : list nat :=
  List.map imp_lineNumber (imports s)
  ++ List.map cls_lineNumber (classes s)
  ++ flat_map (fun c => List.map meth_lineNumber (cls_methods c)) (classes s)
  ++ List.map meth_lineNumber (functions s)
  ++ List.map hc_lineNumber (hardcoded s)
  ++ List.map un_lineNumber (unused s)
  ++ debugPoints s
  ++ List.map todo_lineNumber (todos s)
  ++ List.map diag_lineNumber (diagnostics s)
  ++ List.map dep_lineNumber (depIssues s).

(** A line number that 1-indexes one of [n] lines. *)
Definition within (n : nat) (k : nat) : Prop := 1 <= k <= n.


(** Small source texts on which the results are tried. *)
Definition sample_py : jsstring :=
  src [js "import os";
       js "class Store:";
       js "    def load(self, key):";
       js "        raise KeyError(key)  # TODO: report"].
Definition sample_js : jsstring :=
  src [js "import fs from 'fs';";
       js "class Store {";
       js "  load(key) {";
       js "    throw new RangeError(key);";
       js "  }";
       js "}"].

(** The two hardcoded-value scanners: that of the Python extractor, and the
    shared one, which the JavaScript and PHP extractors call with their
    comment prefix. *)
Inductive scanner : Type :=
  | PythonScanner
  | SharedScanner (commentPrefix : jsstring).

Definition scan (s : scanner) (lines : list jsstring) : outcome (list HardcodedValue) :=
  match s with
  | PythonScanner => pythonParser.detectHardcodedValues lines
  | SharedScanner commentPrefix => parserUtils.detectHardcoded lines commentPrefix
  end.

(** The lines that [detectHardcodedValues] passes over before it looks for
    anything (pythonParser.ts:616-620). *)
Definition py_skipped (trimmed : jsstring) : bool :=
  (startsWith trimmed (js "#") || negb (nonEmpty trimmed))
  || (startsWith trimmed (js "# ---meta") || startsWith trimmed (js "# ---"))
  || (startsWith trimmed (js "import ") || startsWith trimmed (js "from ")).

Definition passesOver (s : scanner) (trimmed : jsstring) : bool :=
  match s with
  | PythonScanner => py_skipped trimmed
  | SharedScanner commentPrefix => parserUtils.skipped commentPrefix trimmed
  end.

Definition credentialRe (s : scanner) : regex :=
  match s with
  | PythonScanner => pythonParser.credRe
  | SharedScanner _ => parserUtils.credRe
  end.

(** The findings reported for line [n]. *)
Definition findingsAt (n : nat) (r : list HardcodedValue) : list HardcodedValue :=
  List.filter (fun x => hc_lineNumber x =? n) r.

(** Texts for the scanners. *)
Definition password_line : jsstring := js "password = " ++ quoted "s3cr3t123".
Definition password_file : list jsstring :=
  [js "import os"; []; js "# settings"; js "retries = 3"; password_line].
Definition auth_line : jsstring := js "auth = " ++ quoted "s3cr3t123".
Definition dashed_token_line : jsstring := js "token = " ++ quoted "abc---def".
Definition long_literal_line : jsstring := js "userName = " ++ quoted "abcdefghij".

(** An import of a package that no standard library holds, and a resolver
    environment without any manifest or package list. *)
Definition requests_import : ImportInfo :=
  {| imp_module := js "requests"; imp_names := [js "requests"]; imp_isFrom := false;
     imp_lineNumber := 1 |}.
Definition no_packages (filePath language : jsstring) : option (list jsstring) := None.

(** The two unused-code detectors: that of the Python extractor, and the
    shared one of the JavaScript and PHP extractors. *)
Inductive detector : Type :=
  | PythonDetector
  | SharedDetector (commentPrefix : jsstring).

Definition detect (d : detector) (lines : list jsstring) (imports : list ImportInfo)
    (classes : list ClassInfo) (functions : list MethodInfo) : outcome (list UnusedItem) :=
  match d with
  | PythonDetector => pythonParser.detectUnusedCode lines imports classes functions
  | SharedDetector commentPrefix =>
      parserUtils.detectUnused lines imports classes functions commentPrefix
  end.




Definition json_in_string_file : list jsstring :=
  [js "import json"; js "path = " ++ quoted "config.json"].
Definition json_import : ImportInfo :=
  {| imp_module := js "json"; imp_names := [js "json"]; imp_isFrom := false;
     imp_lineNumber := 1 |}.

(** The literal of the scenario. *)
Definition notARealBrace : jsstring := quoted "{ not a real brace }".

(** A Python text with two imports and a guarded block. *)
Definition guarded_sample : jsstring :=
  src [js "import os";
       js "import sys";
       js "try:";
       js "    port = 8080";
       js "except ValueError:";
       js "    pass  # TODO: report"].

(** What a reported item says of its origin. *)
Definition fromImport (imports : list ImportInfo) (u : UnusedItem) : Prop :=
  un_kind u = uk_import
  /\ exists imp, List.In imp imports /\ List.In (un_name u) (imp_names imp)
                 /\ un_lineNumber u = imp_lineNumber imp
                 /\ 1 < length (un_name u) /\ un_name u <> js "*".
Definition fromCallable (classes : list ClassInfo) (functions : list MethodInfo)
    (u : UnusedItem) : Prop :=
  un_kind u = uk_method
  /\ exists m, un_name u = meth_name m /\ un_lineNumber u = meth_lineNumber m
               /\ (List.In m functions
                   \/ (startsWith (meth_name m) (js "__") = false
                       /\ exists c, List.In c classes /\ List.In m (cls_methods c))).


(** A resolver environment that lists one installed package. *)
Definition only_flask (filePath language : jsstring) : option (list jsstring) :=
  Some [js "flask"].
Definition flask_import : ImportInfo :=
  {| imp_module := js "flask"; imp_names := [js "Flask"]; imp_isFrom := true;
     imp_lineNumber := 2 |}.
Definition relative_import : ImportInfo :=
  {| imp_module := js ".models"; imp_names := [js "User"]; imp_isFrom := true;
     imp_lineNumber := 3 |}.

(** The numbers of opening and of closing braces of a text. *)
Definition opens (s : jsstring) : nat := length (List.filter (ch "{") s).
Definition closes (s : jsstring) : nat := length (List.filter (ch "}") s).

(** The kinds that one line can be reported with by the rules of each
    scanner, in the order of the findings.  The Python scanner has a rule for
    strings after the rule for port numbers; as it is written, the outer
    guard of that rule asks the target to be in capitals and the inner guard
    asks it not to be, so that no line is reported with [hc_string]. *)
Definition shapes (s : scanner) : list (list HardcodedType) :=
  match s with
  | PythonScanner =>
      [hc_credential]
      :: flat_map (fun kinds => [kinds; kinds ++ [hc_string]])
           [ []; [hc_url]; [hc_url; hc_number];
             [hc_ip]; [hc_ip; hc_number]; [hc_path]; [hc_path; hc_number];
             [hc_ip; hc_path]; [hc_ip; hc_path; hc_number]; [hc_number] ]
  | SharedScanner _ =>
      [ []; [hc_credential]; [hc_url]; [hc_url; hc_number];
        [hc_ip]; [hc_ip; hc_number]; [hc_number] ]
  end.

(** Texts for the scanners: an address with its port, and a comment. *)
Definition url_port_line : jsstring := js "url = 'http://10.0.0.1/x'; port = 8080".
Definition comment_line : jsstring := js "// password = " ++ quoted "s3cr3t123".

(** The pieces of a split, with the blank last piece that the split drops
    put back. *)
Definition restores (pieces : list jsstring) (s : jsstring) : Prop :=
  exists L, join L (js ",") = s
            /\ (pieces = L
                \/ exists c, L = pieces ++ [c] /\ nonEmpty (trim c) = false).


(** A line whose assignment target is longer than 30 code units. *)
Definition long_target_line : jsstring :=
  js "configuration.service.credentials.token = " ++ quoted "t0k3n".

(* ====================================================================== *)
(** * The texts that a pattern matches *)
(* ====================================================================== *)

(** The upper bound of a quantifier. *)
Definition atMost (hi : option nat) (n : nat) : Prop :=
  match hi with
  | Some h => n <= h
  | None => True
  end.

(** The texts that a pattern can consume, whatever surrounds them: an
    assertion consumes nothing, a repetition consumes the texts of a number
    of iterations between its bounds. *)
Fixpoint lang (r : regex) (w : jsstring) : Prop :=
  match r with
  | Eps | Bol | Eol | WordB => w = []
  | Chr p => exists c, w = [c] /\ p c = true
  | Seq a b => exists u v, w = u ++ v /\ lang a u /\ lang b v
  | Alt a b => lang a w \/ lang b w
  | Rep lo hi _ a =>
      exists ws, w = concat ws /\ List.Forall (lang a) ws
                 /\ Captures.reps lo hi <= length ws /\ atMost hi (length ws)
  | Grp _ a => lang a w
  end.

(** The capture groups of a pattern with their bodies. *)
Fixpoint bodies (r : regex) : list (nat * regex) :=
  match r with
  | Seq a b | Alt a b => bodies a ++ bodies b
  | Rep _ _ _ a => bodies a
  | Grp n a => (n, a) :: bodies a
  | _ => []
  end.

(** The captures [new] hold what [old] held or texts of the bodies [B]. *)
Definition caps_in (B : list (nat * regex)) (old new : list (nat * jsstring)) : Prop :=
  forall n v, get_cap n new = Some v ->
    get_cap n old = Some v \/ exists a, List.In (n, a) B /\ lang a v.

(** Texts of code units that all satisfy a test. *)
Definition allOf (p : N -> bool) (w : jsstring) : bool := forallb p w.

(** The text that group [n] holds in the first match of [r] in [l]. *)
Definition captured (r : regex) (n : nat) (l : jsstring) : option jsstring :=
  match exec r l with
  | Some mt => group mt n
  | None => None
  end.

(** types.ts:79, the values of the type of a TodoItem. *)
Definition todoKinds : list jsstring :=
  [js "TODO"; js "FIXME"; js "HACK"; js "BUG"; js "NOTE"].

(** A run of word characters that is not empty, and a PHP type name: a word
    character followed by word characters, backslashes and bars. *)
Definition isWord (w : jsstring) : bool := nonEmpty w && allOf isWordChar w.
Definition isTypeName (w : jsstring) : bool :=
  match w with
  | c :: t => isWordChar c && allOf phpParser.typeName t
  | [] => false
  end.

(** The three harvests of error names, the name that a line raises or
    throws and the type that a line catches. *)
Inductive harvest : Type := py_errors | js_errors | php_errors.
Definition errorsOf (h : harvest) (lines : list jsstring) : outcome (list jsstring) :=
  match h with
  | py_errors => pythonParser.parseErrorTypes lines
  | js_errors => jsParser.parseJsErrors lines
  | php_errors => phpParser.parsePhpErrors lines
  end.
Definition thrownIn (h : harvest) (l : jsstring) : option jsstring :=
  match h with
  | py_errors => captured pythonParser.raise_re 1 l
  | js_errors => captured jsParser.throw_re 1 l
  | php_errors => captured phpParser.throw_re 1 l
  end.
Definition caughtIn (h : harvest) (l : jsstring) : option jsstring :=
  match h with
  | py_errors =>
      match captured pythonParser.except_re 1 l with
      | Some n => if str_eqb n (js "Exception") then None else Some n
      | None => None
      end
  | js_errors => captured jsParser.catch_re 2 l
  | php_errors => captured phpParser.catch_re 1 l
  end.
Definition harvest_sample : list jsstring :=
  [js "try { load(); } catch (e: RangeError) {"; js "  throw new TypeError(e);"; js "}"].

(** The set [r] holds what [errs] held and what the lines [ls] throw or
    catch. *)
Definition harvested (h : harvest) (ls : list jsstring) (errs r : list jsstring) : Prop :=
  forall name,
    List.In name r <->
    List.In name errs
    \/ exists l, List.In l ls /\ (thrownIn h l = Some name \/ caughtIn h l = Some name).


(** The attributes have pairwise distinct names; every name is a run of
    word characters and no type is empty. *)
Definition distinctAttributes (attrs : list PortInfo) : Prop :=
  List.NoDup (List.map port_name attrs)
  /\ List.Forall (fun a => isWord (port_name a) = true /\ port_type a <> []) attrs.
Definition attrs_sample : list jsstring :=
  [js "class Store:"; js "    def __init__(self):"; js "        self.path = None";
   js "        self.path = 1"; js "        self.size: int = 0"].

(** Whether a pattern can match the empty text, and the code units that one
    of its texts can start with. *)
Fixpoint nullable (r : regex) : bool :=
  match r with
  | Chr _ => false
  | Seq a b => nullable a && nullable b
  | Alt a b => nullable a || nullable b
  | Rep lo hi _ a => (Captures.reps lo hi =? 0) || nullable a
  | Grp _ a => nullable a
  | _ => true
  end.
Fixpoint first (r : regex) (c : N) : bool :=
  match r with
  | Chr p => p c
  | Seq a b => first a c || (nullable a && first b c)
  | Alt a b => first a c || first b c
  | Rep _ _ _ a => first a c
  | Grp _ a => first a c
  | _ => false
  end.

(** The methods of a type lie on lines after the line of its header. *)
Definition afterHeader (c : ClassInfo) : Prop :=
  List.Forall (fun m => cls_lineNumber c < meth_lineNumber m) (cls_methods c).
Definition php_sample : jsstring :=
  src [js "<?php"; js "class Store {"; js "  public function load($key) {";
       js "    return $key;"; js "  }"; js "}"].

(* ====================================================================== *)
(** * extension.ts: the helpers that need no editor *)
(* ====================================================================== *)

Module extension.

(** [line.search(/\S/)]: the index of the first code unit that is no white
    space; [None] stands for -1. *)
Definition indentOf (line : jsstring) : option nat := search NotS_ line.

(** extension.ts:55-60, the loop of [findBlockEnd]: [i] is the index of the
    head of [ls]. A line without any code unit that is no white space has
    index -1, which is at most [startIndent]. *)
Fixpoint findBlockEnd_go (startIndent : nat) (ls : list jsstring) (i : nat) (end_ : nat)
  : nat :=
  match ls with
  | [] => end_
  | line :: t =>
      if negb (nonEmpty (trim line)) then findBlockEnd_go startIndent t (S i) i
      else
        match indentOf line with
        | Some k => if k <=? startIndent then end_ else findBlockEnd_go startIndent t (S i) i
        | None => end_
        end
  end.

(** [lines[startLine].search] raises a TypeError when the line is missing. *)
Definition findBlockEnd (lines : list jsstring) (startLine : nat) : outcome nat :=
  do l <- deref (nth_error lines startLine);
  match indentOf l with
  | None => Ret startLine
  | Some startIndent =>
      Ret (findBlockEnd_go startIndent (skipn (startLine + 1) lines) (startLine + 1)
             startLine)
  end.

(** extension.ts:14-19. [parts[parts.length - 2]] and [parts[parts.length -
    1]] are read from the end of the filtered list. *)
Definition shortName (fullPath : jsstring) : jsstring :=
  let sep := if includes fullPath [bsl] then [bsl] else js "/" in
  let parts := List.filter nonEmpty (split fullPath sep) in
  match rev parts with
  | lastPart :: parent :: _ => parent ++ js "/" ++ lastPart
  | [lastPart] => orElse (Some lastPart) (js "unknown")
  | [] => js "unknown"
  end.

End extension.

(** A line belongs to the block of a header: it is blank, or its first code
    unit that is no white space lies further right than that of the
    header. *)
Definition inBlock (header line : jsstring) : Prop :=
  trim line = []
  \/ exists a b, extension.indentOf header = Some a /\ extension.indentOf line = Some b
                 /\ a < b.

(** An upper-snake-case name: a capital or an underscore, followed by
    capitals, digits and underscores. *)
Definition isConstantName (w : jsstring) : bool :=
  match w with
  | c :: t => cls [isUpperAZ; ch "_"] c && allOf (cls [isUpperAZ; isDigit; ch "_"]) t
  | [] => false
  end.
(** What a listed global shows: a constant name, a type and a value. *)
Definition constantShown (v : PortInfo) : Prop :=
  isConstantName (port_name v) = true /\ port_type v <> []
  /\ exists d, port_default v = Some d /\ trim d = d.
Definition globals_sample : list jsstring :=
  [js "MAX_SIZE = 10"; js "name = 'x'"; js "  INNER = 1"; js "_DEBUG: bool = False  "].

(** The lines [k], ..., [idx - 1] of a text, and the lines that the
    decorator loops read on: a decorator line or a blank line. *)
Definition linesBetween (lines : list jsstring) (k idx : nat) : list jsstring :=
  firstn (idx - k) (skipn k lines).
Definition isDecoratorLine (l : jsstring) : bool := startsWith (trim l) (js "@").
Definition readOn (l : jsstring) : bool := isDecoratorLine l || negb (nonEmpty (trim l)).
Definition decorated_sample : list jsstring :=
  [js "x = 1"; js "@cache"; []; js "  @property  "; js "def size(self):"].

(** The two readers of the meta block and the marker that opens a block. *)
Inductive metaReader : Type := py_meta | shared_meta.
Definition readMeta (r : metaReader) (code : jsstring) : outcome (option MetaBlock) :=
  match r with
  | py_meta => pythonParser.parseMetaBlock code
  | shared_meta => parserUtils.parseMetaBlock code
  end.
Definition metaMarker : jsstring := js "---meta".
Definition meta_sample : jsstring :=
  src [js "# ---meta"; js "# name: store"; js "# deps: [os, , json ]"; js "# ---";
       js "import os"].

(** An entry of a list field: not empty, without white space around it and
    without a comma; and a list field that is present and holds such
    entries. *)
Definition cleanEntry (e : jsstring) : Prop :=
  e <> [] /\ trim e = e /\ ~ List.In (chr ",") e.
Definition cleanEntries (o : option (list jsstring)) : Prop :=
  exists l, o = Some l /\ List.Forall cleanEntry l.

(** What a listed Python method shows: a name that is a run of word
    characters, a return type that is not empty, the privacy flag of a
    leading underscore, and parameters that are neither self nor cls and
    carry a type. *)
Definition pyMethodShown (m : MethodInfo) : Prop :=
  isWord (meth_name m) = true
  /\ meth_returnType m <> []
  /\ meth_isPrivate m = startsWith (meth_name m) (js "_")
  /\ List.Forall (fun p => port_name p <> js "self" /\ port_name p <> js "cls"
                           /\ port_type p <> []) (meth_params m).
(** What a listed JavaScript method shows: a name that is a run of word
    characters and no control keyword, a return type that is not empty, and
    parameters with a name. *)
Definition jsMethodShown (m : MethodInfo) : Prop :=
  isWord (meth_name m) = true
  /\ jsParser.isControlKw (meth_name m) = false
  /\ meth_returnType m <> []
  /\ List.Forall (fun p => port_name p <> []) (meth_params m).
Definition methods_sample : list jsstring :=
  [js "class Store:"; js "    def load(self, key: str, *rest) -> bytes:";
   js "        return b''"; js "    def _drop(cls):"; js "        pass"].
Definition js_methods_sample : list jsstring :=
  [js "class Store {"; js "  load(key, ...rest) {"; js "    if (key) {";
   js "    }"; js "  }"; js "}"].

(** What a listed Python import shows. A from-import has a module made of
    word characters and dots and clean names; a plain import has its module
    as its only name, without white space around it and without comma. *)
Definition pyImportShown (i : ImportInfo) : Prop :=
  if imp_isFrom i
  then imp_module i <> [] /\ allOf (cls [isWordChar; ch "."]) (imp_module i) = true
       /\ List.Forall cleanEntry (imp_names i)
  else imp_names i = [imp_module i] /\ trim (imp_module i) = imp_module i
       /\ ~ List.In (chr ",") (imp_module i).
Definition imports_sample : list jsstring :=
  [js "from os.path import join as j, , exists"; js "import json as js, sys"].

(** What a finding of the markup scanner shows: an address of an href, src
    or action attribute that starts with http:// or https:// and holds no
    quote; or a dotted quad of 7 to 15 digits and dots, with the context
    inline. *)
Definition htmlFindingShown (h : HardcodedValue) : Prop :=
  (hc_type h = hc_url
   /\ List.In (hc_context h) [js "href"; js "src"; js "action"]
   /\ (startsWith (hc_value h) (js "http://") = true
       \/ startsWith (hc_value h) (js "https://") = true)
   /\ allOf htmlParser.nsdq (hc_value h) = true)
  \/ (hc_type h = hc_ip
      /\ hc_context h = js "inline"
      /\ allOf (cls [isDigit; ch "."]) (hc_value h) = true
      /\ 7 <= length (hc_value h) <= 15).
Definition html_sample : list jsstring :=
  [js "<a href='https://example.org/a'>10.0.0.1</a>"; js "<p>192.168.1.20</p>"].

(** The order in which one line is examined for the kinds that can share a
    line. *)
Definition priorityOrder : list HardcodedType :=
  [hc_url; hc_ip; hc_path; hc_number; hc_string].

(** The priorities of the scanners among the kinds of one line: a credential
    stands alone; an address excludes an ip and a path; the other kinds come
    at most once each and in the order of the rules; the shared scanner has
    no rule for paths and none for strings. *)
Definition followsPriorities (s : scanner) (kinds : list HardcodedType) : Prop :=
  (List.In hc_credential kinds -> kinds = [hc_credential])
  /\ (List.In hc_url kinds -> ~ List.In hc_ip kinds /\ ~ List.In hc_path kinds)
  /\ (kinds = [hc_credential] \/ sublist kinds priorityOrder)
  /\ match s with
     | PythonScanner => True
     | SharedScanner _ => ~ List.In hc_path kinds /\ ~ List.In hc_string kinds
     end.

(** The closing line of a callable that starts with a text, told from the
    braces of the text alone: the first line at whose end an opening brace
    was read and the depth, the opening less the closing braces read so far,
    is back at zero or below; the length of the text when it has no such
    line. *)
Definition closedAt (ls : list jsstring) (j : nat) : bool :=
  let read := concat (firstn (S j) ls) in
  (0 <? opens read) && (opens read <=? closes read).
Definition closingLine (ls : list jsstring) : nat :=
  match List.find (closedAt ls) (seq 0 (length ls)) with
  | Some j => j
  | None => length ls
  end.

(** The same line, found by one pass over the text, with [o] opening and [c]
    closing braces read before it. *)
Fixpoint closingLine_from (ls : list jsstring) (o c : nat) : nat :=
  match ls with
  | [] => 0
  | l :: rest =>
      let o' := o + opens l in
      let c' := c + closes l in
      if (0 <? o') && (o' <=? c') then 0 else S (closingLine_from rest o' c')
  end.

(** What the loops of the brace-delimited extractors do with one line that
    they read: the branches that [countJsBranches] and [countPhpBranches]
    count for it, and the methods that [parseJsClassMethods] and
    [parsePhpClassMethods] record for line [i]. *)
Definition jsBranchesOfLine (l : jsstring) : nat :=
  let t := trim l in
  (if test jsParser.branchKw_re t then 1 else 0)
  + (if test jsParser.ternary_re t && includes t (js ":") then 1 else 0).

Definition phpBranchesOfLine (l : jsstring) : nat :=
  if test phpParser.branchKw_re (trim l) then 1 else 0.

Definition jsMethodsOfLine (lines : list jsstring) (classLine : nat) (i : nat)
    (l : jsstring) : outcome (list MethodInfo) :=
  if i =? classLine then Ret []
  else
    match exec jsParser.mm_re l with
    | Some mm =>
        do g2 <- grp mm 2;
        if negb (jsParser.isControlKw g2) then
          do decs <- jsParser.collectJsDecorators lines i;
          do g3 <- grp mm 3;
          let params := jsParser.parseJsParams g3 in
          let isPriv := includes l (js "private") || startsWith g2 (js "_")
                        || startsWith g2 (js "#") in
          Ret [{| meth_name := g2; meth_params := params;
                  meth_returnType := orElse (group mm 4) (js "any");
                  meth_decorators := decs; meth_lineNumber := i + 1;
                  meth_isAsync := truthy (group mm 1); meth_isPrivate := isPriv;
                  meth_complexity := jsParser.countJsBranches lines i |}]
        else Ret []
    | None => Ret []
    end.

Definition phpMethodsOfLine (lines : list jsstring) (i : nat) (l : jsstring)
  : outcome (list MethodInfo) :=
  match exec phpParser.mm_re l with
  | Some mm =>
      do g4 <- grp mm 4;
      do params <- phpParser.parsePhpParams g4;
      let vis := orElse (group mm 1) (js "public") in
      do name <- grp mm 3;
      Ret [{| meth_name := name; meth_params := params;
              meth_returnType := orElse (group mm 5) (js "mixed");
              meth_decorators := if truthy (group mm 2) then [js "static"] else [];
              meth_lineNumber := i + 1; meth_isAsync := false;
              meth_isPrivate := str_eqb vis (js "private")
                                || str_eqb vis (js "protected");
              meth_complexity := phpParser.countPhpBranches lines i |}]
  | None => Ret []
  end.

(** The lines of a span read one after the other, from the first to the
    last, with no test of the depth: the branches counted and the methods
    recorded, line [i] first. *)
Definition branchesOfLines (count : jsstring -> nat) (ls : list jsstring) : nat :=
  list_sum (List.map count ls).

Fixpoint methodsOfLines (record : nat -> jsstring -> outcome (list MethodInfo)) (i : nat)
    (ls : list jsstring) : outcome (list MethodInfo) :=
  match ls with
  | [] => Ret []
  | l :: rest =>
      do here <- record i l;
      do more <- methodsOfLines record (S i) rest;
      Ret (here ++ more)
  end.

(** A class whose first method holds the literal, followed by a function. *)
Definition literal_class : list jsstring :=
  [js "class Reader {";
   js "  open(path) {";
   js "    const s = " ++ notARealBrace ++ js ";";
   js "    if (s) { return path; }";
   js "  }";
   js "  close() { return 0; }";
   js "}";
   js "function later() { if (x) { y(); } }"].

(** A PHP class whose method holds a string with interpolations, followed
    by a function. *)
Definition balanced_php_class : list jsstring :=
  [js "class Reader {";
   js "  public function open($path) {";
   js "    $s = " ++ quoted "{$path} and {$this->root}" ++ js ";";
   js "    if ($s) { return $path; }";
   js "  }";
   js "}";
   js "function later() { if ($x) { y(); } }"].

(** [s.replace(r, v)] for a pattern with the [g] flag and a replacement
    text [v], told without positions: the text is read from left to right;
    where the pattern matches, [v] is put out and the reading goes on after
    the match, or one code unit further when the match is empty; elsewhere
    the code unit is kept. [replace_all_from] shows that this is what
    [replace_all] returns. *)
Fixpoint replace_from (r : regex) (v : jsstring) (fuel : nat) (prev : option N)
    (rest : jsstring) : jsstring :=
  match fuel with
  | 0 => rest
  | S fuel' =>
      let step := match rest with
                  | [] => []
                  | c :: t => c :: replace_from r v fuel' (Some c) t
                  end in
      match match_at r prev rest 0 with
      | None => step
      | Some mt =>
          match m_text mt with
          | [] => v ++ step
          | _ :: _ => v ++ replace_from r v fuel' (m_after_prev mt) (m_after mt)
          end
      end
  end.

(** A text occurs in another one. *)
Definition occursIn (p s : jsstring) : Prop := exists a b, s = a ++ p ++ b.





Definition noneOf (cs : list N) (s : jsstring) : bool :=
  forallb (fun c => negb (existsb (N.eqb c) cs)) s.








(* ====================================================================== *)
(** * Basic facts *)
(* ====================================================================== *)

Section Basics.

Lemma str_eqb_eq (a b : jsstring) : str_eqb a b = true <-> a = b.
Proof.
  revert b. induction a as [|x a IH]; intros [|y b]; simpl; split; try congruence; auto.
  - intros H. apply andb_true_iff in H as [H1 H2].
    apply N.eqb_eq in H1. apply IH in H2. congruence.
  - intros H. injection H as -> ->. rewrite N.eqb_refl. simpl. now apply IH.
Qed.

Lemma str_eqb_refl (a : jsstring) : str_eqb a a = true.
Proof. now apply str_eqb_eq. Qed.

Lemma str_eqb_neq (a b : jsstring) : str_eqb a b = false <-> a <> b.
Proof.
  split.
  - intros H E. apply str_eqb_eq in E. congruence.
  - intros H. destruct (str_eqb a b) eqn:E; auto. apply str_eqb_eq in E. contradiction.
Qed.

Lemma existsb_str_eqb (x : jsstring) (l : list jsstring) :
  existsb (str_eqb x) l = true <-> List.In x l.
Proof.
  rewrite existsb_exists. split.
  - intros (y & Hy & E). apply str_eqb_eq in E. now subst.
  - intros H. exists x. split; auto. apply str_eqb_refl.
Qed.

Lemma set_add_NoDup (x : jsstring) (s : list jsstring) :
  List.NoDup s -> List.NoDup (set_add x s).
Proof.
  intros H. unfold set_add. destruct (existsb (str_eqb x) s) eqn:E; auto.
  apply List.NoDup_app; [exact H | repeat constructor; simpl; tauto |].
  intros a Ha [E'|[]]. subst a.
  assert (existsb (str_eqb x) s = true) by now apply existsb_str_eqb.
  congruence.
Qed.

Lemma set_add_In (x y : jsstring) (s : list jsstring) :
  List.In y (set_add x s) <-> y = x \/ List.In y s.
Proof.
  unfold set_add. destruct (existsb (str_eqb x) s) eqn:E.
  - apply existsb_str_eqb in E. split; [auto | intros [->|H]; auto].
  - rewrite List.in_app_iff. simpl. split.
    + intros [H|[H|[]]]; auto.
    + intros [->|H]; auto.
Qed.

Lemma obind_ret {A B} (m : outcome A) (f : A -> outcome B) (b : B) :
  obind m f = Ret b -> exists a, m = Ret a /\ f a = Ret b.
Proof. destruct m; simpl; [eauto | discriminate]. Qed.

Lemma returns_bind {A B} (m : outcome A) (f : A -> outcome B) :
  returns m -> (forall a, m = Ret a -> returns (f a)) -> returns (obind m f).
Proof. intros [a ->] H. simpl. now apply H. Qed.

Lemma returns_ret {A} (a : A) : returns (Ret a).
Proof. now exists a. Qed.

Lemma returns_omapM {A B} (f : A -> outcome B) (l : list A) :
  (forall x, List.In x l -> returns (f x)) -> returns (omapM f l).
Proof.
  induction l as [|x l IH]; intros H; simpl.
  - apply returns_ret.
  - apply returns_bind; [apply H; now left |].
    intros y _. apply returns_bind; [apply IH; intros; apply H; now right |].
    intros ys _. apply returns_ret.
Qed.

Lemma omapM_ret {A B} (f : A -> outcome B) (l : list A) (r : list B) :
  omapM f l = Ret r -> Forall2 (fun x y => f x = Ret y) l r.
Proof.
  revert r. induction l as [|x l IH]; simpl; intros r H.
  - injection H as <-. constructor.
  - apply obind_ret in H as (y & Hy & H). apply obind_ret in H as (ys & Hys & H).
    injection H as <-. constructor; auto.
Qed.

(** What [forLines] returns: the concatenation of what the body returns for
    each line, in order. *)
Lemma forLines_ret {B} (f : nat -> jsstring -> outcome (list B)) (i : nat)
    (ls : list jsstring) (r : list B) :
  forLines f i ls = Ret r ->
  exists parts, Forall2 (fun il xs => f (fst il) (snd il) = Ret xs)
                        (mapi_go (fun k l => (k, l)) i ls) parts
                /\ r = concat parts.
Proof.
  revert i r. induction ls as [|l ls IH]; simpl; intros i r H.
  - injection H as <-. exists []. split; constructor.
  - apply obind_ret in H as (xs & Hxs & H). apply obind_ret in H as (ys & Hys & H).
    injection H as <-. destruct (IH _ _ Hys) as (parts & HF & ->).
    exists (xs :: parts). split; [constructor; auto | reflexivity].
Qed.

Lemma returns_forLines {B} (f : nat -> jsstring -> outcome (list B)) (i : nat)
    (ls : list jsstring) :
  (forall k l, nth_error ls k = Some l -> returns (f (i + k) l)) ->
  returns (forLines f i ls).
Proof.
  revert i. induction ls as [|l ls IH]; intros i H; simpl.
  - apply returns_ret.
  - apply returns_bind.
    + specialize (H 0 l eq_refl). now rewrite Nat.add_0_r in H.
    + intros xs _. apply returns_bind.
      * apply IH. intros k l' Hk. specialize (H (S k) l' Hk).
        now replace (S i + k) with (i + S k) by lia.
      * intros ys _. apply returns_ret.
Qed.

(** Every item that [forLines] returns was returned by the body for some
    line [k] of the list. *)
Lemma forLines_In {B} (f : nat -> jsstring -> outcome (list B)) (i : nat)
    (ls : list jsstring) (r : list B) (x : B) :
  forLines f i ls = Ret r -> List.In x r ->
  exists k l xs, nth_error ls k = Some l /\ f (i + k) l = Ret xs /\ List.In x xs.
Proof.
  revert i r. induction ls as [|l ls IH]; simpl; intros i r H Hx.
  - injection H as <-. destruct Hx.
  - apply obind_ret in H as (xs & Hxs & H). apply obind_ret in H as (ys & Hys & H).
    injection H as <-. apply List.in_app_iff in Hx as [Hx|Hx].
    + exists 0, l, xs. rewrite Nat.add_0_r. auto.
    + destruct (IH _ _ Hys Hx) as (k & l' & xs' & Hk & Hf & Hin).
      exists (S k), l', xs'. replace (i + S k) with (S i + k) by lia. auto.
Qed.

End Basics.

(* ====================================================================== *)
(** * The matcher and the capture groups *)
(* ====================================================================== *)

Section MatcherFacts.
Import Captures.

Lemma get_cap_drop_ne (n : nat) (ns : list nat) (caps : list (nat * jsstring)) :
  existsb (Nat.eqb n) ns = false -> get_cap n (drop_caps ns caps) = get_cap n caps.
Proof.
  intros H. induction caps as [|[k v] caps IH]; simpl; auto.
  destruct (existsb (Nat.eqb k) ns) eqn:E; simpl.
  - destruct (Nat.eqb k n) eqn:Ekn; auto.
    apply Nat.eqb_eq in Ekn. subst. congruence.
  - rewrite IH. reflexivity.
Qed.

Lemma drop_caps_nil (caps : list (nat * jsstring)) : drop_caps [] caps = caps.
Proof.
  unfold drop_caps. induction caps as [|kv caps IH]; simpl; auto. now f_equal.
Qed.

Lemma holds_drop (ns : list nat) (caps : list (nat * jsstring)) (f : fact) :
  existsb (Nat.eqb (fst f)) ns = false -> holds (drop_caps ns caps) f = holds caps f.
Proof. intros H. unfold holds. now rewrite get_cap_drop_ne. Qed.

Lemma forallb_holds_forget (ns : list nat) (caps : list (nat * jsstring)) (d : list fact) :
  forallb (holds caps) d = true -> forallb (holds (drop_caps ns caps)) (forget ns d) = true.
Proof.
  induction d as [|f d IH]; simpl; auto.
  intros H. apply andb_true_iff in H as [H1 H2].
  destruct (existsb (Nat.eqb (fst f)) ns) eqn:E; simpl; auto.
  rewrite holds_drop by exact E. rewrite H1. simpl. auto.
Qed.

Lemma sat_forget (ns : list nat) (D : list (list fact)) (caps : list (nat * jsstring)) :
  sat D caps = true -> sat (List.map (forget ns) D) (drop_caps ns caps) = true.
Proof.
  unfold sat. rewrite !existsb_exists. intros (d & Hd & H).
  exists (forget ns d). split; [now apply List.in_map | now apply forallb_holds_forget].
Qed.

Lemma sat_app_l (D1 D2 : list (list fact)) caps : sat D1 caps = true -> sat (D1 ++ D2) caps = true.
Proof. unfold sat. rewrite existsb_app. intros ->. reflexivity. Qed.

Lemma sat_app_r (D1 D2 : list (list fact)) caps : sat D2 caps = true -> sat (D1 ++ D2) caps = true.
Proof. unfold sat. rewrite existsb_app. intros ->. apply orb_true_r. Qed.

Lemma sat_set_cap (n : nat) (v : jsstring) (b : bool) (D : list (list fact)) caps :
  (b = true -> nonEmpty v = true) ->
  sat D caps = true ->
  sat (List.map (fun d => (n, b) :: forget [n] d) D) (set_cap n v caps) = true.
Proof.
  intros Hb. unfold sat. rewrite !existsb_exists. intros (d & Hd & H).
  exists ((n, b) :: forget [n] d). split.
  - apply List.in_map_iff. eauto.
  - simpl. apply andb_true_iff. split.
    + unfold holds, set_cap. simpl. rewrite Nat.eqb_refl.
      destruct b; auto.
    + apply forallb_forall. intros f Hf.
      apply List.filter_In in Hf as [Hf Hne]. simpl in Hne.
      rewrite orb_false_r in Hne. apply negb_true_iff in Hne.
      rewrite forallb_forall in H. specialize (H f Hf).
      unfold holds, set_cap in *. simpl.
      rewrite Nat.eqb_sym, Hne.
      rewrite get_cap_drop_ne; auto. simpl. now rewrite Hne.
Qed.

Lemma after_nogroups (r : regex) (D : list (list fact)) : groups r = [] -> after r D = D.
Proof.
  revert D. induction r; simpl; intros D H; auto.
  - apply List.app_eq_nil in H as [H1 H2]. now rewrite IHr1, IHr2.
  - now rewrite H.
  - now rewrite H.
  - discriminate.
Qed.

Lemma after_rep_nogroups lo hi g (a : regex) D :
  groups a = [] -> after (Rep lo hi g a) D = D.
Proof. intros H. simpl. now rewrite H. Qed.

Lemma after_rep_zero lo g (a : regex) D : after (Rep lo (Some 0) g a) D = D.
Proof. simpl. now destruct (groups a). Qed.

Lemma after_rep_one lo g (a : regex) D :
  groups a <> [] ->
  after (Rep lo (Some 1) g a) D
  = (if lo =? 0 then D else []) ++ after a (List.map (forget (groups a)) D).
Proof. intros H. simpl. destruct (groups a) eqn:E; [contradiction | reflexivity]. Qed.

Lemma rep_sound (a : regex) (greedy : bool) :
  (forall s k z, m a s k = Some z -> exists y, k y = Some z /\ step_ok (min_len a) a s y) ->
  forall fuel lo hi s k z,
    rep_shape a hi ->
    rep (m a) (groups a) fuel lo hi greedy s k = Some z ->
    exists y, k y = Some z
      /\ step_ok (reps lo hi * min_len a) (Rep lo hi greedy a) s y.
Proof.
  intros IHa.
  assert (Hzero : forall lo hi s, rep_shape a hi -> (lo = 0 \/ hi = Some 0) ->
             step_ok (reps lo hi * min_len a) (Rep lo hi greedy a) s s).
  { intros lo hi s Hs Hz. split.
    - exists []. split; auto. simpl.
      destruct Hz as [->| ->]; simpl; [destruct hi; simpl; lia | rewrite Nat.min_0_r; lia].
    - intros D HD. destruct Hs as [Hs|[->| ->]].
      + now rewrite after_rep_nogroups.
      + now rewrite after_rep_zero.
      + destruct (decide (groups a = [])) as [E|E].
        * now rewrite after_rep_nogroups.
        * rewrite after_rep_one by exact E.
          destruct Hz as [->|Hz]; [|discriminate]. now apply sat_app_l. }
  assert (Hiter : forall fuel lo hi s k z,
    (forall lo hi s k z, rep_shape a hi ->
        rep (m a) (groups a) fuel lo hi greedy s k = Some z ->
        exists y, k y = Some z /\ step_ok (reps lo hi * min_len a) (Rep lo hi greedy a) s y) ->
    rep_shape a hi -> hi <> Some 0 ->
    m a (MState (ms_prev s) (ms_rest s) (drop_caps (groups a) (ms_caps s)))
        (fun y => if Nat.eqb lo 0 && Nat.eqb (length (ms_rest y)) (length (ms_rest s))
                  then None
                  else rep (m a) (groups a) fuel (Nat.pred lo) (option_map Nat.pred hi)
                         greedy y k) = Some z ->
    exists y, k y = Some z /\ step_ok (reps lo hi * min_len a) (Rep lo hi greedy a) s y).
  { intros fuel lo hi s k z IH Hs Hnz Hm.
    apply IHa in Hm as (y1 & Hd & [(w1 & Hw1 & Hl1) Hf1]).
    destruct (Nat.eqb lo 0 && Nat.eqb (length (ms_rest y1)) (length (ms_rest s)));
      [discriminate|].
    assert (Hs' : rep_shape a (option_map Nat.pred hi)).
    { destruct Hs as [Hs|[->| ->]]; [now left | contradiction | right; now left]. }
    apply IH in Hd as (y & Hk & [(w2 & Hw2 & Hl2) Hf2]); [|exact Hs'].
    exists y. split; auto. split.
    - exists (w1 ++ w2). simpl in Hw1. rewrite Hw1, Hw2, List.app_assoc. split; auto.
      rewrite List.length_app.
      assert (reps lo hi <= S (reps (Nat.pred lo) (option_map Nat.pred hi))).
      { destruct hi as [h|]; simpl; lia. }
      nia.
    - intros D HD.
      destruct (decide (groups a = [])) as [E|E].
      + rewrite after_rep_nogroups by exact E.
        specialize (Hf1 D). simpl in Hf1. rewrite after_nogroups in Hf1 by exact E.
        rewrite E, drop_caps_nil in Hf1.
        specialize (Hf2 D). rewrite after_rep_nogroups in Hf2 by exact E.
        apply Hf2, Hf1, HD.
      + destruct Hs as [Hs|[->| ->]]; [contradiction | contradiction |].
        rewrite after_rep_one by exact E. apply sat_app_r.
        specialize (Hf2 (after a (List.map (forget (groups a)) D))).
        simpl option_map in Hf2. rewrite after_rep_zero in Hf2.
        apply Hf2, Hf1. simpl. now apply sat_forget. }
  induction fuel as [|fuel IH]; intros lo hi s k z Hshape H; simpl in H; [discriminate|].
  destruct (decide (hi = Some 0)) as [E0|E0].
  - subst hi. exists s. split; auto.
  - assert (Hm : (if negb (Nat.eqb lo 0)
                  then m a (MState (ms_prev s) (ms_rest s) (drop_caps (groups a) (ms_caps s)))
                         (fun y => if Nat.eqb lo 0
                                      && Nat.eqb (length (ms_rest y)) (length (ms_rest s))
                                   then None
                                   else rep (m a) (groups a) fuel (Nat.pred lo)
                                          (option_map Nat.pred hi) greedy y k)
                  else if greedy then
                    match m a (MState (ms_prev s) (ms_rest s)
                                 (drop_caps (groups a) (ms_caps s)))
                            (fun y => if Nat.eqb lo 0
                                         && Nat.eqb (length (ms_rest y)) (length (ms_rest s))
                                      then None
                                      else rep (m a) (groups a) fuel (Nat.pred lo)
                                             (option_map Nat.pred hi) greedy y k) with
                    | Some z0 => Some z0
                    | None => k s
                    end
                  else
                    match k s with
                    | Some z0 => Some z0
                    | None =>
                        m a (MState (ms_prev s) (ms_rest s)
                               (drop_caps (groups a) (ms_caps s)))
                          (fun y => if Nat.eqb lo 0
                                       && Nat.eqb (length (ms_rest y)) (length (ms_rest s))
                                    then None
                                    else rep (m a) (groups a) fuel (Nat.pred lo)
                                           (option_map Nat.pred hi) greedy y k)
                    end) = Some z).
    { destruct hi as [[|h]|]; [congruence | exact H | exact H]. }
    clear H.
    destruct (negb (Nat.eqb lo 0)) eqn:Elo.
    + eapply Hiter; eauto.
    + apply negb_false_iff, Nat.eqb_eq in Elo. subst lo.
      destruct greedy.
      * destruct (m a _ _) eqn:Em in Hm.
        -- injection Hm as <-. eapply Hiter; eauto.
        -- exists s. split; auto.
      * destruct (k s) eqn:Ek.
        -- injection Hm as <-. exists s. split; auto.
        -- eapply Hiter; eauto.
Qed.

Lemma simple_rep_shape lo hi g (a : regex) :
  simple (Rep lo hi g a) = true -> simple a = true /\ rep_shape a hi.
Proof.
  simpl. intros H. apply andb_true_iff in H as [H1 H2]. split; auto.
  unfold rep_shape. destruct (groups a); auto.
  destruct hi as [[|[|h]]|]; auto; discriminate.
Qed.

Lemma m_sound (r : regex) :
  simple r = true ->
  forall s k z, m r s k = Some z ->
  exists y, k y = Some z /\ step_ok (min_len r) r s y.
Proof.
  induction r; intros Hs s k z H;
    [simpl in H | simpl in H | simpl in H | simpl in H | | simpl in H
     | simpl in H | simpl in H | simpl in H].
  - (* Eps *) exists s. split; auto. split; [exists []; auto | auto].
  - (* Chr *)
    destruct (ms_rest s) as [|c t] eqn:E; [discriminate|].
    destruct (p c); [|discriminate].
    eexists. split; [exact H|]. split; simpl; [exists [c]; rewrite E; auto | auto].
  - (* Seq *)
    simpl in Hs. apply andb_true_iff in Hs as [Hs1 Hs2].
    apply IHr1 in H as (y1 & H & [(w1 & Hw1 & Hl1) Hf1]); auto.
    apply IHr2 in H as (y2 & H & [(w2 & Hw2 & Hl2) Hf2]); auto.
    exists y2. split; auto. split.
    + exists (w1 ++ w2). rewrite Hw1, Hw2, List.app_assoc, List.length_app.
      split; auto. simpl. lia.
    + intros D HD. simpl. auto.
  - (* Alt *)
    simpl in Hs. apply andb_true_iff in Hs as [Hs1 Hs2].
    assert (Hcase : m r1 s k = Some z \/ m r2 s k = Some z).
    { destruct (m r1 s k); [left; congruence | right; exact H]. }
    clear H. destruct Hcase as [H|H].
    + apply IHr1 in H as (y & H & [(w & Hw & Hl) Hf]); auto.
      exists y. split; auto. split; [exists w; split; auto; simpl; lia|].
      intros D HD. simpl. destruct (groups r1 ++ groups r2) eqn:E.
      * apply List.app_eq_nil in E as [E1 E2].
        specialize (Hf D HD). now rewrite after_nogroups in Hf.
      * now apply sat_app_l, Hf.
    + apply IHr2 in H as (y & H & [(w & Hw & Hl) Hf]); auto.
      exists y. split; auto. split; [exists w; split; auto; simpl; lia|].
      intros D HD. simpl. destruct (groups r1 ++ groups r2) eqn:E.
      * apply List.app_eq_nil in E as [E1 E2].
        specialize (Hf D HD). now rewrite after_nogroups in Hf.
      * now apply sat_app_r, Hf.
  - (* Rep *)
    apply simple_rep_shape in Hs as [Hs Hshape].
    change (rep (m r) (groups r) (rep_fuel lo s) lo hi greedy s k = Some z) in H.
    eapply rep_sound in H; eauto.
  - (* Grp *)
    simpl in Hs.
    apply IHr in H as (y & H & [(w & Hw & Hl) Hf]); auto.
    eexists. split; [exact H|]. split; simpl.
    + exists w. auto.
    + intros D HD. apply sat_set_cap; auto.
      intros Hpos. apply Nat.ltb_lt in Hpos.
      rewrite Hw, List.length_app, Nat.add_sub, List.firstn_app, Nat.sub_diag.
      rewrite List.firstn_all. simpl. rewrite List.app_nil_r.
      destruct w; simpl in *; [lia | reflexivity].
  - (* Bol *)
    destruct (ms_prev s); [discriminate|].
    exists s. split; auto. split; [exists []; auto | auto].
  - (* Eol *)
    destruct (ms_rest s) eqn:E; [|discriminate].
    exists s. split; auto. split; [exists []; auto | auto].
  - (* WordB *)
    destruct (at_word_boundary s); [|discriminate].
    exists s. split; auto. split; [exists []; auto | auto].
Qed.

Lemma match_at_facts (r : regex) prev rest idx mt :
  simple r = true -> match_at r prev rest idx = Some mt ->
  sat (after r [[]]) (m_caps mt) = true.
Proof.
  intros Hs H. unfold match_at in H.
  destruct (m r _ _) as [y|] eqn:E; [|discriminate].
  injection H as <-. simpl.
  apply m_sound in E as (y' & Hy & [_ Hf]); auto.
  injection Hy as ->. apply Hf. reflexivity.
Qed.

Lemma exec_from_facts (r : regex) rest : forall prev idx mt,
  simple r = true -> exec_from r prev rest idx = Some mt ->
  sat (after r [[]]) (m_caps mt) = true.
Proof.
  induction rest as [|c t IH]; intros prev idx mt Hs H; simpl in H.
  - destruct (match_at r prev [] idx) eqn:E; [|discriminate].
    injection H as <-. eapply match_at_facts; eauto.
  - destruct (match_at r prev (c :: t) idx) eqn:E.
    + injection H as <-. eapply match_at_facts; eauto.
    + eapply IH; eauto.
Qed.

Lemma sat_must (r : regex) (n : nat) caps :
  forallb (fun d => existsb (fun f => Nat.eqb (fst f) n) d) (after r [[]]) = true ->
  sat (after r [[]]) caps = true -> exists v, get_cap n caps = Some v.
Proof.
  intros Hall Hsat. unfold sat in Hsat. apply existsb_exists in Hsat as (d & Hd & Hf).
  rewrite forallb_forall in Hall. specialize (Hall d Hd).
  apply existsb_exists in Hall as (f & Hin & Hn). apply Nat.eqb_eq in Hn.
  rewrite forallb_forall in Hf. specialize (Hf f Hin).
  unfold holds in Hf. rewrite Hn in Hf. destruct (get_cap n caps); [eauto | discriminate].
Qed.

(** A group that [must] be defined can be read after every match. *)
Lemma exec_from_must (r : regex) (n : nat) prev rest idx mt :
  must r n = true -> exec_from r prev rest idx = Some mt -> returns (grp mt n).
Proof.
  unfold must. intros H He. apply andb_true_iff in H as [Hs Hall].
  apply exec_from_facts in He; auto.
  destruct (sat_must _ _ _ Hall He) as [v Hv].
  exists v. unfold grp, group. now rewrite Hv.
Qed.

Lemma exec_must (r : regex) (n : nat) s mt :
  must r n = true -> exec r s = Some mt -> returns (grp mt n).
Proof. apply exec_from_must. Qed.

(** When [either r n k] holds and group [n] is not truthy, group [k] can be
    read. *)
Lemma exec_either (r : regex) (n k : nat) s mt :
  either r n k = true -> exec r s = Some mt ->
  truthy (group mt n) = false -> returns (grp mt k).
Proof.
  unfold either. intros H He Hn. apply andb_true_iff in H as [Hs Hall].
  apply exec_from_facts in He; auto.
  unfold sat in He. apply existsb_exists in He as (d & Hd & Hf).
  rewrite forallb_forall in Hall. specialize (Hall d Hd).
  rewrite forallb_forall in Hf.
  apply orb_true_iff in Hall as [Hall|Hall].
  - apply existsb_exists in Hall as (f & Hin & Hfn).
    apply andb_true_iff in Hfn as [Hfn Hb]. apply Nat.eqb_eq in Hfn.
    specialize (Hf f Hin). unfold holds in Hf. rewrite Hfn, Hb in Hf.
    unfold truthy, group in Hn.
    destruct (get_cap n (m_caps mt)) as [[|c v]|]; simpl in *; discriminate.
  - apply existsb_exists in Hall as (f & Hin & Hfn). apply Nat.eqb_eq in Hfn.
    specialize (Hf f Hin). unfold holds in Hf. rewrite Hfn in Hf.
    unfold grp, group. destruct (get_cap k (m_caps mt)); [apply returns_ret | discriminate].
Qed.

Lemma exec_all_go_must (r : regex) (n : nat) fuel : forall prev rest idx mt,
  must r n = true -> List.In mt (exec_all_go r fuel prev rest idx) -> returns (grp mt n).
Proof.
  induction fuel as [|fuel IH]; intros prev rest idx mt Hm Hin; simpl in Hin; [destruct Hin|].
  destruct (exec_from r prev rest idx) as [mt0|] eqn:E; [|destruct Hin].
  assert (H0 : returns (grp mt0 n)) by (eapply exec_from_must; eauto).
  destruct (m_text mt0), (m_after mt0); simpl in Hin;
    repeat (destruct Hin as [<-|Hin]; [exact H0|]); try (now destruct Hin);
    eapply IH; eauto.
Qed.

End MatcherFacts.

Section SplitFacts.

Lemma split_go_head (sep : jsstring) fuel s cur : exists h, head (split_go sep fuel s cur) = Some h.
Proof.
  revert s cur. induction fuel as [|fuel IH]; intros s cur; simpl; [eauto|].
  destruct s as [|c t]; [eauto|].
  destruct (startsWith (c :: t) sep); simpl; eauto.
Qed.

Lemma split_head (s sep : jsstring) : returns (deref (head (split s sep))).
Proof.
  unfold split. destruct (split_go_head sep (S (length s)) s []) as [h ->]. apply returns_ret.
Qed.

Lemma split_not_nil (s sep : jsstring) : split s sep <> [].
Proof.
  unfold split. destruct (split_go_head sep (S (length s)) s []) as [h H].
  intros E. rewrite E in H. discriminate.
Qed.

Lemma split_last (s sep : jsstring) : returns (deref (phpParser.lastOf (split s sep))).
Proof.
  unfold phpParser.lastOf. pose proof (split_not_nil s sep) as H.
  destruct (rev (split s sep)) eqn:E.
  - apply (f_equal (@rev _)) in E. rewrite List.rev_involutive in E. contradiction.
  - apply returns_ret.
Qed.

Lemma split_re_go_head (r : regex) fuel : forall prev rest cur,
  exists h, head (split_re_go r fuel prev rest cur) = Some h.
Proof.
  induction fuel as [|fuel IH]; intros prev rest cur; simpl; [eauto|].
  destruct rest as [|c t]; [eauto|].
  destruct (match_at r prev (c :: t) 0) as [mt|]; [|apply IH].
  destruct (m_text mt); [destruct cur|]; simpl; eauto.
Qed.

Lemma split_re_head (s : jsstring) (r : regex) :
  match_at r None [] 0 = None -> returns (deref (head (split_re s r))).
Proof.
  intros H. unfold split_re. destruct s as [|c t].
  - rewrite H. apply returns_ret.
  - destruct (split_re_go_head r (S (2 * length (c :: t))) None (c :: t) []) as [h ->].
    apply returns_ret.
Qed.

End SplitFacts.

Section ReplaceFacts.

Lemma match_at_chr (p : N -> bool) prev c t idx :
  match_at (Chr p) prev (c :: t) idx
  = if p c then Some (RMatch idx [c] [] (Some c) t) else None.
Proof.
  unfold match_at. simpl. destruct (p c); auto. simpl.
  replace (S (length t) - length t) with 1 by lia. reflexivity.
Qed.

Lemma exec_all_go_chr (p : N -> bool) : forall rest fuel prev idx,
  length rest < fuel ->
  exec_all_go (Chr p) fuel prev rest idx = chr_matches p rest idx.
Proof.
  induction rest as [|c t IH]; intros fuel prev idx Hf.
  - destruct fuel; [lia|]. reflexivity.
  - destruct fuel as [|fuel]; [lia|]. simpl in Hf.
    simpl exec_all_go. simpl exec_from. rewrite match_at_chr.
    simpl chr_matches. destruct (p c) eqn:Ep.
    + simpl. f_equal. replace (idx + 1) with (S idx) by lia. apply IH. lia.
    + specialize (IH (S fuel) (Some c) (S idx)). simpl in IH. rewrite <- IH by lia.
      reflexivity.
Qed.

Lemma replace_go_chr (p : N -> bool) (g : jsstring -> jsstring) : forall rest pre pos,
  pos <= length pre ->
  replace_go (chr_matches p rest (length pre)) pos (pre ++ rest) (fun mt => g (m_text mt))
  = skipn pos pre ++ flat_map (fun c => if p c then g [c] else [c]) rest.
Proof.
  induction rest as [|c t IH]; intros pre pos Hpos; simpl.
  - rewrite !List.app_nil_r. reflexivity.
  - destruct (p c) eqn:Ep; simpl.
    + rewrite List.skipn_app, List.firstn_app, List.length_skipn.
      replace (length pre - pos - (length pre - pos)) with 0 by lia.
      rewrite List.firstn_all2 by (rewrite List.length_skipn; lia).
      simpl. rewrite List.app_nil_r. f_equal. f_equal.
      specialize (IH (pre ++ [c]) (length pre + 1)).
      rewrite List.length_app in IH. simpl in IH.
      replace (length pre + 1) with (S (length pre)) in IH by lia.
      rewrite <- List.app_assoc in IH. simpl in IH.
      replace (length pre + 1) with (S (length pre)) by lia.
      rewrite IH by lia.
      rewrite List.skipn_all2 by (rewrite List.length_app; simpl; lia). reflexivity.
    + specialize (IH (pre ++ [c]) pos).
      rewrite List.length_app in IH. simpl in IH.
      replace (length pre + 1) with (S (length pre)) in IH by lia.
      rewrite <- List.app_assoc in IH. simpl in IH. rewrite IH by lia.
      rewrite List.skipn_app. replace (pos - length pre) with 0 by lia. simpl.
      rewrite <- List.app_assoc. reflexivity.
Qed.

Lemma replace_all_chr (p : N -> bool) (g : jsstring -> jsstring) (s : jsstring) :
  replace_all (Chr p) s (fun mt => g (m_text mt))
  = flat_map (fun c => if p c then g [c] else [c]) s.
Proof.
  unfold replace_all, exec_all. rewrite exec_all_go_chr by lia.
  apply (replace_go_chr p g s [] 0). simpl. lia.
Qed.

End ReplaceFacts.

Section SyntaxFacts.

Lemma disjunction_S f s :
  disjunction (S f) s =
  (do ar <- alternative f s;
   match snd ar with
   | c :: t => if ch "|" c then do br <- disjunction f t; Ret (Alt (fst ar) (fst br), snd br)
               else Ret ar
   | [] => Ret ar
   end).
Proof. reflexivity. Qed.

Lemma alternative_S f s :
  alternative (S f) s =
  match s with
  | [] => Ret (Eps, [])
  | c :: _ =>
      if ch "|" c || ch ")" c then Ret (Eps, s)
      else do ar <- term f s; do br <- alternative f (snd ar);
           Ret (Seq (fst ar) (fst br), snd br)
  end.
Proof. reflexivity. Qed.

Lemma term_S f s :
  term (S f) s =
  (do ar <- atom f s;
   match snd ar with
   | c :: t => if ch "*" c then Ret (Star (fst ar), t) else Ret ar
   | [] => Ret ar
   end).
Proof. reflexivity. Qed.

Lemma atom_S f s :
  atom (S f) s =
  match s with
  | [] => Throw SyntaxError
  | c :: t =>
      if ch "\" c then
        match t with
        | e :: t' => do r <- atomEscape e; Ret (r, t')
        | [] => Throw SyntaxError
        end
      else if ch "(" c then
        match t with
        | q :: k :: t' =>
            if ch "?" q && ch ":" k then
              do dr <- disjunction f t';
              match snd dr with
              | z :: t'' => if ch ")" z then Ret (fst dr, t'') else Throw SyntaxError
              | [] => Throw SyntaxError
              end
            else Throw SyntaxError
        | _ => Throw SyntaxError
        end
      else if isSyntaxChar c then Throw SyntaxError
      else Ret (Lit1 c, t)
  end.
Proof. reflexivity. Qed.

Lemma obind_Ret {A B} (a : A) (f : A -> outcome B) : obind (Ret a) f = f a.
Proof. reflexivity. Qed.

(** More fuel does not change what the reader returns. *)
Lemma parser_mono f :
  (forall s x, disjunction f s = Ret x -> disjunction (S f) s = Ret x)
  /\ (forall s x, alternative f s = Ret x -> alternative (S f) s = Ret x)
  /\ (forall s x, term f s = Ret x -> term (S f) s = Ret x)
  /\ (forall s x, atom f s = Ret x -> atom (S f) s = Ret x).
Proof.
  induction f as [|f (IHd & IHa & IHt & IHo)].
  - repeat split; intros s x H; discriminate.
  - repeat split; intros s x H.
    + rewrite disjunction_S in H |- *.
      apply obind_ret in H as (ar & Har & H). rewrite (IHa _ _ Har), obind_Ret.
      destruct (snd ar) as [|c t]; auto. destruct (ch "|" c); auto.
      apply obind_ret in H as (br & Hbr & H). rewrite (IHd _ _ Hbr). exact H.
    + rewrite alternative_S in H |- *.
      destruct s as [|c t]; auto. destruct (ch "|" c || ch ")" c); auto.
      apply obind_ret in H as (ar & Har & H). rewrite (IHt _ _ Har), obind_Ret.
      apply obind_ret in H as (br & Hbr & H). rewrite (IHa _ _ Hbr). exact H.
    + rewrite term_S in H |- *.
      apply obind_ret in H as (ar & Har & H). rewrite (IHo _ _ Har). exact H.
    + rewrite atom_S in H |- *.
      destruct s as [|c t]; auto. destruct (ch "\" c); auto.
      destruct (ch "(" c); auto. destruct t as [|q [|k t']]; auto.
      destruct (ch "?" q && ch ":" k); auto.
      apply obind_ret in H as (dr & Hdr & H). rewrite (IHd _ _ Hdr). exact H.
Qed.

Lemma disjunction_mono f f' s x :
  f <= f' -> disjunction f s = Ret x -> disjunction f' s = Ret x.
Proof.
  intros Hle H. induction Hle; auto. now apply (proj1 (parser_mono _)).
Qed.

Lemma alternative_mono f f' s x :
  f <= f' -> alternative f s = Ret x -> alternative f' s = Ret x.
Proof.
  intros Hle H. induction Hle; auto. now apply (proj1 (proj2 (parser_mono _))).
Qed.

Lemma cls_false (ps : list (N -> bool)) (c : N) :
  cls ps c = false -> forall p, List.In p ps -> p c = false.
Proof.
  unfold cls. intros H p Hp.
  destruct (p c) eqn:E; auto.
  assert (existsb (fun p => p c) ps = true) by (apply existsb_exists; eauto).
  congruence.
Qed.

Lemma cls_true (ps : list (N -> bool)) (c : N) :
  cls ps c = true -> exists p, List.In p ps /\ p c = true.
Proof. unfold cls. intros H. now apply existsb_exists in H. Qed.

Lemma not_escapable (c : N) :
  escapable c = false ->
  ch "|" c = false /\ ch ")" c = false /\ ch "\" c = false /\ ch "(" c = false
  /\ ch "*" c = false /\ isSyntaxChar c = false.
Proof.
  intros H. pose proof (cls_false _ _ H) as Hp.
  repeat split; try exact H; apply Hp; simpl; tauto.
Qed.

Lemma escapable_escape (c : N) :
  escapable c = true -> atomEscape c = Ret (Lit1 c).
Proof.
  intros H. apply cls_true in H as (p & Hp & Hc).
  simpl in Hp.
  repeat (destruct Hp as [<-|Hp];
          [apply N.eqb_eq in Hc; subst c; reflexivity|]).
  destruct Hp.
Qed.

Lemma starts_star_escape (name tail : jsstring) :
  starts_star tail = false -> starts_star (escape name ++ tail) = false.
Proof.
  intros H. destruct name as [|c t]; simpl; auto.
  destruct (escapable c) eqn:E; simpl; auto.
  now apply not_escapable in E.
Qed.

Lemma term_of_atom f s r rest :
  atom f s = Ret (r, rest) -> starts_star rest = false -> term (S f) s = Ret (r, rest).
Proof.
  intros H Hs. rewrite term_S, H. simpl. destruct rest as [|c t]; auto.
  simpl in Hs. now rewrite Hs.
Qed.

Lemma alternative_escaped (name : jsstring) : forall f tail r rest,
  starts_star tail = false ->
  alternative (S (S f)) tail = Ret (r, rest) ->
  alternative (length name + S (S f)) (escape name ++ tail) = Ret (lits name r, rest).
Proof.
  induction name as [|c name IH]; intros f tail r rest Hs H; [exact H|].
  change (length (c :: name) + S (S f)) with (S (length name + S (S f))).
  change (escape (c :: name)) with ((if escapable c then [bsl; c] else [c]) ++ escape name).
  change (lits (c :: name) r) with (Seq (Lit1 c) (lits name r)).
  assert (Ht : term (length name + S (S f))
                 ((if escapable c then [bsl; c] else [c]) ++ escape name ++ tail)
               = Ret (Lit1 c, escape name ++ tail)).
  { replace (length name + S (S f)) with (S (S (length name + f))) by lia.
    apply term_of_atom; [|now apply starts_star_escape].
    rewrite atom_S. destruct (escapable c) eqn:E; simpl.
    - now rewrite escapable_escape.
    - apply not_escapable in E as (_ & _ & -> & -> & _ & ->). reflexivity. }
  assert (Hh : exists h t, (if escapable c then [bsl; c] else [c]) ++ escape name ++ tail = h :: t
                           /\ ch "|" h || ch ")" h = false).
  { destruct (escapable c) eqn:E; simpl; eexists _, _; split; eauto.
    apply not_escapable in E as (-> & -> & _). reflexivity. }
  destruct Hh as (h & t & Eh & Hh).
  rewrite <- List.app_assoc.
  rewrite alternative_S. rewrite Eh, Hh. rewrite <- Eh, Ht, obind_Ret.
  cbn [snd fst]. rewrite (IH f tail r rest Hs H). reflexivity.
Qed.

Lemma escape_length (name : jsstring) : length name <= length (escape name).
Proof.
  induction name as [|c t IH]; simpl; auto.
  rewrite List.length_app. destruct (escapable c); simpl; lia.
Qed.

(** [new RegExp('\\b' + escaped + '\\b')] never raises: it is the pattern
    [wordRe]. *)
Lemma newRegExp_word (name : jsstring) :
  newRegExp (js "\b" ++ escape name ++ js "\b") = Ret (wordRe name).
Proof.
  unfold newRegExp.
  assert (H : disjunction (S (S (length name + 4))) (js "\b" ++ escape name ++ js "\b")
              = Ret (wordRe name, [])).
  { change (js "\b") with [92%N; 98%N].
    change ([92%N; 98%N] ++ escape name ++ [92%N; 98%N])
      with (92%N :: 98%N :: escape name ++ [92%N; 98%N]).
    assert (Ht : term (length name + 4) (92%N :: 98%N :: escape name ++ [92%N; 98%N])
                 = Ret (WordB, escape name ++ [92%N; 98%N])).
    { change (length name + 4) with (length name + S (S 2)).
      rewrite Nat.add_succ_r. apply term_of_atom; [|now apply starts_star_escape].
      rewrite Nat.add_succ_r. reflexivity. }
    assert (Ha : alternative (S (length name + 4))
                   (92%N :: 98%N :: escape name ++ [92%N; 98%N])
                 = Ret (wordRe name, [])).
    { rewrite alternative_S.
      change (ch "|" 92%N || ch ")" 92%N) with false. cbv iota.
      rewrite Ht, obind_Ret. cbn [snd fst].
      rewrite (alternative_escaped name 2 [92%N; 98%N] (Seq WordB Eps) []); auto. }
    rewrite disjunction_S, Ha. reflexivity. }
  eapply disjunction_mono in H; [rewrite H; reflexivity|].
  rewrite !List.length_app. pose proof (escape_length name). simpl. lia.
Qed.

End SyntaxFacts.

Section CallPatterns.

Lemma atom_mono f f' s x : f <= f' -> atom f s = Ret x -> atom f' s = Ret x.
Proof.
  intros Hle H. induction Hle; auto. now apply (proj2 (proj2 (proj2 (parser_mono _)))).
Qed.

(** A pattern made of a group read by [atom], an escaped name and the tail
    [\s*\(]. *)
Lemma newRegExp_call (prefix : jsstring) (G : regex) (name : jsstring) :
  (forall rest, atom 40 (prefix ++ rest) = Ret (G, rest)) ->
  (exists h t, prefix = h :: t /\ ch "|" h || ch ")" h = false /\ 5 <= length t) ->
  newRegExp (prefix ++ escape name ++ js "\s*\(") = Ret (Seq G (lits name callTail)).
Proof.
  intros Hg (h & t & -> & Hh & Hlen). unfold newRegExp.
  set (tail := js "\s*\(").
  assert (H : disjunction (S (S (length name + 41))) ((h :: t) ++ escape name ++ tail)
              = Ret (Seq G (lits name callTail), [])).
  { assert (Ht : term (length name + 41) (h :: t ++ escape name ++ tail)
                 = Ret (G, escape name ++ tail)).
    { replace (length name + 41) with (S (length name + 40)) by lia.
      apply term_of_atom; [|now apply starts_star_escape].
      eapply atom_mono; [|apply (Hg (escape name ++ tail))]. lia. }
    assert (Ha : alternative (S (length name + 41)) (h :: t ++ escape name ++ tail)
                 = Ret (Seq G (lits name callTail), [])).
    { rewrite alternative_S, Hh, Ht, obind_Ret. cbn [snd fst].
      rewrite (alternative_escaped name 39 tail callTail []); auto. }
    cbn [app]. rewrite disjunction_S, Ha. reflexivity. }
  eapply disjunction_mono in H; [rewrite H; reflexivity|].
  rewrite !List.length_app. pose proof (escape_length name).
  change (length tail) with 5. cbn [length]. lia.
Qed.

Lemma newRegExp_call_py (name : jsstring) :
  newRegExp (js "(?:self\.|\b)" ++ escape name ++ js "\s*\(") = Ret (callRe_py name).
Proof.
  apply newRegExp_call; [intros rest; reflexivity|].
  eexists _, _. split; [reflexivity|]. split; [reflexivity | simpl; lia].
Qed.

Lemma newRegExp_call_shared (name : jsstring) :
  newRegExp (js "(?:self\.|this\.|\$this->|\b)" ++ escape name ++ js "\s*\(")
  = Ret (callRe_shared name).
Proof.
  apply newRegExp_call; [intros rest; reflexivity|].
  eexists _, _. split; [reflexivity|]. split; [reflexivity | simpl; lia].
Qed.

Lemma escapeRegex_escape (name : jsstring) : pythonParser.escapeRegex name = escape name.
Proof. unfold pythonParser.escapeRegex. apply (replace_all_chr escapable (cons bsl)). Qed.

Lemma escRe_escape (name : jsstring) : parserUtils.escRe name = escape name.
Proof. unfold parserUtils.escRe. apply (replace_all_chr escapable (cons bsl)). Qed.

End CallPatterns.

(* ====================================================================== *)
(** * No extractor raises *)
(* ====================================================================== *)

Ltac must_tac :=
  match goal with
  | E : exec ?re ?l = Some ?mt |- returns (grp ?mt ?n) =>
      apply (exec_must re n l mt); [vm_compute; reflexivity | exact E]
  end.

Ltac tot_step :=
  first
    [ apply returns_ret
    | must_tac
    | apply split_head
    | apply split_last
    | (apply split_re_head; reflexivity)
    | assumption
    | match goal with
      | |- returns (obind _ _) => apply returns_bind; [| intros ? ?]
      | |- returns (omapM _ _) => apply returns_omapM; intros ? ?
      end
    | match goal with
      | |- returns (match exec ?re ?l with _ => _ end) =>
          let E := fresh "E" in destruct (exec re l) eqn:E
      | |- returns (if ?b then _ else _) => destruct b
      | |- returns (match ?o with Some _ => _ | None => _ end) => destruct o eqn:?
      | |- returns (let '(_, _) := ?x in _) => destruct x
      | |- returns (match ?x with _ => _ end) => destruct x
      end ].
Ltac tot := repeat tot_step.

Section PythonTotal.
Import pythonParser.

Lemma nth_error_skipn_cons {A} (lines : list A) i l t :
  skipn i lines = l :: t -> nth_error lines i = Some l /\ skipn (S i) lines = t.
Proof.
  revert i. induction lines as [|x lines IH]; intros [|i] H; simpl in *; try discriminate.
  - injection H as -> ->. auto.
  - auto.
Qed.

Lemma getIndent_total line : returns (getIndent line).
Proof. unfold getIndent. tot. Qed.

Lemma parseMetaLines_total ls : forall raw, returns (parseMetaLines ls raw).
Proof. induction ls as [|l ls IH]; intros raw; simpl; tot; apply IH. Qed.

Lemma parseMetaBlock_total code : returns (parseMetaBlock code).
Proof. unfold parseMetaBlock. tot. apply parseMetaLines_total. Qed.

Lemma importedName_total n : returns (importedName n).
Proof. unfold importedName. tot. Qed.

Lemma parseImports_total lines : returns (parseImports lines).
Proof.
  unfold parseImports. apply returns_forLines. intros k l _.
  tot; apply importedName_total.
Qed.

Lemma collectDecorators_go_total lines : forall j acc,
  j <= length lines -> returns (collectDecorators_go lines j acc).
Proof.
  induction j as [|j IH]; intros acc Hj; simpl; [apply returns_ret|].
  destruct (nth_error lines j) as [l|] eqn:E.
  - simpl. tot; apply IH; lia.
  - apply nth_error_None in E. lia.
Qed.

Lemma collectDecorators_total lines i :
  i <= length lines -> returns (collectDecorators lines i).
Proof. apply collectDecorators_go_total. Qed.

Lemma countBranches_go_total baseIndent ls : forall b, returns (countBranches_go baseIndent ls b).
Proof.
  induction ls as [|l ls IH]; intros b; simpl; [apply returns_ret|].
  destruct (negb (nonEmpty (trim l))); [apply IH|].
  apply returns_bind; [apply getIndent_total|]. intros ind _.
  destruct ((ind <=? baseIndent) && nonEmpty (trim l)); [apply returns_ret | apply IH].
Qed.

Lemma countBranches_total lines i l :
  nth_error lines i = Some l -> returns (countBranches lines i).
Proof.
  intros H. unfold countBranches. rewrite H. simpl.
  apply returns_bind; [apply getIndent_total|]. intros ? _. apply countBranches_go_total.
Qed.

Lemma parseClassAttributes_go_total classIndent ls :
  forall attrs, returns (parseClassAttributes_go classIndent ls attrs).
Proof.
  induction ls as [|l ls IH]; intros attrs; simpl; [apply returns_ret|].
  destruct (negb (nonEmpty (trim l))); [apply IH|].
  apply returns_bind; [apply getIndent_total|]. intros ind _.
  destruct ((ind <=? classIndent) && nonEmpty (trim l)); [apply returns_ret|].
  tot; apply IH.
Qed.

Lemma parseClassAttributes_total lines i l :
  nth_error lines i = Some l -> returns (parseClassAttributes lines i).
Proof.
  intros H. unfold parseClassAttributes. rewrite H. simpl.
  apply returns_bind; [apply getIndent_total|]. intros ? _.
  apply parseClassAttributes_go_total.
Qed.

Lemma parseClassMethods_go_total lines classIndent ls : forall i,
  skipn i lines = ls -> returns (parseClassMethods_go lines classIndent i ls).
Proof.
  induction ls as [|l ls IH]; intros i Hs; simpl; [apply returns_ret|].
  apply nth_error_skipn_cons in Hs as [Hl Hs].
  assert (Hi : i < length lines) by (apply nth_error_Some; congruence).
  destruct (negb (nonEmpty (trim l))); [now apply IH|].
  apply returns_bind; [apply getIndent_total|]. intros ind _.
  destruct ((ind <=? classIndent) && nonEmpty (trim l)); [apply returns_ret|].
  apply returns_bind.
  - destruct (exec methodDef_re l) eqn:E; [|apply returns_ret].
    apply returns_bind; [apply getIndent_total|]. intros ind' _.
    destruct (classIndent + 4 <=? ind'); [|apply returns_ret].
    apply returns_bind; [apply collectDecorators_total; lia|]. intros ? _.
    tot. eapply countBranches_total; eauto.
  - intros ? _. apply returns_bind; [now apply IH|]. intros ? _. apply returns_ret.
Qed.

Lemma parseClassMethods_total lines i l :
  nth_error lines i = Some l -> returns (parseClassMethods lines i).
Proof.
  intros H. unfold parseClassMethods. rewrite H. simpl.
  apply returns_bind; [apply getIndent_total|]. intros ? _.
  now apply parseClassMethods_go_total.
Qed.

Lemma nth_error_le {A} (lines : list A) k l : nth_error lines k = Some l -> k <= length lines.
Proof. intros H. assert (k < length lines) by (apply nth_error_Some; congruence). lia. Qed.

Lemma parseClasses_total lines : returns (parseClasses lines).
Proof.
  unfold parseClasses. apply returns_forLines. intros k l Hk. simpl.
  destruct (exec classMatch_re l) eqn:E; [|apply returns_ret].
  apply returns_bind; [apply collectDecorators_total; eapply nth_error_le; eauto|].
  intros ? _.
  apply returns_bind; [eapply parseClassMethods_total; eauto|]. intros ? _.
  apply returns_bind; [eapply parseClassAttributes_total; eauto|]. intros ? _.
  tot.
Qed.

Lemma parseTopLevelFunctions_total lines : returns (parseTopLevelFunctions lines).
Proof.
  unfold parseTopLevelFunctions. apply returns_forLines. intros k l Hk. simpl.
  destruct (exec functionDef_re l) eqn:E; [|apply returns_ret].
  apply returns_bind; [apply collectDecorators_total; eapply nth_error_le; eauto|].
  intros ? _. tot. eapply countBranches_total; eauto.
Qed.

Lemma parseGlobalVars_total lines : returns (parseGlobalVars lines).
Proof.
  unfold parseGlobalVars. apply returns_forLines. intros k l Hk.
  apply returns_bind; [apply getIndent_total|]. intros ? _. tot.
Qed.

Lemma parseErrorTypes_go_total ls : forall errors, returns (parseErrorTypes_go ls errors).
Proof. induction ls as [|l ls IH]; intros errors; simpl; tot; apply IH. Qed.

Lemma parseDebugPoints_total lines : returns (parseDebugPoints lines).
Proof. unfold parseDebugPoints. apply returns_forLines. intros k l _. tot. Qed.

Lemma describeMethod_total m : returns (describeMethod m).
Proof. unfold describeMethod. tot. Qed.

Lemma describeAll_total ms : returns (describeAll ms).
Proof. unfold describeAll. tot. apply describeMethod_total. Qed.

Lemma generateFileDescription_total meta classes functions imports fileName :
  returns (generateFileDescription meta classes functions imports fileName).
Proof.
  unfold generateFileDescription. apply returns_bind; [|intros; apply returns_ret].
  tot; try apply describeAll_total.
Qed.

Lemma describeClass_total c : returns (describeClass c).
Proof. unfold describeClass. tot; apply describeAll_total. Qed.

Lemma generateClassDescriptions_go_total classes :
  forall descs, returns (generateClassDescriptions_go classes descs).
Proof.
  induction classes as [|c cs IH]; intros descs; simpl; [apply returns_ret|].
  apply returns_bind; [apply describeClass_total|]. intros ? _. apply IH.
Qed.

Lemma contextOf_total t : returns (contextOf t).
Proof. unfold contextOf. tot. Qed.

Lemma hardcodedOfLine_total i line : returns (hardcodedOfLine i line).
Proof. unfold hardcodedOfLine. tot; apply contextOf_total. Qed.

Lemma detectHardcodedValues_total lines : returns (detectHardcodedValues lines).
Proof.
  unfold detectHardcodedValues. apply returns_forLines. intros. apply hardcodedOfLine_total.
Qed.

Lemma wordRegExp_eq name : wordRegExp name = Ret (wordRe name).
Proof. unfold wordRegExp. rewrite escapeRegex_escape. apply newRegExp_word. Qed.

Lemma unusedImportsOf_total codeOnly imp : returns (unusedImportsOf codeOnly imp).
Proof.
  unfold unusedImportsOf. apply returns_bind; [|intros; apply returns_ret].
  apply returns_omapM. intros name _.
  destruct (_ || _); [apply returns_ret|]. destruct (_ || _); [apply returns_ret|].
  rewrite wordRegExp_eq. simpl. tot.
Qed.

Lemma unusedMethodOf_total lines m : returns (unusedMethodOf lines m).
Proof.
  unfold unusedMethodOf. destruct m as [name line].
  rewrite escapeRegex_escape, newRegExp_call_py. simpl.
  destruct (negb _); [|apply returns_ret].
  rewrite wordRegExp_eq. simpl. tot.
Qed.

Lemma detectUnusedCode_total lines imports classes functions :
  returns (detectUnusedCode lines imports classes functions).
Proof.
  unfold detectUnusedCode.
  apply returns_bind; [apply returns_omapM; intros; apply unusedImportsOf_total|].
  intros ? _.
  apply returns_bind; [apply returns_omapM; intros; apply unusedMethodOf_total|].
  intros ? _. apply returns_ret.
Qed.

Lemma parsePythonCode_total code fileName : returns (parsePythonCode code fileName).
Proof.
  unfold parsePythonCode.
  apply returns_bind; [apply parseMetaBlock_total|]. intros meta _.
  apply returns_bind; [apply parseImports_total|]. intros ? _.
  apply returns_bind; [apply parseClasses_total|]. intros ? _.
  apply returns_bind; [apply parseTopLevelFunctions_total|]. intros ? _.
  apply returns_bind; [apply parseGlobalVars_total|]. intros ? _.
  apply returns_bind; [apply parseErrorTypes_go_total|]. intros ? _.
  apply returns_bind; [apply parseDebugPoints_total|]. intros ? _.
  apply returns_bind.
  { destruct (truthy _); [apply returns_ret | apply generateFileDescription_total]. }
  intros ? _.
  apply returns_bind; [apply generateClassDescriptions_go_total|]. intros ? _.
  apply returns_bind; [apply detectHardcodedValues_total|]. intros ? _.
  apply returns_bind; [apply detectUnusedCode_total|]. intros ? _.
  apply returns_ret.
Qed.

End PythonTotal.

Section SharedTotal.
Import parserUtils.

Lemma shared_parseList_total s : returns (parseList s).
Proof. unfold parseList. tot. Qed.

Lemma shared_parseMetaBlock_total code : returns (parseMetaBlock code).
Proof. unfold parseMetaBlock. tot; apply shared_parseList_total. Qed.

Lemma shared_contextOf_total t : returns (contextOf t).
Proof. unfold contextOf. tot. Qed.

Lemma shared_hardcodedOfLine_total prefix i line : returns (hardcodedOfLine prefix i line).
Proof. unfold hardcodedOfLine. tot; apply shared_contextOf_total. Qed.

Lemma detectHardcoded_total lines prefix : returns (detectHardcoded lines prefix).
Proof.
  unfold detectHardcoded. apply returns_forLines. intros.
  apply shared_hardcodedOfLine_total.
Qed.

Lemma shared_wordRegExp_eq name : wordRegExp name = Ret (wordRe name).
Proof. unfold wordRegExp. rewrite escRe_escape. apply newRegExp_word. Qed.

Lemma shared_unusedImportsOf_total codeOnly imp : returns (unusedImportsOf codeOnly imp).
Proof.
  unfold unusedImportsOf. apply returns_bind; [|intros; apply returns_ret].
  apply returns_omapM. intros name _.
  destruct (_ || _); [apply returns_ret|]. destruct (_ || _); [apply returns_ret|].
  rewrite shared_wordRegExp_eq. simpl. tot.
Qed.

Lemma shared_unusedMethodOf_total lines m : returns (unusedMethodOf lines m).
Proof.
  unfold unusedMethodOf. destruct m as [name line].
  rewrite escRe_escape, newRegExp_call_shared. simpl.
  destruct (negb _); [|apply returns_ret].
  rewrite shared_wordRegExp_eq. simpl. tot.
Qed.

Lemma detectUnused_total lines imports classes functions prefix :
  returns (detectUnused lines imports classes functions prefix).
Proof.
  unfold detectUnused.
  apply returns_bind; [apply returns_omapM; intros; apply shared_unusedImportsOf_total|].
  intros ? _.
  apply returns_bind; [apply returns_omapM; intros; apply shared_unusedMethodOf_total|].
  intros ? _. apply returns_ret.
Qed.

End SharedTotal.

Section JsTotal.
Import parserUtils jsParser.

Lemma js_importedName_total n : returns (importedName n).
Proof. unfold importedName. tot. Qed.

Lemma parseJsImports_total lines : returns (parseJsImports lines).
Proof.
  unfold parseJsImports. apply returns_forLines. intros k l _. simpl.
  destruct (exec im1_re (trim l)) as [im1|] eqn:E1.
  { apply returns_bind; [|intros; tot].
    destruct (truthy (group im1 1)) eqn:Et.
    - tot. apply js_importedName_total.
    - apply returns_bind; [|intros; apply returns_ret].
      apply (exec_either im1_re 1 2 (trim l)); auto. }
  destruct (exec im2_re (trim l)) as [im2|] eqn:E2; [tot|].
  destruct (exec im3_re (trim l)) as [im3|] eqn:E3; [|apply returns_ret].
  apply returns_bind; [|intros; tot].
  destruct (truthy (group im3 1)) eqn:Et; [apply returns_ret|].
  apply returns_bind; [|intros; apply returns_ret].
  apply (exec_either im3_re 1 2 (trim l)); auto.
Qed.

Lemma collectJsDecorators_go_total lines : forall j acc,
  j <= length lines -> returns (collectJsDecorators_go lines j acc).
Proof.
  induction j as [|j IH]; intros acc Hj; simpl; [apply returns_ret|].
  destruct (nth_error lines j) as [l|] eqn:E.
  - simpl. tot; apply IH; lia.
  - apply nth_error_None in E. lia.
Qed.

Lemma parseJsClassMethods_go_total lines classLine ls : forall i depth started,
  skipn i lines = ls ->
  returns (parseJsClassMethods_go lines classLine i ls depth started).
Proof.
  induction ls as [|l ls IH]; intros i depth started Hs; simpl; [apply returns_ret|].
  apply nth_error_skipn_cons in Hs as [Hl Hs].
  assert (Hi : i < length lines) by (apply nth_error_Some; congruence).
  destruct (scanBraces l depth started) as [d' s'].
  destruct (s' && (d' <=? 0)%Z); [apply returns_ret|].
  destruct (i =? classLine); [now apply IH|].
  apply returns_bind.
  - destruct (exec mm_re l) eqn:E; [|apply returns_ret].
    tot. apply collectJsDecorators_go_total. lia.
  - intros ? _. apply returns_bind; [now apply IH|]. intros; apply returns_ret.
Qed.

Lemma parseJsClassAttrs_go_total ls : forall attrs depth started,
  returns (parseJsClassAttrs_go ls attrs depth started).
Proof.
  induction ls as [|l ls IH]; intros attrs depth started; simpl; [apply returns_ret|].
  destruct (scanBraces l depth started) as [d' s'].
  destruct (s' && (d' <=? 0)%Z); [apply returns_ret|].
  tot; apply IH.
Qed.

Lemma parseJsClasses_total lines : returns (parseJsClasses lines).
Proof.
  unfold parseJsClasses. apply returns_forLines. intros k l Hk. simpl.
  destruct (exec cm_re l) eqn:E; [|apply returns_ret].
  apply returns_bind.
  { apply collectJsDecorators_go_total. eapply nth_error_le; eauto. }
  intros ? _. apply returns_bind.
  { now apply parseJsClassMethods_go_total. }
  intros ? _. apply returns_bind; [apply parseJsClassAttrs_go_total|]. intros ? _. tot.
Qed.

Lemma parseJsFunctions_total lines : returns (parseJsFunctions lines).
Proof.
  unfold parseJsFunctions. apply returns_forLines. intros k l Hk. simpl.
  destruct (nestedIndent l); [apply returns_ret|].
  destruct (exec f1_re l) eqn:E1.
  { apply returns_bind.
    { apply collectJsDecorators_go_total. eapply nth_error_le; eauto. }
    intros ? _. tot. }
  tot.
Qed.

Lemma parseJsGlobals_total lines : returns (parseJsGlobals lines).
Proof. unfold parseJsGlobals. apply returns_forLines. intros k l _. tot. Qed.

Lemma parseJsErrors_go_total ls : forall errs, returns (parseJsErrors_go ls errs).
Proof. induction ls as [|l ls IH]; intros errs; simpl; tot; apply IH. Qed.

Lemma parseJsDebug_total lines : returns (parseJsDebug lines).
Proof. unfold parseJsDebug. apply returns_forLines. intros k l _. tot. Qed.

Lemma parseJsCode_total code fileName : returns (parseJsCode code fileName).
Proof.
  unfold parseJsCode.
  apply returns_bind; [apply shared_parseMetaBlock_total|]. intros meta _.
  apply returns_bind; [apply parseJsImports_total|]. intros ? _.
  apply returns_bind; [apply parseJsClasses_total|]. intros ? _.
  apply returns_bind; [apply parseJsFunctions_total|]. intros ? _.
  apply returns_bind; [apply parseJsGlobals_total|]. intros ? _.
  apply returns_bind; [apply parseJsErrors_go_total|]. intros ? _.
  apply returns_bind; [apply parseJsDebug_total|]. intros ? _.
  apply returns_bind; [apply detectHardcoded_total|]. intros ? _.
  apply returns_bind; [apply detectUnused_total|]. intros ? _.
  apply returns_ret.
Qed.

End JsTotal.

Section PhpTotal.
Import parserUtils phpParser.

Lemma parsePhpImports_total lines : returns (parsePhpImports lines).
Proof. unfold parsePhpImports. apply returns_forLines. intros k l _. tot. Qed.

Lemma parsePhpParam_total part : returns (parsePhpParam part).
Proof. unfold parsePhpParam. tot. Qed.

Lemma parsePhpParams_total s : returns (parsePhpParams s).
Proof. unfold parsePhpParams. tot. apply parsePhpParam_total. Qed.

Lemma parsePhpClassMethods_go_total lines ls : forall i depth started,
  returns (parsePhpClassMethods_go lines i ls depth started).
Proof.
  induction ls as [|l ls IH]; intros i depth started; simpl; [apply returns_ret|].
  destruct (scanBraces l depth started) as [d' s'].
  destruct (s' && (d' <=? 0)%Z); [apply returns_ret|].
  apply returns_bind.
  - destruct (exec mm_re l) eqn:E; [|apply returns_ret].
    tot. apply parsePhpParams_total.
  - intros ? _. apply returns_bind; [apply IH|]. intros; apply returns_ret.
Qed.

Lemma parsePhpClassAttrs_go_total ls : forall attrs depth started,
  returns (parsePhpClassAttrs_go ls attrs depth started).
Proof.
  induction ls as [|l ls IH]; intros attrs depth started; simpl; [apply returns_ret|].
  destruct (scanBraces l depth started) as [d' s'].
  destruct (s' && (d' <=? 0)%Z); [apply returns_ret|].
  tot; apply IH.
Qed.

Lemma parsePhpClasses_total lines : returns (parsePhpClasses lines).
Proof.
  unfold parsePhpClasses. apply returns_forLines. intros k l Hk. simpl.
  destruct (exec cm_re l) eqn:E; [|apply returns_ret].
  apply returns_bind; [apply parsePhpClassMethods_go_total|]. intros ? _.
  apply returns_bind; [apply parsePhpClassAttrs_go_total|]. intros ? _. tot.
Qed.

Lemma parsePhpFunctions_total lines : returns (parsePhpFunctions lines).
Proof.
  unfold parsePhpFunctions. apply returns_forLines. intros k l Hk.
  tot. apply parsePhpParams_total.
Qed.

Lemma parsePhpGlobals_total lines : returns (parsePhpGlobals lines).
Proof. unfold parsePhpGlobals. apply returns_forLines. intros k l _. tot. Qed.

Lemma parsePhpErrors_go_total ls : forall errs, returns (parsePhpErrors_go ls errs).
Proof. induction ls as [|l ls IH]; intros errs; simpl; tot; apply IH. Qed.

Lemma parsePhpDebug_total lines : returns (parsePhpDebug lines).
Proof. unfold parsePhpDebug. apply returns_forLines. intros k l _. tot. Qed.

Lemma parsePhpCode_total code fileName : returns (parsePhpCode code fileName).
Proof.
  unfold parsePhpCode.
  apply returns_bind; [apply shared_parseMetaBlock_total|]. intros meta _.
  apply returns_bind; [apply parsePhpImports_total|]. intros ? _.
  apply returns_bind; [apply parsePhpClasses_total|]. intros ? _.
  apply returns_bind; [apply parsePhpFunctions_total|]. intros ? _.
  apply returns_bind; [apply parsePhpGlobals_total|]. intros ? _.
  apply returns_bind; [apply parsePhpErrors_go_total|]. intros ? _.
  apply returns_bind; [apply parsePhpDebug_total|]. intros ? _.
  apply returns_bind; [apply detectHardcoded_total|]. intros ? _.
  apply returns_bind; [apply detectUnused_total|]. intros ? _.
  apply returns_ret.
Qed.

End PhpTotal.

Section HtmlTotal.
Import parserUtils htmlParser.

Lemma parseHtmlImports_total lines : returns (parseHtmlImports lines).
Proof.
  unfold parseHtmlImports. apply returns_forLines. intros k l _.
  unfold htmlImportsOfLine. tot.
Qed.

Lemma parseHtmlAttrs_total s : returns (parseHtmlAttrs s).
Proof.
  unfold parseHtmlAttrs. apply returns_omapM. intros mt Hin.
  apply returns_bind; [eapply (exec_all_go_must attr_re 1); eauto; reflexivity|].
  intros ? _.
  apply returns_bind; [eapply (exec_all_go_must attr_re 2); eauto; reflexivity|].
  intros ? _. apply returns_ret.
Qed.

Lemma parseHtmlComponents_total lines : returns (parseHtmlComponents lines).
Proof.
  unfold parseHtmlComponents. apply returns_forLines. intros k l _. simpl.
  destruct (exec majorTags (trim l)) eqn:E; [|apply returns_ret].
  apply returns_bind; [must_tac|]. intros ? _.
  apply returns_bind; [must_tac|]. intros ? _.
  apply returns_bind; [apply parseHtmlAttrs_total|]. intros ? _. tot.
Qed.

Lemma parseInlineScriptFunctions_go_total ls : forall i inScript,
  returns (parseInlineScriptFunctions_go i ls inScript).
Proof.
  induction ls as [|l ls IH]; intros i inScript; simpl; [apply returns_ret|].
  destruct (includes (trim l) (js "</script>")); [apply IH|].
  destruct (negb _); [apply IH|].
  tot; apply IH.
Qed.

Lemma parseCssProps_go_total start ls : forall i d props,
  returns (parseCssProps_go start i ls d props).
Proof.
  induction ls as [|l ls IH]; intros i d props; simpl; [apply returns_ret|].
  apply returns_bind; [tot|]. intros ? _.
  destruct (_ && _); [apply returns_ret | apply IH].
Qed.

Lemma parseCssSelectors_total lines : returns (parseCssSelectors lines).
Proof.
  unfold parseCssSelectors. apply returns_forLines. intros k l _. simpl.
  destruct (exec selector_re (trim l)) eqn:E; [|apply returns_ret].
  destruct (negb _); [|apply returns_ret].
  apply returns_bind; [apply parseCssProps_go_total|]. intros ? _. tot.
Qed.

Lemma parseCssImports_total lines : returns (parseCssImports lines).
Proof. unfold parseCssImports. apply returns_forLines. intros k l _. tot. Qed.

Lemma detectHtmlHardcoded_total lines : returns (detectHtmlHardcoded lines).
Proof. unfold detectHtmlHardcoded. apply returns_forLines. intros k l _. tot. Qed.

Lemma parseHtmlCode_total code fileName : returns (parseHtmlCode code fileName).
Proof.
  unfold parseHtmlCode.
  apply returns_bind; [apply shared_parseMetaBlock_total|]. intros meta _.
  apply returns_bind; [apply parseHtmlImports_total|]. intros ? _.
  apply returns_bind; [apply parseHtmlComponents_total|]. intros ? _.
  apply returns_bind; [apply parseInlineScriptFunctions_go_total|]. intros ? _.
  apply returns_bind; [apply detectHtmlHardcoded_total|]. intros ? _.
  apply returns_ret.
Qed.

Lemma parseCssCode_total code fileName : returns (parseCssCode code fileName).
Proof.
  unfold parseCssCode.
  apply returns_bind; [apply shared_parseMetaBlock_total|]. intros meta _.
  apply returns_bind; [apply parseCssSelectors_total|]. intros ? _.
  apply returns_bind; [apply parseCssImports_total|]. intros ? _.
  apply returns_bind; [apply detectHtmlHardcoded_total|]. intros ? _.
  apply returns_ret.
Qed.

End HtmlTotal.

Section RouterTotal.
Import analyzers languageRouter.

Lemma scanTodos_total lines : returns (scanTodos lines).
Proof. unfold scanTodos. apply returns_forLines. intros k l _. tot. Qed.

Lemma parseCode_total code fileName languageId :
  returns (parseCode code fileName languageId).
Proof.
  unfold parseCode. apply returns_bind.
  - repeat match goal with |- returns (if ?b then _ else _) => destruct b end;
      auto using parsePythonCode_total, parseJsCode_total, parsePhpCode_total,
                 parseHtmlCode_total, parseCssCode_total.
  - intros stats _. apply returns_bind; [apply scanTodos_total|]. intros; apply returns_ret.
Qed.

End RouterTotal.

(* ====================================================================== *)
(** * Line numbers *)
(* ====================================================================== *)

Ltac inv_ret :=
  once repeat match goal with
  | H : (let _ := _ in _) = Ret _ |- _ => cbv zeta in H
  | H : (let '(_, _) := (_, _) in _) = Ret _ |- _ => cbv beta iota zeta in H
  | H : (let '(_, _) := ?x in _) = Ret _ |- _ => destruct x eqn:?
  | H : obind _ _ = Ret _ |- _ => apply obind_ret in H as (? & ? & H)
  | H : Ret _ = Ret _ |- _ => injection H as H; try subst
  | H : Throw _ = Ret _ |- _ => discriminate H
  | H : match ?x with _ => _ end = Ret _ |- _ => destruct x eqn:?
  end.

Ltac all_here :=
  once repeat first
    [ apply List.Forall_nil
    | apply List.Forall_cons; [simpl; try reflexivity; try lia |]
    | apply List.Forall_app; split
    | (apply List.Forall_map; apply List.Forall_forall; intros ? ?; simpl;
       try reflexivity; try lia)
    | match goal with
      | |- List.Forall _ (match ?x with _ => _ end) => destruct x
      end ].

Section LineNumbers.

Lemma forLines_within {B} (ln : B -> nat) (f : nat -> jsstring -> outcome (list B))
    (lines : list jsstring) (r : list B) :
  (forall i l xs, f i l = Ret xs -> List.Forall (fun x => ln x = i + 1) xs) ->
  forLines f 0 lines = Ret r ->
  List.Forall (fun x => within (length lines) (ln x)) r.
Proof.
  intros Hf H. apply List.Forall_forall. intros x Hx.
  destruct (forLines_In _ _ _ _ _ H Hx) as (k & l & xs & Hk & Hfk & Hin).
  apply Hf in Hfk. rewrite List.Forall_forall in Hfk. specialize (Hfk x Hin).
  assert (k < length lines) by (apply nth_error_Some; congruence).
  unfold within. simpl in Hfk. lia.
Qed.

Lemma Forall_within_mono {B} (ln : B -> nat) (a b : nat) (l : list B) :
  a <= b -> List.Forall (fun x => within a (ln x)) l -> List.Forall (fun x => within b (ln x)) l.
Proof.
  intros Hab. apply List.Forall_impl. unfold within. intros; lia.
Qed.

End LineNumbers.

Section PythonLines.
Import pythonParser.

Lemma py_imports_lines lines r :
  parseImports lines = Ret r ->
  List.Forall (fun x => within (length lines) (imp_lineNumber x)) r.
Proof.
  apply forLines_within. intros i l xs H. inv_ret; all_here. 
Qed.

Lemma py_methods_go_lines lines classIndent ls : forall i r,
  parseClassMethods_go lines classIndent i ls = Ret r ->
  List.Forall (fun m => i + 1 <= meth_lineNumber m <= i + length ls) r.
Proof.
  induction ls as [|l ls IH]; intros i r H; simpl in H.
  - inv_ret. constructor.
  - destruct (negb (nonEmpty (trim l))).
    + apply IH in H. eapply List.Forall_impl; [|exact H]. simpl. intros; lia.
    + apply obind_ret in H as (ind & _ & H).
      destruct ((ind <=? classIndent) && nonEmpty (trim l)); [inv_ret; constructor|].
      apply obind_ret in H as (here & Hhere & H).
      apply obind_ret in H as (rest & Hrest & H). injection H as <-.
      apply List.Forall_app. split.
      * inv_ret; all_here.
      * apply IH in Hrest. eapply List.Forall_impl; [|exact Hrest]. simpl. intros; lia.
Qed.

Lemma skipn_length_le {A} (l : list A) i : i + length (skipn i l) <= Nat.max i (length l).
Proof. rewrite List.length_skipn. lia. Qed.

Lemma py_classes_lines lines r :
  parseClasses lines = Ret r ->
  List.Forall (fun c => within (length lines) (cls_lineNumber c)
               /\ List.Forall (fun m => within (length lines) (meth_lineNumber m))
                              (cls_methods c)) r.
Proof.
  intros H. apply List.Forall_forall. intros c Hc.
  destruct (forLines_In _ _ _ _ _ H Hc) as (k & l & xs & Hk & Hfk & Hin).
  assert (Hlt : k < length lines) by (apply nth_error_Some; congruence).
  simpl in Hfk. destruct (exec classMatch_re l); [|inv_ret; destruct Hin].
  apply obind_ret in Hfk as (decs & _ & Hfk).
  apply obind_ret in Hfk as (methods & Hm & Hfk).
  apply obind_ret in Hfk as (attrs & _ & Hfk).
  apply obind_ret in Hfk as (name & _ & Hfk). injection Hfk as <-.
  destruct Hin as [<-|[]]. simpl. split; [unfold within; lia|].
  unfold parseClassMethods in Hm.
  apply obind_ret in Hm as (cl & _ & Hm). apply obind_ret in Hm as (ci & _ & Hm).
  apply py_methods_go_lines in Hm. eapply List.Forall_impl; [|exact Hm].
  simpl. intros m Hr. rewrite List.length_skipn in Hr. unfold within. lia.
Qed.

Lemma py_functions_lines lines r :
  parseTopLevelFunctions lines = Ret r ->
  List.Forall (fun x => within (length lines) (meth_lineNumber x)) r.
Proof.
  apply forLines_within. intros i l xs H. inv_ret; all_here.
Qed.

Lemma py_debug_lines lines r :
  parseDebugPoints lines = Ret r -> List.Forall (within (length lines)) r.
Proof.
  apply (forLines_within (fun x => x)). intros i l xs H. inv_ret; all_here.
Qed.

Lemma py_hardcoded_lines lines r :
  detectHardcodedValues lines = Ret r ->
  List.Forall (fun x => within (length lines) (hc_lineNumber x)) r.
Proof.
  apply forLines_within. intros i l xs H. unfold hardcodedOfLine in H.
  inv_ret; all_here.
Qed.

End PythonLines.

Section UnusedLines.

Lemma omapM_concat_Forall {A B} (P : B -> Prop) (f : A -> outcome (list B))
    (l : list A) (r : list (list B)) :
  omapM f l = Ret r ->
  (forall x ys, List.In x l -> f x = Ret ys -> List.Forall P ys) ->
  List.Forall P (concat r).
Proof.
  revert r. induction l as [|x l IH]; simpl; intros r H HP.
  - injection H as <-. constructor.
  - apply obind_ret in H as (y & Hy & H). apply obind_ret in H as (ys & Hys & H).
    injection H as <-. simpl. apply List.Forall_app. split; eauto.
Qed.

Lemma Forall_flat_map {A B} (P : B -> Prop) (f : A -> list B) (l : list A) :
  List.Forall (fun x => List.Forall P (f x)) l -> List.Forall P (flat_map f l).
Proof.
  induction 1; simpl; [constructor | apply List.Forall_app; auto].
Qed.

(** The methods that the unused-method scan looks at, with their lines. *)
Lemma allMethods_within (n : nat) (keep : MethodInfo -> bool)
    (classes : list ClassInfo) (functions : list MethodInfo) :
  List.Forall (fun f => within n (meth_lineNumber f)) functions ->
  List.Forall (fun c => List.Forall (fun m => within n (meth_lineNumber m)) (cls_methods c))
              classes ->
  forall m : jsstring * nat,
  List.In m
    (List.map (fun f => (meth_name f, meth_lineNumber f)) functions
     ++ flat_map (fun c => List.map (fun m => (meth_name m, meth_lineNumber m))
                             (List.filter keep (cls_methods c))) classes) ->
  within n (snd m).
Proof.
  intros Hf Hc. apply List.Forall_forall. apply List.Forall_app. split.
  - apply List.Forall_map. exact Hf.
  - apply Forall_flat_map. eapply List.Forall_impl; [|exact Hc]. simpl.
    intros c Hm. apply List.Forall_map. apply List.Forall_forall. intros m Hin.
    apply List.filter_In in Hin as [Hin _].
    rewrite List.Forall_forall in Hm. now apply Hm.
Qed.

Lemma py_unused_lines (n : nat) lines imports classes functions r :
  pythonParser.detectUnusedCode lines imports classes functions = Ret r ->
  List.Forall (fun i => within n (imp_lineNumber i)) imports ->
  List.Forall (fun f => within n (meth_lineNumber f)) functions ->
  List.Forall (fun c => List.Forall (fun m => within n (meth_lineNumber m)) (cls_methods c))
              classes ->
  List.Forall (fun u => within n (un_lineNumber u)) r.
Proof.
  intros H Hi Hf Hc. unfold pythonParser.detectUnusedCode in H.
  apply obind_ret in H as (u1 & Hu1 & H). apply obind_ret in H as (u2 & Hu2 & H).
  injection H as <-. apply List.Forall_app. split.
  - eapply omapM_concat_Forall; [exact Hu1|]. intros imp ys Himp Hys.
    rewrite List.Forall_forall in Hi. specialize (Hi imp Himp).
    unfold pythonParser.unusedImportsOf in Hys.
    apply obind_ret in Hys as (found & Hfound & Hys). injection Hys as <-.
    eapply omapM_concat_Forall; [exact Hfound|]. intros name zs _ Hzs.
    cbv beta in Hzs. inv_ret; all_here; exact Hi.
  - eapply omapM_concat_Forall; [exact Hu2|]. intros m ys Hm Hys.
    apply (allMethods_within n _ classes functions Hf Hc) in Hm.
    unfold pythonParser.unusedMethodOf in Hys. destruct m as [name line].
    simpl in Hm. inv_ret; all_here; exact Hm.
Qed.

Lemma shared_unused_lines (n : nat) lines imports classes functions prefix r :
  parserUtils.detectUnused lines imports classes functions prefix = Ret r ->
  List.Forall (fun i => within n (imp_lineNumber i)) imports ->
  List.Forall (fun f => within n (meth_lineNumber f)) functions ->
  List.Forall (fun c => List.Forall (fun m => within n (meth_lineNumber m)) (cls_methods c))
              classes ->
  List.Forall (fun u => within n (un_lineNumber u)) r.
Proof.
  intros H Hi Hf Hc. unfold parserUtils.detectUnused in H.
  apply obind_ret in H as (u1 & Hu1 & H). apply obind_ret in H as (u2 & Hu2 & H).
  injection H as <-. apply List.Forall_app. split.
  - eapply omapM_concat_Forall; [exact Hu1|]. intros imp ys Himp Hys.
    rewrite List.Forall_forall in Hi. specialize (Hi imp Himp).
    unfold parserUtils.unusedImportsOf in Hys.
    apply obind_ret in Hys as (found & Hfound & Hys). injection Hys as <-.
    eapply omapM_concat_Forall; [exact Hfound|]. intros name zs _ Hzs.
    cbv beta in Hzs. inv_ret; all_here; exact Hi.
  - eapply omapM_concat_Forall; [exact Hu2|]. intros m ys Hm Hys.
    apply (allMethods_within n _ classes functions Hf Hc) in Hm.
    unfold parserUtils.unusedMethodOf in Hys. destruct m as [name line].
    simpl in Hm. inv_ret; all_here; exact Hm.
Qed.

Lemma shared_hardcoded_lines lines prefix r :
  parserUtils.detectHardcoded lines prefix = Ret r ->
  List.Forall (fun x => within (length lines) (hc_lineNumber x)) r.
Proof.
  apply forLines_within. intros i l xs H. unfold parserUtils.hardcodedOfLine in H.
  inv_ret; all_here.
Qed.

Lemma todos_lines lines r :
  analyzers.scanTodos lines = Ret r ->
  List.Forall (fun x => within (length lines) (todo_lineNumber x)) r.
Proof.
  apply forLines_within. intros i l xs H. inv_ret; all_here.
Qed.

(** The line numbers of a summary are within range when those of its parts
    are. *)
Lemma lineNumbersOf_within (s : FileStats) (n : nat) :
  List.Forall (fun x => within n (imp_lineNumber x)) (imports s) ->
  List.Forall (fun c => within n (cls_lineNumber c)
               /\ List.Forall (fun m => within n (meth_lineNumber m)) (cls_methods c))
              (classes s) ->
  List.Forall (fun x => within n (meth_lineNumber x)) (functions s) ->
  List.Forall (fun x => within n (hc_lineNumber x)) (hardcoded s) ->
  List.Forall (fun x => within n (un_lineNumber x)) (unused s) ->
  List.Forall (within n) (debugPoints s) ->
  List.Forall (fun x => within n (todo_lineNumber x)) (todos s) ->
  diagnostics s = [] -> depIssues s = [] ->
  List.Forall (within n) (lineNumbersOf s).
Proof.
  intros Hi Hc Hf Hh Hu Hd Ht Hg Hp. unfold lineNumbersOf. rewrite Hg, Hp. simpl.
  repeat (apply List.Forall_app; split); try (now apply List.Forall_map); auto.
  - apply List.Forall_map. eapply List.Forall_impl; [|exact Hc]. simpl. tauto.
  - apply Forall_flat_map. eapply List.Forall_impl; [|exact Hc]. simpl.
    intros c [_ Hm]. now apply List.Forall_map.
Qed.

Lemma classes_methods_within (n : nat) (cs : list ClassInfo) :
  List.Forall (fun c => within n (cls_lineNumber c)
               /\ List.Forall (fun m => within n (meth_lineNumber m)) (cls_methods c)) cs ->
  List.Forall (fun c => List.Forall (fun m => within n (meth_lineNumber m)) (cls_methods c)) cs.
Proof. apply List.Forall_impl. tauto. Qed.

End UnusedLines.

Section PythonSummaryLines.
Import pythonParser.

Lemma parsePythonCode_lines code fileName s :
  parsePythonCode code fileName = Ret s ->
  totalLines s = length (splitLines code) /\ todos s = []
  /\ diagnostics s = [] /\ depIssues s = [] /\ externalUsage s = []
  /\ List.Forall (within (length (splitLines code))) (lineNumbersOf s).
Proof.
  intros H. unfold parsePythonCode in H.
  apply obind_ret in H as (meta & _ & H).
  apply obind_ret in H as (imports & Hi & H).
  apply obind_ret in H as (classes & Hc & H).
  apply obind_ret in H as (functions & Hf & H).
  apply obind_ret in H as (globalVars & _ & H).
  apply obind_ret in H as (errorTypes & _ & H).
  apply obind_ret in H as (debugPoints & Hd & H).
  apply obind_ret in H as (description & _ & H).
  apply obind_ret in H as (classDescriptions & _ & H).
  apply obind_ret in H as (hardcoded & Hh & H).
  apply obind_ret in H as (unused & Hu & H).
  injection H as <-. simpl. repeat split.
  apply py_imports_lines in Hi. apply py_classes_lines in Hc.
  apply py_functions_lines in Hf. apply py_debug_lines in Hd.
  apply py_hardcoded_lines in Hh.
  apply lineNumbersOf_within; simpl; auto.
  eapply py_unused_lines; eauto. now apply classes_methods_within.
Qed.

End PythonSummaryLines.

Section JsLines.
Import jsParser.

Lemma js_imports_lines lines r :
  parseJsImports lines = Ret r ->
  List.Forall (fun x => within (length lines) (imp_lineNumber x)) r.
Proof.
  apply forLines_within. intros i l xs H. inv_ret; all_here.
Qed.

Lemma js_methods_go_lines lines classLine ls : forall i depth started r,
  parseJsClassMethods_go lines classLine i ls depth started = Ret r ->
  List.Forall (fun m => i + 1 <= meth_lineNumber m <= i + length ls) r.
Proof.
  induction ls as [|l ls IH]; intros i depth started r H; simpl in H.
  - inv_ret. constructor.
  - destruct (scanBraces l depth started) as [d' s'].
    destruct (s' && (d' <=? 0)%Z); [inv_ret; constructor|].
    destruct (i =? classLine).
    + apply IH in H. eapply List.Forall_impl; [|exact H]. simpl. intros; lia.
    + apply obind_ret in H as (here & Hhere & H).
      apply obind_ret in H as (more & Hmore & H). injection H as <-.
      apply List.Forall_app. split.
      * inv_ret; all_here.
      * apply IH in Hmore. eapply List.Forall_impl; [|exact Hmore]. simpl. intros; lia.
Qed.

Lemma js_classes_lines lines r :
  parseJsClasses lines = Ret r ->
  List.Forall (fun c => within (length lines) (cls_lineNumber c)
               /\ List.Forall (fun m => within (length lines) (meth_lineNumber m))
                              (cls_methods c)) r.
Proof.
  intros H. apply List.Forall_forall. intros c Hc.
  destruct (forLines_In _ _ _ _ _ H Hc) as (k & l & xs & Hk & Hfk & Hin).
  assert (Hlt : k < length lines) by (apply nth_error_Some; congruence).
  simpl in Hfk. destruct (exec cm_re l); [|inv_ret; destruct Hin].
  apply obind_ret in Hfk as (decs & _ & Hfk).
  apply obind_ret in Hfk as (methods & Hm & Hfk).
  apply obind_ret in Hfk as (attrs & _ & Hfk).
  apply obind_ret in Hfk as (name & _ & Hfk). injection Hfk as <-.
  destruct Hin as [<-|[]]. simpl. split; [unfold within; lia|].
  apply js_methods_go_lines in Hm. eapply List.Forall_impl; [|exact Hm].
  simpl. intros m Hr. rewrite List.length_skipn in Hr. unfold within. lia.
Qed.

Lemma js_functions_lines lines r :
  parseJsFunctions lines = Ret r ->
  List.Forall (fun x => within (length lines) (meth_lineNumber x)) r.
Proof.
  apply forLines_within. intros i l xs H. inv_ret; all_here.
Qed.

Lemma js_debug_lines lines r :
  parseJsDebug lines = Ret r -> List.Forall (within (length lines)) r.
Proof.
  apply (forLines_within (fun x => x)). intros i l xs H. inv_ret; all_here.
Qed.

Lemma parseJsCode_lines code fileName s :
  parseJsCode code fileName = Ret s ->
  totalLines s = length (splitLines code) /\ todos s = []
  /\ diagnostics s = [] /\ depIssues s = [] /\ externalUsage s = []
  /\ List.Forall (within (length (splitLines code))) (lineNumbersOf s).
Proof.
  intros H. unfold parseJsCode in H.
  apply obind_ret in H as (meta & _ & H).
  apply obind_ret in H as (imports & Hi & H).
  apply obind_ret in H as (classes & Hc & H).
  apply obind_ret in H as (functions & Hf & H).
  apply obind_ret in H as (globalVars & _ & H).
  apply obind_ret in H as (errorTypes & _ & H).
  apply obind_ret in H as (debugPoints & Hd & H).
  apply obind_ret in H as (hardcoded & Hh & H).
  apply obind_ret in H as (unused & Hu & H).
  injection H as <-. simpl. repeat split.
  apply js_imports_lines in Hi. apply js_classes_lines in Hc.
  apply js_functions_lines in Hf. apply js_debug_lines in Hd.
  apply shared_hardcoded_lines in Hh.
  apply lineNumbersOf_within; simpl; auto.
  eapply shared_unused_lines; eauto. now apply classes_methods_within.
Qed.

End JsLines.

Section PhpLines.
Import phpParser.

Lemma php_imports_lines lines r :
  parsePhpImports lines = Ret r ->
  List.Forall (fun x => within (length lines) (imp_lineNumber x)) r.
Proof.
  apply forLines_within. intros i l xs H. inv_ret; all_here.
Qed.

Lemma php_methods_go_lines lines ls : forall i depth started r,
  parsePhpClassMethods_go lines i ls depth started = Ret r ->
  List.Forall (fun m => i + 1 <= meth_lineNumber m <= i + length ls) r.
Proof.
  induction ls as [|l ls IH]; intros i depth started r H; simpl in H.
  - inv_ret. constructor.
  - destruct (scanBraces l depth started) as [d' s'].
    destruct (s' && (d' <=? 0)%Z); [inv_ret; constructor|].
    apply obind_ret in H as (here & Hhere & H).
    apply obind_ret in H as (more & Hmore & H). injection H as <-.
    apply List.Forall_app. split.
    + inv_ret; all_here.
    + apply IH in Hmore. eapply List.Forall_impl; [|exact Hmore]. simpl. intros; lia.
Qed.

Lemma php_classes_lines lines r :
  parsePhpClasses lines = Ret r ->
  List.Forall (fun c => within (length lines) (cls_lineNumber c)
               /\ List.Forall (fun m => within (length lines) (meth_lineNumber m))
                              (cls_methods c)) r.
Proof.
  intros H. apply List.Forall_forall. intros c Hc.
  destruct (forLines_In _ _ _ _ _ H Hc) as (k & l & xs & Hk & Hfk & Hin).
  assert (Hlt : k < length lines) by (apply nth_error_Some; congruence).
  simpl in Hfk. destruct (exec cm_re l); [|inv_ret; destruct Hin].
  apply obind_ret in Hfk as (methods & Hm & Hfk).
  apply obind_ret in Hfk as (attrs & _ & Hfk).
  apply obind_ret in Hfk as (name & _ & Hfk). injection Hfk as <-.
  destruct Hin as [<-|[]]. simpl. split; [unfold within; lia|].
  apply php_methods_go_lines in Hm. eapply List.Forall_impl; [|exact Hm].
  simpl. intros m Hr. rewrite List.length_skipn in Hr. unfold within. lia.
Qed.

Lemma php_functions_lines lines r :
  parsePhpFunctions lines = Ret r ->
  List.Forall (fun x => within (length lines) (meth_lineNumber x)) r.
Proof.
  apply forLines_within. intros i l xs H. inv_ret; all_here.
Qed.

Lemma php_debug_lines lines r :
  parsePhpDebug lines = Ret r -> List.Forall (within (length lines)) r.
Proof.
  apply (forLines_within (fun x => x)). intros i l xs H. inv_ret; all_here.
Qed.

Lemma parsePhpCode_lines code fileName s :
  parsePhpCode code fileName = Ret s ->
  totalLines s = length (splitLines code) /\ todos s = []
  /\ diagnostics s = [] /\ depIssues s = [] /\ externalUsage s = []
  /\ List.Forall (within (length (splitLines code))) (lineNumbersOf s).
Proof.
  intros H. unfold parsePhpCode in H.
  apply obind_ret in H as (meta & _ & H).
  apply obind_ret in H as (imports & Hi & H).
  apply obind_ret in H as (classes & Hc & H).
  apply obind_ret in H as (functions & Hf & H).
  apply obind_ret in H as (globalVars & _ & H).
  apply obind_ret in H as (errorTypes & _ & H).
  apply obind_ret in H as (debugPoints & Hd & H).
  apply obind_ret in H as (hardcoded & Hh & H).
  apply obind_ret in H as (unused & Hu & H).
  injection H as <-. simpl. repeat split.
  apply php_imports_lines in Hi. apply php_classes_lines in Hc.
  apply php_functions_lines in Hf. apply php_debug_lines in Hd.
  apply shared_hardcoded_lines in Hh.
  apply lineNumbersOf_within; simpl; auto.
  eapply shared_unused_lines; eauto. now apply classes_methods_within.
Qed.

End PhpLines.

Section HtmlLines.
Import htmlParser.

Lemma html_imports_lines lines r :
  parseHtmlImports lines = Ret r ->
  List.Forall (fun x => within (length lines) (imp_lineNumber x)) r.
Proof.
  apply forLines_within. intros i l xs H. unfold htmlImportsOfLine in H.
  inv_ret; all_here.
Qed.

Lemma no_methods_within (n : nat) (r : list ClassInfo) :
  List.Forall (fun c => within n (cls_lineNumber c) /\ cls_methods c = []) r ->
  List.Forall (fun c => within n (cls_lineNumber c)
               /\ List.Forall (fun m => within n (meth_lineNumber m)) (cls_methods c)) r.
Proof.
  apply List.Forall_impl. intros c [H ->]. split; [exact H | constructor].
Qed.

Lemma forLines_Forall {B} (P : nat -> B -> Prop) (f : nat -> jsstring -> outcome (list B))
    (lines : list jsstring) (r : list B) :
  (forall i l xs, f i l = Ret xs -> List.Forall (P i) xs) ->
  forLines f 0 lines = Ret r ->
  List.Forall (fun x => exists i, i < length lines /\ P i x) r.
Proof.
  intros Hf H. apply List.Forall_forall. intros x Hx.
  destruct (forLines_In _ _ _ _ _ H Hx) as (k & l & xs & Hk & Hfk & Hin).
  apply Hf in Hfk. rewrite List.Forall_forall in Hfk. specialize (Hfk x Hin).
  exists k. split; [|simpl in Hfk; exact Hfk]. apply nth_error_Some. simpl in Hk. congruence.
Qed.

Lemma html_components_lines lines r :
  parseHtmlComponents lines = Ret r ->
  List.Forall (fun c => within (length lines) (cls_lineNumber c)
               /\ List.Forall (fun m => within (length lines) (meth_lineNumber m))
                              (cls_methods c)) r.
Proof.
  intros H. apply no_methods_within.
  apply (forLines_Forall (fun i c => cls_lineNumber c = i + 1 /\ cls_methods c = [])) in H.
  - eapply List.Forall_impl; [|exact H]. intros c (i & Hi & Hl & Hm).
    unfold within. split; [lia | exact Hm].
  - intros i l xs Hx. inv_ret; repeat constructor.
Qed.

Lemma css_selectors_lines lines r :
  parseCssSelectors lines = Ret r ->
  List.Forall (fun c => within (length lines) (cls_lineNumber c)
               /\ List.Forall (fun m => within (length lines) (meth_lineNumber m))
                              (cls_methods c)) r.
Proof.
  intros H. apply no_methods_within.
  apply (forLines_Forall (fun i c => cls_lineNumber c = i + 1 /\ cls_methods c = [])) in H.
  - eapply List.Forall_impl; [|exact H]. intros c (i & Hi & Hl & Hm).
    unfold within. split; [lia | exact Hm].
  - intros i l xs Hx. inv_ret; repeat constructor.
Qed.

Lemma css_imports_lines lines r :
  parseCssImports lines = Ret r ->
  List.Forall (fun x => within (length lines) (imp_lineNumber x)) r.
Proof.
  apply forLines_within. intros i l xs H. inv_ret; all_here.
Qed.

Lemma html_functions_go_lines ls : forall i inScript r,
  parseInlineScriptFunctions_go i ls inScript = Ret r ->
  List.Forall (fun m => i + 1 <= meth_lineNumber m <= i + length ls) r.
Proof.
  induction ls as [|l ls IH]; intros i inScript r H; simpl in H.
  - inv_ret. constructor.
  - assert (Hw : forall b r', parseInlineScriptFunctions_go (S i) ls b = Ret r' ->
                 List.Forall (fun m => i + 1 <= meth_lineNumber m <= i + length (l :: ls)) r').
    { intros b r' Hr. apply IH in Hr. eapply List.Forall_impl; [|exact Hr].
      simpl. intros; lia. }
    destruct (includes (trim l) (js "</script>")); [now apply Hw in H|].
    destruct (negb _); [now apply Hw in H|].
    apply obind_ret in H as (r1 & H1 & H). apply obind_ret in H as (r2 & H2 & H).
    apply obind_ret in H as (more & Hmore & H). injection H as <-.
    apply Hw in Hmore.
    repeat (apply List.Forall_app; split); try exact Hmore; inv_ret; all_here.
Qed.

Lemma html_functions_lines lines r :
  parseInlineScriptFunctions lines = Ret r ->
  List.Forall (fun x => within (length lines) (meth_lineNumber x)) r.
Proof.
  intros H. apply html_functions_go_lines in H. eapply List.Forall_impl; [|exact H].
  unfold within. simpl. intros; lia.
Qed.

Lemma html_hardcoded_lines lines r :
  detectHtmlHardcoded lines = Ret r ->
  List.Forall (fun x => within (length lines) (hc_lineNumber x)) r.
Proof.
  apply forLines_within. intros i l xs H. inv_ret; all_here.
Qed.

Lemma parseHtmlCode_lines code fileName s :
  parseHtmlCode code fileName = Ret s ->
  totalLines s = length (splitLines code) /\ todos s = []
  /\ diagnostics s = [] /\ depIssues s = [] /\ externalUsage s = []
  /\ List.Forall (within (length (splitLines code))) (lineNumbersOf s).
Proof.
  intros H. unfold parseHtmlCode in H.
  apply obind_ret in H as (meta & _ & H).
  apply obind_ret in H as (imports & Hi & H).
  apply obind_ret in H as (classes & Hc & H).
  apply obind_ret in H as (functions & Hf & H).
  apply obind_ret in H as (hardcoded & Hh & H).
  injection H as <-. simpl. repeat split.
  apply html_imports_lines in Hi. apply html_components_lines in Hc.
  apply html_functions_lines in Hf. apply html_hardcoded_lines in Hh.
  apply lineNumbersOf_within; simpl; auto.
Qed.

Lemma parseCssCode_lines code fileName s :
  parseCssCode code fileName = Ret s ->
  totalLines s = length (splitLines code) /\ todos s = []
  /\ diagnostics s = [] /\ depIssues s = [] /\ externalUsage s = []
  /\ List.Forall (within (length (splitLines code))) (lineNumbersOf s).
Proof.
  intros H. unfold parseCssCode in H.
  apply obind_ret in H as (meta & _ & H).
  apply obind_ret in H as (selectors & Hc & H).
  apply obind_ret in H as (imports & Hi & H).
  apply obind_ret in H as (hardcoded & Hh & H).
  injection H as <-. simpl. repeat split.
  apply css_imports_lines in Hi. apply css_selectors_lines in Hc.
  apply html_hardcoded_lines in Hh.
  apply lineNumbersOf_within; simpl; auto.
Qed.

End HtmlLines.

Section RouterLines.
Import languageRouter.

(** What every extractor guarantees about the summary it returns. *)
Lemma extractor_lines code fileName languageId s :
  (if str_eqb languageId (js "python") then pythonParser.parsePythonCode code fileName
   else if str_eqb languageId (js "javascript") || str_eqb languageId (js "typescript")
           || str_eqb languageId (js "javascriptreact")
           || str_eqb languageId (js "typescriptreact")
   then jsParser.parseJsCode code fileName
   else if str_eqb languageId (js "php") then phpParser.parsePhpCode code fileName
   else if str_eqb languageId (js "html") then htmlParser.parseHtmlCode code fileName
   else if str_eqb languageId (js "css") then htmlParser.parseCssCode code fileName
   else pythonParser.parsePythonCode code fileName) = Ret s ->
  totalLines s = length (splitLines code) /\ todos s = []
  /\ diagnostics s = [] /\ depIssues s = [] /\ externalUsage s = []
  /\ List.Forall (within (length (splitLines code))) (lineNumbersOf s).
Proof.
  repeat match goal with |- (if ?b then _ else _) = _ -> _ => destruct b end;
    eauto using parsePythonCode_lines, parseJsCode_lines, parsePhpCode_lines,
                parseHtmlCode_lines, parseCssCode_lines.
Qed.

Lemma lineNumbersOf_set_todos (s : FileStats) (t : list TodoItem) (n : nat) :
  todos s = [] ->
  List.Forall (within n) (lineNumbersOf s) ->
  List.Forall (fun x => within n (todo_lineNumber x)) t ->
  List.Forall (within n) (lineNumbersOf (set_todos s t)).
Proof.
  unfold lineNumbersOf. simpl. intros ->. simpl.
  rewrite !List.Forall_app. intros H Ht.
  repeat match goal with H : _ /\ _ |- _ => destruct H end.
  repeat split; auto. now apply List.Forall_map.
Qed.

Lemma parseCode_lines code fileName languageId s :
  parseCode code fileName languageId = Ret s ->
  totalLines s = length (splitLines code)
  /\ diagnostics s = [] /\ depIssues s = [] /\ externalUsage s = []
  /\ List.Forall (within (totalLines s)) (lineNumbersOf s).
Proof.
  intros H. unfold parseCode in H.
  apply obind_ret in H as (stats & Hs & H).
  apply obind_ret in H as (todos & Ht & H). injection H as <-.
  apply extractor_lines in Hs as (Hn & Ht0 & Hd & Hp & He & Hl).
  apply todos_lines in Ht. simpl. rewrite Hn. repeat split; auto.
  now apply lineNumbersOf_set_todos.
Qed.

End RouterLines.

Section ErrorTypes.

Lemma py_errors_go_NoDup ls : forall errs r,
  List.NoDup errs -> pythonParser.parseErrorTypes_go ls errs = Ret r -> List.NoDup r.
Proof.
  induction ls as [|l ls IH]; intros errs r Hn H; simpl in H.
  - injection H as <-. exact Hn.
  - apply obind_ret in H as (e1 & H1 & H). apply obind_ret in H as (e2 & H2 & H).
    eapply IH; [|exact H].
    assert (Hn1 : List.NoDup e1) by (inv_ret; auto using set_add_NoDup).
    inv_ret; auto using set_add_NoDup.
Qed.

Lemma js_errors_go_NoDup ls : forall errs r,
  List.NoDup errs -> jsParser.parseJsErrors_go ls errs = Ret r -> List.NoDup r.
Proof.
  induction ls as [|l ls IH]; intros errs r Hn H; simpl in H.
  - injection H as <-. exact Hn.
  - apply obind_ret in H as (e1 & H1 & H).
    eapply IH; [|exact H].
    assert (Hn1 : List.NoDup e1) by (inv_ret; auto using set_add_NoDup).
    destruct (exec jsParser.catch_re l); auto.
    destruct (truthy _); auto using set_add_NoDup.
Qed.

Lemma php_errors_go_NoDup ls : forall errs r,
  List.NoDup errs -> phpParser.parsePhpErrors_go ls errs = Ret r -> List.NoDup r.
Proof.
  induction ls as [|l ls IH]; intros errs r Hn H; simpl in H.
  - injection H as <-. exact Hn.
  - apply obind_ret in H as (e1 & H1 & H). apply obind_ret in H as (e2 & H2 & H).
    eapply IH; [|exact H].
    assert (Hn1 : List.NoDup e1) by (inv_ret; auto using set_add_NoDup).
    inv_ret; auto using set_add_NoDup.
Qed.

(** The error names of each summary are those its harvesting pass returned. *)
Lemma parsePythonCode_errorTypes code fileName s :
  pythonParser.parsePythonCode code fileName = Ret s ->
  pythonParser.parseErrorTypes (splitLines code) = Ret (errorTypes s).
Proof.
  intros H. unfold pythonParser.parsePythonCode in H.
  repeat (apply obind_ret in H as (? & ? & H)). injection H as <-. simpl. assumption.
Qed.

Lemma parseJsCode_errorTypes code fileName s :
  jsParser.parseJsCode code fileName = Ret s ->
  jsParser.parseJsErrors (splitLines code) = Ret (errorTypes s).
Proof.
  intros H. unfold jsParser.parseJsCode in H.
  repeat (apply obind_ret in H as (? & ? & H)). injection H as <-. simpl. assumption.
Qed.

Lemma parsePhpCode_errorTypes code fileName s :
  phpParser.parsePhpCode code fileName = Ret s ->
  phpParser.parsePhpErrors (splitLines code) = Ret (errorTypes s).
Proof.
  intros H. unfold phpParser.parsePhpCode in H.
  repeat (apply obind_ret in H as (? & ? & H)). injection H as <-. simpl. assumption.
Qed.

Lemma parseHtmlCode_errorTypes code fileName s :
  htmlParser.parseHtmlCode code fileName = Ret s -> errorTypes s = [].
Proof.
  intros H. unfold htmlParser.parseHtmlCode in H.
  repeat (apply obind_ret in H as (? & ? & H)). now injection H as <-.
Qed.

Lemma parseCssCode_errorTypes code fileName s :
  htmlParser.parseCssCode code fileName = Ret s -> errorTypes s = [].
Proof.
  intros H. unfold htmlParser.parseCssCode in H.
  repeat (apply obind_ret in H as (? & ? & H)). now injection H as <-.
Qed.

Lemma extractor_errorTypes_NoDup code fileName languageId s :
  (if str_eqb languageId (js "python") then pythonParser.parsePythonCode code fileName
   else if str_eqb languageId (js "javascript") || str_eqb languageId (js "typescript")
           || str_eqb languageId (js "javascriptreact")
           || str_eqb languageId (js "typescriptreact")
   then jsParser.parseJsCode code fileName
   else if str_eqb languageId (js "php") then phpParser.parsePhpCode code fileName
   else if str_eqb languageId (js "html") then htmlParser.parseHtmlCode code fileName
   else if str_eqb languageId (js "css") then htmlParser.parseCssCode code fileName
   else pythonParser.parsePythonCode code fileName) = Ret s ->
  List.NoDup (errorTypes s).
Proof.
  repeat match goal with |- (if ?b then _ else _) = _ -> _ => destruct b end; intros H.
  all: first
    [ apply parsePythonCode_errorTypes in H; eapply py_errors_go_NoDup; [|exact H]; constructor
    | apply parseJsCode_errorTypes in H; eapply js_errors_go_NoDup; [|exact H]; constructor
    | apply parsePhpCode_errorTypes in H; eapply php_errors_go_NoDup; [|exact H]; constructor
    | apply parseHtmlCode_errorTypes in H; rewrite H; constructor
    | apply parseCssCode_errorTypes in H; rewrite H; constructor ].
Qed.



End ErrorTypes.

Section SummaryClaims.
Import languageRouter.

(** C1: for every text and every language tag, supported or not, [parseCode]
    returns a summary and raises nothing; what it could not match is left out
    and no diagnostic is reported in its place. *)
Theorem parseCode_returns_a_summary (code fileName languageId : jsstring) :
  exists stats : FileStats,
    parseCode code fileName languageId = Ret stats
    /\ (forall e, parseCode code fileName languageId <> Throw e)
    /\ totalLines stats = length (splitLines code)
    /\ diagnostics stats = [].
Proof.
  destruct (parseCode_total code fileName languageId) as [stats H].
  exists stats. split; [exact H|]. split; [intros e; congruence|].
  apply parseCode_lines in H. tauto.
Qed.

(** C9: every line number held by the summary that [parseCode] returns, in
    its imports, types, methods, callables, findings, unused items, risk
    points and notes, lies between 1 and [totalLines], and so 1-indexes a
    line of the input text as it was given. *)
Theorem lineNumbers_index_the_input (code fileName languageId : jsstring)
    (stats : FileStats) :
  parseCode code fileName languageId = Ret stats ->
  List.Forall (fun n => 1 <= n <= totalLines stats
                        /\ exists line, nth_error (splitLines code) (n - 1) = Some line)
              (lineNumbersOf stats).
Proof.
  intros H. apply parseCode_lines in H as (Hn & _ & _ & _ & Hl).
  eapply List.Forall_impl; [|exact Hl]. intros n Hw. unfold within in Hw.
  split; [exact Hw|]. rewrite Hn in Hw.
  destruct (nth_error (splitLines code) (n - 1)) as [line|] eqn:E; [eauto|].
  apply nth_error_None in E. lia.
Qed.

(** The line numbers of the summary of [sample_py], a text of four lines. *)
Lemma lineNumbers_index_the_input_witness :
  exists stats : FileStats,
    parseCode sample_py (js "store.py") (js "python") = Ret stats
    /\ lineNumbersOf stats = [1; 2; 3; 1; 3; 4]
    /\ List.Forall (fun n => 1 <= n <= totalLines stats
                          /\ exists line, nth_error (splitLines sample_py) (n - 1) = Some line)
                (lineNumbersOf stats).
Proof.
  destruct (parseCode sample_py (js "store.py") (js "python")) as [stats|e] eqn:E;
    [|vm_compute in E; discriminate E].
  exists stats. split; [reflexivity|]. split.
  - vm_compute in E. injection E as <-. reflexivity.
  - exact (lineNumbers_index_the_input _ _ _ _ E).
Defined.

(** C10: the error names of the summary that [parseCode] returns, whichever
    extractor the language tag selects, hold no name twice. *)
Theorem errorTypes_hold_no_duplicate (code fileName languageId : jsstring)
    (stats : FileStats) :
  parseCode code fileName languageId = Ret stats -> List.NoDup (errorTypes stats).
Proof.
  intros H. unfold parseCode in H.
  apply obind_ret in H as (s & Hs & H). apply obind_ret in H as (t & _ & H).
  injection H as <-. simpl. now apply extractor_errorTypes_NoDup in Hs.
Qed.

(** The error names of the summary of [sample_js]. *)
Lemma errorTypes_hold_no_duplicate_witness :
  exists stats : FileStats,
    parseCode sample_js (js "store.js") (js "javascript") = Ret stats
    /\ List.NoDup (errorTypes stats).
Proof.
  destruct (parseCode sample_js (js "store.js") (js "javascript")) as [stats|e] eqn:E;
    [|vm_compute in E; discriminate E].
  exists stats. split; [reflexivity|].
  exact (errorTypes_hold_no_duplicate _ _ _ _ E).
Defined.




End SummaryClaims.

Section Scanners.

Lemma py_hardcodedOfLine_line i l xs :
  pythonParser.hardcodedOfLine i l = Ret xs ->
  List.Forall (fun x => hc_lineNumber x = i + 1) xs.
Proof.
  intros H. unfold pythonParser.hardcodedOfLine in H. inv_ret; all_here.
Qed.

Lemma shared_hardcodedOfLine_line prefix i l xs :
  parserUtils.hardcodedOfLine prefix i l = Ret xs ->
  List.Forall (fun x => hc_lineNumber x = i + 1) xs.
Proof.
  intros H. unfold parserUtils.hardcodedOfLine in H. inv_ret; all_here.
Qed.

(** What a line-by-line pass returns for one line is what its result holds
    for that line's number. *)
Lemma forLines_filter {B} (ln : B -> nat) (f : nat -> jsstring -> outcome (list B))
    (ls : list jsstring) :
  (forall i l xs, f i l = Ret xs -> List.Forall (fun x => ln x = i + 1) xs) ->
  forall i0 r i line xs,
    forLines f i0 ls = Ret r -> nth_error ls i = Some line -> f (i0 + i) line = Ret xs ->
    List.filter (fun x => ln x =? i0 + i + 1) r = xs.
Proof.
  intros Hf. induction ls as [|l ls IH]; intros i0 r i line xs H Hn Hx.
  - destruct i; discriminate.
  - simpl in H. apply obind_ret in H as (here & Hhere & H).
    apply obind_ret in H as (more & Hmore & H). injection H as <-.
    rewrite List.filter_app. destruct i as [|i]; simpl in Hn.
    + injection Hn as ->. rewrite Nat.add_0_r in *.
      assert (here = xs) by congruence. subst here.
      assert (E1 : List.filter (fun x => ln x =? i0 + 1) xs = xs).
      { apply Hf in Hx. clear -Hx. induction Hx as [|x xs Hxl _ IHx]; simpl; auto.
        rewrite Hxl, Nat.eqb_refl. now f_equal. }
      assert (E2 : List.filter (fun x => ln x =? i0 + 1) more = []).
      { assert (Hall : forall x, List.In x more -> ln x <> i0 + 1).
        { intros x Hin.
          destruct (forLines_In _ _ _ _ _ Hmore Hin) as (k & l' & ys & _ & Hy & Hiny).
          apply Hf in Hy. rewrite List.Forall_forall in Hy. specialize (Hy x Hiny). lia. }
        clear -Hall. induction more as [|x more IHm]; simpl; auto.
        destruct (ln x =? i0 + 1) eqn:E.
        - apply Nat.eqb_eq in E. exfalso. apply (Hall x); simpl; auto.
        - apply IHm. intros y Hy. apply Hall. simpl; auto. }
      rewrite E1, E2. apply List.app_nil_r.
    + assert (E1 : List.filter (fun x => ln x =? i0 + S i + 1) here = []).
      { apply Hf in Hhere. clear -Hhere.
        induction Hhere as [|x here Hxl _ IHx]; simpl; auto.
        destruct (ln x =? i0 + S i + 1) eqn:E; [apply Nat.eqb_eq in E; lia | exact IHx]. }
      rewrite E1. simpl.
      replace (i0 + S i) with (S i0 + i) in * by lia. eapply IH; eauto.
Qed.

Lemma scan_findingsAt (s : scanner) (lines : list jsstring) (r : list HardcodedValue)
    (i : nat) (line : jsstring) (xs : list HardcodedValue) :
  scan s lines = Ret r -> nth_error lines i = Some line ->
  match s with
  | PythonScanner => pythonParser.hardcodedOfLine i line
  | SharedScanner p => parserUtils.hardcodedOfLine p i line
  end = Ret xs ->
  findingsAt (i + 1) r = xs.
Proof.
  intros H Hn Hx. unfold findingsAt. destruct s as [|p]; simpl in H.
  - apply (forLines_filter hc_lineNumber _ lines py_hardcodedOfLine_line 0 r i line xs H Hn Hx).
  - apply (forLines_filter hc_lineNumber _ lines (shared_hardcodedOfLine_line p)
             0 r i line xs H Hn Hx).
Qed.

Lemma py_credential_line i line m :
  py_skipped (trim line) = false ->
  exec pythonParser.credRe line = Some m ->
  exists ctx, pythonParser.hardcodedOfLine i line
              = Ret [{| hc_value := m_text m; hc_type := hc_credential;
                        hc_lineNumber := i + 1; hc_context := ctx |}].
Proof.
  intros Hs Hm. unfold py_skipped in Hs.
  apply orb_false_iff in Hs as [Hs H3]. apply orb_false_iff in Hs as [H1 H2].
  destruct (contextOf_total (trim line)) as [ctx Hc]. exists ctx.
  unfold pythonParser.hardcodedOfLine. cbv zeta. rewrite H1, H2, H3, Hm, Hc. reflexivity.
Qed.

Lemma shared_credential_line prefix i line m :
  parserUtils.skipped prefix (trim line) = false ->
  exec parserUtils.credRe line = Some m ->
  exists ctx, parserUtils.hardcodedOfLine prefix i line
              = Ret [{| hc_value := m_text m; hc_type := hc_credential;
                        hc_lineNumber := i + 1; hc_context := ctx |}].
Proof.
  intros Hs Hm.
  destruct (shared_contextOf_total (trim line)) as [ctx Hc]. exists ctx.
  unfold parserUtils.hardcodedOfLine. cbv zeta. rewrite Hs, Hc, Hm. reflexivity.
Qed.

(** The string rule of the Python scanner asks for a name that is
    upper-snake-case and, inside, for one that is not: it reports nothing. *)
Lemma py_hardcodedOfLine_kinds i l xs :
  pythonParser.hardcodedOfLine i l = Ret xs ->
  List.Forall (fun x => hc_type x <> hc_string) xs.
Proof.
  intros H. unfold pythonParser.hardcodedOfLine in H.
  inv_ret;
    repeat first
      [ apply List.Forall_nil
      | apply List.Forall_cons; [simpl; discriminate |]
      | apply List.Forall_app; split ];
    match goal with
    | H1 : Bool.eqb (negb ?b) false = true, H2 : negb ?b = true |- _ =>
        rewrite H2 in H1; discriminate H1
    end.
Qed.

Lemma shared_hardcodedOfLine_kinds prefix i l xs :
  parserUtils.hardcodedOfLine prefix i l = Ret xs ->
  List.Forall (fun x => hc_type x = hc_credential \/ hc_type x = hc_url
                        \/ hc_type x = hc_ip \/ hc_type x = hc_number) xs.
Proof.
  intros H. unfold parserUtils.hardcodedOfLine in H.
  inv_ret;
    repeat first
      [ apply List.Forall_nil
      | apply List.Forall_cons; [simpl; tauto |]
      | apply List.Forall_app; split
      | match goal with
        | |- List.Forall _ (match ?x with _ => _ end) => destruct x
        end ].
Qed.

End Scanners.

Section ScannerClaims.

(** C3 as it is stated fails.  [auth_line] is not blank, not a comment and
    not an import, and assigns a quoted literal to the name auth; the Python
    scanner, whose pattern does not list that name, reports nothing for it.
    [dashed_token_line] matches the credential pattern of the shared
    scanner, which passes over every line that holds three dashes and so
    reports nothing for it. *)
Lemma credential_lines_without_finding :
  (py_skipped (trim auth_line) = false
   /\ option_map m_text (exec parserUtils.credRe auth_line) = Some auth_line
   /\ scan PythonScanner [auth_line] = Ret [])
  /\ (nonEmpty (trim dashed_token_line) = true
      /\ startsWith (trim dashed_token_line) (js "//") = false
      /\ startsWith (trim dashed_token_line) (js "#") = false
      /\ test parserUtils.importLine_re (trim dashed_token_line) = false
      /\ option_map m_text (exec parserUtils.credRe dashed_token_line)
         = Some dashed_token_line
      /\ scan (SharedScanner (js "//")) [dashed_token_line] = Ret []).
Proof. repeat split; vm_compute; reflexivity. Qed.

(** C3, amended: for each of the two scanners, a line that the scanner does
    not pass over and that matches the scanner's own credential pattern
    yields exactly one finding for its line number: of kind credential, with
    the matched text as value, and nothing else. *)
Theorem credential_line_yields_one_finding (s : scanner) (lines : list jsstring)
    (r : list HardcodedValue) (i : nat) (line : jsstring) (m : rmatch) :
  scan s lines = Ret r ->
  nth_error lines i = Some line ->
  passesOver s (trim line) = false ->
  exec (credentialRe s) line = Some m ->
  exists ctx,
    findingsAt (i + 1) r
    = [{| hc_value := m_text m; hc_type := hc_credential; hc_lineNumber := i + 1;
          hc_context := ctx |}].
Proof.
  intros Hr Hn Hs Hm. destruct s as [|p]; simpl in Hs, Hm.
  - destruct (py_credential_line i line m Hs Hm) as [ctx Hc]. exists ctx.
    apply (scan_findingsAt PythonScanner lines r i line _ Hr Hn Hc).
  - destruct (shared_credential_line p i line m Hs Hm) as [ctx Hc]. exists ctx.
    apply (scan_findingsAt (SharedScanner p) lines r i line _ Hr Hn Hc).
Qed.

(** The scenario of the password on line 5, for the Python scanner. *)
Lemma credential_line_yields_one_finding_witness :
  exists r m ctx,
    scan PythonScanner password_file = Ret r
    /\ exec pythonParser.credRe password_line = Some m
    /\ findingsAt 5 r
       = [{| hc_value := m_text m; hc_type := hc_credential; hc_lineNumber := 5;
             hc_context := ctx |}].
Proof.
  destruct (scan PythonScanner password_file) as [r|e] eqn:Hr;
    [|vm_compute in Hr; discriminate Hr].
  destruct (exec pythonParser.credRe password_line) as [m|] eqn:Hm;
    [|vm_compute in Hm; discriminate Hm].
  assert (Hs : passesOver PythonScanner (trim password_line) = false)
    by (vm_compute; reflexivity).
  destruct (credential_line_yields_one_finding PythonScanner password_file r 4
              password_line m Hr eq_refl Hs Hm) as [ctx H].
  exists r, m, ctx. repeat split. exact H.
Defined.

(** C8 as it is stated fails: [long_literal_line] assigns a quoted literal of
    ten characters to a name that is not upper-snake-case and matches no
    other rule, and the shared scanner reports nothing for it. *)
Lemma long_literal_without_string_finding :
  parserUtils.skipped (js "//") (trim long_literal_line) = false
  /\ option_map (fun m => (group m 1, group m 2))
       (exec pythonParser.assignStr_re (trim long_literal_line))
     = Some (Some (js "userName"), Some (js "abcdefghij"))
  /\ test pythonParser.upperName_re (js "userName") = false
  /\ scan (SharedScanner (js "//")) [long_literal_line] = Ret [].
Proof. repeat split; vm_compute; reflexivity. Qed.

(** C8, amended: the shared scanner, which the brace-based extractors use,
    has no rule for plain string assignments: every finding it reports is of
    kind credential, url, ip or number, and none is of kind string. *)
Theorem shared_scanner_reports_no_string (commentPrefix : jsstring)
    (lines : list jsstring) (r : list HardcodedValue) :
  scan (SharedScanner commentPrefix) lines = Ret r ->
  List.Forall (fun x => (hc_type x = hc_credential \/ hc_type x = hc_url
                         \/ hc_type x = hc_ip \/ hc_type x = hc_number)
                        /\ hc_type x <> hc_string) r.
Proof.
  intros H. simpl in H. apply List.Forall_forall. intros x Hx.
  destruct (forLines_In _ _ _ _ _ H Hx) as (k & l & xs & _ & Hk & Hin).
  apply shared_hardcodedOfLine_kinds in Hk. rewrite List.Forall_forall in Hk.
  specialize (Hk x Hin). split; [exact Hk|].
  destruct Hk as [E|[E|[E|E]]]; rewrite E; discriminate.
Qed.

(** The shared scanner on [long_literal_line] followed by [password_file]: one
    finding, for the password. *)
Lemma shared_scanner_reports_no_string_witness :
  exists r,
    scan (SharedScanner (js "//")) (long_literal_line :: password_file) = Ret r
    /\ List.map hc_type r = [hc_credential]
    /\ List.Forall (fun x => (hc_type x = hc_credential \/ hc_type x = hc_url
                              \/ hc_type x = hc_ip \/ hc_type x = hc_number)
                             /\ hc_type x <> hc_string) r.
Proof.
  destruct (scan (SharedScanner (js "//")) (long_literal_line :: password_file))
    as [r|e] eqn:Hr; [|vm_compute in Hr; discriminate Hr].
  exists r. split; [reflexivity|]. split.
  - vm_compute in Hr. injection Hr as <-. reflexivity.
  - exact (shared_scanner_reports_no_string _ _ _ Hr).
Defined.

End ScannerClaims.

Section DependencyClaims.
Import analyzers.

Lemma issueOf_unknown (installed : option (list jsstring)) (language : jsstring)
    (imp : ImportInfo) (ds : list DepIssue) :
  installed = None \/ installed = Some [] ->
  issueOf installed language imp = Ret ds ->
  List.Forall (fun d => dep_status d = dep_unknown
                        /\ dep_installCmd d = Some (installCmdFor language (dep_name d))) ds.
Proof.
  intros Hi H. unfold issueOf in H. apply obind_ret in H as (dep & _ & H).
  destruct dep as [[|c t]|].
  - injection H as <-. constructor.
  - destruct Hi as [-> | ->]; injection H as <-; repeat constructor.
  - injection H as <-. constructor.
Qed.

(** C4 as it is stated fails: without any manifest or package list the
    issue for an import of requests has status unknown and carries the
    install command all the same. *)
Lemma unknown_status_with_install_hint :
  checkDependencies no_packages [requests_import] (js "/srv/app/main.py") (js "python")
  = Ret [{| dep_name := js "requests"; dep_status := dep_unknown; dep_lineNumber := 1;
            dep_installCmd := Some (js "pip install requests") |}].
Proof. vm_compute. reflexivity. Qed.

(** C4, amended: when no manifest or verification signal is available, that
    is when [getInstalledPackages] returns null or an empty set, every issue
    that the resolver emits has status unknown and carries the install
    command of its language for the package: the command is left empty only
    for a package found installed. *)
Theorem unknown_status_carries_install_command
    (getInstalledPackages : jsstring -> jsstring -> option (list jsstring))
    (imports : list ImportInfo) (filePath language : jsstring) (issues : list DepIssue) :
  getInstalledPackages filePath language = None
  \/ getInstalledPackages filePath language = Some [] ->
  checkDependencies getInstalledPackages imports filePath language = Ret issues ->
  List.Forall (fun d => dep_status d = dep_unknown
                        /\ dep_installCmd d = Some (installCmdFor language (dep_name d)))
              issues.
Proof.
  intros Hi H. unfold checkDependencies in H.
  apply obind_ret in H as (ext & _ & H).
  destruct (length ext =? 0); [injection H as <-; constructor|].
  apply obind_ret in H as (iss & Hiss & H). injection H as <-.
  eapply omapM_concat_Forall; [exact Hiss|].
  intros imp ds _ Hds. exact (issueOf_unknown _ language imp ds Hi Hds).
Qed.

(** The import of requests in a Python file, without manifest or package list. *)
Lemma unknown_status_carries_install_command_witness :
  exists issues,
    checkDependencies no_packages [requests_import] (js "/srv/app/main.py") (js "python")
    = Ret issues
    /\ List.Forall (fun d => dep_status d = dep_unknown
                             /\ dep_installCmd d
                                = Some (installCmdFor (js "python") (dep_name d))) issues.
Proof.
  destruct (checkDependencies no_packages [requests_import] (js "/srv/app/main.py")
              (js "python")) as [issues|e] eqn:H; [|vm_compute in H; discriminate H].
  exists issues. split; [reflexivity|].
  exact (unknown_status_carries_install_command no_packages [requests_import]
           (js "/srv/app/main.py") (js "python") issues (or_introl eq_refl) H).
Defined.

End DependencyClaims.

Section UnusedImports.





End UnusedImports.

Section UnusedImportClaims.
Import languageRouter.



End UnusedImportClaims.

(* ====================================================================== *)
(** * The parts of a summary *)
(* ====================================================================== *)

Ltac parts_tac H :=
  repeat (apply obind_ret in H as (? & ? & H)); injection H as <-; simpl;
  repeat split; try assumption; try reflexivity.

Ltac line_tac := let H := fresh "H" in intros ? ? ? H; inv_ret; all_here.

Section SummaryParts.

Lemma parsePythonCode_parts code fileName s :
  pythonParser.parsePythonCode code fileName = Ret s ->
  pythonParser.parseImports (splitLines code) = Ret (imports s)
  /\ pythonParser.parseClasses (splitLines code) = Ret (classes s)
  /\ pythonParser.parseTopLevelFunctions (splitLines code) = Ret (functions s)
  /\ pythonParser.parseDebugPoints (splitLines code) = Ret (debugPoints s)
  /\ pythonParser.detectHardcodedValues (splitLines code) = Ret (hardcoded s)
  /\ pythonParser.detectUnusedCode (splitLines code) (imports s) (classes s) (functions s)
     = Ret (unused s)
  /\ totalLines s = length (splitLines code)
  /\ codeLines s = pythonParser.countCodeLines (splitLines code)
  /\ language s = js "python" /\ todos s = [].
Proof. intros H. unfold pythonParser.parsePythonCode in H. parts_tac H. Qed.

Lemma parseJsCode_parts code fileName s :
  jsParser.parseJsCode code fileName = Ret s ->
  jsParser.parseJsImports (splitLines code) = Ret (imports s)
  /\ jsParser.parseJsClasses (splitLines code) = Ret (classes s)
  /\ jsParser.parseJsFunctions (splitLines code) = Ret (functions s)
  /\ jsParser.parseJsDebug (splitLines code) = Ret (debugPoints s)
  /\ parserUtils.detectHardcoded (splitLines code) (js "//") = Ret (hardcoded s)
  /\ parserUtils.detectUnused (splitLines code) (imports s) (classes s) (functions s)
       (js "//") = Ret (unused s)
  /\ totalLines s = length (splitLines code)
  /\ codeLines s = jsParser.countJsCodeLines (splitLines code)
  /\ language s = js "javascript" /\ todos s = []
  /\ classDescriptions s = parserUtils.genClassDescs (classes s) (imports s).
Proof. intros H. unfold jsParser.parseJsCode in H. parts_tac H. Qed.

Lemma parsePhpCode_parts code fileName s :
  phpParser.parsePhpCode code fileName = Ret s ->
  phpParser.parsePhpImports (splitLines code) = Ret (imports s)
  /\ phpParser.parsePhpClasses (splitLines code) = Ret (classes s)
  /\ phpParser.parsePhpFunctions (splitLines code) = Ret (functions s)
  /\ phpParser.parsePhpDebug (splitLines code) = Ret (debugPoints s)
  /\ parserUtils.detectHardcoded (splitLines code) (js "//") = Ret (hardcoded s)
  /\ parserUtils.detectUnused (splitLines code) (imports s) (classes s) (functions s)
       (js "//") = Ret (unused s)
  /\ totalLines s = length (splitLines code)
  /\ codeLines s = phpParser.countPhpCodeLines (splitLines code)
  /\ language s = js "php" /\ todos s = []
  /\ classDescriptions s = parserUtils.genClassDescs (classes s) (imports s).
Proof. intros H. unfold phpParser.parsePhpCode in H. parts_tac H. Qed.

Lemma parseHtmlCode_parts code fileName s :
  htmlParser.parseHtmlCode code fileName = Ret s ->
  htmlParser.parseHtmlImports (splitLines code) = Ret (imports s)
  /\ htmlParser.parseHtmlComponents (splitLines code) = Ret (classes s)
  /\ htmlParser.parseInlineScriptFunctions (splitLines code) = Ret (functions s)
  /\ debugPoints s = []
  /\ htmlParser.detectHtmlHardcoded (splitLines code) = Ret (hardcoded s)
  /\ unused s = []
  /\ totalLines s = length (splitLines code)
  /\ codeLines s = htmlParser.countHtmlCodeLines (splitLines code)
  /\ language s = js "html" /\ todos s = [].
Proof. intros H. unfold htmlParser.parseHtmlCode in H. parts_tac H. Qed.

Lemma parseCssCode_parts code fileName s :
  htmlParser.parseCssCode code fileName = Ret s ->
  htmlParser.parseCssImports (splitLines code) = Ret (imports s)
  /\ htmlParser.parseCssSelectors (splitLines code) = Ret (classes s)
  /\ functions s = []
  /\ debugPoints s = []
  /\ htmlParser.detectHtmlHardcoded (splitLines code) = Ret (hardcoded s)
  /\ unused s = []
  /\ totalLines s = length (splitLines code)
  /\ codeLines s = htmlParser.countHtmlCodeLines (splitLines code)
  /\ language s = js "css" /\ todos s = [].
Proof. intros H. unfold htmlParser.parseCssCode in H. parts_tac H. Qed.

(** The summary of [parseCode] is that of one of the five extractors, with
    the notes of [scanTodos] put in. *)
Lemma parseCode_cases code fileName languageId s :
  languageRouter.parseCode code fileName languageId = Ret s ->
  exists s0 t,
    analyzers.scanTodos (splitLines code) = Ret t
    /\ s = languageRouter.set_todos s0 t
    /\ (pythonParser.parsePythonCode code fileName = Ret s0
        \/ jsParser.parseJsCode code fileName = Ret s0
        \/ phpParser.parsePhpCode code fileName = Ret s0
        \/ htmlParser.parseHtmlCode code fileName = Ret s0
        \/ htmlParser.parseCssCode code fileName = Ret s0).
Proof.
  intros H. unfold languageRouter.parseCode in H.
  apply obind_ret in H as (s0 & Hs & H). apply obind_ret in H as (t & Ht & H).
  injection H as <-. exists s0, t. split; [exact Ht|]. split; [reflexivity|].
  repeat match type of Hs with (if ?b then _ else _) = _ => destruct b end; tauto.
Qed.

End SummaryParts.

(* ====================================================================== *)
(** * Counts of lines *)
(* ====================================================================== *)

Section LineCounts.

Lemma lines_go_length (s cur : jsstring) : 1 <= length (lines_go s cur).
Proof.
  revert cur. induction s as [|c s IH]; intros cur; simpl; [lia|].
  destruct (N.eqb c 10); simpl; [lia | apply IH].
Qed.

Lemma py_countCodeLines_go_le ls : forall c b,
  pythonParser.countCodeLines_go ls c b <= c + length ls.
Proof.
  induction ls as [|l ls IH]; intros c b; simpl; [lia|].
  repeat match goal with |- context [if ?x then _ else _] => destruct x end;
    match goal with |- pythonParser.countCodeLines_go ls ?c' ?b' <= _ =>
      specialize (IH c' b'); lia end.
Qed.

Lemma js_countCodeLines_go_le ls : forall c b,
  jsParser.countJsCodeLines_go ls c b <= c + length ls.
Proof.
  induction ls as [|l ls IH]; intros c b; simpl; [lia|].
  repeat match goal with |- context [if ?x then _ else _] => destruct x end;
    match goal with |- jsParser.countJsCodeLines_go ls ?c' ?b' <= _ =>
      specialize (IH c' b'); lia end.
Qed.

Lemma php_countCodeLines_go_le ls : forall c b,
  phpParser.countPhpCodeLines_go ls c b <= c + length ls.
Proof.
  induction ls as [|l ls IH]; intros c b; simpl; [lia|].
  repeat match goal with |- context [if ?x then _ else _] => destruct x end;
    match goal with |- phpParser.countPhpCodeLines_go ls ?c' ?b' <= _ =>
      specialize (IH c' b'); lia end.
Qed.

Lemma html_countCodeLines_go_le ls : forall c b,
  htmlParser.countHtmlCodeLines_go ls c b <= c + length ls.
Proof.
  induction ls as [|l ls IH]; intros c b; simpl; [lia|].
  repeat match goal with |- context [if ?x then _ else _] => destruct x end;
    match goal with |- htmlParser.countHtmlCodeLines_go ls ?c' ?b' <= _ =>
      specialize (IH c' b'); lia end.
Qed.

(** X1: the summary of [parseCode] counts at least one line, the text
    without any line break being one line, and no more code lines than
    lines. *)
Theorem codeLines_at_most_totalLines (code fileName languageId : jsstring)
    (stats : FileStats) :
  languageRouter.parseCode code fileName languageId = Ret stats ->
  1 <= totalLines stats /\ codeLines stats <= totalLines stats.
Proof.
  intros H. apply parseCode_cases in H as (s0 & t & _ & -> & Hs). simpl.
  pose proof (lines_go_length code []) as Hl. fold (splitLines code) in Hl.
  destruct Hs as [Hs|[Hs|[Hs|[Hs|Hs]]]].
  - apply parsePythonCode_parts in Hs as (_ & _ & _ & _ & _ & _ & -> & -> & _).
    split; [exact Hl | apply py_countCodeLines_go_le].
  - apply parseJsCode_parts in Hs as (_ & _ & _ & _ & _ & _ & -> & -> & _).
    split; [exact Hl | apply js_countCodeLines_go_le].
  - apply parsePhpCode_parts in Hs as (_ & _ & _ & _ & _ & _ & -> & -> & _).
    split; [exact Hl | apply php_countCodeLines_go_le].
  - apply parseHtmlCode_parts in Hs as (_ & _ & _ & _ & _ & _ & -> & -> & _).
    split; [exact Hl | apply html_countCodeLines_go_le].
  - apply parseCssCode_parts in Hs as (_ & _ & _ & _ & _ & _ & -> & -> & _).
    split; [exact Hl | apply html_countCodeLines_go_le].
Qed.

(** The summary of [sample_py]: four lines, all of them code. *)
Lemma codeLines_at_most_totalLines_witness :
  exists stats : FileStats,
    languageRouter.parseCode sample_py (js "store.py") (js "python") = Ret stats
    /\ totalLines stats = 4 /\ codeLines stats = 4
    /\ 1 <= totalLines stats /\ codeLines stats <= totalLines stats.
Proof.
  destruct (languageRouter.parseCode sample_py (js "store.py") (js "python"))
    as [stats|e] eqn:E; [|vm_compute in E; discriminate E].
  exists stats. split; [reflexivity|].
  pose proof (codeLines_at_most_totalLines _ _ _ _ E) as H.
  vm_compute in E. injection E as <-. split; [reflexivity|]. split; [reflexivity|].
  exact H.
Defined.

End LineCounts.

(* ====================================================================== *)
(** * Records come in the order of the lines *)
(* ====================================================================== *)

Section SourceOrder.

Lemma sorted_same_line {B} (ln : B -> nat) (c : nat) (xs : list B) :
  List.Forall (fun x => ln x = c) xs -> StronglySorted le (List.map ln xs).
Proof.
  induction 1 as [|x xs Hx Hxs IH]; simpl; constructor; auto.
  apply List.Forall_map. eapply List.Forall_impl; [|exact Hxs]. simpl. intros; lia.
Qed.

Lemma sorted_app_le (l1 l2 : list nat) (c : nat) :
  StronglySorted le l1 -> StronglySorted le l2 ->
  List.Forall (fun x => x <= c) l1 -> List.Forall (fun x => c <= x) l2 ->
  StronglySorted le (l1 ++ l2).
Proof.
  intros H1 H2 F1 F2. apply StronglySorted_app_2; [|exact H1|exact H2].
  intros x1 x2 Hx1 Hx2. apply list_elem_of_In in Hx1, Hx2.
  rewrite List.Forall_forall in F1, F2. specialize (F1 _ Hx1). specialize (F2 _ Hx2). lia.
Qed.

Lemma forLines_sorted {B} (ln : B -> nat) (f : nat -> jsstring -> outcome (list B)) :
  (forall i l xs, f i l = Ret xs -> List.Forall (fun x => ln x = i + 1) xs) ->
  forall ls i0 r, forLines f i0 ls = Ret r ->
    StronglySorted le (List.map ln r) /\ List.Forall (fun x => i0 + 1 <= x) (List.map ln r).
Proof.
  intros Hf. induction ls as [|l ls IH]; intros i0 r H; simpl in H.
  - injection H as <-. split; constructor.
  - apply obind_ret in H as (here & Hhere & H). apply obind_ret in H as (more & Hmore & H).
    injection H as <-. apply Hf in Hhere. apply IH in Hmore as [Hs Hb].
    rewrite List.map_app. split.
    + apply (sorted_app_le _ _ (i0 + 1)).
      * eapply sorted_same_line. exact Hhere.
      * exact Hs.
      * apply List.Forall_map. eapply List.Forall_impl; [|exact Hhere]. simpl. intros; lia.
      * eapply List.Forall_impl; [|exact Hb]. simpl. intros; lia.
    + apply List.Forall_app. split.
      * apply List.Forall_map. eapply List.Forall_impl; [|exact Hhere]. simpl. intros; lia.
      * eapply List.Forall_impl; [|exact Hb]. simpl. intros; lia.
Qed.

(** A pass that pushes at most one number per line returns increasing
    numbers. *)
Lemma forLines_increasing (f : nat -> jsstring -> outcome (list nat)) :
  (forall i l xs, f i l = Ret xs -> xs = [] \/ xs = [i + 1]) ->
  forall ls i0 r, forLines f i0 ls = Ret r ->
    StronglySorted lt r /\ List.Forall (fun x => i0 + 1 <= x) r.
Proof.
  intros Hf. induction ls as [|l ls IH]; intros i0 r H; simpl in H.
  - injection H as <-. split; constructor.
  - apply obind_ret in H as (here & Hhere & H). apply obind_ret in H as (more & Hmore & H).
    injection H as <-. apply Hf in Hhere. apply IH in Hmore as [Hs Hb].
    destruct Hhere as [-> | ->]; simpl.
    + split; [exact Hs|]. eapply List.Forall_impl; [|exact Hb]. simpl. intros; lia.
    + split.
      * constructor; [exact Hs|]. eapply List.Forall_impl; [|exact Hb]. simpl. intros; lia.
      * constructor; [lia|]. eapply List.Forall_impl; [|exact Hb]. simpl. intros; lia.
Qed.

Lemma html_functions_go_sorted ls : forall i inScript r,
  htmlParser.parseInlineScriptFunctions_go i ls inScript = Ret r ->
  StronglySorted le (List.map meth_lineNumber r)
  /\ List.Forall (fun x => i + 1 <= x) (List.map meth_lineNumber r).
Proof.
  induction ls as [|l ls IH]; intros i inScript r H; simpl in H.
  - inv_ret. split; constructor.
  - assert (Hw : forall b r', htmlParser.parseInlineScriptFunctions_go (S i) ls b = Ret r' ->
                 StronglySorted le (List.map meth_lineNumber r')
                 /\ List.Forall (fun x => i + 2 <= x) (List.map meth_lineNumber r')).
    { intros b r' Hr. apply IH in Hr as [Hs Hb]. split; [exact Hs|].
      eapply List.Forall_impl; [|exact Hb]. simpl. intros; lia. }
    assert (Hweak : forall l', List.Forall (fun x => i + 2 <= x) l' ->
                               List.Forall (fun x => i + 1 <= x) l').
    { intros l'. apply List.Forall_impl. intros; lia. }
    destruct (includes (trim l) (js "</script>"));
      [apply Hw in H as [Hs Hb]; split; auto|].
    destruct (negb _); [apply Hw in H as [Hs Hb]; split; auto|].
    apply obind_ret in H as (r1 & H1 & H). apply obind_ret in H as (r2 & H2 & H).
    apply obind_ret in H as (more & Hmore & H). injection H as <-.
    apply Hw in Hmore as [Hs Hb].
    assert (F1 : List.Forall (fun x => meth_lineNumber x = i + 1) (r1 ++ r2)).
    { apply List.Forall_app. split; inv_ret; all_here. }
    rewrite List.app_assoc, List.map_app. split.
    + apply (sorted_app_le _ _ (i + 1)).
      * eapply sorted_same_line. exact F1.
      * exact Hs.
      * apply List.Forall_map. eapply List.Forall_impl; [|exact F1]. simpl. intros; lia.
      * auto.
    + apply List.Forall_app. split; [|auto].
      apply List.Forall_map. eapply List.Forall_impl; [|exact F1]. simpl. intros; lia.
Qed.

Ltac sorted_by_lines H :=
  first
    [ rewrite H; constructor
    | refine (proj1 (html_functions_go_sorted _ _ _ _ H))
    | refine (proj1 (forLines_sorted _ _ _ _ _ _ H));
      first
        [ solve [intros ? ? ? ?; eapply py_hardcodedOfLine_line; eassumption]
        | solve [intros ? ? ? ?; eapply shared_hardcodedOfLine_line; eassumption]
        | solve [let K := fresh in
                 intros ? ? ? K; unfold htmlParser.htmlImportsOfLine in K; inv_ret; all_here]
        | solve [line_tac] ] ].

Ltac increasing_by_lines H :=
  first
    [ rewrite H; constructor
    | refine (proj1 (forLines_increasing _ _ _ _ _ H));
      solve [let K := fresh in intros ? ? ? K; inv_ret; auto] ].

Lemma todos_sorted lines t :
  analyzers.scanTodos lines = Ret t -> StronglySorted le (List.map todo_lineNumber t).
Proof. intros H. sorted_by_lines H. Qed.

(** X2: in the summary of [parseCode] the imports, types, callables,
    hardcoded findings and notes are listed in the order of their lines, and
    the risk points are strictly increasing: no line is listed twice among
    them. *)
Theorem records_follow_the_lines (code fileName languageId : jsstring)
    (stats : FileStats) :
  languageRouter.parseCode code fileName languageId = Ret stats ->
  StronglySorted le (List.map imp_lineNumber (imports stats))
  /\ StronglySorted le (List.map cls_lineNumber (classes stats))
  /\ StronglySorted le (List.map meth_lineNumber (functions stats))
  /\ StronglySorted le (List.map hc_lineNumber (hardcoded stats))
  /\ StronglySorted le (List.map todo_lineNumber (todos stats))
  /\ StronglySorted lt (debugPoints stats).
Proof.
  intros H. apply parseCode_cases in H as (s0 & t & Ht & -> & Hs). simpl.
  apply todos_sorted in Ht.
  destruct Hs as [Hs|[Hs|[Hs|[Hs|Hs]]]].
  - apply parsePythonCode_parts in Hs as (Hi & Hc & Hf & Hd & Hh & _).
    repeat split; [sorted_by_lines Hi | sorted_by_lines Hc | sorted_by_lines Hf
                   | sorted_by_lines Hh | exact Ht | increasing_by_lines Hd].
  - apply parseJsCode_parts in Hs as (Hi & Hc & Hf & Hd & Hh & _).
    repeat split; [sorted_by_lines Hi | sorted_by_lines Hc | sorted_by_lines Hf
                   | sorted_by_lines Hh | exact Ht | increasing_by_lines Hd].
  - apply parsePhpCode_parts in Hs as (Hi & Hc & Hf & Hd & Hh & _).
    repeat split; [sorted_by_lines Hi | sorted_by_lines Hc | sorted_by_lines Hf
                   | sorted_by_lines Hh | exact Ht | increasing_by_lines Hd].
  - apply parseHtmlCode_parts in Hs as (Hi & Hc & Hf & Hd & Hh & _).
    repeat split; [sorted_by_lines Hi | sorted_by_lines Hc | sorted_by_lines Hf
                   | sorted_by_lines Hh | exact Ht | increasing_by_lines Hd].
  - apply parseCssCode_parts in Hs as (Hi & Hc & Hf & Hd & Hh & _).
    repeat split; [sorted_by_lines Hi | sorted_by_lines Hc | sorted_by_lines Hf
                   | sorted_by_lines Hh | exact Ht | increasing_by_lines Hd].
Qed.

End SourceOrder.

Section SourceOrderWitness.

(** The summary of [guarded_sample]. *)
Lemma records_follow_the_lines_witness :
  exists stats : FileStats,
    languageRouter.parseCode guarded_sample (js "a.py") (js "python") = Ret stats
    /\ List.map imp_lineNumber (imports stats) = [1; 2]
    /\ debugPoints stats = [3; 5]
    /\ StronglySorted le (List.map imp_lineNumber (imports stats))
    /\ StronglySorted lt (debugPoints stats).
Proof.
  destruct (languageRouter.parseCode guarded_sample (js "a.py") (js "python"))
    as [stats|e] eqn:E; [|vm_compute in E; discriminate E].
  exists stats. split; [reflexivity|].
  pose proof (records_follow_the_lines _ _ _ _ E) as (Hi & _ & _ & _ & _ & Hd).
  vm_compute in E. injection E as <-.
  split; [reflexivity|]. split; [reflexivity|]. split; [exact Hi | exact Hd].
Defined.

End SourceOrderWitness.

(* ====================================================================== *)
(** * Where unused items and dependency issues come from *)
(* ====================================================================== *)

Section Provenance.

Lemma omapM_concat_In {A B} (f : A -> outcome (list B)) (l : list A)
    (r : list (list B)) (y : B) :
  omapM f l = Ret r -> List.In y (concat r) ->
  exists x ys, List.In x l /\ f x = Ret ys /\ List.In y ys.
Proof.
  intros H Hy. apply omapM_ret in H. induction H as [|a b l r Hab _ IH]; simpl in Hy.
  - destruct Hy.
  - apply List.in_app_iff in Hy as [Hy|Hy].
    + exists a, b. simpl. auto.
    + destruct (IH Hy) as (x & ys & Hx & Hf & Hin). exists x, ys. simpl. auto.
Qed.

Lemma allMethods_In (keep : MethodInfo -> bool) (classes : list ClassInfo)
    (functions : list MethodInfo) (x : jsstring * nat) :
  List.In x
    (List.map (fun f => (meth_name f, meth_lineNumber f)) functions
     ++ flat_map (fun c => List.map (fun m => (meth_name m, meth_lineNumber m))
                             (List.filter keep (cls_methods c))) classes) ->
  exists m, x = (meth_name m, meth_lineNumber m)
            /\ (List.In m functions
                \/ (keep m = true /\ exists c, List.In c classes /\ List.In m (cls_methods c))).
Proof.
  intros H. apply List.in_app_iff in H as [H|H].
  - apply List.in_map_iff in H as (m & <- & Hm). exists m. auto.
  - apply List.in_flat_map in H as (c & Hc & H).
    apply List.in_map_iff in H as (m & <- & Hm). apply List.filter_In in Hm as [Hm Hk].
    exists m. split; [reflexivity|]. right. split; [exact Hk|]. exists c. auto.
Qed.

Ltac import_item_tac Hzs Himp Hname :=
  cbv beta in Hzs; inv_ret;
  match goal with
  | Hin : List.In _ [] |- _ => destruct Hin
  | Hin : List.In _ [_] |- _ =>
      destruct Hin as [<-|[]]; split; [reflexivity|];
      eexists; split; [exact Himp|]; simpl; split; [exact Hname|]; split; [reflexivity|];
      match goal with
      | Hc : (str_eqb ?n _ || (length ?n <=? 1)) = false |- _ =>
          apply orb_false_iff in Hc as [Hs Hl]; apply Nat.leb_gt in Hl;
          apply str_eqb_neq in Hs; split; [exact Hl | exact Hs]
      end
  end.

Lemma py_unused_imports_origin codeOnly imports imp ys u :
  List.In imp imports ->
  pythonParser.unusedImportsOf codeOnly imp = Ret ys -> List.In u ys ->
  fromImport imports u.
Proof.
  intros Himp H Hu. unfold pythonParser.unusedImportsOf in H.
  apply obind_ret in H as (found & Hfound & H). injection H as <-.
  destruct (omapM_concat_In _ _ _ _ Hfound Hu) as (name & zs & Hname & Hzs & Hin).
  unfold fromImport. import_item_tac Hzs Himp Hname.
Qed.

Lemma shared_unused_imports_origin codeOnly imports imp ys u :
  List.In imp imports ->
  parserUtils.unusedImportsOf codeOnly imp = Ret ys -> List.In u ys ->
  fromImport imports u.
Proof.
  intros Himp H Hu. unfold parserUtils.unusedImportsOf in H.
  apply obind_ret in H as (found & Hfound & H). injection H as <-.
  destruct (omapM_concat_In _ _ _ _ Hfound Hu) as (name & zs & Hname & Hzs & Hin).
  unfold fromImport. import_item_tac Hzs Himp Hname.
Qed.

Ltac method_item_tac Hys Hin :=
  inv_ret;
  match goal with
  | Hin : List.In _ [] |- _ => destruct Hin
  | Hin : List.In _ [_] |- _ => destruct Hin as [<-|[]]; simpl; auto
  end.

(** X4: every item that unused-code detection reports is either an import
    item, carrying a name of an import of the list, longer than one character
    and not the wildcard, at the line of that import; or a callable item,
    carrying the name and the line of a top-level function or of a method
    whose name does not start with two underscores.  No item of kind
    variable is reported. *)
Theorem unused_items_have_an_origin (d : detector) (lines : list jsstring)
    (imports : list ImportInfo) (classes : list ClassInfo) (functions : list MethodInfo)
    (r : list UnusedItem) :
  detect d lines imports classes functions = Ret r ->
  List.Forall (fun u => fromImport imports u \/ fromCallable classes functions u) r.
Proof.
  intros H. apply List.Forall_forall. intros u Hu. destruct d as [|p]; simpl in H.
  - unfold pythonParser.detectUnusedCode in H.
    apply obind_ret in H as (u1 & Hu1 & H). apply obind_ret in H as (u2 & Hu2 & H).
    injection H as <-. apply List.in_app_iff in Hu as [Hu|Hu].
    + left. destruct (omapM_concat_In _ _ _ _ Hu1 Hu) as (imp & ys & Himp & Hys & Hin).
      eapply py_unused_imports_origin; eauto.
    + right. destruct (omapM_concat_In _ _ _ _ Hu2 Hu) as (x & ys & Hx & Hys & Hin).
      apply allMethods_In in Hx as (m & Ex & Hm).
      unfold pythonParser.unusedMethodOf in Hys. destruct x as [name line].
      injection Ex as -> ->.
      assert (Hitem : u = {| un_name := meth_name m; un_kind := uk_method;
                             un_lineNumber := meth_lineNumber m |}).
      { method_item_tac Hys Hin. }
      subst u. split; [reflexivity|]. exists m. simpl. split; [reflexivity|].
      split; [reflexivity|]. destruct Hm as [Hm|[Hk Hc]]; [now left|right].
      split; [|exact Hc]. apply andb_true_iff in Hk as [_ Hk].
      now apply negb_true_iff in Hk.
  - unfold parserUtils.detectUnused in H.
    apply obind_ret in H as (u1 & Hu1 & H). apply obind_ret in H as (u2 & Hu2 & H).
    injection H as <-. apply List.in_app_iff in Hu as [Hu|Hu].
    + left. destruct (omapM_concat_In _ _ _ _ Hu1 Hu) as (imp & ys & Himp & Hys & Hin).
      eapply shared_unused_imports_origin; eauto.
    + right. destruct (omapM_concat_In _ _ _ _ Hu2 Hu) as (x & ys & Hx & Hys & Hin).
      apply allMethods_In in Hx as (m & Ex & Hm).
      unfold parserUtils.unusedMethodOf in Hys. destruct x as [name line].
      injection Ex as -> ->.
      assert (Hitem : u = {| un_name := meth_name m; un_kind := uk_method;
                             un_lineNumber := meth_lineNumber m |}).
      { method_item_tac Hys Hin. }
      subst u. split; [reflexivity|]. exists m. simpl. split; [reflexivity|].
      split; [reflexivity|]. destruct Hm as [Hm|[Hk Hc]]; [now left|right].
      split; [|exact Hc]. apply andb_true_iff in Hk as [_ Hk].
      now apply negb_true_iff in Hk.
Qed.

(** The detector of the Python extractor on [json_in_string_file]. *)
Lemma unused_items_have_an_origin_witness :
  exists r,
    detect PythonDetector json_in_string_file [json_import] [] [] = Ret r
    /\ List.Forall (fun u => fromImport [json_import] u \/ fromCallable [] [] u) r.
Proof.
  destruct (detect PythonDetector json_in_string_file [json_import] [] []) as [r|e] eqn:E;
    [|vm_compute in E; discriminate E].
  exists r. split; [reflexivity|].
  exact (unused_items_have_an_origin _ _ _ _ _ _ E).
Defined.

End Provenance.

Section DependencyIssues.
Import analyzers.

Lemma filterM_In {A} (f : A -> outcome bool) (l : list A) (r : list A) (x : A) :
  filterM f l = Ret r -> List.In x r -> List.In x l /\ f x = Ret true.
Proof.
  revert r. induction l as [|a l IH]; simpl; intros r H Hx.
  - injection H as <-. destruct Hx.
  - apply obind_ret in H as (b & Hb & H). apply obind_ret in H as (r' & Hr' & H).
    injection H as <-. destruct b.
    + destruct Hx as [<-|Hx]; [auto|]. destruct (IH _ Hr' Hx). auto.
    + destruct (IH _ Hr' Hx). auto.
Qed.

Lemma filterM_length {A} (f : A -> outcome bool) (l : list A) (r : list A) :
  filterM f l = Ret r -> length r <= length l.
Proof.
  revert r. induction l as [|a l IH]; simpl; intros r H.
  - injection H as <-. simpl. lia.
  - apply obind_ret in H as (b & Hb & H). apply obind_ret in H as (r' & Hr' & H).
    injection H as <-. apply IH in Hr'. destruct b; simpl; lia.
Qed.

Lemma issueOf_shape (installed : option (list jsstring)) (language : jsstring)
    (imp : ImportInfo) (ds : list DepIssue) :
  issueOf installed language imp = Ret ds ->
  length ds <= 1
  /\ List.Forall (fun d =>
       dep_lineNumber d = imp_lineNumber imp /\ dep_name d <> []
       /\ dep_installCmd d
          = Some (match dep_status d with
                  | dep_installed => []
                  | _ => installCmdFor language (dep_name d)
                  end)) ds.
Proof.
  intros H. unfold issueOf in H. apply obind_ret in H as (dep & _ & H).
  destruct dep as [[|c t]|]; injection H as <-; simpl; split; try lia; try constructor.
  - simpl. repeat split. discriminate.
  - constructor.
Qed.

Lemma omapM_concat_length {A B} (f : A -> outcome (list B)) (l : list A)
    (r : list (list B)) :
  omapM f l = Ret r -> (forall x ys, f x = Ret ys -> length ys <= 1) ->
  length (concat r) <= length l.
Proof.
  intros H Hf. apply omapM_ret in H. induction H as [|a b l r Hab _ IH]; simpl; [lia|].
  rewrite List.length_app. apply Hf in Hab. lia.
Qed.

(** X5: every issue that [checkDependencies] emits stands for one import of
    the list that the filter kept: it carries the line of that import and a
    name that is not empty; its install command is empty when the package was
    found installed and is the command of the language otherwise.  There are
    no more issues than imports. *)
Theorem issues_stand_for_kept_imports
    (getInstalledPackages : jsstring -> jsstring -> option (list jsstring))
    (imports : list ImportInfo) (filePath language : jsstring) (issues : list DepIssue) :
  checkDependencies getInstalledPackages imports filePath language = Ret issues ->
  length issues <= length imports
  /\ List.Forall (fun d =>
       (exists imp, List.In imp imports /\ keepImport language imp = Ret true
                    /\ isExternalImport imp language = true
                    /\ dep_lineNumber d = imp_lineNumber imp)
       /\ dep_name d <> []
       /\ dep_installCmd d
          = Some (match dep_status d with
                  | dep_installed => []
                  | _ => installCmdFor language (dep_name d)
                  end)) issues.
Proof.
  intros H. unfold checkDependencies in H.
  apply obind_ret in H as (ext & Hext & H).
  destruct (length ext =? 0).
  { injection H as <-. simpl. split; [lia | constructor]. }
  apply obind_ret in H as (iss & Hiss & H). injection H as <-. split.
  - apply filterM_length in Hext.
    pose proof (omapM_concat_length _ _ _ Hiss
                  (fun x ys Hx => proj1 (issueOf_shape _ _ _ _ Hx))). lia.
  - apply List.Forall_forall. intros d Hd.
    destruct (omapM_concat_In _ _ _ _ Hiss Hd) as (imp & ds & Himp & Hds & Hin).
    destruct (filterM_In _ _ _ _ Hext Himp) as [Hi Hk].
    apply issueOf_shape in Hds as [_ Hds]. rewrite List.Forall_forall in Hds.
    destruct (Hds d Hin) as (Hl & Hn & Hc). split; [|auto].
    exists imp. repeat split; auto.
    unfold keepImport in Hk. destruct (isExternalImport imp language); [reflexivity|].
    simpl in Hk. discriminate Hk.
Qed.

(** Three imports of a Python file, of which one is relative and one is
    installed: two issues, the installed one without command. *)
Lemma issues_stand_for_kept_imports_witness :
  exists issues,
    checkDependencies only_flask [requests_import; flask_import; relative_import]
      (js "/srv/app/main.py") (js "python") = Ret issues
    /\ List.map (fun d => (dep_lineNumber d, dep_status d, dep_installCmd d)) issues
       = [(1, dep_missing, Some (js "pip install requests")); (2, dep_installed, Some [])]
    /\ length issues <= 3.
Proof.
  destruct (checkDependencies only_flask [requests_import; flask_import; relative_import]
              (js "/srv/app/main.py") (js "python")) as [issues|e] eqn:E;
    [|vm_compute in E; discriminate E].
  exists issues. split; [reflexivity|].
  pose proof (issues_stand_for_kept_imports _ _ _ _ _ E) as [Hlen _].
  vm_compute in E. injection E as <-. split; [reflexivity | exact Hlen].
Defined.

End DependencyIssues.

(* ====================================================================== *)
(** * Braces *)
(* ====================================================================== *)

Section Braces.

(** What reading a line does to the depth and to the flag. *)
Lemma scanBraces_counts (l : jsstring) : forall d s,
  scanBraces l d s
  = ((d + Z.of_nat (opens l) - Z.of_nat (closes l))%Z, s || (0 <? opens l)).
Proof.
  unfold opens, closes. induction l as [|c l IH]; intros d s; simpl.
  - f_equal; [lia | now rewrite orb_false_r].
  - destruct (ch "{" c) eqn:Eo; destruct (ch "}" c) eqn:Ec; rewrite IH; simpl length;
      f_equal; try lia; try (now rewrite orb_true_r); try reflexivity.
Qed.

Lemma opens_app (a b : jsstring) : opens (a ++ b) = opens a + opens b.
Proof. unfold opens. now rewrite List.filter_app, List.length_app. Qed.

Lemma closes_app (a b : jsstring) : closes (a ++ b) = closes a + closes b.
Proof. unfold closes. now rewrite List.filter_app, List.length_app. Qed.

(** Once an opening brace was read, as many opening as closing braces more
    change no closing line. *)
Lemma closingLine_from_shift (n : nat) (ls : list jsstring) : forall o c,
  0 < o -> closingLine_from ls (o + n) (c + n) = closingLine_from ls o c.
Proof.
  induction ls as [|l ls IH]; intros o c Ho; simpl; [reflexivity|].
  replace (o + n + opens l) with (o + opens l + n) by lia.
  replace (c + n + closes l) with (c + closes l + n) by lia.
  rewrite (IH (o + opens l) (c + closes l)) by lia.
  replace (0 <? o + opens l + n) with true by (symmetry; apply Nat.ltb_lt; lia).
  replace (0 <? o + opens l) with true by (symmetry; apply Nat.ltb_lt; lia).
  replace (o + opens l + n <=? c + closes l + n) with (o + opens l <=? c + closes l);
    [reflexivity|].
  destruct (Nat.leb_spec (o + opens l) (c + closes l));
    symmetry; [apply Nat.leb_le | apply Nat.leb_gt]; lia.
Qed.

(** A text with as many opening as closing braces, put into a line after an
    opening brace, leaves the closing line where it is. *)
Lemma closingLine_from_balanced (pre lit post : jsstring) (after : list jsstring) :
  opens lit = closes lit ->
  forall (before : list jsstring) (o c : nat),
    0 < o + opens (concat before ++ pre) ->
    closingLine_from (before ++ (pre ++ lit ++ post) :: after) o c
    = closingLine_from (before ++ (pre ++ post) :: after) o c.
Proof.
  intros Hb. induction before as [|l before IH]; intros o c Ho; simpl in *.
  - rewrite !opens_app, !closes_app, <- Hb.
    replace (o + (opens pre + (opens lit + opens post)))
      with (o + (opens pre + opens post) + opens lit) by lia.
    replace (c + (closes pre + (opens lit + closes post)))
      with (c + (closes pre + closes post) + opens lit) by lia.
    rewrite closingLine_from_shift by lia.
    replace (0 <? o + (opens pre + opens post) + opens lit) with true
      by (symmetry; apply Nat.ltb_lt; lia).
    replace (0 <? o + (opens pre + opens post)) with true
      by (symmetry; apply Nat.ltb_lt; lia).
    replace (o + (opens pre + opens post) + opens lit
             <=? c + (closes pre + closes post) + opens lit)
      with (o + (opens pre + opens post) <=? c + (closes pre + closes post));
      [reflexivity|].
    destruct (Nat.leb_spec (o + (opens pre + opens post)) (c + (closes pre + closes post)));
      symmetry; [apply Nat.leb_le | apply Nat.leb_gt]; lia.
  - rewrite IH; [reflexivity|]. rewrite <- List.app_assoc, opens_app in Ho. lia.
Qed.

(** The test of the loops, [started && depth <= 0], in terms of the braces
    read. *)
Lemma scanBraces_closing (l : jsstring) (o c : nat) :
  scanBraces l (Z.of_nat o - Z.of_nat c)%Z (0 <? o)
  = ((Z.of_nat (o + opens l) - Z.of_nat (c + closes l))%Z, 0 <? o + opens l).
Proof.
  rewrite scanBraces_counts. f_equal; [lia|].
  destruct (Nat.ltb_spec 0 o), (Nat.ltb_spec 0 (opens l)), (Nat.ltb_spec 0 (o + opens l));
    simpl; try reflexivity; lia.
Qed.

Lemma depth_test (o c : nat) :
  ((Z.of_nat o - Z.of_nat c <=? 0)%Z) = (o <=? c).
Proof.
  destruct (Nat.leb_spec o c); [apply Z.leb_le | apply Z.leb_gt]; lia.
Qed.

Lemma countJsBranches_go_exact (ls : list jsstring) : forall b o c,
  jsParser.countJsBranches_go ls b (Z.of_nat o - Z.of_nat c)%Z (0 <? o)
  = b + branchesOfLines jsBranchesOfLine (firstn (closingLine_from ls o c) ls).
Proof.
  induction ls as [|l ls IH]; intros b o c; simpl.
  - unfold branchesOfLines. simpl. lia.
  - rewrite scanBraces_closing, depth_test.
    destruct ((0 <? o + opens l) && (o + opens l <=? c + closes l)).
    + unfold branchesOfLines. simpl. lia.
    + rewrite IH. unfold branchesOfLines, jsBranchesOfLine. simpl.
      destruct (test jsParser.branchKw_re (trim l));
        destruct (test jsParser.ternary_re (trim l) && includes (trim l) (js ":")); lia.
Qed.

Lemma countPhpBranches_go_exact (ls : list jsstring) : forall b o c,
  phpParser.countPhpBranches_go ls b (Z.of_nat o - Z.of_nat c)%Z (0 <? o)
  = b + branchesOfLines phpBranchesOfLine (firstn (closingLine_from ls o c) ls).
Proof.
  induction ls as [|l ls IH]; intros b o c; simpl.
  - unfold branchesOfLines. simpl. lia.
  - rewrite scanBraces_closing, depth_test.
    destruct ((0 <? o + opens l) && (o + opens l <=? c + closes l)).
    + unfold branchesOfLines. simpl. lia.
    + rewrite IH. unfold branchesOfLines, phpBranchesOfLine. simpl.
      destruct (test phpParser.branchKw_re (trim l)); lia.
Qed.

Lemma parseJsClassMethods_go_exact (lines : list jsstring) (classLine : nat)
    (ls : list jsstring) : forall i o c,
  jsParser.parseJsClassMethods_go lines classLine i ls (Z.of_nat o - Z.of_nat c)%Z (0 <? o)
  = methodsOfLines (jsMethodsOfLine lines classLine) i (firstn (closingLine_from ls o c) ls).
Proof.
  induction ls as [|l ls IH]; intros i o c; [reflexivity|].
  cbn [jsParser.parseJsClassMethods_go closingLine_from].
  rewrite scanBraces_closing, depth_test. cbv beta iota zeta.
  destruct ((0 <? o + opens l) && (o + opens l <=? c + closes l)); [reflexivity|].
  cbn [firstn methodsOfLines]. rewrite IH.
  set (more := methodsOfLines _ _ _). unfold jsMethodsOfLine.
  destruct (i =? classLine); [|reflexivity].
  destruct more; reflexivity.
Qed.

Lemma parsePhpClassMethods_go_exact (lines : list jsstring) (ls : list jsstring) :
  forall i o c,
  phpParser.parsePhpClassMethods_go lines i ls (Z.of_nat o - Z.of_nat c)%Z (0 <? o)
  = methodsOfLines (phpMethodsOfLine lines) i (firstn (closingLine_from ls o c) ls).
Proof.
  induction ls as [|l ls IH]; intros i o c; [reflexivity|].
  cbn [phpParser.parsePhpClassMethods_go closingLine_from].
  rewrite scanBraces_closing, depth_test. cbv beta iota zeta.
  destruct ((0 <? o + opens l) && (o + opens l <=? c + closes l)); [reflexivity|].
  cbn [firstn methodsOfLines]. now rewrite IH.
Qed.

Lemma find_map_S (f : nat -> bool) (l : list nat) :
  List.find f (List.map S l) = option_map S (List.find (fun j => f (S j)) l).
Proof.
  induction l as [|x l IH]; simpl; [reflexivity|]. destruct (f (S x)); [reflexivity | exact IH].
Qed.

Lemma find_ext_eq (f g : nat -> bool) (l : list nat) :
  (forall j, f j = g j) -> List.find f l = List.find g l.
Proof.
  intros H. induction l as [|x l IH]; simpl; [reflexivity|]. now rewrite H, IH.
Qed.

Lemma closingLine_from_find (ls : list jsstring) : forall o c,
  closingLine_from ls o c
  = match List.find (fun j => let read := concat (firstn (S j) ls) in
                              (0 <? o + opens read) && (o + opens read <=? c + closes read))
                    (seq 0 (length ls)) with
    | Some j => j
    | None => length ls
    end.
Proof.
  induction ls as [|l ls IH]; intros o c; [reflexivity|].
  cbn [closingLine_from length seq List.find]. cbv zeta.
  cbn [firstn concat]. rewrite List.app_nil_r.
  destruct ((0 <? o + opens l) && (o + opens l <=? c + closes l)); [reflexivity|].
  rewrite <- List.seq_shift, find_map_S.
  rewrite (find_ext_eq _
             (fun j => let read := concat (firstn (S j) ls) in
                       (0 <? o + opens l + opens read)
                       && (o + opens l + opens read <=? c + closes l + closes read))).
  - rewrite IH. destruct (List.find _ _); reflexivity.
  - intros j. cbv zeta. cbn [firstn concat]. rewrite opens_app, closes_app.
    now rewrite !Nat.add_assoc.
Qed.

Lemma closingLine_one_pass (ls : list jsstring) : closingLine ls = closingLine_from ls 0 0.
Proof. rewrite closingLine_from_find. reflexivity. Qed.

(** The loops of a file, from the line where they start. *)
Lemma countJsBranches_exact (all : list jsstring) (start : nat) :
  jsParser.countJsBranches all start
  = branchesOfLines jsBranchesOfLine
      (firstn (closingLine (skipn start all)) (skipn start all)).
Proof. rewrite closingLine_one_pass. apply (countJsBranches_go_exact (skipn start all) 0 0 0). Qed.

Lemma countPhpBranches_exact (all : list jsstring) (start : nat) :
  phpParser.countPhpBranches all start
  = branchesOfLines phpBranchesOfLine
      (firstn (closingLine (skipn start all)) (skipn start all)).
Proof. rewrite closingLine_one_pass. apply (countPhpBranches_go_exact (skipn start all) 0 0 0). Qed.

Lemma parseJsClassMethods_exact (all : list jsstring) (start : nat) :
  jsParser.parseJsClassMethods all start
  = methodsOfLines (jsMethodsOfLine all start) start
      (firstn (closingLine (skipn start all)) (skipn start all)).
Proof.
  rewrite closingLine_one_pass.
  apply (parseJsClassMethods_go_exact all start (skipn start all) start 0 0).
Qed.

Lemma parsePhpClassMethods_exact (all : list jsstring) (start : nat) :
  phpParser.parsePhpClassMethods all start
  = methodsOfLines (phpMethodsOfLine all) start
      (firstn (closingLine (skipn start all)) (skipn start all)).
Proof.
  rewrite closingLine_one_pass.
  apply (parsePhpClassMethods_go_exact all (skipn start all) start 0 0).
Qed.

(** A text with as many opening as closing braces, put into a line after an
    opening brace, leaves the closing line where it is. *)
Lemma closingLine_balanced (before after : list jsstring) (pre lit post : jsstring) :
  opens lit = closes lit ->
  0 < opens (concat before ++ pre) ->
  closingLine (before ++ (pre ++ lit ++ post) :: after)
  = closingLine (before ++ (pre ++ post) :: after).
Proof.
  intros Hb Ho. rewrite !closingLine_one_pass. now apply closingLine_from_balanced.
Qed.

(** C7: when the literal lies in the body of a callable, that is after an
    opening brace of the text that starts at the callable's line, the loops
    of [countJsBranches] and [parseJsClassMethods] read every line before
    the closing line of the callable and no line from it on, where the
    closing line is taken from the text without the literal: the first line
    at whose end the depth is back at zero after a brace was opened. The
    braces of the literal are counted by the loops and end nothing. *)
Theorem literal_braces_leave_the_span (before after : list jsstring) (pre post : jsstring) :
  0 < opens (concat before ++ pre) ->
  let lines := before ++ (pre ++ notARealBrace ++ post) :: after in
  let k := closingLine (before ++ (pre ++ post) :: after) in
  forall (all : list jsstring) (start : nat),
    skipn start all = lines ->
    jsParser.countJsBranches all start = branchesOfLines jsBranchesOfLine (firstn k lines)
    /\ jsParser.parseJsClassMethods all start
       = methodsOfLines (jsMethodsOfLine all start) start (firstn k lines).
Proof.
  intros Ho lines k all start Hs.
  assert (Hk : closingLine lines = k) by (apply closingLine_balanced; [reflexivity | exact Ho]).
  rewrite countJsBranches_exact, parseJsClassMethods_exact, Hs, Hk. now split.
Qed.

(** A class whose first method holds the literal: the closing line of the
    class is its seventh line; both methods are recorded, the second one
    from a line after the literal, and the function after the class is not;
    the branch after the literal is counted for the first method and the
    branch of the function after the class for none. *)
Lemma literal_braces_leave_the_span_witness :
  let before := [js "class Reader {"; js "  open(path) {"] in
  let pre := js "    const s = " in
  let post := js ";" in
  let after := [js "    if (s) { return path; }"; js "  }"; js "  close() { return 0; }";
                js "}"; js "function later() { if (x) { y(); } }"] in
  0 < opens (concat before ++ pre)
  /\ closingLine (before ++ (pre ++ post) :: after) = 6
  /\ jsParser.countJsBranches literal_class 0
     = branchesOfLines jsBranchesOfLine (firstn 6 literal_class)
  /\ jsParser.parseJsClassMethods literal_class 0
     = methodsOfLines (jsMethodsOfLine literal_class 0) 0 (firstn 6 literal_class)
  /\ exists ms,
       jsParser.parseJsClassMethods literal_class 0 = Ret ms
       /\ List.map meth_name ms = [js "open"; js "close"]
       /\ List.map meth_lineNumber ms = [2; 6]
       /\ List.map meth_complexity ms = [1; 0].
Proof.
  intros before pre post after.
  assert (Ho : 0 < opens (concat before ++ pre)) by (vm_compute; lia).
  split; [exact Ho|]. split; [vm_compute; reflexivity|].
  pose proof (literal_braces_leave_the_span before after pre post Ho literal_class 0 eq_refl)
    as [Hb Hm].
  split; [exact Hb|]. split; [exact Hm|].
  destruct (jsParser.parseJsClassMethods literal_class 0) as [ms|e] eqn:E;
    [|vm_compute in E; discriminate E].
  exists ms. split; [reflexivity|]. vm_compute in E. injection E as <-.
  repeat split; reflexivity.
Defined.

(** X6: a text with as many opening as closing braces, put into a line
    after an opening brace of the text that starts at a callable's line,
    leaves the span of the four brace-depth loops as it is without the text:
    [countJsBranches], [parseJsClassMethods], [countPhpBranches] and
    [parsePhpClassMethods] read every line before the closing line of the
    text without it, and no line from that line on. *)
Theorem balanced_text_leaves_the_span (before after : list jsstring)
    (pre lit post : jsstring) :
  opens lit = closes lit ->
  0 < opens (concat before ++ pre) ->
  let lines := before ++ (pre ++ lit ++ post) :: after in
  let k := closingLine (before ++ (pre ++ post) :: after) in
  forall (all : list jsstring) (start : nat),
    skipn start all = lines ->
    jsParser.countJsBranches all start = branchesOfLines jsBranchesOfLine (firstn k lines)
    /\ jsParser.parseJsClassMethods all start
       = methodsOfLines (jsMethodsOfLine all start) start (firstn k lines)
    /\ phpParser.countPhpBranches all start
       = branchesOfLines phpBranchesOfLine (firstn k lines)
    /\ phpParser.parsePhpClassMethods all start
       = methodsOfLines (phpMethodsOfLine all) start (firstn k lines).
Proof.
  intros Hb Ho lines k all start Hs.
  assert (Hk : closingLine lines = k) by now apply closingLine_balanced.
  rewrite countJsBranches_exact, parseJsClassMethods_exact, countPhpBranches_exact,
    parsePhpClassMethods_exact, Hs, Hk.
  repeat split.
Qed.

(** A PHP class whose method holds a string with two interpolations: the
    closing line of the class is its sixth line; the method is recorded
    with the branch after the string, the function after the class is
    not. *)
Lemma balanced_text_leaves_the_span_witness :
  let before := [js "class Reader {"; js "  public function open($path) {"] in
  let pre := js "    $s = " in
  let lit := quoted "{$path} and {$this->root}" in
  let post := js ";" in
  let after := [js "    if ($s) { return $path; }"; js "  }"; js "}";
                js "function later() { if ($x) { y(); } }"] in
  opens lit = closes lit
  /\ 0 < opens (concat before ++ pre)
  /\ closingLine (before ++ (pre ++ post) :: after) = 5
  /\ phpParser.parsePhpClassMethods balanced_php_class 0
     = methodsOfLines (phpMethodsOfLine balanced_php_class) 0 (firstn 5 balanced_php_class)
  /\ exists ms,
       phpParser.parsePhpClassMethods balanced_php_class 0 = Ret ms
       /\ List.map meth_name ms = [js "open"]
       /\ List.map meth_complexity ms = [1].
Proof.
  intros before pre lit post after.
  assert (Hb : opens lit = closes lit) by (vm_compute; reflexivity).
  assert (Ho : 0 < opens (concat before ++ pre)) by (vm_compute; lia).
  split; [exact Hb|]. split; [exact Ho|]. split; [vm_compute; reflexivity|].
  pose proof (balanced_text_leaves_the_span before after pre lit post Hb Ho
                balanced_php_class 0 eq_refl) as (_ & _ & _ & Hm).
  split; [exact Hm|].
  destruct (phpParser.parsePhpClassMethods balanced_php_class 0) as [ms|e] eqn:E;
    [|vm_compute in E; discriminate E].
  exists ms. split; [reflexivity|]. vm_compute in E. injection E as <-.
  repeat split; reflexivity.
Defined.

End Braces.

(* ====================================================================== *)
(** * Parameter lists *)
(* ====================================================================== *)

Section ParameterLists.

Lemma join_snoc (l : list jsstring) (x sep : jsstring) :
  l <> [] -> join (l ++ [x]) sep = join l sep ++ sep ++ x.
Proof.
  induction l as [|a l IH]; intros H; [contradiction|].
  destruct l as [|b l]; [reflexivity|].
  change (join ((a :: b :: l) ++ [x]) sep) with (a ++ sep ++ join ((b :: l) ++ [x]) sep).
  rewrite IH by discriminate.
  change (join (a :: b :: l) sep) with (a ++ sep ++ join (b :: l) sep).
  now rewrite <- !List.app_assoc.
Qed.

Lemma join_last_app (l : list jsstring) (c y sep : jsstring) :
  join (l ++ [c ++ y]) sep = join (l ++ [c]) sep ++ y.
Proof.
  destruct l as [|a l]; [reflexivity|].
  rewrite !join_snoc by discriminate. now rewrite <- !List.app_assoc.
Qed.

Lemma splitJsParams_go_restores (s : jsstring) : forall d c r,
  exists L, join L (js ",") = join (r ++ [c]) (js ",") ++ s
            /\ (jsParser.splitJsParams_go s d c r = L
                \/ exists c', L = jsParser.splitJsParams_go s d c r ++ [c']
                              /\ nonEmpty (trim c') = false).
Proof.
  induction s as [|x t IH]; intros d c r; simpl.
  - exists (r ++ [c]). split; [now rewrite List.app_nil_r|].
    destruct (nonEmpty (trim c)) eqn:E; [now left | right; eauto].
  - match goal with |- context [if ?b then jsParser.splitJsParams_go t ?d2 [] _ else _] =>
      destruct b eqn:E; [destruct (IH d2 [] (r ++ [c])) as (L & HL & Hp)
                        | destruct (IH d2 (c ++ [x]) r) as (L & HL & Hp)] end;
      exists L; (split; [|exact Hp]); rewrite HL.
    + apply andb_true_iff in E as [E _]. unfold ch in E. apply N.eqb_eq in E. subst x.
      rewrite join_snoc by (destruct r; discriminate).
      now rewrite <- !List.app_assoc.
    + rewrite join_last_app. now rewrite <- List.app_assoc.
Qed.

Lemma splitParams_go_restores (s : jsstring) : forall d c r,
  exists L, join L (js ",") = join (r ++ [c]) (js ",") ++ s
            /\ (pythonParser.splitParams_go s d c r = L
                \/ exists c', L = pythonParser.splitParams_go s d c r ++ [c']
                              /\ nonEmpty (trim c') = false).
Proof.
  induction s as [|x t IH]; intros d c r; simpl.
  - exists (r ++ [c]). split; [now rewrite List.app_nil_r|].
    destruct (nonEmpty (trim c)) eqn:E; [now left | right; eauto].
  - match goal with |- context [if ?b then pythonParser.splitParams_go t ?d2 [] _ else _] =>
      destruct b eqn:E; [destruct (IH d2 [] (r ++ [c])) as (L & HL & Hp)
                        | destruct (IH d2 (c ++ [x]) r) as (L & HL & Hp)] end;
      exists L; (split; [|exact Hp]); rewrite HL.
    + apply andb_true_iff in E as [E _]. unfold ch in E. apply N.eqb_eq in E. subst x.
      rewrite join_snoc by (destruct r; discriminate).
      now rewrite <- !List.app_assoc.
    + rewrite join_last_app. now rewrite <- List.app_assoc.
Qed.

(** X7: the pieces into which [splitJsParams] and [splitParams] cut a
    parameter list, joined by commas, give the list back: nothing is lost
    but a blank last piece, and no comma is added or removed. *)
Theorem split_parameters_restore_the_list (s : jsstring) :
  restores (jsParser.splitJsParams s) s /\ restores (pythonParser.splitParams s) s.
Proof.
  split.
  - destruct (splitJsParams_go_restores s 0%Z [] []) as (L & HL & Hp).
    exists L. split; [exact HL|]. destruct Hp as [Hp|Hp]; [left; now symmetry | now right].
  - destruct (splitParams_go_restores s 0%Z [] []) as (L & HL & Hp).
    exists L. split; [exact HL|]. destruct Hp as [Hp|Hp]; [left; now symmetry | now right].
Qed.

End ParameterLists.

(* ====================================================================== *)
(** * Descriptions of classes *)
(* ====================================================================== *)

Section ClassDescriptions.
Import parserUtils.

Lemma record_set_lookup (k v k' : jsstring) (o : gmap jsstring jsstring) :
  record_set k v o !! k'
  = if str_eqb k (js "__proto__") then o !! k'
    else if str_eqb k k' then Some v else o !! k'.
Proof.
  unfold record_set. destruct (str_eqb k (js "__proto__")); [reflexivity|].
  destruct (str_eqb k k') eqn:E.
  - apply str_eqb_eq in E. subst. apply lookup_insert_eq.
  - apply str_eqb_neq in E. now apply lookup_insert_ne.
Qed.

(** X8: the record that [genClassDescs] builds has an entry of its own for
    a key exactly when some class of the list bears that name and the name is
    not [__proto__]; the entry is the description of the last class of that
    name. *)
Theorem class_descriptions_by_name (classes : list ClassInfo) (imports : list ImportInfo)
    (k : jsstring) :
  genClassDescs classes imports !! k
  = if str_eqb k (js "__proto__") then None
    else option_map genClassDesc
           (List.find (fun c => str_eqb (cls_name c) k) (rev classes)).
Proof.
  unfold genClassDescs. induction classes as [|c classes IH] using List.rev_ind.
  - simpl. rewrite lookup_empty. now destruct (str_eqb k (js "__proto__")).
  - rewrite List.fold_left_app, List.rev_app_distr. simpl.
    rewrite record_set_lookup, IH.
    destruct (str_eqb k (js "__proto__")) eqn:Ek.
    + apply str_eqb_eq in Ek. subst k.
      destruct (str_eqb (cls_name c) (js "__proto__")); reflexivity.
    + destruct (str_eqb (cls_name c) k) eqn:Eck.
      * apply str_eqb_eq in Eck. subst k. now rewrite Ek.
      * now destruct (str_eqb (cls_name c) (js "__proto__")).
Qed.

End ClassDescriptions.

(* ====================================================================== *)
(** * What the hardcoded-value scanners report for one line *)
(* ====================================================================== *)

Section FindingsOfALine.

Lemma py_skipped_line i line :
  py_skipped (trim line) = true -> pythonParser.hardcodedOfLine i line = Ret [].
Proof.
  intros H. unfold py_skipped in H. unfold pythonParser.hardcodedOfLine. cbv zeta.
  destruct (startsWith (trim line) (js "#") || negb (nonEmpty (trim line)));
    [reflexivity|].
  destruct (startsWith (trim line) (js "# ---meta") || startsWith (trim line) (js "# ---"));
    [reflexivity|].
  simpl in H. now rewrite H.
Qed.

Lemma shared_skipped_line prefix i line :
  parserUtils.skipped prefix (trim line) = true ->
  parserUtils.hardcodedOfLine prefix i line = Ret [].
Proof. intros H. unfold parserUtils.hardcodedOfLine. cbv zeta. now rewrite H. Qed.

(** X9: a line that a scanner passes over (blank, comment, import, and for
    the shared scanner any line holding three dashes) is reported with no
    finding at all, whatever it holds. *)
Theorem passed_over_line_yields_nothing (s : scanner) (lines : list jsstring)
    (r : list HardcodedValue) (i : nat) (line : jsstring) :
  scan s lines = Ret r ->
  nth_error lines i = Some line ->
  passesOver s (trim line) = true ->
  findingsAt (i + 1) r = [].
Proof.
  intros Hr Hn Hs. apply (scan_findingsAt s lines r i line [] Hr Hn).
  destruct s as [|p]; simpl in Hs.
  - now apply py_skipped_line.
  - now apply shared_skipped_line.
Qed.

(** A password in a comment of a JavaScript file. *)
Lemma passed_over_line_yields_nothing_witness :
  exists r,
    scan (SharedScanner (js "//")) [password_line; comment_line] = Ret r
    /\ List.map hc_lineNumber r = [1]
    /\ findingsAt 2 r = [].
Proof.
  destruct (scan (SharedScanner (js "//")) [password_line; comment_line]) as [r|e] eqn:E;
    [|vm_compute in E; discriminate E].
  exists r. split; [reflexivity|].
  assert (H : findingsAt 2 r = []).
  { apply (passed_over_line_yields_nothing (SharedScanner (js "//"))
             [password_line; comment_line] r 1 comment_line E eq_refl).
    vm_compute. reflexivity. }
  vm_compute in E. injection E as <-. split; [reflexivity | exact H].
Defined.

Ltac kinds_tac :=
  inv_ret; simpl;
  try match goal with
      | H1 : Bool.eqb (negb ?b) false = true, H2 : negb ?b = true |- _ =>
          rewrite H2 in H1; discriminate H1
      | H1 : Bool.eqb true false = true |- _ => discriminate H1
      end;
  repeat match goal with
         | |- context [match ?x with _ => _ end] => destruct x; simpl
         end;
  repeat match goal with |- _ \/ _ => first [left; reflexivity | right] end.

Lemma py_line_shape i line xs :
  pythonParser.hardcodedOfLine i line = Ret xs ->
  List.In (List.map hc_type xs) (shapes PythonScanner).
Proof. intros H. unfold pythonParser.hardcodedOfLine in H. kinds_tac. Qed.

Lemma shared_line_shape prefix i line xs :
  parserUtils.hardcodedOfLine prefix i line = Ret xs ->
  List.In (List.map hc_type xs) (shapes (SharedScanner prefix)).
Proof. intros H. unfold parserUtils.hardcodedOfLine in H. kinds_tac. Qed.

Ltac in_order :=
  repeat first [ apply sublist_nil_l | apply sublist_skip | apply sublist_cons ].

Ltac priorities_tac :=
  repeat apply conj;
  first [ exact I
        | left; reflexivity
        | right; unfold priorityOrder; solve [in_order]
        | simpl; intuition congruence ].

Lemma shapes_follow_priorities (s : scanner) (kinds : list HardcodedType) :
  List.In kinds (shapes s) -> followsPriorities s kinds.
Proof.
  intros H. unfold followsPriorities. destruct s as [|p]; simpl in H;
    repeat (destruct H as [<- | H]; [solve [priorities_tac]|]); destruct H.
Qed.

(** X10: the kinds of the findings of one line follow the priorities of the
    scanner: a credential finding stands alone; an address excludes an ip and
    a path finding; the other kinds are reported at most once each, in the
    order address, ip, path, port number, string; the shared scanner reports
    neither a path nor a string. *)
Theorem findings_of_a_line_follow_priorities (s : scanner) (lines : list jsstring)
    (r : list HardcodedValue) (i : nat) (line : jsstring) :
  scan s lines = Ret r ->
  nth_error lines i = Some line ->
  followsPriorities s (List.map hc_type (findingsAt (i + 1) r)).
Proof.
  intros Hr Hn. apply shapes_follow_priorities. destruct s as [|p].
  - destruct (hardcodedOfLine_total i line) as [xs Hx].
    rewrite (scan_findingsAt PythonScanner lines r i line xs Hr Hn Hx).
    eapply py_line_shape. exact Hx.
  - destruct (shared_hardcodedOfLine_total p i line) as [xs Hx].
    rewrite (scan_findingsAt (SharedScanner p) lines r i line xs Hr Hn Hx).
    eapply shared_line_shape. exact Hx.
Qed.

(** A line with an address that holds an ip, and a port: the address and
    the port are reported, the ip is not. *)
Lemma findings_of_a_line_follow_priorities_witness :
  exists r,
    scan PythonScanner [url_port_line] = Ret r
    /\ List.map hc_type r = [hc_url; hc_number]
    /\ followsPriorities PythonScanner (List.map hc_type (findingsAt 1 r)).
Proof.
  destruct (scan PythonScanner [url_port_line]) as [r|e] eqn:E;
    [|vm_compute in E; discriminate E].
  exists r. split; [reflexivity|].
  pose proof (findings_of_a_line_follow_priorities PythonScanner [url_port_line] r 0
                url_port_line E eq_refl) as H.
  vm_compute in E. injection E as <-. split; [reflexivity | exact H].
Defined.

Lemma shared_context_length prefix i line xs :
  parserUtils.hardcodedOfLine prefix i line = Ret xs ->
  List.Forall (fun x => length (hc_context x) <= 30) xs.
Proof.
  intros H. unfold parserUtils.hardcodedOfLine in H. cbv zeta in H.
  destruct (parserUtils.skipped prefix (trim line)); [injection H as <-; constructor|].
  apply obind_ret in H as (ctx & Hctx & H).
  assert (Hc : length ctx <= 30).
  { unfold parserUtils.contextOf in Hctx. apply obind_ret in Hctx as (h & _ & Hctx).
    injection Hctx as <-. unfold slice. rewrite List.length_firstn. lia. }
  inv_ret;
    repeat first
      [ apply List.Forall_nil
      | apply List.Forall_cons; [simpl; lia |]
      | apply List.Forall_app; split
      | match goal with
        | |- List.Forall _ (match ?x with _ => _ end) => destruct x
        end ].
Qed.

(** X11: the context that the shared scanner records with a finding is at
    most 30 code units long. *)
Theorem shared_context_is_truncated (commentPrefix : jsstring) (lines : list jsstring)
    (r : list HardcodedValue) :
  scan (SharedScanner commentPrefix) lines = Ret r ->
  List.Forall (fun x => length (hc_context x) <= 30) r.
Proof.
  intros H. simpl in H. apply List.Forall_forall. intros x Hx.
  destruct (forLines_In _ _ _ _ _ H Hx) as (k & l & xs & _ & Hk & Hin).
  apply shared_context_length in Hk. rewrite List.Forall_forall in Hk. now apply Hk.
Qed.

End FindingsOfALine.

Section FindingsWitnesses.

(** The target of [long_target_line] has 41 code units; 30 are recorded. *)
Lemma shared_context_is_truncated_witness :
  exists r,
    scan (SharedScanner (js "//")) [long_target_line] = Ret r
    /\ List.map (fun x => length (hc_context x)) r = [30]
    /\ List.Forall (fun x => length (hc_context x) <= 30) r.
Proof.
  destruct (scan (SharedScanner (js "//")) [long_target_line]) as [r|e] eqn:E;
    [|vm_compute in E; discriminate E].
  exists r. split; [reflexivity|].
  pose proof (shared_context_is_truncated _ _ _ E) as H.
  vm_compute in E. injection E as <-. split; [reflexivity | exact H].
Defined.

End FindingsWitnesses.

(* ====================================================================== *)
(** * A match is a text of its pattern *)
(* ====================================================================== *)

Section MatcherLanguage.
Import Captures.

Lemma get_cap_drop_Some (n : nat) (ns : list nat) (caps : list (nat * jsstring)) v :
  get_cap n (drop_caps ns caps) = Some v -> get_cap n caps = Some v.
Proof.
  destruct (existsb (Nat.eqb n) ns) eqn:E.
  - intros H. exfalso. induction caps as [|[k x] caps IH]; simpl in H; [discriminate|].
    destruct (existsb (Nat.eqb k) ns) eqn:Ek; simpl in H; [now apply IH|].
    destruct (Nat.eqb k n) eqn:Ekn; [|now apply IH].
    apply Nat.eqb_eq in Ekn. subst. congruence.
  - now rewrite get_cap_drop_ne.
Qed.

Lemma caps_in_refl B caps : caps_in B caps caps.
Proof. intros n v H. now left. Qed.

Lemma caps_in_trans B1 B2 B c1 c2 c3 :
  (forall x, List.In x B1 -> List.In x B) -> (forall x, List.In x B2 -> List.In x B) ->
  caps_in B1 c1 c2 -> caps_in B2 c2 c3 -> caps_in B c1 c3.
Proof.
  intros H1 H2 H12 H23 n v H. destruct (H23 n v H) as [H'|(a & Ha & Hl)].
  - destruct (H12 n v H') as [H''|(a & Ha & Hl)]; [now left | right; eauto].
  - right. eauto.
Qed.

Lemma caps_in_drop B ns c1 c2 : caps_in B (drop_caps ns c1) c2 -> caps_in B c1 c2.
Proof.
  intros H n v Hn. destruct (H n v Hn) as [H'|H']; [left | now right].
  eapply get_cap_drop_Some. exact H'.
Qed.

Lemma rep_lang (a : regex) (greedy : bool) :
  (forall s k z, m a s k = Some z ->
     exists y w, k y = Some z /\ ms_rest s = w ++ ms_rest y /\ lang a w
                 /\ caps_in (bodies a) (ms_caps s) (ms_caps y)) ->
  forall fuel lo hi s k z,
    rep (m a) (groups a) fuel lo hi greedy s k = Some z ->
    exists y ws, k y = Some z /\ ms_rest s = concat ws ++ ms_rest y
                 /\ List.Forall (lang a) ws /\ reps lo hi <= length ws
                 /\ atMost hi (length ws)
                 /\ caps_in (bodies a) (ms_caps s) (ms_caps y).
Proof.
  intros IHa.
  assert (Hzero : forall lo hi s (k : cont) z, (lo = 0 \/ hi = Some 0) -> k s = Some z ->
            exists y ws, k y = Some z /\ ms_rest s = concat ws ++ ms_rest y
                 /\ List.Forall (lang a) ws /\ reps lo hi <= length ws
                 /\ atMost hi (length ws)
                 /\ caps_in (bodies a) (ms_caps s) (ms_caps y)).
  { intros lo hi s k z Hz Hk. exists s, []. split; [exact Hk|]. split; [reflexivity|].
    split; [constructor|]. split; [|split; [|apply caps_in_refl]].
    - destruct Hz as [->| ->]; simpl; [destruct hi; simpl; lia | lia].
    - destruct hi; simpl; [lia | exact I]. }
  assert (Hiter : forall fuel lo hi s k z,
    hi <> Some 0 ->
    (forall lo hi s k z,
        rep (m a) (groups a) fuel lo hi greedy s k = Some z ->
        exists y ws, k y = Some z /\ ms_rest s = concat ws ++ ms_rest y
                 /\ List.Forall (lang a) ws /\ reps lo hi <= length ws
                 /\ atMost hi (length ws)
                 /\ caps_in (bodies a) (ms_caps s) (ms_caps y)) ->
    m a (MState (ms_prev s) (ms_rest s) (drop_caps (groups a) (ms_caps s)))
        (fun y => if Nat.eqb lo 0 && Nat.eqb (length (ms_rest y)) (length (ms_rest s))
                  then None
                  else rep (m a) (groups a) fuel (Nat.pred lo) (option_map Nat.pred hi)
                         greedy y k) = Some z ->
    exists y ws, k y = Some z /\ ms_rest s = concat ws ++ ms_rest y
                 /\ List.Forall (lang a) ws /\ reps lo hi <= length ws
                 /\ atMost hi (length ws)
                 /\ caps_in (bodies a) (ms_caps s) (ms_caps y)).
  { intros fuel lo hi s k z Hhi IH Hm.
    apply IHa in Hm as (y1 & w1 & Hd & Hw1 & Hl1 & Hc1).
    destruct (Nat.eqb lo 0 && Nat.eqb (length (ms_rest y1)) (length (ms_rest s)));
      [discriminate|].
    apply IH in Hd as (y & ws & Hk & Hw & Hl & Hn & Hu & Hc).
    exists y, (w1 :: ws). split; [exact Hk|]. simpl in Hw1, Hc1. split.
    - simpl. rewrite Hw1, Hw. now rewrite List.app_assoc.
    - split; [constructor; auto|]. split; [|split].
      + simpl. destruct hi as [h|]; simpl in *; lia.
      + destruct hi as [[|h]|]; simpl in *; [congruence | lia | exact I].
      + apply caps_in_drop in Hc1.
        eapply caps_in_trans; [| |exact Hc1|exact Hc]; auto. }
  induction fuel as [|fuel IH]; intros lo hi s k z H; simpl in H; [discriminate|].
  destruct (decide (hi = Some 0)) as [E0|E0].
  - subst hi. apply Hzero; auto.
  - assert (Hm : (if negb (Nat.eqb lo 0)
                  then m a (MState (ms_prev s) (ms_rest s) (drop_caps (groups a) (ms_caps s)))
                         (fun y => if Nat.eqb lo 0
                                      && Nat.eqb (length (ms_rest y)) (length (ms_rest s))
                                   then None
                                   else rep (m a) (groups a) fuel (Nat.pred lo)
                                          (option_map Nat.pred hi) greedy y k)
                  else if greedy then
                    match m a (MState (ms_prev s) (ms_rest s)
                                 (drop_caps (groups a) (ms_caps s)))
                            (fun y => if Nat.eqb lo 0
                                         && Nat.eqb (length (ms_rest y)) (length (ms_rest s))
                                      then None
                                      else rep (m a) (groups a) fuel (Nat.pred lo)
                                             (option_map Nat.pred hi) greedy y k) with
                    | Some z0 => Some z0
                    | None => k s
                    end
                  else
                    match k s with
                    | Some z0 => Some z0
                    | None =>
                        m a (MState (ms_prev s) (ms_rest s)
                               (drop_caps (groups a) (ms_caps s)))
                          (fun y => if Nat.eqb lo 0
                                       && Nat.eqb (length (ms_rest y)) (length (ms_rest s))
                                    then None
                                    else rep (m a) (groups a) fuel (Nat.pred lo)
                                           (option_map Nat.pred hi) greedy y k)
                    end) = Some z).
    { destruct hi as [[|h]|]; [congruence | exact H | exact H]. }
    clear H.
    destruct (negb (Nat.eqb lo 0)) eqn:Elo.
    + eapply Hiter; eauto.
    + apply negb_false_iff, Nat.eqb_eq in Elo. subst lo.
      destruct greedy.
      * destruct (m a _ _) eqn:Em in Hm.
        -- injection Hm as <-. eapply Hiter; eauto.
        -- apply Hzero; auto.
      * destruct (k s) eqn:Ek.
        -- injection Hm as <-. apply Hzero; auto.
        -- eapply Hiter; eauto.
Qed.

Lemma m_lang (r : regex) :
  forall s k z, m r s k = Some z ->
  exists y w, k y = Some z /\ ms_rest s = w ++ ms_rest y /\ lang r w
              /\ caps_in (bodies r) (ms_caps s) (ms_caps y).
Proof.
  induction r; intros s k z H;
    [simpl in H | simpl in H | simpl in H | simpl in H | | simpl in H
     | simpl in H | simpl in H | simpl in H].
  - (* Eps *) exists s, []. repeat split; auto. apply caps_in_refl.
  - (* Chr *)
    destruct (ms_rest s) as [|c t] eqn:E; [discriminate|].
    destruct (p c) eqn:Ep; [|discriminate].
    eexists _, [c]. split; [exact H|]. simpl. repeat split; auto.
    + exists c. auto.
    + apply caps_in_refl.
  - (* Seq *)
    apply IHr1 in H as (y1 & w1 & H & Hw1 & Hl1 & Hc1).
    apply IHr2 in H as (y2 & w2 & H & Hw2 & Hl2 & Hc2).
    exists y2, (w1 ++ w2). split; [exact H|]. split.
    + rewrite Hw1, Hw2. now rewrite List.app_assoc.
    + split; [simpl; eauto|]. simpl.
      eapply caps_in_trans; [| |exact Hc1|exact Hc2]; intros x Hx; apply List.in_or_app; auto.
  - (* Alt *)
    assert (Hcase : m r1 s k = Some z \/ m r2 s k = Some z).
    { destruct (m r1 s k); [left; congruence | right; exact H]. }
    clear H. destruct Hcase as [H|H].
    + apply IHr1 in H as (y & w & H & Hw & Hl & Hc). exists y, w. repeat split; auto.
      * simpl. now left.
      * simpl. eapply caps_in_trans; [| |apply caps_in_refl|exact Hc]; intros x Hx;
          apply List.in_or_app; eauto.
    + apply IHr2 in H as (y & w & H & Hw & Hl & Hc). exists y, w. repeat split; auto.
      * simpl. now right.
      * simpl. eapply caps_in_trans; [| |apply caps_in_refl|exact Hc]; intros x Hx;
          apply List.in_or_app; eauto.
  - (* Rep *)
    change (rep (m r) (groups r) (rep_fuel lo s) lo hi greedy s k = Some z) in H.
    eapply rep_lang in H; [|exact IHr].
    destruct H as (y & ws & Hk & Hw & Hl & Hn & Hu & Hc).
    exists y, (concat ws). repeat split; auto. simpl. eauto.
  - (* Grp *)
    apply IHr in H as (y & w & H & Hw & Hl & Hc).
    eexists _, w. split; [exact H|]. simpl. repeat split; auto.
    intros n' v Hv. unfold set_cap in Hv. simpl in Hv.
    destruct (Nat.eqb n n') eqn:En.
    + apply Nat.eqb_eq in En. subst n'. injection Hv as <-. right. exists r.
      split; [now left|].
      rewrite Hw, List.length_app, Nat.add_sub, List.firstn_app, Nat.sub_diag.
      rewrite List.firstn_all. simpl. now rewrite List.app_nil_r.
    + apply get_cap_drop_Some in Hv. destruct (Hc n' v Hv) as [Hv'|(a & Ha & Hla)].
      * now left.
      * right. exists a. split; [now right | exact Hla].
  - (* Bol *)
    destruct (ms_prev s); [discriminate|].
    exists s, []. repeat split; auto. apply caps_in_refl.
  - (* Eol *)
    destruct (ms_rest s) eqn:E; [|discriminate].
    exists s, []. rewrite E. repeat split; auto. apply caps_in_refl.
  - (* WordB *)
    destruct (at_word_boundary s); [|discriminate].
    exists s, []. repeat split; auto. apply caps_in_refl.
Qed.

(** A match of [exec]: the input is the text before the match, the matched
    text and the text after it; the matched text is a text of the pattern and
    every group holds a text of its body. *)
Lemma match_at_lang (r : regex) prev rest idx mt :
  match_at r prev rest idx = Some mt ->
  m_index mt = idx /\ rest = m_text mt ++ m_after mt /\ lang r (m_text mt)
  /\ forall n v, group mt n = Some v -> exists a, List.In (n, a) (bodies r) /\ lang a v.
Proof.
  unfold match_at. intros H. destruct (m r _ Some) as [y|] eqn:E; [|discriminate].
  injection H as <-. apply m_lang in E as (y' & w & Hy & Hw & Hl & Hc).
  injection Hy as <-. simpl in *. split; [reflexivity|].
  assert (Ew : firstn (length rest - length (ms_rest y')) rest = w).
  { rewrite Hw, List.length_app, Nat.add_sub, List.firstn_app, Nat.sub_diag.
    rewrite List.firstn_all. simpl. now rewrite List.app_nil_r. }
  rewrite Ew. split; [exact Hw|]. split; [exact Hl|].
  intros n v Hv. unfold group in Hv. simpl in Hv.
  destruct (Hc n v Hv) as [Hv'|Hv']; [discriminate | exact Hv'].
Qed.

Lemma exec_from_lang (r : regex) rest : forall prev idx mt,
  exec_from r prev rest idx = Some mt ->
  exists pre, rest = pre ++ m_text mt ++ m_after mt /\ m_index mt = idx + length pre
              /\ lang r (m_text mt)
              /\ forall n v, group mt n = Some v ->
                   exists a, List.In (n, a) (bodies r) /\ lang a v.
Proof.
  induction rest as [|c t IH]; intros prev idx mt H; simpl in H.
  - destruct (match_at r prev [] idx) eqn:E; [|discriminate]. injection H as ->.
    apply match_at_lang in E as (Hi & Hr & Hl & Hg). exists []. simpl.
    repeat split; auto. lia.
  - destruct (match_at r prev (c :: t) idx) eqn:E.
    + injection H as ->. apply match_at_lang in E as (Hi & Hr & Hl & Hg).
      exists []. simpl. repeat split; auto. lia.
    + apply IH in H as (pre & Hr & Hi & Hl & Hg). exists (c :: pre). simpl.
      rewrite Hr. repeat split; auto. lia.
Qed.

Lemma exec_lang (r : regex) (s : jsstring) (mt : rmatch) :
  exec r s = Some mt ->
  exists pre, s = pre ++ m_text mt ++ m_after mt /\ m_index mt = length pre
              /\ lang r (m_text mt)
              /\ forall n v, group mt n = Some v ->
                   exists a, List.In (n, a) (bodies r) /\ lang a v.
Proof. unfold exec. intros H. apply exec_from_lang in H. exact H. Qed.

(** A pattern anchored at the start matches at the start only. *)
Lemma exec_from_anchored (r : regex) rest : forall c idx,
  exec_from (Seq Bol r) (Some c) rest idx = None.
Proof.
  induction rest as [|x t IH]; intros c idx; simpl.
  - reflexivity.
  - unfold match_at. simpl. apply IH.
Qed.

Lemma exec_anchored (r : regex) (s : jsstring) (mt : rmatch) :
  exec (Seq Bol r) s = Some mt ->
  s = m_text mt ++ m_after mt /\ lang r (m_text mt)
  /\ forall n v, group mt n = Some v -> exists a, List.In (n, a) (bodies r) /\ lang a v.
Proof.
  unfold exec. intros H.
  assert (Hm : match_at (Seq Bol r) None s 0 = Some mt).
  { destruct s as [|c t]; simpl in H.
    - destruct (match_at (Seq Bol r) None [] 0); [exact H | discriminate].
    - destruct (match_at (Seq Bol r) None (c :: t) 0); [exact H|].
      now rewrite exec_from_anchored in H. }
  apply match_at_lang in Hm as (_ & Hs & Hl & Hg). split; [exact Hs|]. split.
  - simpl in Hl. destruct Hl as (u & v & -> & -> & Hv). exact Hv.
  - exact Hg.
Qed.

End MatcherLanguage.

Section Notes.
Import Captures.

Lemma lang_Lit1i c w : lang (Lit1i c) w -> List.map foldASCII w = [foldASCII c].
Proof.
  intros (x & -> & Hx). simpl. apply N.eqb_eq in Hx. now rewrite Hx.
Qed.

Lemma lang_LitSi s : forall w, lang (LitSi s) w -> List.map foldASCII w = List.map foldASCII s.
Proof.
  induction s as [|c [|d t] IH]; intros w H.
  - simpl in H. now subst w.
  - now apply lang_Lit1i in H.
  - destruct H as (u & v & -> & Hu & Hv). rewrite List.map_app.
    apply lang_Lit1i in Hu. apply IH in Hv. rewrite Hu, Hv. reflexivity.
Qed.

Lemma upperCU_fold c x :
  foldASCII c = x -> isUpperAZ x = true -> upperCU c = [x].
Proof.
  unfold foldASCII, upperCU, isUpperAZ, isLowerAZ, in_range.
  intros H Hx. destruct (N.leb 97 c && N.leb c 122) eqn:E; [now rewrite H|].
  subst x. rewrite andb_true_iff, !N.leb_le in Hx.
  replace (N.leb 224 c) with false by (symmetry; apply N.leb_gt; lia).
  replace (N.eqb c 181) with false by (symmetry; apply N.eqb_neq; lia).
  replace (N.eqb c 223) with false by (symmetry; apply N.eqb_neq; lia).
  replace (N.eqb c 255) with false by (symmetry; apply N.eqb_neq; lia).
  reflexivity.
Qed.

Lemma toUpperCase_fold : forall w s,
  List.map foldASCII w = s -> forallb isUpperAZ s = true -> toUpperCase w = s.
Proof.
  induction w as [|c w IH]; intros s H Hs; simpl in H; subst s; [reflexivity|].
  simpl in Hs. apply andb_true_iff in Hs as [Hc Hs]. unfold toUpperCase. simpl.
  rewrite (upperCU_fold c _ eq_refl Hc). simpl. f_equal. now apply IH.
Qed.

Lemma todo_marker g1 :
  lang (Alts [Liti "TODO"; Liti "FIXME"; Liti "HACK"; Liti "BUG"; Liti "NOTE"; Liti "XXX"]) g1 ->
  List.In (toUpperCase g1) [js "TODO"; js "FIXME"; js "HACK"; js "BUG"; js "NOTE"; js "XXX"].
Proof.
  cbn [Alts lang]. unfold Liti.
  intros H.
  repeat match type of H with _ \/ _ => destruct H as [H|H] end;
    apply lang_LitSi in H; apply toUpperCase_fold in H; try reflexivity; rewrite H;
    simpl; tauto.
Qed.

Lemma grp_Ret mt n g : grp mt n = Ret g -> group mt n = Some g.
Proof.
  unfold grp, deref.
  destruct (group mt n); [intros H; injection H as ->; reflexivity | discriminate].
Qed.

Lemma scanTodos_kinds lines t :
  analyzers.scanTodos lines = Ret t ->
  List.Forall (fun x => List.In (todo_type x) todoKinds /\ todo_text x <> []) t.
Proof.
  intros H. apply List.Forall_forall. intros x Hx.
  destruct (forLines_In _ _ _ _ _ H Hx) as (k & l & xs & _ & Hf & Hxs).
  destruct (exec analyzers.todo_re l) as [mt|] eqn:E; [|injection Hf as <-; destruct Hxs].
  apply obind_ret in Hf as (g1 & Hg1 & Hf). apply obind_ret in Hf as (g2 & Hg2 & Hf).
  injection Hf as <-. destruct Hxs as [Ex|[]]. subst x. cbn [todo_type todo_text].
  split; [|destruct (trim _); discriminate].
  apply grp_Ret in Hg1. apply exec_lang in E as (pre & _ & _ & _ & Hg).
  destruct (Hg _ _ Hg1) as (a & Ha & Hl).
  cbn in Ha. destruct Ha as [Ha|[Ha|[]]]; [|discriminate Ha].
  injection Ha as <-. apply todo_marker in Hl.
  simpl in Hl. unfold todoKinds.
  repeat match type of Hl with _ \/ _ => destruct Hl as [Hl|Hl] end;
    try (rewrite <- Hl; simpl; tauto). destruct Hl.
Qed.

End Notes.

(** X12: every note in the summary of [parseCode] has one of the five types
    of a TodoItem (TODO, FIXME, HACK, BUG, NOTE; an XXX marker is filed as
    HACK, in whatever case the marker was written) and a text that is not
    empty. *)
Theorem notes_are_typed (code fileName languageId : jsstring) (stats : FileStats) :
  languageRouter.parseCode code fileName languageId = Ret stats ->
  List.Forall (fun x => List.In (todo_type x) todoKinds /\ todo_text x <> []) (todos stats).
Proof.
  intros H. apply parseCode_cases in H as (s0 & t & Ht & -> & _). simpl.
  exact (scanTodos_kinds _ _ Ht).
Qed.

Lemma notes_are_typed_witness :
  exists stats : FileStats,
    languageRouter.parseCode (src [js "x = 1  # xxx"; js "y = 2  # fixme: later"])
      (js "a.py") (js "python") = Ret stats
    /\ List.map todo_type (todos stats) = [js "HACK"; js "FIXME"]
    /\ List.Forall (fun x => List.In (todo_type x) todoKinds /\ todo_text x <> [])
         (todos stats).
Proof.
  destruct (languageRouter.parseCode (src [js "x = 1  # xxx"; js "y = 2  # fixme: later"])
              (js "a.py") (js "python")) as [stats|e] eqn:E; [|vm_compute in E; discriminate E].
  exists stats. split; [reflexivity|].
  pose proof (notes_are_typed _ _ _ _ E) as H.
  vm_compute in E. injection E as <-. split; [reflexivity|]. exact H.
Defined.

Section Harvest.
Import Captures.

Lemma captured_lang r n l v :
  captured r n l = Some v -> exists a, List.In (n, a) (bodies r) /\ lang a v.
Proof.
  unfold captured. destruct (exec r l) as [mt|] eqn:E; [|discriminate].
  intros H. apply exec_lang in E as (_ & _ & _ & _ & Hg). exact (Hg _ _ H).
Qed.

Lemma lang_chars p lo hi g w :
  lang (Rep lo hi g (Chr p)) w ->
  allOf p w = true /\ reps lo hi <= length w /\ atMost hi (length w).
Proof.
  intros (ws & -> & Hws & Hn & Hu).
  assert (H : allOf p (concat ws) = true /\ length (concat ws) = length ws).
  { clear Hn Hu. induction Hws as [|x ws (c & -> & Hc) _ [Ha Hl]]; [split; reflexivity|].
    unfold allOf in *. simpl. rewrite Hc, Ha, Hl. split; reflexivity. }
  destruct H as [Ha Hl]. rewrite Hl. auto.
Qed.

Lemma lang_word w : lang (Plus W_) w -> isWord w = true.
Proof.
  intros H. apply lang_chars in H as (Ha & Hn & _). unfold isWord. rewrite Ha.
  destruct w; [simpl in Hn; lia | reflexivity].
Qed.

Lemma lang_typeName w :
  lang (Seq W_ (Star (Chr phpParser.typeName))) w -> isTypeName w = true.
Proof.
  intros (u & v & -> & (c & -> & Hc) & Hv). apply lang_chars in Hv as [Hv _].
  simpl. now rewrite Hc, Hv.
Qed.

Lemma isWord_isTypeName w : isWord w = true -> isTypeName w = true.
Proof.
  unfold isWord, isTypeName, allOf. destruct w as [|c t]; [discriminate|]. simpl.
  intros H. apply andb_true_iff in H as [Hc Ht]. rewrite Hc. simpl.
  apply forallb_forall. intros x Hx. rewrite forallb_forall in Ht.
  unfold phpParser.typeName, cls. simpl. now rewrite (Ht x Hx).
Qed.

Lemma thrown_word h l name : thrownIn h l = Some name -> isWord name = true.
Proof.
  destruct h; intros H; apply captured_lang in H as (a & Ha & Hl); cbn in Ha;
    repeat (destruct Ha as [Ha|Ha]; [injection Ha as <-; now apply lang_word|]);
    destruct Ha.
Qed.

Lemma caught_shape h l name :
  caughtIn h l = Some name ->
  isTypeName name = true /\ (h <> php_errors -> isWord name = true).
Proof.
  destruct h; simpl; intros H.
  - destruct (captured pythonParser.except_re 1 l) as [n|] eqn:E; [|discriminate].
    destruct (str_eqb n (js "Exception")); [discriminate|]. injection H as <-.
    apply captured_lang in E as (a & Ha & Hl); cbn in Ha.
    destruct Ha as [Ha|[]]. injection Ha as <-. apply lang_word in Hl.
    auto using isWord_isTypeName.
  - apply captured_lang in H as (a & Ha & Hl); cbn in Ha.
    destruct Ha as [Ha|[Ha|[]]]; [discriminate Ha|]. injection Ha as <-.
    apply lang_word in Hl. auto using isWord_isTypeName.
  - apply captured_lang in H as (a & Ha & Hl); cbn in Ha.
    destruct Ha as [Ha|[]]. injection Ha as <-. apply lang_typeName in Hl.
    split; [exact Hl | congruence].
Qed.

Lemma harvested_nil h errs : harvested h [] errs errs.
Proof. intros name. split; [auto|]. intros [?|(l & [] & _)]. assumption. Qed.

Lemma harvested_cons h l ls errs e2 r :
  (forall name, List.In name e2 <->
                List.In name errs \/ thrownIn h l = Some name \/ caughtIn h l = Some name) ->
  harvested h ls e2 r -> harvested h (l :: ls) errs r.
Proof.
  intros H2 Hr name. rewrite (Hr name), (H2 name). split.
  - intros [[?|Hl]|(l' & Hin & Hl')]; [auto | right; exists l | right; exists l'];
      simpl; auto.
  - intros [?|(l' & [<-|Hin] & Hl')]; eauto.
Qed.

Lemma thrown_step (re : regex) l errs e1 :
  match exec re l with
  | Some t => do g <- grp t 1; Ret (set_add g errs)
  | None => Ret errs
  end = Ret e1 ->
  forall name, List.In name e1 <-> List.In name errs \/ captured re 1 l = Some name.
Proof.
  unfold captured. intros H name. destruct (exec re l) as [t|].
  - apply obind_ret in H as (g & Hg & H). injection H as <-. apply grp_Ret in Hg.
    rewrite set_add_In, Hg. split; [intros [->|?]; auto | intros [?|E]; [auto|]].
    injection E as ->. auto.
  - injection H as <-. split; [auto | intros [?|?]; [assumption|discriminate]].
Qed.

Lemma py_errors_go_harvested ls : forall errs r,
  pythonParser.parseErrorTypes_go ls errs = Ret r -> harvested py_errors ls errs r.
Proof.
  induction ls as [|l ls IH]; intros errs r H; simpl in H.
  - injection H as <-. apply harvested_nil.
  - apply obind_ret in H as (e1 & H1 & H). apply obind_ret in H as (e2 & H2 & H).
    apply IH in H. eapply harvested_cons; [|exact H]. intros name.
    pose proof (thrown_step _ _ _ _ H1 name) as E1. simpl.
    assert (E2 : List.In name e2 <->
                 List.In name e1
                 \/ match captured pythonParser.except_re 1 l with
                    | Some n => if str_eqb n (js "Exception") then None else Some n
                    | None => None
                    end = Some name).
    { unfold captured. destruct (exec pythonParser.except_re l) as [em|].
      - apply obind_ret in H2 as (g & Hg & H2). apply grp_Ret in Hg. rewrite Hg.
        destruct (str_eqb g (js "Exception")); simpl in H2; injection H2 as <-.
        + split; [auto | intros [?|?]; [assumption|discriminate]].
        + rewrite set_add_In. split; [intros [->|?]; auto | intros [?|E]; [auto|]].
          injection E as ->. auto.
      - injection H2 as <-. split; [auto | intros [?|?]; [assumption|discriminate]]. }
    rewrite E2, E1. tauto.
Qed.

Lemma js_errors_go_harvested ls : forall errs r,
  jsParser.parseJsErrors_go ls errs = Ret r -> harvested js_errors ls errs r.
Proof.
  induction ls as [|l ls IH]; intros errs r H; simpl in H.
  - injection H as <-. apply harvested_nil.
  - apply obind_ret in H as (e1 & H1 & H).
    apply IH in H. eapply harvested_cons; [|exact H]. intros name.
    pose proof (thrown_step _ _ _ _ H1 name) as E1. simpl.
    assert (E2 : List.In name
                   match exec jsParser.catch_re l with
                   | Some c => if truthy (group c 2)
                               then set_add (orElse (group c 2) []) e1 else e1
                   | None => e1
                   end <->
                 List.In name e1 \/ captured jsParser.catch_re 2 l = Some name).
    { pose proof (caught_shape js_errors l) as Hw. simpl in Hw.
      unfold captured in *. destruct (exec jsParser.catch_re l) as [c|].
      - destruct (group c 2) as [g|] eqn:Eg.
        + destruct (Hw g eq_refl) as [_ Hg]. specialize (Hg ltac:(discriminate)).
          destruct g as [|x g]; [discriminate Hg|]. simpl. rewrite set_add_In.
          split; [intros [->|?]; auto | intros [?|E]; [auto|]]. injection E as <-. auto.
        + simpl. split; [auto | intros [?|?]; [assumption|discriminate]].
      - split; [auto | intros [?|?]; [assumption|discriminate]]. }
    rewrite E2, E1. tauto.
Qed.

Lemma php_errors_go_harvested ls : forall errs r,
  phpParser.parsePhpErrors_go ls errs = Ret r -> harvested php_errors ls errs r.
Proof.
  induction ls as [|l ls IH]; intros errs r H; simpl in H.
  - injection H as <-. apply harvested_nil.
  - apply obind_ret in H as (e1 & H1 & H). apply obind_ret in H as (e2 & H2 & H).
    apply IH in H. eapply harvested_cons; [|exact H]. intros name.
    pose proof (thrown_step _ _ _ _ H1 name) as E1.
    pose proof (thrown_step _ _ _ _ H2 name) as E2. simpl.
    rewrite E2, E1. tauto.
Qed.

Lemma errorsOf_harvested h lines r :
  errorsOf h lines = Ret r -> harvested h lines [] r.
Proof.
  destruct h; simpl; intros H;
    [apply py_errors_go_harvested | apply js_errors_go_harvested
     | apply php_errors_go_harvested]; exact H.
Qed.

End Harvest.

(** X13: the error names that a harvest returns (parseErrorTypes,
    parseJsErrors, parsePhpErrors) are exactly the names that some line of the
    input raises or throws and the types that some line catches (in Python
    every type but Exception): none is lost and none is made up. *)
Theorem harvest_holds_what_lines_throw (h : harvest) (lines r : list jsstring)
    (name : jsstring) :
  errorsOf h lines = Ret r ->
  (List.In name r <->
   exists l, List.In l lines /\ (thrownIn h l = Some name \/ caughtIn h l = Some name)).
Proof.
  intros H. apply errorsOf_harvested in H. rewrite (H name). split.
  - intros [[]|?]. assumption.
  - auto.
Qed.

Lemma harvest_holds_what_lines_throw_witness :
  exists r, errorsOf js_errors harvest_sample = Ret r
    /\ r = [js "RangeError"; js "TypeError"]
    /\ (List.In (js "RangeError") r <->
        exists l, List.In l harvest_sample
                  /\ (thrownIn js_errors l = Some (js "RangeError")
                      \/ caughtIn js_errors l = Some (js "RangeError"))).
Proof.
  destruct (errorsOf js_errors harvest_sample) as [r|e] eqn:E;
    [|vm_compute in E; discriminate E].
  exists r. split; [reflexivity|].
  pose proof (harvest_holds_what_lines_throw js_errors _ _ (js "RangeError") E) as H.
  vm_compute in E. injection E as <-. split; [reflexivity|]. exact H.
Defined.

(** X14: every error name in the summary of [parseCode] starts with a word
    character and holds only word characters, backslashes and bars; outside
    PHP it is a run of word characters. No error name is empty. *)
Theorem error_names_are_type_names (code fileName languageId : jsstring)
    (stats : FileStats) :
  languageRouter.parseCode code fileName languageId = Ret stats ->
  List.Forall (fun e => isTypeName e = true
                        /\ (language stats <> js "php" -> isWord e = true))
    (errorTypes stats).
Proof.
  intros H. apply parseCode_cases in H as (s0 & t & _ & -> & Hs). simpl.
  assert (Hh : forall h, errorsOf h (splitLines code) = Ret (errorTypes s0) ->
               (h = php_errors -> language s0 = js "php") ->
               List.Forall (fun e => isTypeName e = true
                                     /\ (language s0 <> js "php" -> isWord e = true))
                 (errorTypes s0)).
  { intros h Hh Hl. apply errorsOf_harvested in Hh. apply List.Forall_forall.
    intros e He. apply (Hh e) in He as [[]|(l & _ & [Ht|Hc])].
    - apply thrown_word in Ht. auto using isWord_isTypeName.
    - apply caught_shape in Hc as [H1 H2]. split; [exact H1|].
      intros Hn. apply H2. intros ->. auto. }
  destruct Hs as [Hs|[Hs|[Hs|[Hs|Hs]]]].
  - apply (Hh py_errors); [exact (parsePythonCode_errorTypes _ _ _ Hs) | discriminate].
  - apply (Hh js_errors); [exact (parseJsCode_errorTypes _ _ _ Hs) | discriminate].
  - apply (Hh php_errors); [exact (parsePhpCode_errorTypes _ _ _ Hs)|].
    intros _. now apply parsePhpCode_parts in Hs.
  - apply parseHtmlCode_errorTypes in Hs. rewrite Hs. constructor.
  - apply parseCssCode_errorTypes in Hs. rewrite Hs. constructor.
Qed.

Lemma error_names_are_type_names_witness :
  exists stats : FileStats,
    languageRouter.parseCode sample_js (js "store.js") (js "javascript") = Ret stats
    /\ errorTypes stats = [js "RangeError"]
    /\ List.Forall (fun e => isTypeName e = true
                             /\ (language stats <> js "php" -> isWord e = true))
         (errorTypes stats).
Proof.
  destruct (languageRouter.parseCode sample_js (js "store.js") (js "javascript"))
    as [stats|e] eqn:E; [|vm_compute in E; discriminate E].
  exists stats. split; [reflexivity|].
  pose proof (error_names_are_type_names _ _ _ _ E) as H.
  vm_compute in E. injection E as <-. split; [reflexivity|]. exact H.
Defined.

Section DynamicPatterns.
Import Captures.

Lemma lang_lits name tail : forall w,
  lang (lits name tail) w -> exists v, w = name ++ v /\ lang tail v.
Proof.
  induction name as [|c t IH]; intros w H; simpl in H.
  - exists w. auto.
  - destruct H as (u & v & -> & (x & -> & Hx) & Hv). apply N.eqb_eq in Hx. subst x.
    apply IH in Hv as (v' & -> & Hv'). exists v'. auto.
Qed.

Lemma lang_wordRe name w : lang (wordRe name) w -> w = name.
Proof.
  intros (u & v & -> & -> & Hv). apply lang_lits in Hv as (v' & -> & (a & b & -> & -> & ->)).
  simpl. now rewrite List.app_nil_r.
Qed.

End DynamicPatterns.

(** X15: whatever characters a name holds, the pattern that
    [new RegExp('\\b' + escapeRegex(name) + '\\b')] builds (and the same with
    escRe) is well formed, and the text of every match of it is the name
    itself: the escaping leaves no character of the name to be read as
    pattern syntax. *)
Theorem escaped_name_matches_itself (name : jsstring) :
  exists re,
    pythonParser.wordRegExp name = Ret re
    /\ parserUtils.wordRegExp name = Ret re
    /\ forall s mt, exec re s = Some mt -> m_text mt = name.
Proof.
  exists (wordRe name). split; [apply wordRegExp_eq|]. split; [apply shared_wordRegExp_eq|].
  intros s mt H. apply exec_lang in H as (_ & _ & _ & Hl & _). now apply lang_wordRe.
Qed.

Section Attributes.
Import Captures.

Lemma hasName_false (attrs : list PortInfo) n :
  existsb (fun a => str_eqb (port_name a) n) attrs = false ->
  ~ List.In n (List.map port_name attrs).
Proof.
  intros H Hin. apply List.in_map_iff in Hin as (a & <- & Ha).
  assert (E : existsb (fun b => str_eqb (port_name b) (port_name a)) attrs = true).
  { apply existsb_exists. exists a. split; [exact Ha | apply str_eqb_refl]. }
  congruence.
Qed.

Lemma distinct_snoc attrs a :
  distinctAttributes attrs ->
  existsb (fun b => str_eqb (port_name b) (port_name a)) attrs = false ->
  isWord (port_name a) = true -> port_type a <> [] ->
  distinctAttributes (attrs ++ [a]).
Proof.
  intros [Hn Hf] He Hw Ht. split.
  - rewrite List.map_app. simpl. apply List.NoDup_app; [exact Hn | |].
    + constructor; [intros [] | constructor].
    + intros x Hx [<-|[]]. exact (hasName_false _ _ He Hx).
  - apply List.Forall_app. split; [exact Hf|]. constructor; [auto | constructor].
Qed.

Lemma orElse_default o d : d <> [] -> orElse o d <> [].
Proof. unfold orElse. destruct o as [[|c t]|]; auto; discriminate. Qed.

Lemma isWord_nonempty w : isWord w = true -> w <> [].
Proof. destruct w; [discriminate | discriminate]. Qed.

Lemma group_lang r l mt n v :
  exec r l = Some mt -> group mt n = Some v ->
  exists a, List.In (n, a) (bodies r) /\ lang a v.
Proof. intros E H. apply exec_lang in E as (_ & _ & _ & _ & Hg). exact (Hg _ _ H). Qed.

Lemma py_attributes_go_distinct classIndent ls : forall attrs r,
  pythonParser.parseClassAttributes_go classIndent ls attrs = Ret r ->
  distinctAttributes attrs -> distinctAttributes r.
Proof.
  induction ls as [|line t IH]; intros attrs r H Hd; simpl in H.
  - now injection H as <-.
  - destruct (negb (nonEmpty (trim line))); [eauto|].
    apply obind_ret in H as (ci & _ & H).
    destruct ((ci <=? classIndent) && nonEmpty (trim line)); [now injection H as <-|].
    destruct (exec pythonParser.selfAttr_re line) as [mt|] eqn:E; [|eauto].
    apply obind_ret in H as (n & Hn & H). apply grp_Ret in Hn.
    destruct (existsb _ attrs) eqn:Ex; [eauto|].
    eapply IH; [exact H|]. apply distinct_snoc; simpl; auto.
    + destruct (group_lang _ _ _ _ _ E Hn) as (a & Ha & Hl). cbn in Ha.
      destruct Ha as [Ha|[Ha|[]]]; [|discriminate Ha]. injection Ha as <-.
      now apply lang_word.
    + apply orElse_default. discriminate.
Qed.

Lemma js_attributes_go_distinct ls : forall attrs depth started r,
  jsParser.parseJsClassAttrs_go ls attrs depth started = Ret r ->
  distinctAttributes attrs -> distinctAttributes r.
Proof.
  induction ls as [|l rest IH]; intros attrs depth started r H Hd; simpl in H.
  - now injection H as <-.
  - destruct (scanBraces l depth started) as [d' s'].
    destruct (s' && (d' <=? 0)%Z); [now injection H as <-|].
    apply obind_ret in H as (a1 & H1 & H). apply obind_ret in H as (a2 & H2 & H).
    eapply IH; [exact H|]. clear H.
    assert (Hd1 : distinctAttributes a1).
    { destruct (exec jsParser.thisAttr_re l) as [mt|] eqn:E; [|now injection H1 as <-].
      apply obind_ret in H1 as (n & Hn & H1). apply grp_Ret in Hn.
      unfold jsParser.hasAttr in H1.
      destruct (existsb _ attrs) eqn:Ex; simpl in H1; injection H1 as <-; [exact Hd|].
      apply distinct_snoc; simpl; auto; try discriminate.
      destruct (group_lang _ _ _ _ _ E Hn) as (a & Ha & Hl). cbn in Ha.
      destruct Ha as [Ha|[]]. injection Ha as <-. now apply lang_word. }
    destruct (exec jsParser.cf_re l) as [mt|] eqn:E; [|now injection H2 as <-].
    destruct (negb (includes l (js "("))); [|now injection H2 as <-].
    apply obind_ret in H2 as (n & Hn & H2). apply grp_Ret in Hn.
    unfold jsParser.hasAttr in H2.
    destruct (existsb _ a1) eqn:Ex; simpl in H2; [now injection H2 as <-|].
    apply obind_ret in H2 as (ty & Hty & H2). apply grp_Ret in Hty. injection H2 as <-.
    apply distinct_snoc; simpl; auto.
    + destruct (group_lang _ _ _ _ _ E Hn) as (a & Ha & Hl). cbn in Ha.
      destruct Ha as [Ha|[Ha|[]]]; [|discriminate Ha]. injection Ha as <-.
      now apply lang_word.
    + destruct (group_lang _ _ _ _ _ E Hty) as (a & Ha & Hl). cbn in Ha.
      destruct Ha as [Ha|[Ha|[]]]; [discriminate Ha|]. injection Ha as <-.
      destruct Hl as (u & v & -> & (c & -> & _) & _). discriminate.
Qed.

Lemma distinct_nil : distinctAttributes [].
Proof. split; constructor. Qed.

End Attributes.

(** X16: the attributes that [parseClassAttributes] (Python) and
    [parseJsClassAttrs] (JavaScript) list for a class have pairwise distinct
    names: an attribute assigned or declared again is listed once. Every
    name is a run of word characters and every type is filled in. *)
Theorem class_attributes_are_distinct (lines : list jsstring) (classLine : nat)
    (attrs : list PortInfo) :
  pythonParser.parseClassAttributes lines classLine = Ret attrs
  \/ jsParser.parseJsClassAttrs lines classLine = Ret attrs ->
  distinctAttributes attrs.
Proof.
  intros [H|H].
  - unfold pythonParser.parseClassAttributes in H.
    apply obind_ret in H as (cl & _ & H). apply obind_ret in H as (ci & _ & H).
    exact (py_attributes_go_distinct _ _ _ _ H distinct_nil).
  - exact (js_attributes_go_distinct _ _ _ _ _ H distinct_nil).
Qed.

Lemma class_attributes_are_distinct_witness :
  exists attrs,
    pythonParser.parseClassAttributes attrs_sample 0 = Ret attrs
    /\ List.map port_name attrs = [js "path"; js "size"]
    /\ distinctAttributes attrs.
Proof.
  destruct (pythonParser.parseClassAttributes attrs_sample 0) as [attrs|e] eqn:E;
    [|vm_compute in E; discriminate E].
  exists attrs. split; [reflexivity|].
  pose proof (class_attributes_are_distinct _ _ _ (or_introl E)) as H.
  vm_compute in E. injection E as <-. split; [reflexivity|]. exact H.
Defined.

Section Headers.
Import Captures.

Lemma first_concat (a : regex) (ws : list jsstring) :
  List.Forall (fun x => match x with
                        | [] => nullable a = true
                        | c :: _ => first a c = true
                        end) ws ->
  match concat ws with
  | [] => ws = [] \/ nullable a = true
  | c :: _ => first a c = true
  end.
Proof.
  induction 1 as [|x ws Hx _ IH]; simpl; [auto|].
  destruct x as [|c x]; simpl; [|exact Hx].
  destruct (concat ws); [auto | exact IH].
Qed.

Lemma lang_first (r : regex) : forall w,
  lang r w ->
  match w with
  | [] => nullable r = true
  | c :: _ => first r c = true
  end.
Proof.
  induction r; intros w H; simpl in H.
  - subst w. reflexivity.
  - destruct H as (c & -> & Hc). exact Hc.
  - destruct H as (u & v & -> & Hu & Hv). apply IHr1 in Hu. apply IHr2 in Hv.
    destruct u as [|c u]; simpl.
    + destruct v as [|c v]; simpl; rewrite Hu; [now rewrite Hv|].
      rewrite Hv. apply orb_true_r.
    + now rewrite Hu.
  - destruct H as [H|H]; [apply IHr1 in H | apply IHr2 in H];
      destruct w; simpl; rewrite H; auto using orb_true_r.
  - destruct H as (ws & -> & Hws & Hn & _).
    assert (Hf : List.Forall (fun x => match x with
                                       | [] => nullable r = true
                                       | c :: _ => first r c = true
                                       end) ws).
    { eapply List.Forall_impl; [|exact Hws]. intros x Hx. exact (IHr x Hx). }
    apply first_concat in Hf. simpl. destruct (concat ws); [|exact Hf].
    destruct Hf as [->|Hf]; [|rewrite Hf; apply orb_true_r].
    simpl in Hn. replace (reps lo hi) with 0 by lia. reflexivity.
  - apply IHr in H. exact H.
  - subst w. reflexivity.
  - subst w. reflexivity.
  - subst w. reflexivity.
Qed.

(** The first code unit of a line that an anchored pattern matches. *)
Lemma anchored_first (r : regex) (l : jsstring) (mt : rmatch) :
  exec (Seq Bol r) l = Some mt -> nullable r = false ->
  exists c t, l = c :: t /\ first r c = true.
Proof.
  intros H Hn. apply exec_anchored in H as (Hl & Hlang & _).
  apply lang_first in Hlang. destruct (m_text mt) as [|c t]; [congruence|].
  exists c, (t ++ m_after mt). split; [exact Hl | exact Hlang].
Qed.

Lemma php_header_is_no_method (l : jsstring) (cm : rmatch) :
  exec phpParser.cm_re l = Some cm -> exec phpParser.mm_re l = None.
Proof.
  intros Hc. destruct (exec phpParser.mm_re l) as [mm|] eqn:Hm; [|reflexivity].
  apply anchored_first in Hc as (c & t & -> & Hc); [|reflexivity].
  apply anchored_first in Hm as (c' & t' & E & Hm); [|reflexivity].
  injection E as <- <-. exfalso.
  cbn in Hc.
  repeat match type of Hc with
         | (_ || _) = true => apply orb_true_iff in Hc as [Hc|Hc]
         | (_ && _) = true => apply andb_true_iff in Hc as [_ Hc]
         end;
    try discriminate Hc;
    apply N.eqb_eq in Hc; subst c; vm_compute in Hm; discriminate Hm.
Qed.

Lemma py_class_afterHeader lines r :
  pythonParser.parseClasses lines = Ret r -> List.Forall afterHeader r.
Proof.
  intros H. apply List.Forall_forall. intros c Hc.
  destruct (forLines_In _ _ _ _ _ H Hc) as (k & l & xs & Hk & Hfk & Hin).
  simpl in Hfk. destruct (exec pythonParser.classMatch_re l); [|inv_ret; destruct Hin].
  apply obind_ret in Hfk as (decs & _ & Hfk).
  apply obind_ret in Hfk as (methods & Hm & Hfk).
  apply obind_ret in Hfk as (attrs & _ & Hfk).
  apply obind_ret in Hfk as (name & _ & Hfk). injection Hfk as <-.
  destruct Hin as [<-|[]]. unfold afterHeader. simpl.
  unfold pythonParser.parseClassMethods in Hm.
  apply obind_ret in Hm as (cl & _ & Hm). apply obind_ret in Hm as (ci & _ & Hm).
  apply py_methods_go_lines in Hm. eapply List.Forall_impl; [|exact Hm].
  simpl. intros m Hr. lia.
Qed.

Lemma js_class_afterHeader lines r :
  jsParser.parseJsClasses lines = Ret r -> List.Forall afterHeader r.
Proof.
  intros H. apply List.Forall_forall. intros c Hc.
  destruct (forLines_In _ _ _ _ _ H Hc) as (k & l & xs & Hk & Hfk & Hin).
  simpl in Hfk. destruct (exec jsParser.cm_re l); [|inv_ret; destruct Hin].
  apply obind_ret in Hfk as (decs & _ & Hfk).
  apply obind_ret in Hfk as (methods & Hm & Hfk).
  apply obind_ret in Hfk as (attrs & _ & Hfk).
  apply obind_ret in Hfk as (name & _ & Hfk). injection Hfk as <-.
  destruct Hin as [<-|[]]. unfold afterHeader. simpl.
  unfold jsParser.parseJsClassMethods in Hm.
  destruct (skipn k lines) as [|l0 rest]; simpl in Hm; [injection Hm as <-; constructor|].
  destruct (scanBraces l0 0 false) as [d' s'].
  destruct (s' && (d' <=? 0)%Z); [injection Hm as <-; constructor|].
  rewrite Nat.eqb_refl in Hm.
  apply js_methods_go_lines in Hm. eapply List.Forall_impl; [|exact Hm].
  simpl. intros m Hr. lia.
Qed.

Lemma skipn_nth_error {A} (l : list A) : forall k x,
  nth_error l k = Some x -> exists rest, skipn k l = x :: rest.
Proof.
  induction l as [|y l IH]; intros [|k] x H; simpl in H; try discriminate.
  - injection H as ->. eauto.
  - simpl. eauto.
Qed.

Lemma php_class_afterHeader lines r :
  phpParser.parsePhpClasses lines = Ret r -> List.Forall afterHeader r.
Proof.
  intros H. apply List.Forall_forall. intros c Hc.
  destruct (forLines_In _ _ _ _ _ H Hc) as (k & l & xs & Hk & Hfk & Hin).
  simpl in Hfk, Hk.
  destruct (exec phpParser.cm_re l) as [cm|] eqn:Ecm; [|inv_ret; destruct Hin].
  apply obind_ret in Hfk as (methods & Hm & Hfk).
  apply obind_ret in Hfk as (attrs & _ & Hfk).
  apply obind_ret in Hfk as (name & _ & Hfk). injection Hfk as <-.
  destruct Hin as [<-|[]]. unfold afterHeader. simpl.
  unfold phpParser.parsePhpClassMethods in Hm.
  destruct (skipn_nth_error _ _ _ Hk) as (rest & Er). rewrite Er in Hm. simpl in Hm.
  destruct (scanBraces l 0 false) as [d' s'].
  destruct (s' && (d' <=? 0)%Z); [injection Hm as <-; constructor|].
  rewrite (php_header_is_no_method _ _ Ecm) in Hm. simpl in Hm.
  apply obind_ret in Hm as (more & Hmore & Hm). injection Hm as <-.
  apply php_methods_go_lines in Hmore. eapply List.Forall_impl; [|exact Hmore].
  simpl. intros m Hr. lia.
Qed.

Lemma no_methods_afterHeader (r : list ClassInfo) :
  List.Forall (fun c => cls_methods c = []) r -> List.Forall afterHeader r.
Proof.
  apply List.Forall_impl. intros c Hc. unfold afterHeader. rewrite Hc. constructor.
Qed.

Lemma html_components_no_methods lines r :
  htmlParser.parseHtmlComponents lines = Ret r ->
  List.Forall (fun c => cls_methods c = []) r.
Proof.
  intros H.
  apply (forLines_Forall (fun i c => cls_methods c = [])) in H.
  - eapply List.Forall_impl; [|exact H]. intros c (i & _ & Hm). exact Hm.
  - intros i l xs Hx. inv_ret; repeat constructor.
Qed.

Lemma css_selectors_no_methods lines r :
  htmlParser.parseCssSelectors lines = Ret r ->
  List.Forall (fun c => cls_methods c = []) r.
Proof.
  intros H.
  apply (forLines_Forall (fun i c => cls_methods c = [])) in H.
  - eapply List.Forall_impl; [|exact H]. intros c (i & _ & Hm). exact Hm.
  - intros i l xs Hx. inv_ret; repeat constructor.
Qed.

End Headers.

(** X17: in the summary of [parseCode] every method of a type lies on a line
    after the line of the header of its type. The PHP loop starts at the
    header line without skipping it: a header line is no method because a
    method line starts with a space and a header line does not. *)
Theorem methods_follow_their_header (code fileName languageId : jsstring)
    (stats : FileStats) :
  languageRouter.parseCode code fileName languageId = Ret stats ->
  List.Forall afterHeader (classes stats).
Proof.
  intros H. apply parseCode_cases in H as (s0 & t & _ & -> & Hs). simpl.
  destruct Hs as [Hs|[Hs|[Hs|[Hs|Hs]]]].
  - apply parsePythonCode_parts in Hs as (_ & Hc & _). exact (py_class_afterHeader _ _ Hc).
  - apply parseJsCode_parts in Hs as (_ & Hc & _). exact (js_class_afterHeader _ _ Hc).
  - apply parsePhpCode_parts in Hs as (_ & Hc & _). exact (php_class_afterHeader _ _ Hc).
  - apply parseHtmlCode_parts in Hs as (_ & Hc & _).
    exact (no_methods_afterHeader _ (html_components_no_methods _ _ Hc)).
  - apply parseCssCode_parts in Hs as (_ & Hc & _).
    exact (no_methods_afterHeader _ (css_selectors_no_methods _ _ Hc)).
Qed.

Lemma methods_follow_their_header_witness :
  exists stats : FileStats,
    languageRouter.parseCode php_sample (js "store.php") (js "php") = Ret stats
    /\ List.map cls_lineNumber (classes stats) = [2]
    /\ List.map (fun c => List.map meth_lineNumber (cls_methods c)) (classes stats) = [[3]]
    /\ List.Forall afterHeader (classes stats).
Proof.
  destruct (languageRouter.parseCode php_sample (js "store.php") (js "php"))
    as [stats|e] eqn:E; [|vm_compute in E; discriminate E].
  exists stats. split; [reflexivity|].
  pose proof (methods_follow_their_header _ _ _ _ E) as H.
  vm_compute in E. injection E as <-. split; [reflexivity|]. split; [reflexivity|].
  exact H.
Defined.

Section Blocks.
Import extension.

Lemma nonEmpty_false (s : jsstring) : negb (nonEmpty s) = true -> s = [].
Proof. destruct s; [reflexivity | discriminate]. Qed.

Lemma findBlockEnd_go_spec (header : jsstring) (a : nat) (ls : list jsstring) :
  indentOf header = Some a ->
  forall i end_,
  exists n, n <= length ls
    /\ findBlockEnd_go a ls i end_ = match n with 0 => end_ | S k => i + k end
    /\ (forall j line, j < n -> nth_error ls j = Some line -> inBlock header line)
    /\ (forall line, nth_error ls n = Some line -> ~ inBlock header line).
Proof.
  intros Ha. induction ls as [|l ls IH]; intros i end_.
  - exists 0. simpl. split; [lia|]. split; [reflexivity|]. split.
    + intros j line Hj. lia.
    + intros line H. discriminate.
  - assert (Hstep : inBlock header l ->
              exists n, n <= length (l :: ls)
                /\ findBlockEnd_go a ls (S i) i = match n with 0 => end_ | S k => i + k end
                /\ (forall j line, j < n -> nth_error (l :: ls) j = Some line ->
                                   inBlock header line)
                /\ (forall line, nth_error (l :: ls) n = Some line -> ~ inBlock header line)).
    { intros Hl. destruct (IH (S i) i) as (n & Hn & He & Hin & Hout).
      exists (S n). simpl. split; [lia|]. split.
      - rewrite He. destruct n; lia.
      - split; [|exact Hout]. intros [|j] line Hj Hline; simpl in Hline.
        + now injection Hline as <-.
        + apply (Hin j); [lia | exact Hline]. }
    assert (Hstop : ~ inBlock header l ->
              exists n, n <= length (l :: ls)
                /\ end_ = match n with 0 => end_ | S k => i + k end
                /\ (forall j line, j < n -> nth_error (l :: ls) j = Some line ->
                                   inBlock header line)
                /\ (forall line, nth_error (l :: ls) n = Some line -> ~ inBlock header line)).
    { intros Hl. exists 0. simpl. split; [lia|]. split; [reflexivity|]. split.
      - intros j line Hj. lia.
      - intros line Hline. now injection Hline as <-. }
    simpl. destruct (negb (nonEmpty (trim l))) eqn:Eb.
    + apply Hstep. left. now apply nonEmpty_false.
    + assert (Hne : trim l <> []).
      { intros E. rewrite E in Eb. discriminate. }
      destruct (indentOf l) as [k|] eqn:Ek.
      * destruct (k <=? a) eqn:Ele.
        -- apply Hstop. intros [E|(a' & b & Ea & Eb' & Hlt)]; [contradiction|].
           apply Nat.leb_le in Ele. rewrite Ha in Ea. rewrite Ek in Eb'.
           injection Ea as <-. injection Eb' as <-. lia.
        -- apply Hstep. right. exists a, k. apply Nat.leb_gt in Ele. auto.
      * apply Hstop. intros [E|(a' & b & _ & Eb' & _)]; [contradiction|].
        rewrite Ek in Eb'. discriminate.
Qed.

Lemma nth_error_skipn_add {A} (l : list A) : forall k j,
  nth_error (skipn k l) j = nth_error l (k + j).
Proof.
  induction l as [|x l IH]; intros [|k] j; simpl; auto.
  now destruct j.
Qed.

End Blocks.

(** X18: [findBlockEnd] raises a TypeError when the start line is missing.
    Otherwise it returns an index from the start line on and inside the
    list; every line after the start line up to that index belongs to the
    block of the start line (it is blank, or indented further than the start
    line), and the line that follows the index, when there is one and the
    start line is not blank, does not. *)
Theorem findBlockEnd_delimits_the_block (lines : list jsstring) (startLine : nat) :
  match nth_error lines startLine with
  | None => extension.findBlockEnd lines startLine = Throw TypeError
  | Some header =>
      exists e,
        extension.findBlockEnd lines startLine = Ret e
        /\ startLine <= e < length lines
        /\ (forall i line, startLine < i <= e -> nth_error lines i = Some line ->
                           inBlock header line)
        /\ (forall line, extension.indentOf header <> None ->
                         nth_error lines (e + 1) = Some line -> ~ inBlock header line)
  end.
Proof.
  unfold extension.findBlockEnd.
  destruct (nth_error lines startLine) as [header|] eqn:Eh; simpl; [|reflexivity].
  assert (Hlt : startLine < length lines) by (apply nth_error_Some; congruence).
  destruct (extension.indentOf header) as [a|] eqn:Ea.
  - destruct (findBlockEnd_go_spec header a (skipn (startLine + 1) lines) Ea
                (startLine + 1) startLine) as (n & Hn & He & Hin & Hout).
    rewrite List.length_skipn in Hn.
    eexists. split; [reflexivity|]. rewrite He. split; [destruct n; lia|]. split.
    + intros i line Hi Hline. destruct n as [|k]; [lia|].
      apply (Hin (i - (startLine + 1))); [lia|].
      rewrite nth_error_skipn_add. replace (startLine + 1 + (i - (startLine + 1))) with i by lia.
      exact Hline.
    + intros line _ Hline. apply Hout.
      rewrite nth_error_skipn_add. rewrite <- Hline. f_equal. destruct n; lia.
  - exists startLine. split; [reflexivity|]. split; [lia|]. split.
    + intros i line Hi. lia.
    + intros line Hne. congruence.
Qed.

Section Globals.
Import Captures.

Lemma lang_constantName w :
  lang (Seq (Chr (cls [isUpperAZ; ch "_"]))
            (Star (Chr (cls [isUpperAZ; isDigit; ch "_"])))) w ->
  isConstantName w = true.
Proof.
  intros (u & v & -> & (c & -> & Hc) & Hv). apply lang_chars in Hv as [Hv _].
  change (cls [isUpperAZ; ch "_"] c && allOf (cls [isUpperAZ; isDigit; ch "_"]) v = true).
  now rewrite Hc, Hv.
Qed.

Lemma inferType_filled v : pythonParser.inferType v <> [].
Proof.
  unfold pythonParser.inferType.
  repeat match goal with |- (if ?b then _ else _) <> _ => destruct b end; discriminate.
Qed.

Lemma inferJsType_filled v : jsParser.inferJsType v <> [].
Proof.
  unfold jsParser.inferJsType.
  repeat match goal with |- (if ?b then _ else _) <> _ => destruct b end; discriminate.
Qed.

Lemma trimStart_idem s : trimStart (trimStart s) = trimStart s.
Proof.
  induction s as [|c t IH]; simpl; [reflexivity|].
  destruct (isSpace c) eqn:E; [exact IH|]. simpl. now rewrite E.
Qed.

Lemma trimStart_fixed s :
  match s with c :: _ => isSpace c = false | [] => True end -> trimStart s = s.
Proof. destruct s as [|c t]; simpl; [reflexivity|]. now intros ->. Qed.

Lemma trimStart_head s :
  match trimStart s with c :: _ => isSpace c = false | [] => True end.
Proof.
  induction s as [|c t IH]; simpl; [exact I|].
  destruct (isSpace c) eqn:E; [exact IH | exact E].
Qed.

Lemma trimStart_suffix s : exists p, s = p ++ trimStart s /\ forallb isSpace p = true.
Proof.
  induction s as [|c t (p & Hp & Hs)]; simpl; [now exists []|].
  destruct (isSpace c) eqn:E.
  - exists (c :: p). simpl. rewrite E, Hs. split; [now rewrite <- Hp | reflexivity].
  - now exists [].
Qed.

(** The text that [trim] returns starts and ends with a code unit that is
    no white space. *)
Lemma trim_ends s :
  match trim s with c :: _ => isSpace c = false | [] => True end
  /\ match rev (trim s) with c :: _ => isSpace c = false | [] => True end.
Proof.
  unfold trim, trimEnd. rewrite List.rev_involutive. split; [|apply trimStart_head].
  set (u := trimStart s).
  destruct (trimStart_suffix (rev u)) as (p & Hp & Hsp).
  assert (Hu : u = rev (trimStart (rev u)) ++ rev p).
  { rewrite <- List.rev_app_distr, <- Hp. now rewrite List.rev_involutive. }
  pose proof (trimStart_head s) as Hh. fold u in Hh.
  destruct (rev (trimStart (rev u))) as [|c t] eqn:E; [exact I|].
  rewrite Hu in Hh. exact Hh.
Qed.

Lemma trim_idem s : trim (trim s) = trim s.
Proof.
  destruct (trim_ends s) as [H1 H2]. unfold trim at 1. unfold trimEnd.
  rewrite (trimStart_fixed (trim s) H1), (trimStart_fixed _ H2). apply List.rev_involutive.
Qed.

Lemma py_globals_shown lines r :
  pythonParser.parseGlobalVars lines = Ret r -> List.Forall constantShown r.
Proof.
  intros H. apply List.Forall_forall. intros x Hx.
  destruct (forLines_In _ _ _ _ _ H Hx) as (k & l & xs & _ & Hf & Hxs).
  apply obind_ret in Hf as (ind & _ & Hf).
  destruct (negb (ind =? 0)); [injection Hf as <-; destruct Hxs|].
  destruct (exec pythonParser.constMatch_re l) as [mt|] eqn:E;
    [|injection Hf as <-; destruct Hxs].
  apply obind_ret in Hf as (name & Hn & Hf). apply obind_ret in Hf as (g3 & _ & Hf).
  injection Hf as <-. destruct Hxs as [Ex|[]]. subst x. apply grp_Ret in Hn.
  split; [|split]; cbn [port_name port_type port_default].
  - destruct (group_lang _ _ _ _ _ E Hn) as (a & Ha & Hl). cbn in Ha.
    destruct Ha as [Ha|[Ha|[Ha|[]]]]; try discriminate Ha. injection Ha as <-.
    now apply lang_constantName.
  - destruct (group mt 2) as [[|c t]|]; try apply inferType_filled. discriminate.
  - eexists. split; [reflexivity | apply trim_idem].
Qed.

Lemma js_globals_shown lines r :
  jsParser.parseJsGlobals lines = Ret r -> List.Forall constantShown r.
Proof.
  intros H. apply List.Forall_forall. intros x Hx.
  destruct (forLines_In _ _ _ _ _ H Hx) as (k & l & xs & _ & Hf & Hxs).
  cbv beta zeta in Hf.
  destruct (exec jsParser.constMatch_re (trim l)) as [mt|] eqn:E;
    [|injection Hf as <-; destruct Hxs].
  apply obind_ret in Hf as (name & Hn & Hf). apply obind_ret in Hf as (g3 & _ & Hf).
  injection Hf as <-. destruct Hxs as [Ex|[]]. subst x. apply grp_Ret in Hn.
  split; [|split]; cbn [port_name port_type port_default].
  - destruct (group_lang _ _ _ _ _ E Hn) as (a & Ha & Hl). cbn in Ha.
    destruct Ha as [Ha|[Ha|[Ha|[]]]]; try discriminate Ha. injection Ha as <-.
    now apply lang_constantName.
  - destruct (group mt 2) as [[|c t]|]; try apply inferJsType_filled. discriminate.
  - eexists. split; [reflexivity | apply trim_idem].
Qed.

End Globals.

(** X19: every global that [parseGlobalVars] (Python) and [parseJsGlobals]
    (JavaScript) list bears an upper-snake-case name (a capital or an
    underscore, then capitals, digits and underscores), a type that is not
    empty (the annotation, or the type inferred from the value) and a value
    without white space around it. *)
Theorem globals_are_constants (lines : list jsstring) (r : list PortInfo) :
  pythonParser.parseGlobalVars lines = Ret r \/ jsParser.parseJsGlobals lines = Ret r ->
  List.Forall constantShown r.
Proof.
  intros [H|H]; [exact (py_globals_shown _ _ H) | exact (js_globals_shown _ _ H)].
Qed.

Lemma globals_are_constants_witness :
  exists r,
    pythonParser.parseGlobalVars globals_sample = Ret r
    /\ List.map port_name r = [js "MAX_SIZE"; js "_DEBUG"]
    /\ List.map port_type r = [js "int"; js "bool"]
    /\ List.Forall constantShown r.
Proof.
  destruct (pythonParser.parseGlobalVars globals_sample) as [r|e] eqn:E;
    [|vm_compute in E; discriminate E].
  exists r. split; [reflexivity|].
  pose proof (globals_are_constants _ _ (or_introl E)) as H.
  vm_compute in E. injection E as <-. split; [reflexivity|]. split; [reflexivity|].
  exact H.
Defined.

Section Decorators.

Lemma firstn_snoc {A} (l : list A) : forall n x,
  nth_error l n = Some x -> firstn (S n) l = firstn n l ++ [x].
Proof.
  induction l as [|y l IH]; intros [|n] x H; simpl in H; try discriminate.
  - now injection H as ->.
  - simpl. f_equal. now apply IH.
Qed.

Lemma linesBetween_snoc lines k j l :
  k <= j -> nth_error lines j = Some l ->
  linesBetween lines k (S j) = linesBetween lines k j ++ [l].
Proof.
  intros Hk Hl. unfold linesBetween. replace (S j - k) with (S (j - k)) by lia.
  apply firstn_snoc. rewrite nth_error_skipn_add. now replace (k + (j - k)) with j by lia.
Qed.

Lemma linesBetween_nil lines j : linesBetween lines j j = [].
Proof. unfold linesBetween. now rewrite Nat.sub_diag. Qed.

(** The two decorator loops are the same loop. *)
Lemma collectJsDecorators_go_eq lines j : forall decs,
  jsParser.collectJsDecorators_go lines j decs = pythonParser.collectDecorators_go lines j decs.
Proof.
  induction j as [|j IH]; intros decs; simpl; [reflexivity|].
  destruct (nth_error lines j) as [l|]; simpl; [|reflexivity].
  now rewrite !IH.
Qed.

Lemma collectDecorators_go_run lines j : forall decs r,
  pythonParser.collectDecorators_go lines j decs = Ret r ->
  exists k, k <= j
    /\ r = List.map trim (List.filter isDecoratorLine (linesBetween lines k j)) ++ decs
    /\ forallb readOn (linesBetween lines k j) = true
    /\ match k with
       | 0 => True
       | S k' => exists l, nth_error lines k' = Some l /\ readOn l = false
       end.
Proof.
  induction j as [|j IH]; intros decs r H; simpl in H.
  - injection H as <-. exists 0. rewrite linesBetween_nil. simpl. auto.
  - apply obind_ret in H as (l & Hl & H).
    assert (El : nth_error lines j = Some l).
    { destruct (nth_error lines j); [now injection Hl as -> | discriminate]. }
    clear Hl.
    assert (Hon : readOn l = true -> forall decs',
              decs' = (if isDecoratorLine l then trim l :: decs else decs) ->
              pythonParser.collectDecorators_go lines j decs' = Ret r ->
              exists k, k <= S j
                /\ r = List.map trim (List.filter isDecoratorLine (linesBetween lines k (S j)))
                       ++ decs
                /\ forallb readOn (linesBetween lines k (S j)) = true
                /\ match k with
                   | 0 => True
                   | S k' => exists l, nth_error lines k' = Some l /\ readOn l = false
                   end).
    { intros Hr decs' -> Hgo. apply IH in Hgo as (k & Hk & -> & Hall & Hstop).
      exists k. split; [lia|]. rewrite (linesBetween_snoc _ _ _ _ Hk El).
      rewrite List.filter_app, List.map_app, forallb_app, Hall. simpl. rewrite Hr.
      split; [|auto]. rewrite <- List.app_assoc. f_equal.
      destruct (isDecoratorLine l); reflexivity. }
    unfold readOn, isDecoratorLine in *.
    destruct (startsWith (trim l) (js "@")) eqn:Ed.
    + apply (Hon eq_refl _ eq_refl H).
    + destruct (negb (nonEmpty (trim l))) eqn:Eb.
      * apply (Hon eq_refl _ eq_refl H).
      * injection H as <-. exists (S j). rewrite linesBetween_nil. simpl.
        split; [lia|]. split; [reflexivity|]. split; [reflexivity|].
        exists l. unfold readOn, isDecoratorLine. rewrite Ed, Eb. auto.
Qed.

End Decorators.

(** X20: the decorators that [collectDecorators] and [collectJsDecorators]
    return are the decorator lines, trimmed and in the order of the text, of
    the unbroken run of decorator lines and blank lines that ends just above
    the definition; the line above that run, when there is one, is neither a
    decorator line nor blank. *)
Theorem decorators_are_the_run_above (lines : list jsstring) (idx : nat)
    (decs : list jsstring) :
  pythonParser.collectDecorators lines idx = Ret decs
  \/ jsParser.collectJsDecorators lines idx = Ret decs ->
  exists k, k <= idx
    /\ decs = List.map trim (List.filter isDecoratorLine (linesBetween lines k idx))
    /\ forallb readOn (linesBetween lines k idx) = true
    /\ match k with
       | 0 => True
       | S k' => exists l, nth_error lines k' = Some l /\ readOn l = false
       end.
Proof.
  intros H.
  assert (Hgo : pythonParser.collectDecorators_go lines idx [] = Ret decs).
  { destruct H as [H|H]; [exact H|].
    unfold jsParser.collectJsDecorators in H. now rewrite collectJsDecorators_go_eq in H. }
  apply collectDecorators_go_run in Hgo as (k & Hk & Hr & Hall & Hstop).
  exists k. rewrite List.app_nil_r in Hr. auto.
Qed.

Lemma decorators_are_the_run_above_witness :
  exists decs,
    pythonParser.collectDecorators decorated_sample 4 = Ret decs
    /\ decs = [js "@cache"; js "@property"]
    /\ exists k, k <= 4
         /\ decs = List.map trim (List.filter isDecoratorLine (linesBetween decorated_sample k 4))
         /\ forallb readOn (linesBetween decorated_sample k 4) = true
         /\ match k with
            | 0 => True
            | S k' => exists l, nth_error decorated_sample k' = Some l /\ readOn l = false
            end.
Proof.
  destruct (pythonParser.collectDecorators decorated_sample 4) as [decs|e] eqn:E;
    [|vm_compute in E; discriminate E].
  exists decs. split; [reflexivity|].
  pose proof (decorators_are_the_run_above _ _ _ (or_introl E)) as H.
  vm_compute in E. injection E as <-. split; [reflexivity|]. exact H.
Defined.

Section MetaBlocks.
Import Captures.

Lemma startsWith_app p : forall s, startsWith (p ++ s) p = true.
Proof.
  induction p as [|c p IH]; intros s; simpl; [destruct s; reflexivity|].
  now rewrite N.eqb_refl, IH.
Qed.

Lemma indexOf_from_here s p i : startsWith s p = true -> indexOf_from s p i <> None.
Proof.
  intros H. destruct s as [|c t]; unfold indexOf_from; fold indexOf_from; rewrite H;
    discriminate.
Qed.

Lemma indexOf_from_app pre p post : forall i,
  indexOf_from (pre ++ p ++ post) p i <> None.
Proof.
  induction pre as [|c pre IH]; intros i.
  - apply indexOf_from_here. exact (startsWith_app p post).
  - change (indexOf_from ((c :: pre) ++ p ++ post) p i)
      with (if startsWith (c :: pre ++ p ++ post) p then Some i
            else indexOf_from (pre ++ p ++ post) p (S i)).
    destruct (startsWith _ p); [discriminate | apply IH].
Qed.

Lemma includes_app pre p post : includes (pre ++ p ++ post) p = true.
Proof.
  unfold includes, indexOf. pose proof (indexOf_from_app pre p post 0) as H.
  destruct (indexOf_from _ _ _); [reflexivity | contradiction].
Qed.

Lemma lang_LitS s : forall w, lang (LitS s) w -> w = s.
Proof.
  induction s as [|c [|d t] IH]; intros w H.
  - exact H.
  - destruct H as (x & -> & Hx). apply N.eqb_eq in Hx. now subst x.
  - destruct H as (u & v & -> & (x & -> & Hx) & Hv). apply N.eqb_eq in Hx. subst x.
    apply IH in Hv. now rewrite Hv.
Qed.

(** A text of a sequence that holds a literal holds the literal. *)
Lemma lang_marker_py w :
  lang pythonParser.metaMatch_re w -> exists a b, w = a ++ metaMarker ++ b.
Proof.
  unfold pythonParser.metaMatch_re. cbn [Seqs].
  intros (u1 & w1 & -> & _ & (u2 & w2 & -> & _ & (u3 & w3 & -> & H3 & _))).
  apply lang_LitS in H3. subst u3. exists (u1 ++ u2), w3.
  now rewrite <- !List.app_assoc.
Qed.

Lemma lang_marker_shared w :
  lang parserUtils.metaMatch_re w -> exists a b, w = a ++ metaMarker ++ b.
Proof.
  unfold parserUtils.metaMatch_re. cbn [Seqs].
  intros (u1 & w1 & -> & _ & (u2 & w2 & -> & _ & (u3 & w3 & -> & H3 & _))).
  apply lang_LitS in H3. subst u3. exists (u1 ++ u2), w3.
  now rewrite <- !List.app_assoc.
Qed.

Lemma exec_marker re code mt :
  (forall w, lang re w -> exists a b, w = a ++ metaMarker ++ b) ->
  exec re code = Some mt -> includes code metaMarker = true.
Proof.
  intros Hre H. apply exec_lang in H as (pre & -> & _ & Hl & _).
  apply Hre in Hl as (a & b & ->).
  replace (pre ++ (a ++ metaMarker ++ b) ++ m_after mt)
    with ((pre ++ a) ++ metaMarker ++ (b ++ m_after mt))
    by (now rewrite <- !List.app_assoc).
  apply includes_app.
Qed.

(** Neither reader returns a block for a text without the marker. *)
Lemma readMeta_without_marker (r : metaReader) (code : jsstring) :
  includes code metaMarker = false -> readMeta r code = Ret None.
Proof.
  intros H. destruct r; simpl.
  - unfold pythonParser.parseMetaBlock.
    destruct (exec pythonParser.metaMatch_re code) as [mt|] eqn:E; [|reflexivity].
    apply (exec_marker _ _ _ lang_marker_py) in E. congruence.
  - unfold parserUtils.parseMetaBlock.
    destruct (exec parserUtils.metaMatch_re code) as [mt|] eqn:E; [|reflexivity].
    apply (exec_marker _ _ _ lang_marker_shared) in E. congruence.
Qed.

End MetaBlocks.

Section MetaOfSummary.

(** The meta block and the warnings of a summary. *)
Lemma parsePythonCode_meta code fileName s :
  pythonParser.parsePythonCode code fileName = Ret s ->
  pythonParser.parseMetaBlock code = Ret (meta s) /\ warnings s = [].
Proof. intros H. unfold pythonParser.parsePythonCode in H. parts_tac H. Qed.

Lemma parseJsCode_meta code fileName s :
  jsParser.parseJsCode code fileName = Ret s ->
  parserUtils.parseMetaBlock code = Ret (meta s)
  /\ warnings s = jsParser.genWarnings (meta s) (imports s) (connections s).
Proof. intros H. unfold jsParser.parseJsCode in H. parts_tac H. Qed.

Lemma parsePhpCode_meta code fileName s :
  phpParser.parsePhpCode code fileName = Ret s ->
  parserUtils.parseMetaBlock code = Ret (meta s)
  /\ warnings s = phpParser.genWarnings (meta s) (imports s).
Proof. intros H. unfold phpParser.parsePhpCode in H. parts_tac H. Qed.

Lemma parseHtmlCode_meta code fileName s :
  htmlParser.parseHtmlCode code fileName = Ret s ->
  parserUtils.parseMetaBlock code = Ret (meta s) /\ warnings s = [].
Proof. intros H. unfold htmlParser.parseHtmlCode in H. parts_tac H. Qed.

Lemma parseCssCode_meta code fileName s :
  htmlParser.parseCssCode code fileName = Ret s ->
  parserUtils.parseMetaBlock code = Ret (meta s) /\ warnings s = [].
Proof. intros H. unfold htmlParser.parseCssCode in H. parts_tac H. Qed.

End MetaOfSummary.

(** X21: for every language tag, the summary of a text that does not hold
    the marker [---meta] has no meta block and no warning: neither reader of
    the meta block finds a block without its marker. *)
Theorem text_without_marker_gets_no_warning (code fileName languageId : jsstring)
    (stats : FileStats) :
  includes code metaMarker = false ->
  languageRouter.parseCode code fileName languageId = Ret stats ->
  meta stats = None /\ warnings stats = [].
Proof.
  intros Hm H. apply parseCode_cases in H as (s0 & t & _ & -> & Hs). simpl.
  pose proof (readMeta_without_marker py_meta code Hm) as Hpy.
  pose proof (readMeta_without_marker shared_meta code Hm) as Hsh. simpl in Hpy, Hsh.
  destruct Hs as [Hs|[Hs|[Hs|[Hs|Hs]]]].
  - apply parsePythonCode_meta in Hs as [Hmeta Hw]. split; [congruence | exact Hw].
  - apply parseJsCode_meta in Hs as [Hmeta Hw].
    assert (E : meta s0 = None) by congruence. rewrite Hw, E. auto.
  - apply parsePhpCode_meta in Hs as [Hmeta Hw].
    assert (E : meta s0 = None) by congruence. rewrite Hw, E. auto.
  - apply parseHtmlCode_meta in Hs as [Hmeta Hw]. split; [congruence | exact Hw].
  - apply parseCssCode_meta in Hs as [Hmeta Hw]. split; [congruence | exact Hw].
Qed.

Lemma text_without_marker_gets_no_warning_witness :
  exists stats : FileStats,
    includes sample_js metaMarker = false
    /\ languageRouter.parseCode sample_js (js "store.js") (js "javascript") = Ret stats
    /\ meta stats = None /\ warnings stats = [].
Proof.
  destruct (languageRouter.parseCode sample_js (js "store.js") (js "javascript"))
    as [stats|e] eqn:E; [|vm_compute in E; discriminate E].
  exists stats. split; [reflexivity|]. split; [reflexivity|].
  exact (text_without_marker_gets_no_warning sample_js _ _ _ eq_refl E).
Defined.

Section MetaLists.

Lemma startsWith_nil s : startsWith s [] = true.
Proof. destruct s; reflexivity. Qed.

Lemma split_go_free (c0 : N) (fuel : nat) : forall s cur,
  ~ List.In c0 cur ->
  List.Forall (fun piece => ~ List.In c0 piece) (split_go [c0] fuel s cur).
Proof.
  induction fuel as [|fuel IH]; intros s cur Hcur; simpl.
  - constructor; [|constructor]. now rewrite <- List.in_rev.
  - destruct s as [|c t].
    + constructor; [|constructor]. now rewrite <- List.in_rev.
    + simpl. rewrite startsWith_nil, andb_true_r.
      destruct (N.eqb c0 c) eqn:E.
      * constructor; [now rewrite <- List.in_rev|]. apply IH. intros [].
      * apply IH. intros [->|H]; [|contradiction]. now rewrite N.eqb_refl in E.
Qed.

Lemma trim_infix s : exists p q, s = p ++ trim s ++ q.
Proof.
  unfold trim, trimEnd.
  destruct (trimStart_suffix s) as (p & Hp & _).
  destruct (trimStart_suffix (rev (trimStart s))) as (q & Hq & _).
  exists p, (rev q). rewrite <- List.rev_app_distr, <- Hq, List.rev_involutive. exact Hp.
Qed.

Lemma trim_free c0 s : ~ List.In c0 s -> ~ List.In c0 (trim s).
Proof.
  intros H Hin. destruct (trim_infix s) as (p & q & E). apply H. rewrite E.
  apply List.in_or_app. right. apply List.in_or_app. now left.
Qed.

Lemma parseList_clean (val : option jsstring) :
  List.Forall cleanEntry (pythonParser.parseList val).
Proof.
  unfold pythonParser.parseList. destruct (negb (truthy val)); [constructor|].
  apply List.Forall_forall. intros e He. apply List.filter_In in He as [He Hne].
  apply List.in_map_iff in He as (piece & <- & Hp).
  split; [|split].
  - destruct (trim piece); [discriminate | discriminate].
  - apply trim_idem.
  - apply trim_free. unfold split in Hp.
    pose proof (split_go_free (chr ",") (S (length (replace_all pythonParser.brackets_re
                                                     (orElse val []) (fun _ => []))))
                  (replace_all pythonParser.brackets_re (orElse val []) (fun _ => [])) []
                  (fun H => H)) as Hf.
    rewrite List.Forall_forall in Hf. exact (Hf piece Hp).
Qed.

End MetaLists.

(** X22: in a meta block that the Python reader returns, the five list
    fields (inputs, outputs, deps, methods, errors) are always present, and
    every entry of them is not empty, has no white space around it and holds
    no comma: empty entries of the list are dropped. *)
Theorem python_meta_lists_are_clean (code : jsstring) (mb : MetaBlock) :
  pythonParser.parseMetaBlock code = Ret (Some mb) ->
  cleanEntries (meta_inputs mb) /\ cleanEntries (meta_outputs mb)
  /\ cleanEntries (meta_deps mb) /\ cleanEntries (meta_methods mb)
  /\ cleanEntries (meta_errors mb).
Proof.
  unfold pythonParser.parseMetaBlock. intros H.
  destruct (exec pythonParser.metaMatch_re code) as [mt|]; [|discriminate].
  apply obind_ret in H as (block & _ & H). apply obind_ret in H as (raw & _ & H).
  injection H as <-. simpl.
  repeat split; eexists; (split; [reflexivity | apply parseList_clean]).
Qed.

Lemma python_meta_lists_are_clean_witness :
  exists mb,
    pythonParser.parseMetaBlock meta_sample = Ret (Some mb)
    /\ meta_deps mb = Some [js "os"; js "json"]
    /\ cleanEntries (meta_inputs mb) /\ cleanEntries (meta_outputs mb)
    /\ cleanEntries (meta_deps mb) /\ cleanEntries (meta_methods mb)
    /\ cleanEntries (meta_errors mb).
Proof.
  destruct (pythonParser.parseMetaBlock meta_sample) as [[mb|]|e] eqn:E;
    [|vm_compute in E; discriminate E|vm_compute in E; discriminate E].
  exists mb. split; [reflexivity|].
  pose proof (python_meta_lists_are_clean _ _ E) as H.
  vm_compute in E. injection E as <-. split; [reflexivity|]. exact H.
Defined.

Section Methods.
Import Captures.

Lemma parseParams_typed s :
  List.Forall (fun p => port_type p <> []) (pythonParser.parseParams s).
Proof.
  unfold pythonParser.parseParams. destruct (negb (nonEmpty (trim s))); [constructor|].
  apply List.Forall_forall. intros p Hp. apply List.in_flat_map in Hp as (part & _ & Hp).
  cbv zeta in Hp.
  destruct (negb (nonEmpty (trim part)) || str_eqb (trim part) (js "*")
            || str_eqb (trim part) (js "/")); [destruct Hp|].
  destruct (startsWith (trim part) (js "**") || startsWith (trim part) (js "*")).
  - destruct (pythonParser.splitNameType _) as [name type].
    destruct Hp as [<-|[]]. cbn [port_type]. apply orElse_default. discriminate.
  - destruct (match indexOf (trim part) (js "=") with Some _ => _ | None => _ end)
      as [defaultVal mainPart].
    destruct (pythonParser.splitNameType _) as [name type].
    destruct Hp as [<-|[]]. cbn [port_type]. apply orElse_default. discriminate.
Qed.

Lemma parseJsParams_named s :
  List.Forall (fun p => port_name p <> []) (jsParser.parseJsParams s).
Proof.
  unfold jsParser.parseJsParams. destruct (negb (nonEmpty (trim s))); [constructor|].
  apply List.Forall_forall. intros p Hp. apply List.in_flat_map in Hp as (part & _ & Hp).
  cbv zeta in Hp.
  destruct (negb (nonEmpty (trim part))); [destruct Hp|].
  destruct (match indexOf (trim part) (js "=") with Some _ => _ | None => _ end)
    as [def name1].
  destruct (match indexOf name1 (js ":") with Some _ => _ | None => _ end) as [type name2].
  destruct (replace_all jsParser.restOrOptional_re name2 _) as [|c t] eqn:E; simpl in Hp;
    [destruct Hp|].
  destruct Hp as [<-|[]]. simpl. discriminate.
Qed.

Lemma returnTypeOf_filled g : pythonParser.returnTypeOf g <> [].
Proof. unfold pythonParser.returnTypeOf. apply orElse_default. discriminate. Qed.

Ltac word_group E Hn :=
  let a := fresh "a" in
  let Ha := fresh "Ha" in
  let Hl := fresh "Hl" in
  destruct (group_lang _ _ _ _ _ E Hn) as (a & Ha & Hl); cbn in Ha;
  repeat (destruct Ha as [Ha|Ha];
          [first [discriminate Ha | injection Ha as <-; apply lang_word; exact Hl]|]);
  destruct Ha.

Lemma py_methods_go_shown lines classIndent ls : forall i r,
  pythonParser.parseClassMethods_go lines classIndent i ls = Ret r ->
  List.Forall pyMethodShown r.
Proof.
  induction ls as [|l ls IH]; intros i r H; simpl in H.
  - injection H as <-. constructor.
  - destruct (negb (nonEmpty (trim l))); [eauto|].
    apply obind_ret in H as (ind & _ & H).
    destruct ((ind <=? classIndent) && nonEmpty (trim l)); [injection H as <-; constructor|].
    apply obind_ret in H as (here & Hhere & H).
    apply obind_ret in H as (rest & Hrest & H). injection H as <-.
    apply List.Forall_app. split; [|eauto].
    destruct (exec pythonParser.methodDef_re l) as [mt|] eqn:E;
      [|injection Hhere as <-; constructor].
    apply obind_ret in Hhere as (ind' & _ & Hhere).
    destruct (classIndent + 4 <=? ind'); [|injection Hhere as <-; constructor].
    apply obind_ret in Hhere as (decs & _ & Hhere).
    apply obind_ret in Hhere as (g4 & _ & Hhere).
    apply obind_ret in Hhere as (name & Hn & Hhere).
    apply obind_ret in Hhere as (cx & _ & Hhere). injection Hhere as <-.
    apply grp_Ret in Hn. constructor; [|constructor].
    split; [|split; [|split]]; cbn [meth_name meth_returnType meth_isPrivate meth_params].
    + word_group E Hn.
    + apply returnTypeOf_filled.
    + reflexivity.
    + apply List.Forall_forall. intros p Hp. apply List.filter_In in Hp as [Hp Hf].
      apply andb_true_iff in Hf as [H1 H2].
      apply negb_true_iff, str_eqb_neq in H1. apply negb_true_iff, str_eqb_neq in H2.
      pose proof (parseParams_typed g4) as Ht. rewrite List.Forall_forall in Ht.
      auto.
Qed.

Lemma js_methods_go_shown lines classLine ls : forall i depth started r,
  jsParser.parseJsClassMethods_go lines classLine i ls depth started = Ret r ->
  List.Forall jsMethodShown r.
Proof.
  induction ls as [|l ls IH]; intros i depth started r H; simpl in H.
  - injection H as <-. constructor.
  - destruct (scanBraces l depth started) as [d' s'].
    destruct (s' && (d' <=? 0)%Z); [injection H as <-; constructor|].
    destruct (i =? classLine); [eauto|].
    apply obind_ret in H as (here & Hhere & H).
    apply obind_ret in H as (more & Hmore & H). injection H as <-.
    apply List.Forall_app. split; [|eauto].
    destruct (exec jsParser.mm_re l) as [mt|] eqn:E; [|injection Hhere as <-; constructor].
    apply obind_ret in Hhere as (g2 & Hn & Hhere).
    destruct (negb (jsParser.isControlKw g2)) eqn:Ek; [|injection Hhere as <-; constructor].
    apply obind_ret in Hhere as (decs & _ & Hhere).
    apply obind_ret in Hhere as (g3 & _ & Hhere). injection Hhere as <-.
    apply grp_Ret in Hn. constructor; [|constructor].
    split; [|split; [|split]]; cbn [meth_name meth_returnType meth_params].
    + word_group E Hn.
    + now apply negb_true_iff in Ek.
    + apply orElse_default. discriminate.
    + apply parseJsParams_named.
Qed.

End Methods.

(** X23: every method that [parseClassMethods] lists for a Python class has
    a name that is a run of word characters, a return type that is not empty
    (Any when none is written), is private exactly when its name starts with
    an underscore, and lists no parameter named self or cls; every parameter
    carries a type. *)
Theorem python_methods_drop_self (lines : list jsstring) (classLineIdx : nat)
    (methods : list MethodInfo) :
  pythonParser.parseClassMethods lines classLineIdx = Ret methods ->
  List.Forall pyMethodShown methods.
Proof.
  unfold pythonParser.parseClassMethods. intros H.
  apply obind_ret in H as (cl & _ & H). apply obind_ret in H as (ci & _ & H).
  exact (py_methods_go_shown _ _ _ _ _ H).
Qed.

Lemma python_methods_drop_self_witness :
  exists methods,
    pythonParser.parseClassMethods methods_sample 0 = Ret methods
    /\ List.map (fun m => List.map port_name (meth_params m)) methods
       = [[js "key"; js "*rest"]; []]
    /\ List.Forall pyMethodShown methods.
Proof.
  destruct (pythonParser.parseClassMethods methods_sample 0) as [methods|e] eqn:E;
    [|vm_compute in E; discriminate E].
  exists methods. split; [reflexivity|].
  pose proof (python_methods_drop_self _ _ _ E) as H.
  vm_compute in E. injection E as <-. split; [reflexivity|]. exact H.
Defined.

(** X24: every method that [parseJsClassMethods] lists has a name that is a
    run of word characters and is none of if, for, while and switch, a
    return type that is not empty (any when none is written), and parameters
    that all have a name. *)
Theorem js_methods_are_no_control_statements (lines : list jsstring) (classLine : nat)
    (methods : list MethodInfo) :
  jsParser.parseJsClassMethods lines classLine = Ret methods ->
  List.Forall jsMethodShown methods.
Proof.
  unfold jsParser.parseJsClassMethods. intros H.
  exact (js_methods_go_shown _ _ _ _ _ _ _ H).
Qed.

Lemma js_methods_are_no_control_statements_witness :
  exists methods,
    jsParser.parseJsClassMethods js_methods_sample 0 = Ret methods
    /\ List.map meth_name methods = [js "load"]
    /\ List.Forall jsMethodShown methods.
Proof.
  destruct (jsParser.parseJsClassMethods js_methods_sample 0) as [methods|e] eqn:E;
    [|vm_compute in E; discriminate E].
  exists methods. split; [reflexivity|].
  pose proof (js_methods_are_no_control_statements _ _ _ E) as H.
  vm_compute in E. injection E as <-. split; [reflexivity|]. exact H.
Defined.

Section Connections.

Lemma names_fold_In (names : list jsstring) : forall acc c,
  List.In c (fold_left (fun c0 name => if negb (str_eqb name (js "*")) then set_add name c0
                                       else c0) names acc)
  <-> List.In c acc \/ (List.In c names /\ c <> js "*").
Proof.
  induction names as [|n names IH]; intros acc c; simpl.
  - tauto.
  - rewrite IH. destruct (str_eqb n (js "*")) eqn:E; simpl.
    + apply str_eqb_eq in E. subst n. split.
      * intros [?|[? ?]]; auto.
      * intros [?|[[<-|?] ?]]; auto. contradiction.
    + apply str_eqb_neq in E. rewrite set_add_In. split.
      * intros [[->|?]|[? ?]]; auto.
      * intros [?|[[<-|?] ?]]; auto.
Qed.

Lemma names_fold_NoDup (names : list jsstring) : forall acc,
  List.NoDup acc ->
  List.NoDup (fold_left (fun c0 name => if negb (str_eqb name (js "*")) then set_add name c0
                                        else c0) names acc).
Proof.
  induction names as [|n names IH]; intros acc H; simpl; [exact H|].
  apply IH. destruct (negb _); auto using set_add_NoDup.
Qed.

Lemma connections_fold (imports : list ImportInfo) : forall acc c,
  List.In c (fold_left (fun conns imp =>
      fold_left (fun c0 name => if negb (str_eqb name (js "*")) then set_add name c0 else c0)
                (imp_names imp) (set_add (imp_module imp) conns)) imports acc)
  <-> List.In c acc
      \/ exists imp, List.In imp imports
           /\ (c = imp_module imp \/ (List.In c (imp_names imp) /\ c <> js "*")).
Proof.
  induction imports as [|i imports IH]; intros acc c; simpl.
  - split; [auto | intros [?|(imp & [] & _)]; assumption].
  - rewrite IH, names_fold_In, set_add_In. split.
    + intros [[[->|?]|?]|(imp & Hin & Hc)]; eauto 6.
    + intros [?|(imp & [<-|Hin] & Hc)]; [auto | tauto | eauto 6].
Qed.

Lemma connections_fold_NoDup (imports : list ImportInfo) : forall acc,
  List.NoDup acc ->
  List.NoDup (fold_left (fun conns imp =>
      fold_left (fun c0 name => if negb (str_eqb name (js "*")) then set_add name c0 else c0)
                (imp_names imp) (set_add (imp_module imp) conns)) imports acc).
Proof.
  induction imports as [|i imports IH]; intros acc H; simpl; [exact H|].
  apply IH, names_fold_NoDup, set_add_NoDup, H.
Qed.

End Connections.

(** X25: the connections that [buildConnections] returns hold no text twice,
    and hold exactly the modules of the imports and their names other than
    the wildcard. *)
Theorem connections_are_the_imported_names (imports : list ImportInfo)
    (lines : list jsstring) (c : jsstring) :
  List.NoDup (pythonParser.buildConnections imports lines)
  /\ (List.In c (pythonParser.buildConnections imports lines)
      <-> exists imp, List.In imp imports
            /\ (c = imp_module imp \/ (List.In c (imp_names imp) /\ c <> js "*"))).
Proof.
  unfold pythonParser.buildConnections. split.
  - apply connections_fold_NoDup. constructor.
  - rewrite connections_fold. split; [intros [[]|?]; assumption | auto].
Qed.

Section ShortNames.
Import extension.

Lemma includes_char_false (c : N) (s : jsstring) :
  includes s [c] = false <-> ~ List.In c s.
Proof.
  unfold includes, indexOf. generalize 0.
  induction s as [|x s IH]; intros i.
  - simpl. split; [intros _ [] | reflexivity].
  - change (indexOf_from (x :: s) [c] i)
      with (if startsWith (x :: s) [c] then Some i else indexOf_from s [c] (S i)).
    simpl. rewrite startsWith_nil, andb_true_r. destruct (N.eqb c x) eqn:E.
    + apply N.eqb_eq in E. subst x. split; [discriminate | intros H; exfalso; auto].
    + rewrite (IH (S i)). apply N.eqb_neq in E. split.
      * intros H [->|Hin]; [congruence | contradiction].
      * intros H Hin. apply H. now right.
Qed.

Lemma split_go_chars (c0 : N) (fuel : nat) : forall s cur,
  List.Forall (fun piece => forall x, List.In x piece -> List.In x s \/ List.In x cur)
    (split_go [c0] fuel s cur).
Proof.
  induction fuel as [|fuel IH]; intros s cur; simpl.
  - constructor; [|constructor]. intros x Hx. right. now apply List.in_rev.
  - destruct s as [|c t].
    + constructor; [|constructor]. intros x Hx. right. now apply List.in_rev.
    + simpl. rewrite startsWith_nil, andb_true_r. destruct (N.eqb c0 c).
      * constructor; [intros x Hx; right; now apply List.in_rev|].
        eapply List.Forall_impl; [|apply IH]. simpl. intros piece Hp x Hx.
        destruct (Hp x Hx) as [?|[]]. auto.
      * eapply List.Forall_impl; [|apply IH]. simpl. intros piece Hp x Hx.
        destruct (Hp x Hx) as [?|[->|?]]; auto.
Qed.

Lemma split_go_plain (c0 : N) (s : jsstring) : forall fuel cur,
  ~ List.In c0 s -> length s < fuel -> split_go [c0] fuel s cur = [rev cur ++ s].
Proof.
  induction s as [|c t IH]; intros fuel cur Hs Hf.
  - destruct fuel; simpl; now rewrite List.app_nil_r.
  - destruct fuel as [|fuel]; [simpl in Hf; lia|]. simpl.
    rewrite startsWith_nil, andb_true_r.
    destruct (N.eqb c0 c) eqn:E; [apply N.eqb_eq in E; subst; exfalso; apply Hs; now left|].
    rewrite IH; [|intros H; apply Hs; now right | simpl in Hf; lia].
    simpl. now rewrite <- List.app_assoc.
Qed.

Lemma split_go_at (c0 : N) (a rest : jsstring) : forall fuel cur,
  ~ List.In c0 a -> length a < fuel ->
  split_go [c0] fuel (a ++ c0 :: rest) cur
  = (rev cur ++ a) :: split_go [c0] (fuel - length a - 1) rest [].
Proof.
  induction a as [|c t IH]; intros fuel cur Ha Hf.
  - destruct fuel as [|fuel]; [simpl in Hf; lia|]. simpl.
    rewrite startsWith_nil, andb_true_r, N.eqb_refl, List.app_nil_r, Nat.sub_0_r.
    reflexivity.
  - destruct fuel as [|fuel]; [simpl in Hf; lia|]. simpl.
    rewrite startsWith_nil, andb_true_r.
    destruct (N.eqb c0 c) eqn:E; [apply N.eqb_eq in E; subst; exfalso; apply Ha; now left|].
    rewrite IH; [|intros H; apply Ha; now right | simpl in Hf; lia].
    simpl. now rewrite <- List.app_assoc.
Qed.

(** A component of a path without backslash: a piece that is not empty and
    holds neither a slash nor a backslash. *)
Lemma component_of (p x : jsstring) :
  ~ List.In bsl p -> List.In x (List.filter nonEmpty (split p (js "/"))) ->
  x <> [] /\ ~ List.In (chr "/") x /\ ~ List.In bsl x.
Proof.
  intros Hp Hx. apply List.filter_In in Hx as [Hx Hne]. split; [|split].
  - intros ->. discriminate.
  - pose proof (split_go_free (chr "/") (S (length p)) p [] (fun H => H)) as Hf.
    rewrite List.Forall_forall in Hf. exact (Hf x Hx).
  - pose proof (split_go_chars (chr "/") (S (length p)) p []) as Hc.
    rewrite List.Forall_forall in Hc. intros Hb.
    destruct (Hc x Hx bsl Hb) as [?|[]]. contradiction.
Qed.

Lemma shortName_single (x : jsstring) :
  x <> [] -> ~ List.In (chr "/") x -> ~ List.In bsl x -> shortName x = x.
Proof.
  intros Hne Hs Hb. unfold shortName. cbv zeta.
  apply includes_char_false in Hb. rewrite Hb.
  change (js "/") with [chr "/"]. unfold split.
  rewrite split_go_plain; [|exact Hs | lia]. simpl.
  destruct x as [|c t]; [contradiction | reflexivity].
Qed.

Lemma shortName_pair (a b : jsstring) :
  a <> [] -> ~ List.In (chr "/") a -> ~ List.In bsl a ->
  b <> [] -> ~ List.In (chr "/") b -> ~ List.In bsl b ->
  shortName (a ++ js "/" ++ b) = a ++ js "/" ++ b.
Proof.
  intros Ha Has Hab Hb Hbs Hbb. unfold shortName. cbv zeta.
  assert (Hno : includes (a ++ js "/" ++ b) [bsl] = false).
  { apply includes_char_false. intros H. apply List.in_app_or in H as [H|H]; [auto|].
    simpl in H. destruct H as [H|H]; [discriminate H | auto]. }
  rewrite Hno. change (js "/") with [chr "/"].
  change (a ++ [chr "/"] ++ b) with (a ++ chr "/" :: b). unfold split.
  rewrite split_go_at; [|exact Has | rewrite List.length_app; simpl; lia].
  rewrite split_go_plain; [|exact Hbs | rewrite List.length_app; simpl; lia].
  simpl. destruct a as [|x a]; [contradiction|]. destruct b as [|y b]; [contradiction|].
  reflexivity.
Qed.

End ShortNames.

(** X26: [shortName] never returns the empty text, and on a path without
    backslash it is idempotent: the short name of a short name is that short
    name (the last one or two components that are not empty, or the text
    unknown). *)
Theorem shortName_is_idempotent (fullPath : jsstring) :
  extension.shortName fullPath <> []
  /\ (includes fullPath [bsl] = false ->
      extension.shortName (extension.shortName fullPath) = extension.shortName fullPath).
Proof.
  split.
  - unfold extension.shortName. cbv zeta.
    set (parts := List.filter nonEmpty (split fullPath _)).
    assert (Hparts : forall x, List.In x (rev parts) -> x <> []).
    { intros x Hx. apply List.in_rev in Hx. apply List.filter_In in Hx as [_ Hx].
      intros ->. discriminate. }
    destruct (rev parts) as [|l [|p r]].
    + discriminate.
    + specialize (Hparts l ltac:(now left)). destruct l; [contradiction | discriminate].
    + intros H. apply List.app_eq_nil in H as [_ H]. discriminate H.
  - intros Hb. assert (Hp : ~ List.In bsl fullPath) by now apply includes_char_false.
    unfold extension.shortName at 2 3. cbv zeta. rewrite Hb.
    set (parts := List.filter nonEmpty (split fullPath _)).
    assert (Hparts : forall x, List.In x (rev parts) ->
                     x <> [] /\ ~ List.In (chr "/") x /\ ~ List.In bsl x).
    { intros x Hx. apply List.in_rev in Hx. exact (component_of _ _ Hp Hx). }
    destruct (rev parts) as [|l [|p r]].
    + reflexivity.
    + destruct (Hparts l ltac:(now left)) as (H1 & H2 & H3).
      destruct l as [|c t]; [contradiction|]. simpl. now apply shortName_single.
    + destruct (Hparts l ltac:(now left)) as (H1 & H2 & H3).
      destruct (Hparts p ltac:(right; now left)) as (H4 & H5 & H6).
      now apply shortName_pair.
Qed.

Section PythonImports.
Import Captures.

Lemma split_re_go_chars (r : regex) (fuel : nat) : forall prev rest cur,
  List.Forall (fun piece => forall x, List.In x piece -> List.In x rest \/ List.In x cur)
    (split_re_go r fuel prev rest cur).
Proof.
  induction fuel as [|fuel IH]; intros prev rest cur; simpl.
  - constructor; [|constructor]. intros x Hx. apply List.in_app_or in Hx as [Hx|Hx]; auto.
    right. now apply List.in_rev.
  - destruct rest as [|c t].
    + constructor; [|constructor]. intros x Hx. right. now apply List.in_rev.
    + assert (Hskip : List.Forall
                (fun piece => forall x, List.In x piece -> List.In x (c :: t) \/ List.In x cur)
                (split_re_go r fuel (Some c) t (c :: cur))).
      { eapply List.Forall_impl; [|apply IH]. simpl. intros piece Hp x Hx.
        destruct (Hp x Hx) as [?|[->|?]]; auto. }
      destruct (match_at r prev (c :: t) 0) as [mt|] eqn:E; [|exact Hskip].
      apply match_at_lang in E as (_ & Hrest & _).
      destruct (m_text mt) as [|y ys] eqn:Et.
      * destruct cur as [|z zs]; [exact Hskip|].
        constructor; [intros x Hx; right; now apply List.in_rev|].
        eapply List.Forall_impl; [|apply IH]. simpl. intros piece Hp x Hx.
        destruct (Hp x Hx) as [?|[]]. auto.
      * constructor; [intros x Hx; right; now apply List.in_rev|].
        eapply List.Forall_impl; [|apply IH]. simpl. intros piece Hp x Hx.
        destruct (Hp x Hx) as [H|[]]. left.
        assert (Hin : List.In x (c :: t)).
        { rewrite Hrest. apply List.in_or_app. now right. }
        exact Hin.
Qed.

Lemma importedName_clean n h :
  pythonParser.importedName n = Ret h ->
  trim h = h /\ forall x, List.In x h -> List.In x n.
Proof.
  unfold pythonParser.importedName. intros H. apply obind_ret in H as (h0 & Hh & H).
  injection H as <-. split; [apply trim_idem|]. intros x Hx.
  destruct (trim_infix h0) as (p & q & Eh). destruct (trim_infix n) as (p' & q' & En).
  assert (Hx0 : List.In x h0).
  { rewrite Eh. apply List.in_or_app. right. apply List.in_or_app. now left. }
  assert (Hxt : List.In x (trim n)).
  { unfold split_re in Hh. destruct (trim n) as [|c t] eqn:Et.
    - destruct (match_at _ None [] 0); simpl in Hh; [discriminate Hh|].
      injection Hh as <-. destruct Hx0.
    - pose proof (split_re_go_chars pythonParser.as_re (S (2 * length (c :: t))) None
                    (c :: t) []) as Hf.
      destruct (split_re_go _ _ _ _ _) as [|piece rest]; [discriminate Hh|].
      simpl in Hh. injection Hh as ->. apply List.Forall_inv in Hf.
      destruct (Hf x Hx0) as [?|[]]. assumption. }
  rewrite En. apply List.in_or_app. right. apply List.in_or_app. now left.
Qed.

Lemma importedNames_clean pieces : forall ns,
  omapM pythonParser.importedName pieces = Ret ns ->
  List.Forall (fun piece => ~ List.In (chr ",") piece) pieces ->
  List.Forall (fun h => trim h = h /\ ~ List.In (chr ",") h) ns.
Proof.
  induction pieces as [|p pieces IH]; intros ns H Hp; simpl in H.
  - injection H as <-. constructor.
  - apply obind_ret in H as (h & Hh & H). apply obind_ret in H as (hs & Hhs & H).
    injection H as <-. inversion Hp as [|? ? Hp1 Hp2]; subst.
    constructor; [|now apply IH].
    apply importedName_clean in Hh as [Ht Hc]. split; [exact Ht|]. intros Hin. auto.
Qed.

Lemma split_comma_free s :
  List.Forall (fun piece => ~ List.In (chr ",") piece) (split s (js ",")).
Proof. exact (split_go_free (chr ",") (S (length s)) s [] (fun H => H)). Qed.

End PythonImports.

(** X27: of the imports that [parseImports] lists for Python, a from-import
    has a module made of word characters and dots and names that are not
    empty, have no white space around them and hold no comma (the alias
    after as is dropped); a plain import has its module as its only name,
    without white space around it and without comma. *)
Theorem python_imports_are_clean (lines : list jsstring) (r : list ImportInfo) :
  pythonParser.parseImports lines = Ret r -> List.Forall pyImportShown r.
Proof.
  intros H. apply List.Forall_forall. intros x Hx.
  destruct (forLines_In _ _ _ _ _ H Hx) as (k & l & xs & _ & Hf & Hxs).
  cbv beta zeta in Hf.
  destruct (exec pythonParser.fromMatch_re (trim l)) as [mt|] eqn:E.
  - apply obind_ret in Hf as (g2 & _ & Hf). apply obind_ret in Hf as (ns & Hns & Hf).
    apply obind_ret in Hf as (g1 & Hg1 & Hf). injection Hf as <-.
    destruct Hxs as [Ex|[]]. subst x. unfold pyImportShown.
    cbn [imp_isFrom imp_module imp_names].
    apply grp_Ret in Hg1.
    destruct (group_lang _ _ _ _ _ E Hg1) as (a & Ha & Hl). cbn in Ha.
    destruct Ha as [Ha|[Ha|[]]]; [|discriminate Ha]. injection Ha as <-.
    apply lang_chars in Hl as (Hall & Hn & _).
    split; [intros ->; simpl in Hn; lia|]. split; [exact Hall|].
    apply importedNames_clean in Hns; [|apply split_comma_free].
    apply List.Forall_forall. intros e He. apply List.filter_In in He as [He Hne].
    rewrite List.Forall_forall in Hns. destruct (Hns e He) as [Ht Hc].
    split; [intros ->; discriminate | auto].
  - destruct (exec pythonParser.importMatch_re (trim l)) as [mt|] eqn:E2;
      [|injection Hf as <-; destruct Hxs].
    apply obind_ret in Hf as (g1 & _ & Hf). apply obind_ret in Hf as (mods & Hm & Hf).
    injection Hf as <-. apply List.in_map_iff in Hxs as (md & <- & Hmd).
    unfold pyImportShown. cbn [imp_isFrom imp_module imp_names].
    apply importedNames_clean in Hm; [|apply split_comma_free].
    rewrite List.Forall_forall in Hm. destruct (Hm md Hmd) as [Ht Hc]. auto.
Qed.

Lemma python_imports_are_clean_witness :
  exists r,
    pythonParser.parseImports imports_sample = Ret r
    /\ List.map imp_names r = [[js "join"; js "exists"]; [js "json"]; [js "sys"]]
    /\ List.Forall pyImportShown r.
Proof.
  destruct (pythonParser.parseImports imports_sample) as [r|e] eqn:E;
    [|vm_compute in E; discriminate E].
  exists r. split; [reflexivity|].
  pose proof (python_imports_are_clean _ _ E) as H.
  vm_compute in E. injection E as <-. split; [reflexivity|]. exact H.
Defined.

Section MarkupFindings.
Import Captures parserUtils htmlParser.

Lemma forLines_one_per_line {B} (ln : B -> nat) (f : nat -> jsstring -> outcome (list B)) :
  (forall i l xs, f i l = Ret xs -> xs = [] \/ exists x, xs = [x] /\ ln x = i + 1) ->
  forall ls i0 r, forLines f i0 ls = Ret r ->
    StronglySorted lt (List.map ln r) /\ List.Forall (fun x => i0 + 1 <= x) (List.map ln r).
Proof.
  intros Hf. induction ls as [|l ls IH]; intros i0 r H; simpl in H.
  - injection H as <-. split; constructor.
  - apply obind_ret in H as (here & Hhere & H). apply obind_ret in H as (more & Hmore & H).
    injection H as <-. apply Hf in Hhere. apply IH in Hmore as [Hs Hb].
    destruct Hhere as [-> | (x & -> & Hx)]; simpl.
    + split; [exact Hs|]. eapply List.Forall_impl; [|exact Hb]. simpl. intros; lia.
    + split.
      * constructor; [exact Hs|]. eapply List.Forall_impl; [|exact Hb]. simpl. intros; lia.
      * constructor; [lia|]. eapply List.Forall_impl; [|exact Hb]. simpl. intros; lia.
Qed.

Lemma lang_Lit s w : lang (Lit s) w -> w = js s.
Proof. apply lang_LitS. Qed.

Lemma lang_Opt a w : lang (Opt a) w -> w = [] \/ lang a w.
Proof.
  intros (ws & -> & Hws & _ & Hu). simpl in Hu.
  destruct ws as [|x [|y ws]]; simpl in *; [now left | | lia].
  right. rewrite List.app_nil_r. now apply List.Forall_inv in Hws.
Qed.

Lemma allOf_app p u v : allOf p (u ++ v) = allOf p u && allOf p v.
Proof. apply forallb_app. Qed.

Lemma lang_d13 w : lang d13 w -> allOf isDigit w = true /\ 1 <= length w <= 3.
Proof. intros H. apply lang_chars in H as (Ha & Hn & Hu). simpl in Hn, Hu. auto. Qed.

Lemma allOf_weaken (p q : N -> bool) w :
  (forall c, p c = true -> q c = true) -> allOf p w = true -> allOf q w = true.
Proof.
  intros Hpq H. unfold allOf in *. rewrite forallb_forall in *. auto.
Qed.

Lemma lang_quad w :
  lang (Seqs [d13; Lit "."; d13; Lit "."; d13; Lit "."; d13]) w ->
  allOf (cls [isDigit; ch "."]) w = true /\ 7 <= length w <= 15.
Proof.
  cbn [Seqs].
  intros (a1 & w1 & -> & H1 & (p1 & w2 & -> & P1 & (a2 & w3 & -> & H2
          & (p2 & w4 & -> & P2 & (a3 & w5 & -> & H3 & (p3 & a4 & -> & P3 & H4)))))).
  apply lang_Lit in P1, P2, P3. subst p1 p2 p3.
  apply lang_d13 in H1 as [D1 L1], H2 as [D2 L2], H3 as [D3 L3], H4 as [D4 L4].
  assert (Hd : forall a, allOf isDigit a = true -> allOf (cls [isDigit; ch "."]) a = true).
  { intros a. apply allOf_weaken. intros c Hc. unfold cls. simpl. now rewrite Hc. }
  split.
  - rewrite !allOf_app, (Hd a1 D1), (Hd a2 D2), (Hd a3 D3), (Hd a4 D4). reflexivity.
  - rewrite !List.length_app. simpl. lia.
Qed.

Lemma lang_address w :
  lang (Seqs [Lit "http"; Opt (Lit "s"); Lit "://"; Plus (Chr nsdq)]) w ->
  (startsWith w (js "http://") = true \/ startsWith w (js "https://") = true)
  /\ allOf nsdq w = true.
Proof.
  cbn [Seqs]. intros (a & w1 & -> & Ha & (o & w2 & -> & Ho & (c & t & -> & Hc & Ht))).
  apply lang_Lit in Ha, Hc. subst a c. apply lang_Opt in Ho.
  apply lang_chars in Ht as (Ht & _).
  destruct Ho as [->|Ho]; [|apply lang_Lit in Ho; subst o].
  - split; [left; exact (startsWith_app (js "http://") t)|].
    change (js "http" ++ [] ++ js "://" ++ t) with (js "http://" ++ t).
    rewrite allOf_app, Ht. reflexivity.
  - split; [right; exact (startsWith_app (js "https://") t)|].
    change (js "http" ++ js "s" ++ js "://" ++ t) with (js "https://" ++ t).
    rewrite allOf_app, Ht. reflexivity.
Qed.

Lemma head_split_at (c0 : N) (a rest : jsstring) :
  ~ List.In c0 a -> head (split (a ++ c0 :: rest) [c0]) = Some a.
Proof.
  intros Ha. unfold split. rewrite split_go_at; [reflexivity | exact Ha|].
  rewrite List.length_app. simpl. lia.
Qed.

Lemma lang_attribute w :
  lang urlAttr_re w ->
  exists a, List.In a [js "href"; js "src"; js "action"]
            /\ head (split w (js "=")) = Some a.
Proof.
  unfold urlAttr_re. cbn [Seqs Alts lang].
  intros (a & w1 & -> & Ha & (e & w2 & -> & He & _)).
  change (lang (Lit "=") e) in He. apply lang_Lit in He. subst e.
  assert (Hin : List.In a [js "href"; js "src"; js "action"]).
  { destruct Ha as [Ha|[Ha|Ha]];
      [change (lang (Lit "href") a) in Ha | change (lang (Lit "src") a) in Ha
       | change (lang (Lit "action") a) in Ha];
      apply lang_Lit in Ha; subst a; simpl; auto. }
  exists a. split; [exact Hin|].
  change (js "=") with [chr "="]. change (a ++ [chr "="] ++ w2) with (a ++ chr "=" :: w2).
  apply head_split_at.
  simpl in Hin. destruct Hin as [<-|[<-|[<-|[]]]]; vm_compute; intuition discriminate.
Qed.

Lemma html_line_findings i l xs :
  (do r1 <-
     match exec urlAttr_re l with
     | Some u =>
         do g <- grp u 1;
         do ctx <- deref (head (split (m_text u) (js "=")));
         Ret [mkHardcoded g hc_url (i + 1) ctx]
     | None => Ret []
     end;
   do r2 <-
     match exec ip_re l, exec urlAttr_re l with
     | Some ip, None => do g <- grp ip 1; Ret [mkHardcoded g hc_ip (i + 1) (js "inline")]
     | _, _ => Ret []
     end;
   Ret (r1 ++ r2)) = Ret xs ->
  xs = [] \/ exists x, xs = [x] /\ hc_lineNumber x = i + 1 /\ htmlFindingShown x.
Proof.
  intros H. apply obind_ret in H as (r1 & H1 & H). apply obind_ret in H as (r2 & H2 & H).
  injection H as <-.
  destruct (exec urlAttr_re l) as [u|] eqn:Eu.
  - assert (E2 : r2 = []).
    { destruct (exec ip_re l); now injection H2 as <-. }
    subst r2. rewrite List.app_nil_r.
    apply obind_ret in H1 as (g & Hg & H1). apply obind_ret in H1 as (ctx & Hctx & H1).
    injection H1 as <-. right. eexists. split; [reflexivity|]. split; [reflexivity|].
    left. cbn [mkHardcoded hc_type hc_context hc_value]. split; [reflexivity|].
    apply grp_Ret in Hg.
    destruct (group_lang _ _ _ _ _ Eu Hg) as (a & Ha & Hl). cbn in Ha.
    destruct Ha as [Ha|[]]. injection Ha as <-. apply lang_address in Hl as [Hs Hq].
    apply exec_lang in Eu as (_ & _ & _ & Hu & _).
    apply lang_attribute in Hu as (a & Hin & Hh). rewrite Hh in Hctx.
    injection Hctx as <-. auto.
  - injection H1 as <-. simpl.
    destruct (exec ip_re l) as [ip|] eqn:Ei; [|injection H2 as <-; now left].
    apply obind_ret in H2 as (g & Hg & H2). injection H2 as <-.
    right. eexists. split; [reflexivity|]. split; [reflexivity|].
    right. cbn [mkHardcoded hc_type hc_context hc_value]. split; [reflexivity|].
    split; [reflexivity|]. apply grp_Ret in Hg.
    destruct (group_lang _ _ _ _ _ Ei Hg) as (a & Ha & Hl). cbn in Ha.
    destruct Ha as [Ha|[]]. injection Ha as <-. now apply lang_quad.
Qed.

End MarkupFindings.

(** X28: the markup scanner [detectHtmlHardcoded] reports at most one finding
    for a line, in the order of the lines. A finding is an address or a
    dotted quad: an address is the value of an href, src or action attribute,
    starts with http:// or https:// and holds no quote, and its context is
    the name of the attribute; a dotted quad holds 7 to 15 digits and dots,
    and its context is the text inline. *)
Theorem markup_findings_are_addresses (lines : list jsstring) (r : list HardcodedValue) :
  htmlParser.detectHtmlHardcoded lines = Ret r ->
  StronglySorted lt (List.map hc_lineNumber r) /\ List.Forall htmlFindingShown r.
Proof.
  intros H. split.
  - refine (proj1 (forLines_one_per_line hc_lineNumber _ _ _ _ _ H)).
    intros i l xs Hx. apply html_line_findings in Hx as [->|(x & -> & Hl & _)]; eauto.
  - apply List.Forall_forall. intros x Hx.
    destruct (forLines_In _ _ _ _ _ H Hx) as (k & l & xs & _ & Hf & Hxs).
    apply html_line_findings in Hf as [->|(y & -> & _ & Hy)]; [destruct Hxs|].
    destruct Hxs as [<-|[]]. exact Hy.
Qed.

Lemma markup_findings_are_addresses_witness :
  exists r,
    htmlParser.detectHtmlHardcoded html_sample = Ret r
    /\ List.map hc_value r = [js "https://example.org/a"; js "192.168.1.20"]
    /\ StronglySorted lt (List.map hc_lineNumber r) /\ List.Forall htmlFindingShown r.
Proof.
  destruct (htmlParser.detectHtmlHardcoded html_sample) as [r|e] eqn:E;
    [|vm_compute in E; discriminate E].
  exists r. split; [reflexivity|].
  pose proof (markup_findings_are_addresses _ _ E) as H.
  vm_compute in E. injection E as <-. split; [reflexivity|]. exact H.
Defined.

(* ====================================================================== *)
(** * Literals and comments in the search for imported names *)
(* ====================================================================== *)

Section ReplaceFrom.

Variable r : regex.
Variable v : jsstring.








End ReplaceFrom.

Section ReplaceSteps.

Variable r : regex.
Variable v : jsstring.

Lemma no_match_lang prev rest :
  (forall w after, rest = w ++ after -> ~ lang r w) -> match_at r prev rest 0 = None.
Proof.
  intros H. destruct (match_at r prev rest 0) as [mt|] eqn:E; [|reflexivity].
  apply match_at_lang in E as (_ & Hr & Hl & _). exfalso. exact (H _ _ Hr Hl).
Qed.

Lemma replace_from_nil fuel prev : nullable r = false -> replace_from r v fuel prev [] = [].
Proof.
  intros Hn. destruct fuel; [reflexivity|]. cbn [replace_from].
  rewrite no_match_lang; [reflexivity|].
  intros w after Hw Hl. symmetry in Hw. apply List.app_eq_nil in Hw as [-> _].
  apply lang_first in Hl. congruence.
Qed.




End ReplaceSteps.

Section Occurrences.








End Occurrences.

Section ReplaceKeeps.

Variable r : regex.
Variable v : jsstring.
Variable name : jsstring.



End ReplaceKeeps.

Section MatcherRuns.










End MatcherRuns.

Section StrippingPasses.

Lemma startsWith_inv (p : jsstring) : forall s,
  startsWith s p = true -> exists t, s = p ++ t.
Proof.
  induction p as [|x p IH]; intros s H; [exists s; reflexivity|].
  destruct s as [|y s]; [discriminate|]. simpl in H.
  apply andb_true_iff in H as [Hx Hs]. apply N.eqb_eq in Hx. subst y.
  destruct (IH s Hs) as (t & ->). exists t. reflexivity.
Qed.

Lemma includes_occursIn (s p : jsstring) : includes s p = true -> occursIn p s.
Proof.
  unfold includes, indexOf. generalize 0.
  induction s as [|c s IH]; intros i H.
  - cbn [indexOf_from] in H. destruct (startsWith [] p) eqn:E; [|discriminate H].
    apply startsWith_inv in E as (t & E). exists [], t. exact E.
  - cbn [indexOf_from] in H. destruct (startsWith (c :: s) p) eqn:E.
    + apply startsWith_inv in E as (t & E). exists [], t. exact E.
    + destruct (IH (S i) H) as (a & b & ->). exists (c :: a), b. reflexivity.
Qed.



(** *** Comments up to the end of the line *)





(** *** Patterns that match nowhere *)



End StrippingPasses.

Section QuotedLiterals.








End QuotedLiterals.

Section StrippedLines.




(** What [plainSegment] says of a segment, for the quotes [qs]. *)
Lemma noneOf_cons (c : N) (cs : list N) (s : jsstring) :
  noneOf (c :: cs) s = true -> noneOf cs s = true.
Proof.
  unfold noneOf. rewrite !forallb_forall. intros H x Hx. specialize (H x Hx).
  simpl in H. apply negb_true_iff in H. apply orb_false_iff in H as [_ H].
  now apply negb_true_iff.
Qed.
























End StrippedLines.

Section StrippedText.





End StrippedText.

Section LiteralClaims.



End LiteralClaims.
